(* ===== verification/_CoqProject ===== *)
-Q . S2P
Prelude.v
Errors.v
Json.v
Decode.v
Strconv.v
Rfc3339.v
Encode.v
Raw.v
Job.v
Wire.v
Requests.v
Retry.v
Database.v
Rows.v
Redis.v
Effects.v
Rely.v
Threads.v
Store.v
Migrate.v
Summary.v
Batch.v
Queue.v
Handler.v
Runner.v
Execution.v
Recovery.v
Custody.v
Pool.v
Metrics.v
Scale.v
Config.v
Worker.v
Control.v
Streams.v
Sha256.v
Api.v
Routes.v
Middleware.v
Http.v
Flags.v
Ctl.v
Callback.v
Bench.v
Analyzer.v
Boot.v
Load.v
System.v
Lossless.v
Deployment.v
Repair.v
Steer.v
Journey.v
