(* ===== verification/Prelude.v ===== *)
(** * Calligraphy: a verification library

    Calligraphy is a job queue: an HTTP API stores jobs in Postgres and hands
    them to Redis streams, workers claim and run them under leases, a recovery
    leader reaps what dead workers left, and a control plane steers the pools.
    Postgres is the truth, Redis is transport: a delivery may be lost or
    repeated, and every write of a worker is fenced by the lease epoch of its
    claim.  This library models that logic and proves what the design rests on.

    ** The files and the code

    The pure core:
    - [Prelude.v]: strings as bytes, 64-bit arithmetic, results, tactics.
    - [Errors.v] - internal/job/errors.go: error chains, markers, outcomes,
      bounded error texts.
    - [Job.v] - internal/job/job.go, statemachine.go: statuses, the transition
      table, admission ([New]), envelopes.
    - [Retry.v] - internal/retry/backoff.go: full-jitter backoff, with the
      wrap-around of the doubling and the rounding of the float product.

    The texts, as the standard library reads and writes them where the code uses
    it:
    - [Json.v]: json.Valid byte by byte; [Decode.v]: a recursive parser of
      documents that accepts the same texts; [Encode.v]: the printer, strings
      with their escapes and UTF-8; [Raw.v]: the raw texts of members.
    - [Strconv.v]: Atoi, ParseBool; [Rfc3339.v]: instants as text, both ways.
    - [Wire.v]: structs from documents; the envelope of internal/job/job.go both
      ways; [Requests.v]: the bodies that internal/api/server.go decodes.

    The stores, and programs over them:
    - [Database.v] - migrations/0001_init.sql and every SQL statement of
      internal/store as a function of the tables and now(); [Rows.v]: what each
      does to one row, fencing, the database invariant.
    - [Redis.v]: the commands the queue sends, as a class of servers with the
      documented laws, and one concrete server for the witnesses.
    - [Effects.v]: programs (a free monad over statements, transactions,
      commands, scripts, clock, randomness) and their semantics: each call runs
      at an arbitrary time and may fail before or after taking effect, and others
      move the world between two calls.  [wp] is the rely-guarantee
      precondition, [goes] the total one for an undisturbed run, [only] the
      calls a program makes.  [Rely.v]: the relations [evolves] and the proof rules.
      [Threads.v]: any number of programs, interleaved, starting and dying.
    - [Store.v], [Summary.v] - internal/store/store.go; [Batch.v] -
      internal/store/batch.go: both recorders against one contract ([Recorder],
      [RecorderLaw]), the transaction of a flush, the flush loop.
    - [Migrate.v] - internal/store/migrate.go: any number of migrators at once,
      as a step relation over one transaction each and an advisory lock.
    - [Queue.v] - internal/queue/queue.go: enqueue, fetch, ack, delayed sets,
      dead letters, reaping, leader lease, with the Lua scripts as atomic programs.

    The processes:
    - [Handler.v] - internal/handler/handler.go; [Runner.v], [Execution.v] -
      internal/worker/runner.go: one delivery from claim to ack, under
      interference and undisturbed.
    - [Pool.v] - internal/worker/pool.go; [Worker.v] - internal/worker/worker.go:
      the fetch loop, the drain, the process around them.
    - [Recovery.v], [Repair.v] - internal/recovery/recovery.go: promotion, the
      reaper, the sweeps, leadership; what a pass mends.
    - [Metrics.v] - internal/metrics/metrics.go: the series, their registration,
      the observer of the runner, the gauges, the depth collector, against an
      interface of the client library ([Prometheus]).
    - [Scale.v] - internal/scale/autoscaler.go; [Config.v] -
      internal/config/config.go.
    - [Control.v], [Streams.v] - internal/control/server.go and client.go: the hub
      with its sessions, the two ends of a stream, the reconnect loop.
    - [Api.v], [Routes.v], [Middleware.v] - internal/api/server.go:
      authentication, every handler, the route table, the wrappers that log and
      recover.
    - [Sha256.v], [Callback.v], [Bench.v], [Analyzer.v] - internal/handlers:
      SHA-256, HMAC and hex as the standard library computes them; the signed
      HTTP callback; the benchmark's jobs and the built-in registry; the text
      analysis with its TextRank over binary64 numbers.
    - [Boot.v] - cmd/calligraphy-api and cmd/calligraphy-worker: the order in
      which a server opens, serves and closes, whatever fails.
    - [Flags.v], [Http.v]: command lines and requests; [Ctl.v] -
      cmd/calligraphyctl; [Load.v] - cmd/calligraphy-bench: the clients of the
      API, up to the server's own route table.
    - [System.v]: API servers, workers, batchers and leaders in one pool of
      threads.  [Custody.v], [Lossless.v], [Deployment.v]: the invariant that no
      process loses a delivery, process by process, and the theorem about the
      system.  [Steer.v]: a pool, the autoscaler between its effects and the
      operators' commands, interleaved, from the settings of the environment.
      [Journey.v]: one job from its submission through deliveries, retries and
      promotions to the result its client reads.

    A Go function keeps its name; where two packages share one, the file
    qualifies it.  Logging and tracing are left out; what the observer is told is
    kept.

    ** What is shown

    - The whole system: a job handed to Redis and never claimed keeps a delivery
      ([Deployment.unclaimed_never_lost]); the tables stay well-formed and no
      job exceeds its attempts ([System.system_invariant]); outcomes are final
      ([System.system_outcomes_final]).
    - One delivery: nothing is acknowledged before it is recorded, whatever
      fails ([Runner.Run_records_before_ack]), an undisturbed run settles the
      job as its handler's outcome demands ([Execution.Run_concludes]), and the
      series count it once ([Metrics.delivery_counted_once]).
    - The way of a job: alone on a quiet queue, with every call going through,
      an accepted submission is settled within as many deliveries as it has
      attempts, and its client reads what the last run decided
      ([Journey.submitted_job_settles]).
    - Recovery: the sweeps mend stale leases, orphaned submissions and stuck
      retries ([Repair.sweeps_repair]).
    - The database: fencing, one outcome per claim, terminal rows, claim
      arbitration, idempotent creation ([Rows], [Store]); a batched flush is the
      sequential recording and may be repeated ([Batch]); concurrent migrations
      run each file once, in order, and none waits for a lock that is not given
      back ([Migrate.migrations_once]).
    - Transport: priorities, round trip, the leader lock ([Queue]); an envelope
      survives its JSON ([Wire.envelope_roundtrip]), and every submission that
      is accepted fits the wire ([Custody.accepted_fits_wire]); the scanner that
      admits a payload agrees with the parser ([Decode.Valid_parse]).
    - The surface: routes and authentication, submissions and cancellations,
      the summary ([Routes], [Api], [Summary]); what the wrappers make of an
      answer or a panic ([Middleware.wrapped_answers]).
    - The processes: each delivery run once, but those that came beside an error,
      drain and shutdown ([Pool], [Worker]); the scaler's band and its inertia
      ([Scale]); bounded concurrency, with the real fetch and in every
      interleaving of pool, scaler and operators' commands
      ([Steer.steered_worker_bounded], [Steer.backlog_reaches_max]); one session
      per worker, commands in order, at most one lost to a failed send
      ([Control], [Streams]); validation
      and termination of the settings ([Config]); the order of starting and
      stopping ([Boot.servers_start_and_stop]).
    - The built-in jobs: what a callback sends, to whom, signed how, and what the
      answer makes of the job ([Callback]); what an analysis says of its text
      ([Analyzer]).
    - The clients: a command of the operator is served by the endpoint its usage
      text promises ([Ctl.commands_served]); the benchmark's load arrives as the
      flags ask ([Load.load_arrives]) and its report says what was measured
      ([Load.report_honest]).

    ** Assumptions and bounds

    Times are nanoseconds since the epoch; clocks are arbitrary, also between
    hosts, except where [goes] asks for times from [t0] on and before the year
    10000, which JSON cannot carry.  A statement, a transaction, a Redis command
    and a Lua script are atomic.  A SELECT without ORDER BY answers in the order
    of the map; text and JSON columns are kept verbatim, where Postgres refuses
    a NUL and invalid UTF-8, and timestamps to the nanosecond, where it keeps
    microseconds.  The codec of envelopes is an
    interface ([EnvelopeJSON]) with a round-trip law, and, for the theorems on
    custody, the law that a decoded header is the encoded one
    ([HeadersSurvive]); [Wire.WireJSON], the JSON of the program, satisfies both,
    and a small codec serves the witnesses that evaluate a run.  Redis is any
    server with the laws of [Redis.v]; a blocking read answers for every ready
    stream.  Request bodies are decoded from their text; the messages of decoding
    errors and the lenient part of [time.Parse] are arguments ([GoText]).
    Percentiles are exact, in hundredths of a nanosecond, where Postgres rounds to
    float64.

    Fuel is used where recursion is not structural: by the parsing of durations,
    the length of the text ([Config.getenvDur_terminates]); by the parser of
    documents, two steps more than twice the text, enough for every text the
    scanner accepts ([Decode.Valid_parse]); by the benchmark's article, one round
    per byte asked for ([Load.syntheticArticle_spec]); by the decoding of escapes
    and runes, the length of the text.  The number of API servers, workers,
    leaders, migrators and threads is not bounded; a sweep takes 256 rows as the
    code does.

    ** Not modelled

    The generated protobuf code and the gRPC transport are the plain messages of
    [Control.v]; TruncateForTest and FlushForTest serve the tests.  What the SQL
    of a migration file does is the schema of [Database.v], which [Migrate.v] does
    not look at; [System.v] starts on a migrated database with its consumer
    groups, as [Boot.v] shows a server does.  Log lines, progress output, exit
    messages, Unicode tables, [math.Log], the URL parser and escaping, the texts
    of float64 numbers, base-0 integers and the order of maps are arguments of
    the definitions that use them, or left out. *)

From Stdlib Require Export ZArith Lia String Ascii.
From stdpp Require Export base tactics gmap strings list pretty.

(** ** Notation scope and strings *)

Declare Scope go_scope.
Delimit Scope go_scope with go.

(** Byte strings: a Go [string], [[]byte] or [json.RawMessage] is a
    [String.string], one [ascii] per byte, so [len(s)] is [slen s]. *)
Definition slen (s : string) : Z := Z.of_nat (String.length s).

(** ** Machine integers and time

    Go's [int], [int64] and [time.Duration] are 64-bit two's complement.  They
    are [Z]; where an operation can leave the range, the wrap-around is written
    out with [wrap64]. *)
Definition wrap64 (z : Z) : Z := ((z + 2 ^ 63) mod 2 ^ 64 - 2 ^ 63)%Z.

(** [int32(z)]. *)
Definition int32 (z : Z) : Z := ((z + 2 ^ 31) mod 2 ^ 32 - 2 ^ 31)%Z.

Lemma int32_id (z : Z) : (- 2 ^ 31 <= z < 2 ^ 31)%Z -> int32 z = z.
Proof. intros Hz. unfold int32. rewrite Z.mod_small; lia. Qed.

Definition max_int64 : Z := (2 ^ 63 - 1)%Z.

Lemma wrap64_id (z : Z) : (- 2 ^ 63 <= z < 2 ^ 63)%Z -> wrap64 z = z.
Proof. intros Hz. unfold wrap64. rewrite Z.mod_small; lia. Qed.

Lemma wrap64_range (z : Z) : (- 2 ^ 63 <= wrap64 z < 2 ^ 63)%Z.
Proof.
  unfold wrap64. pose proof (Z.mod_pos_bound (z + 2 ^ 63) (2 ^ 64)). lia.
Qed.

(** An instant, in nanoseconds since the Unix epoch (UTC). *)
Abbreviation Time := Z (only parsing).
(** A [time.Duration], in nanoseconds. *)
Abbreviation Duration := Z (only parsing).

(** [time.Time{}]: January 1, year 1, UTC; [IsZero] compares with it. *)
Definition zero_time : Time := (-62135596800 * 1000000000)%Z.
Definition IsZero (t : Time) : bool := bool_decide (t = zero_time).

Definition Nanosecond : Duration := 1%Z.
Definition Millisecond : Duration := 1000000%Z.
Definition Second : Duration := 1000000000%Z.
Definition Minute : Duration := (60 * Second)%Z.
Definition Hour : Duration := (60 * Minute)%Z.

(** [t.UnixMilli()]: floor division of the instant. *)
Definition UnixMilli (t : Time) : Z := (t / 1000000)%Z.

(** ** Go's [(value, error)] results *)

Inductive result (E A : Type) : Type :=
| Ok (a : A)
| Err (e : E).
Arguments Ok {E A} a.
Arguments Err {E A} e.

Definition is_Ok {E A} (r : result E A) : bool :=
  match r with Ok _ => true | Err _ => false end.

Definition result_map {E A B} (f : A -> B) (r : result E A) : result E B :=
  match r with Ok a => Ok (f a) | Err e => Err e end.

(** [if err != nil { return err }] chains. *)
Definition result_bind {E A B} (r : result E A) (f : A -> result E B) : result E B :=
  match r with Ok a => f a | Err e => Err e end.

Notation "'try' x ':=' r 'in' f" :=
  (result_bind r (fun x => f)) (at level 10, x pattern, r at level 100,
   f at level 200) : go_scope.
Notation "'guard' b 'else' e 'in' f" :=
  (if b then f else Err e) (at level 10, b at level 100, e at level 100,
   f at level 200) : go_scope.

Lemma result_bind_Ok {E A B} (r : result E A) (f : A -> result E B) b :
  result_bind r f = Ok b <-> exists a, r = Ok a /\ f a = Ok b.
Proof.
  destruct r; simpl; split; [eauto|by intros (? & [= ->] & ?)|done|by intros (? & ? & ?)].
Qed.

(** ** Lists, options *)

Lemma existsb_eqb_elem_of `{EqDecision A} (x : A) (l : list A) :
  existsb (fun y => bool_decide (x = y)) l = true <-> x ∈ l.
Proof.
  rewrite existsb_exists. setoid_rewrite <- list_elem_of_In.
  split; [intros (y & ? & ->%bool_decide_eq_true)|intros ?; exists x]; [done|].
  by rewrite bool_decide_eq_true.
Qed.

Lemma list_bind_ext_elem {A B} (f g : A -> list B) (l : list A) :
  (forall x, x ∈ l -> f x = g x) -> l ≫= f = l ≫= g.
Proof.
  intros Hfg. induction l as [|x l IH]; simpl; [done|].
  rewrite Hfg by constructor. f_equal. apply IH. intros. apply Hfg. by constructor.
Qed.

(** Cutting a middle part at what is left for it changes no prefix. *)
Lemma take_app_take_app {A} (n : nat) (a b c : list A) :
  (length a <= n)%nat ->
  take n ((a ++ take (n - length a) b) ++ c) = take n (a ++ b ++ c).
Proof.
  intros Hn. rewrite <-app_assoc. replace n with (length a + (n - length a))%nat at 1 3 by lia.
  rewrite !take_app_add. f_equal. set (k := (n - length a)%nat).
  rewrite !take_app, take_take, Nat.min_id, length_take. f_equal.
  destruct (decide (k <= length b)%nat).
  - rewrite Nat.min_l by lia. by replace (k - k)%nat with (k - length b)%nat by lia.
  - by rewrite Nat.min_r by lia.
Qed.

Lemma bool_decide_if_ext {A} (P Q : Prop) `{!Decision P, !Decision Q} (x y : A) :
  (P <-> Q) -> (if bool_decide P then x else y) = (if bool_decide Q then x else y).
Proof. intros HPQ. by rewrite (bool_decide_ext P Q HPQ). Qed.

(** [ORDER BY key]: comparison through an integer key. *)
Definition le_on {A} (f : A -> Z) (x y : A) : Prop := (f x <= f y)%Z.
#[export] Instance le_on_dec {A} (f : A -> Z) : RelDecision (le_on f).
Proof. intros x y. unfold le_on. apply _. Defined.

(** [l[:n]], for [0 <= n]. *)
Definition stake (n : nat) (s : string) : string := String.substring 0 n s.

Lemma length_stake n s : String.length (stake n s) = Nat.min n (String.length s).
Proof.
  unfold stake. revert n. induction s as [|c s IH]; intros [|n]; simpl; auto.
Qed.

Lemma length_sapp s t : String.length (s +:+ t) = (String.length s + String.length t)%nat.
Proof. induction s; simpl; auto. Qed.

(** The decimal rendering of a number below [10 ^ k] has at most [k] digits
    (one for [0]). *)
Lemma pretty_N_go_length (k : nat) : forall (n : N) (s : string),
  (n < 10 ^ N.of_nat k)%N ->
  (String.length (pretty_N_go n s) <= k + String.length s)%nat.
Proof.
  induction k as [|k IH]; intros n s Hn.
  - assert (n = 0%N) as -> by (simpl in Hn; lia). by rewrite pretty_N_go_0.
  - destruct (decide (n = 0%N)) as [->|Hn0]; [rewrite pretty_N_go_0; lia|].
    rewrite pretty_N_go_step by lia.
    etrans; [apply IH|simpl; lia].
    rewrite Nat2N.inj_succ, N.pow_succ_r' in Hn.
    apply N.Div0.div_lt_upper_bound; lia.
Qed.

Lemma pretty_N_length (k : nat) (n : N) :
  (n < 10 ^ N.of_nat (S k))%N -> (String.length (pretty n) <= S k)%nat.
Proof.
  intros Hn. unfold pretty, pretty_N. case_decide; [simpl; lia|].
  etrans; [by apply (pretty_N_go_length (S k))|simpl; lia].
Qed.

(** ** Automation *)

(** Case analysis on every test of the goal and the hypotheses, closing the
    contradictory cases. *)
Ltac split_tests :=
  repeat (first [ case_decide | case_match ]); simplify_eq/=.

(** Turn the boolean tests the code makes into propositions. *)
Ltac reflect_bools :=
  repeat match goal with
  | H : andb _ _ = true |- _ => apply andb_true_iff in H as [??]
  | H : orb _ _ = false |- _ => apply orb_false_iff in H as [??]
  | H : negb _ = true |- _ => apply negb_true_iff in H
  | H : negb _ = false |- _ => apply negb_false_iff in H
  | H : bool_decide _ = true |- _ => apply bool_decide_eq_true in H
  | H : bool_decide _ = false |- _ => apply bool_decide_eq_false in H
  | H : (_ <? _)%Z = true |- _ => apply Z.ltb_lt in H
  | H : (_ <? _)%Z = false |- _ => apply Z.ltb_ge in H
  | H : (_ <=? _)%Z = true |- _ => apply Z.leb_le in H
  | H : (_ <=? _)%Z = false |- _ => apply Z.leb_gt in H
  | H : (_ =? _)%Z = true |- _ => apply Z.eqb_eq in H
  | H : (_ =? _)%Z = false |- _ => apply Z.eqb_neq in H
  end.
