(* ===== verification/Errors.v ===== *)
(** * Errors: the error values and the error taxonomy

    Models [internal/job/errors.go] together with the two error types that
    [internal/worker/runner.go] adds ([panicError], [errLeaseLost]).  A Go error
    is a chain: a leaf created by [errors.New] (or a foreign error), wrapped by
    [fmt.Errorf("...%w")] or by one of the marker types.  [errors.Is] and
    [errors.As] walk the chain. *)

From S2P Require Import Prelude.
Local Open Scope string_scope.

(** ** Error chains *)

(** The error values compared by identity ([errors.Is] targets). *)
Inductive sentinel :=
| ErrCancelRequested     (* job.ErrCancelRequested *)
| ErrLeaseLost           (* worker.errLeaseLost *)
| ErrNotFound            (* store.ErrNotFound *)
| ErrDeadlineExceeded    (* context.DeadlineExceeded *)
| ErrCanceled            (* context.Canceled *)
| ErrNoRows              (* pgx.ErrNoRows *)
| ErrRedisNil.           (* redis.Nil *)

#[export] Instance sentinel_eq_dec : EqDecision sentinel.
Proof. solve_decision. Defined.

Inductive error :=
| ESentinel (s : sentinel)
| EMsg (msg : string)                       (* errors.New(msg), fmt.Errorf without %w *)
| EWrap (prefix : string) (err : error)     (* fmt.Errorf(prefix + "%w", err) *)
| ENonRetryable (err : error)               (* &nonRetryableError{err} *)
| EInterrupted (err : error)                (* &interruptedError{err} *)
| EPanic (err : error).                     (* &panicError{err} *)

#[export] Instance error_eq_dec : EqDecision error.
Proof. solve_decision. Defined.

Definition sentinel_text (s : sentinel) : string :=
  match s with
  | ErrCancelRequested => "job: cancellation requested"
  | ErrLeaseLost => "worker: lease lost to the reaper"
  | ErrNotFound => "store: job not found"
  | ErrDeadlineExceeded => "context deadline exceeded"
  | ErrCanceled => "context canceled"
  | ErrNoRows => "no rows in result set"
  | ErrRedisNil => "redis: nil"
  end.

(** [err.Error()]: the marker types render the error they wrap. *)
Fixpoint Error (e : error) : string :=
  match e with
  | ESentinel s => sentinel_text s
  | EMsg m => m
  | EWrap p e' => p +:+ Error e'
  | ENonRetryable e' | EInterrupted e' | EPanic e' => Error e'
  end.

(** [errors.Unwrap]. *)
Definition Unwrap (e : error) : option error :=
  match e with
  | ESentinel _ | EMsg _ => None
  | EWrap _ e' | ENonRetryable e' | EInterrupted e' | EPanic e' => Some e'
  end.

(** [errors.Is(err, target)] for a sentinel target; a nil [err] is [None]. *)
Fixpoint chain_is (e : error) (t : sentinel) : bool :=
  match e with
  | ESentinel s => bool_decide (s = t)
  | EMsg _ => false
  | EWrap _ e' | ENonRetryable e' | EInterrupted e' | EPanic e' => chain_is e' t
  end.
Definition errors_Is (e : option error) (t : sentinel) : bool :=
  match e with Some e => chain_is e t | None => false end.

(** [errors.As] for each of the marker types: some link of the chain has it. *)
Fixpoint chain_any (p : error -> bool) (e : error) : bool :=
  p e || match e with
         | ESentinel _ | EMsg _ => false
         | EWrap _ e' | ENonRetryable e' | EInterrupted e' | EPanic e' => chain_any p e'
         end.
Definition errors_As (p : error -> bool) (e : option error) : bool :=
  match e with Some e => chain_any p e | None => false end.

(** ** The taxonomy *)

(** Wrapping a nil error returns nil. *)
Definition NonRetryable (e : option error) : option error :=
  match e with None => None | Some e => Some (ENonRetryable e) end.
Definition IsNonRetryable (e : option error) : bool :=
  errors_As (fun x => match x with ENonRetryable _ => true | _ => false end) e.

Definition Interrupted (e : option error) : option error :=
  match e with None => None | Some e => Some (EInterrupted e) end.
Definition IsInterrupted (e : option error) : bool :=
  errors_As (fun x => match x with EInterrupted _ => true | _ => false end) e.

Definition isPanic (e : option error) : bool :=
  errors_As (fun x => match x with EPanic _ => true | _ => false end) e.

Definition ErrNoHandler : option error :=
  NonRetryable (Some (EMsg "job: no handler registered for this job type")).

(** [type Outcome string]: the strings are what the attempt rows store. *)
Abbreviation Outcome := string (only parsing).
Definition OutcomeCompleted : Outcome := "completed".
Definition OutcomeFailed : Outcome := "failed".
Definition OutcomeRetryable : Outcome := "retryable".
Definition OutcomeCancelled : Outcome := "cancelled".
Definition OutcomeInterrupted : Outcome := "interrupted".
Definition OutcomeLeaseExpired : Outcome := "lease_expired".
Definition OutcomePanicked : Outcome := "panicked".

(** Maps a handler error and the cancellation cause to an outcome; the cases
    are tried in the order of the code's [switch]. *)
Definition ClassifyError (err cause : option error) : Outcome :=
  if bool_decide (err = None) then OutcomeCompleted
  else if errors_Is cause ErrCancelRequested || errors_Is err ErrCancelRequested
  then OutcomeCancelled
  else if IsInterrupted err || IsInterrupted cause then OutcomeInterrupted
  else if IsNonRetryable err then OutcomeFailed
  else if errors_Is err ErrDeadlineExceeded then OutcomeRetryable
  else OutcomeRetryable.

(** Renders an error for storage, cut at 2048 bytes. *)
Definition attempt_error_max : nat := 2048.
Definition AttemptError (err : option error) : string :=
  match err with
  | None => EmptyString
  | Some e =>
      let s := Error e in
      if bool_decide (attempt_error_max < String.length s)%nat
      then stake attempt_error_max s +:+
           (" [truncated " +:+ pretty (N.of_nat (String.length s - attempt_error_max)) +:+ " bytes]")
      else s
  end.

(** ** Lemmas *)

(** [wraps ps e]: [e] under the [fmt.Errorf] prefixes [ps], outermost first. *)
Definition wraps (ps : list string) (e : error) : error := foldr EWrap e ps.

Lemma chain_is_wraps ps e t : chain_is (wraps ps e) t = chain_is e t.
Proof. induction ps; simpl; auto. Qed.

Lemma chain_any_wraps p ps e :
  (forall s e', p (EWrap s e') = false) -> chain_any p (wraps ps e) = chain_any p e.
Proof. intros Hp. induction ps as [|s ps IH]; simpl; [done|]. by rewrite Hp. Qed.

Lemma errors_As_wraps p ps e :
  (forall s e', p (EWrap s e') = false) ->
  errors_As p (Some (wraps ps e)) = errors_As p (Some e).
Proof. apply chain_any_wraps. Qed.

(** The stored text of an error is the error's own text, or its first 2048
    bytes followed by a note of what was cut. *)
Lemma AttemptError_cases err :
  AttemptError err = default EmptyString (Error <$> err) \/
  exists e, err = Some e /\
    AttemptError err = stake 2048 (Error e) +:+
      (" [truncated " +:+ pretty (N.of_nat (String.length (Error e) - 2048)) +:+ " bytes]").
Proof.
  destruct err as [e|]; [|by left]. unfold AttemptError, attempt_error_max.
  case_bool_decide; [right; eauto|by left].
Qed.

(** ** Theorems *)

(** Classification is stable under wrapping: adding any number of
    [fmt.Errorf("...: %w")] prefixes around a handler error, or around the
    cancellation cause, does not change the outcome, so markers survive
    arbitrary annotation. *)
Theorem ClassifyError_wraps (ps qs : list string) (e c : error) :
  ClassifyError (Some (wraps ps e)) (Some (wraps qs c)) = ClassifyError (Some e) (Some c) /\
  ClassifyError (Some (wraps ps e)) None = ClassifyError (Some e) None.
Proof.
  unfold ClassifyError, IsInterrupted, IsNonRetryable.
  rewrite !errors_As_wraps by done. simpl. by rewrite !chain_is_wraps.
Qed.

(** Whatever a handler returns, the text stored for the attempt is bounded:
    an error text of any length that a Go string can have is stored in at most
    2,087 bytes. *)
Theorem AttemptError_bounded (err : option error) :
  (forall e, err = Some e -> slen (Error e) <= max_int64)%Z ->
  (String.length (AttemptError err) <= 2087)%nat.
Proof.
  unfold slen, max_int64. intros Hlen. destruct err as [e|]; [|simpl; lia].
  specialize (Hlen e eq_refl). unfold AttemptError, attempt_error_max.
  case_bool_decide as Hcut; [|lia].
  rewrite !length_sapp, length_stake.
  assert (String.length (pretty (N.of_nat (String.length (Error e) - 2048))) <= 19)%nat.
  { apply (pretty_N_length 18). simpl. lia. }
  simpl String.length. lia.
Qed.

Lemma AttemptError_bounded_witness :
  (slen (Error (EMsg "boom")) <= max_int64)%Z /\
  (String.length (AttemptError (Some (EMsg "boom"))) <= 2087)%nat.
Proof.
  split; [vm_compute; discriminate|].
  apply (AttemptError_bounded (Some (EMsg "boom"))).
  intros e [= <-]. vm_compute. discriminate.
Defined.

Example classify_plain : ClassifyError (Some (EMsg "x")) None = "retryable".
Proof. reflexivity. Qed.
Example classify_marked :
  ClassifyError (Some (EWrap "a: " (ENonRetryable (EMsg "x")))) None = "failed".
Proof. reflexivity. Qed.
Example classify_cancel_wins :
  ClassifyError (Some (ENonRetryable (EMsg "x"))) (Some (ESentinel ErrCancelRequested))
  = "cancelled".
Proof. reflexivity. Qed.
