(* ===== verification/Json.v ===== *)
(** * Json: the standard library's JSON syntax check

    [encoding/json]'s [Valid], as the byte-at-a-time scanner the Go standard
    library runs: a control state, a stack of the enclosing objects and arrays,
    and the nesting limit of 10,000.  [internal/job/job.go] calls it at
    admission. *)

From S2P Require Import Prelude.
Local Open Scope Z_scope.

Inductive parse_state := ParseObjectKey | ParseObjectValue | ParseArrayValue.

Inductive scan_state :=
| BeginValue | BeginValueOrEmpty | BeginStringOrEmpty | BeginString
| EndValue | EndTop
| InString | InStringEsc | InStringEscU (remaining : nat)
| NumNeg | Num1 | Num0 | NumDot | NumDot0 | NumE | NumESign | NumE0
| Literal (rest : list ascii).

#[export] Instance scan_state_eq_dec : EqDecision scan_state.
Proof. solve_decision. Defined.

Definition maxNestingDepth : Z := 10000.

(** The double quote, byte 34. *)
Definition dquote : ascii := ascii_of_nat 34.

Definition code (c : ascii) : Z := Z.of_nat (nat_of_ascii c).
Definition isSpace (c : ascii) : bool :=
  existsb (Z.eqb (code c)) [32; 9; 13; 10].
Definition isDigit (c : ascii) : bool := (48 <=? code c) && (code c <=? 57).
Definition isHex (c : ascii) : bool :=
  isDigit c || ((97 <=? code c) && (code c <=? 102)) || ((65 <=? code c) && (code c <=? 70)).

Abbreviation scanner := (scan_state * list parse_state)%type (only parsing).

Definition pushParseState (s : scan_state) (p : parse_state) (st : list parse_state) : option scanner :=
  if Z.of_nat (S (length st)) <=? maxNestingDepth then Some (s, p :: st) else None.

Definition popParseState (st : list parse_state) : scanner :=
  match st with
  | [] | [_] => (EndTop, [])
  | _ :: st' => (EndValue, st')
  end.

Definition stateBeginValue (c : ascii) (st : list parse_state) : option scanner :=
  if isSpace c then Some (BeginValue, st) else
  if Ascii.eqb c dquote then Some (InString, st) else
  match c with
  | "{"%char => pushParseState BeginStringOrEmpty ParseObjectKey st
  | "["%char => pushParseState BeginValueOrEmpty ParseArrayValue st
  | "-"%char => Some (NumNeg, st)
  | "0"%char => Some (Num0, st)
  | "t"%char => Some (Literal ["r"; "u"; "e"]%char, st)
  | "f"%char => Some (Literal ["a"; "l"; "s"; "e"]%char, st)
  | "n"%char => Some (Literal ["u"; "l"; "l"]%char, st)
  | _ => if isDigit c then Some (Num1, st) else None
  end.

Definition stateEndValue (c : ascii) (st : list parse_state) : option scanner :=
  match st with
  | [] => if isSpace c then Some (EndTop, []) else None
  | p :: st' =>
      if isSpace c then Some (EndValue, st) else
      match p, c with
      | ParseObjectKey, ":"%char => Some (BeginValue, ParseObjectValue :: st')
      | ParseObjectValue, ","%char => Some (BeginString, ParseObjectKey :: st')
      | ParseObjectValue, "}"%char => Some (popParseState st)
      | ParseArrayValue, ","%char => Some (BeginValue, st)
      | ParseArrayValue, "]"%char => Some (popParseState st)
      | _, _ => None
      end
  end.

Definition stateBeginString (c : ascii) (st : list parse_state) : option scanner :=
  if isSpace c then Some (BeginString, st)
  else if Ascii.eqb c dquote then Some (InString, st) else None.

(** [state0] and its successors: the tail of a number; a byte that does not
    continue it ends the value. *)
Definition stateNum0 (c : ascii) (st : list parse_state) : option scanner :=
  match c with
  | "."%char => Some (NumDot, st)
  | "e"%char | "E"%char => Some (NumE, st)
  | _ => stateEndValue c st
  end.

Definition stateESign (c : ascii) (st : list parse_state) : option scanner :=
  if isDigit c then Some (NumE0, st) else None.

(** One byte. *)
Definition step (s : scan_state) (st : list parse_state) (c : ascii) : option scanner :=
  match s with
  | BeginValue => stateBeginValue c st
  | BeginValueOrEmpty =>
      if isSpace c then Some (BeginValueOrEmpty, st)
      else match c with "]"%char => stateEndValue c st | _ => stateBeginValue c st end
  | BeginStringOrEmpty =>
      if isSpace c then Some (BeginStringOrEmpty, st)
      else match c, st with
           | "}"%char, _ :: st' => stateEndValue c (ParseObjectValue :: st')
           | _, _ => stateBeginString c st
           end
  | BeginString => stateBeginString c st
  | EndValue => stateEndValue c st
  | EndTop => if isSpace c then Some (EndTop, st) else None
  | InString =>
      if Ascii.eqb c dquote then Some (EndValue, st) else
      match c with
      | "\"%char => Some (InStringEsc, st)
      | _ => if code c <? 32 then None else Some (InString, st)
      end
  | InStringEsc =>
      if Ascii.eqb c dquote then Some (InString, st) else
      match c with
      | "b"%char | "f"%char | "n"%char | "r"%char | "t"%char
      | "\"%char | "/"%char => Some (InString, st)
      | "u"%char => Some (InStringEscU 4, st)
      | _ => None
      end
  | InStringEscU n =>
      if isHex c
      then Some (match n with S (S n') => InStringEscU (S n') | _ => InString end, st)
      else None
  | NumNeg =>
      match c with
      | "0"%char => Some (Num0, st)
      | _ => if isDigit c then Some (Num1, st) else None
      end
  | Num1 => if isDigit c then Some (Num1, st) else stateNum0 c st
  | Num0 => stateNum0 c st
  | NumDot => if isDigit c then Some (NumDot0, st) else None
  | NumDot0 =>
      if isDigit c then Some (NumDot0, st)
      else match c with
           | "e"%char | "E"%char => Some (NumE, st)
           | _ => stateEndValue c st
           end
  | NumE =>
      match c with
      | "+"%char | "-"%char => Some (NumESign, st)
      | _ => stateESign c st
      end
  | NumESign => stateESign c st
  | NumE0 => if isDigit c then Some (NumE0, st) else stateEndValue c st
  | Literal rest =>
      match rest with
      | [x] => if Ascii.eqb x c then Some (EndValue, st) else None
      | x :: rest' => if Ascii.eqb x c then Some (Literal rest', st) else None
      | [] => None
      end
  end.

Fixpoint scan (s : scan_state) (st : list parse_state) (text : string) : option scanner :=
  match text with
  | EmptyString => Some (s, st)
  | String c text' => '(s', st') ← step s st c; scan s' st' text'
  end.

(** [json.Valid]: scan, then the end-of-input step (a virtual space). *)
Definition Valid (text : string) : bool :=
  match scan BeginValue [] text with
  | Some (EndTop, _) => true
  | Some (s, st) => match step s st " "%char with Some (EndTop, _) => true | _ => false end
  | None => false
  end.

(** Test inputs are written with single quotes. *)
Fixpoint dquoted (s : string) : string :=
  match s with
  | EmptyString => EmptyString
  | String c s' => String (if Ascii.eqb c "'"%char then dquote else c) (dquoted s')
  end.

Example valid_examples :
  forallb (fun s => Valid (dquoted s))
    ["{'a':[1,2.5e-3,{}],'b':null}"; "-0.5"; "'\u00e9\n'"; " [ ] "; "true"] = true.
Proof. reflexivity. Qed.
Example invalid_examples :
  existsb (fun s => Valid (dquoted s))
    ["[1,]"; "01"; EmptyString; "{} {}"; "{'a'}"; "'\x'"; "1."; "[1"] = false.
Proof. reflexivity. Qed.
