(* ===== verification/Decode.v ===== *)
(** * Decode: JSON documents

    What [json.Unmarshal] and [json.Decoder] read, below the types of the program:
    a recursive-descent parser of documents, with the raw text of every member,
    and the proof that the byte scanner of [Json.v] accepts exactly the texts
    it parses.  A text is parsed with a number of levels it may nest. *)

From S2P Require Import Prelude Json.
Local Open Scope Z_scope.

(** ** Documents *)

(** [VNum] keeps the literal, [VStr] what stands between the quotes; a member of
    an object is its key (raw), the raw text of its value, and the value. *)
Inductive value :=
| VNull
| VBool (b : bool)
| VNum (lit : string)
| VStr (raw : string)
| VArr (vs : list value)
| VObj (ms : list (string * (string * value))).

(** ** Lexing: each function returns the text that is left *)

Fixpoint skip (s : string) : string :=
  match s with
  | String c r => if isSpace c then skip r else s
  | EmptyString => EmptyString
  end.

Fixpoint skip_digits (s : string) : string :=
  match s with
  | String c r => if isDigit c then skip_digits r else s
  | EmptyString => EmptyString
  end.

(** At least one digit. *)
Definition digits1 (s : string) : option string :=
  match s with
  | String c r => if isDigit c then Some (skip_digits r) else None
  | EmptyString => None
  end.

Definition is_one_of (cs : list ascii) (c : ascii) : bool := existsb (Ascii.eqb c) cs.

(** The exponent, if there is one: sign and digits behind the letter. *)
Definition signed_digits (s : string) : option string :=
  match s with
  | String c r => if is_one_of ["+"; "-"]%char c then digits1 r else digits1 s
  | EmptyString => None
  end.
Definition exponent (s : string) : option string :=
  match s with
  | String c r => if is_one_of ["e"; "E"]%char c then signed_digits r else Some s
  | EmptyString => Some EmptyString
  end.

(** Fraction and exponent. *)
Definition fraction (s : string) : option string :=
  match s with
  | String c r =>
      if Ascii.eqb c "."%char then r' ← digits1 r; exponent r' else exponent s
  | EmptyString => Some EmptyString
  end.

(** A number whose first byte is [c]. *)
Definition unsigned (c : ascii) (r : string) : option string :=
  if Ascii.eqb c "0"%char then fraction r
  else if isDigit c then fraction (skip_digits r) else None.
Definition number (c : ascii) (r : string) : option string :=
  if Ascii.eqb c "-"%char then
    match r with String c' r' => unsigned c' r' | EmptyString => None end
  else unsigned c r.

(** A string after its opening quote: the raw body, and what follows the closing
    quote. *)
Definition escapes : list ascii := [dquote; "\"; "/"; "b"; "f"; "n"; "r"; "t"]%char.
Definition prepend (p : string) (x : option (string * string)) : option (string * string) :=
  '(a, r) ← x; Some (p +:+ a, r).
Fixpoint str_body (s : string) : option (string * string) :=
  match s with
  | EmptyString => None
  | String c r =>
      if Ascii.eqb c dquote then Some (EmptyString, r)
      else if Ascii.eqb c "\"%char then
        match r with
        | EmptyString => None
        | String e r1 =>
            if is_one_of escapes e then prepend (String c (String e EmptyString)) (str_body r1)
            else if Ascii.eqb e "u"%char then
              match r1 with
              | String h1 (String h2 (String h3 (String h4 r2))) =>
                  if isHex h1 && isHex h2 && isHex h3 && isHex h4
                  then prepend (String c (String e (String h1 (String h2 (String h3 (String h4 EmptyString))))))
                         (str_body r2)
                  else None
              | _ => None
              end
            else None
        end
      else if code c <? 32 then None
      else prepend (String c EmptyString) (str_body r)
  end.

Fixpoint literal (w : list ascii) (s : string) : option string :=
  match w, s with
  | [], _ => Some s
  | x :: w', String c r => if Ascii.eqb x c then literal w' r else None
  | _ :: _, EmptyString => None
  end.

(** The part of [s] before [rest]. *)
Definition taken (s rest : string) : string := stake (String.length s - String.length rest) s.

(** ** Parsing *)

(** [levels] is how deep objects and arrays may still nest; [n] is fuel. *)
Fixpoint parse_value (n : nat) (levels : Z) (s : string) {struct n} : option (value * string) :=
  match n with
  | O => None
  | S n =>
      match skip s with
      | EmptyString => None
      | String c r =>
          if Ascii.eqb c dquote then '(raw, r') ← str_body r; Some (VStr raw, r')
          else if Ascii.eqb c "{"%char then
            if levels <=? 0 then None else
            match skip r with
            | String c' r' =>
                if Ascii.eqb c' "}"%char then Some (VObj [], r')
                else '(ms, r'') ← parse_members n (levels - 1) (skip r); Some (VObj ms, r'')
            | EmptyString => None
            end
          else if Ascii.eqb c "["%char then
            if levels <=? 0 then None else
            match skip r with
            | String c' r' =>
                if Ascii.eqb c' "]"%char then Some (VArr [], r')
                else '(vs, r'') ← parse_elements n (levels - 1) (skip r); Some (VArr vs, r'')
            | EmptyString => None
            end
          else if Ascii.eqb c "t"%char then r' ← literal ["r"; "u"; "e"]%char r; Some (VBool true, r')
          else if Ascii.eqb c "f"%char then r' ← literal ["a"; "l"; "s"; "e"]%char r; Some (VBool false, r')
          else if Ascii.eqb c "n"%char then r' ← literal ["u"; "l"; "l"]%char r; Some (VNull, r')
          else r' ← number c r; Some (VNum (taken (String c r) r'), r')
      end
  end
(** Elements, at the first of them, up to the closing bracket. *)
with parse_elements (n : nat) (levels : Z) (s : string) {struct n} : option (list value * string) :=
  match n with
  | O => None
  | S n =>
      '(v, r) ← parse_value n levels s;
      match skip r with
      | String c r1 =>
          if Ascii.eqb c ","%char then '(vs, r2) ← parse_elements n levels r1; Some (v :: vs, r2)
          else if Ascii.eqb c "]"%char then Some ([v], r1) else None
      | EmptyString => None
      end
  end
(** Members, at the key of the first of them, up to the closing brace. *)
with parse_members (n : nat) (levels : Z) (s : string) {struct n}
    : option (list (string * (string * value)) * string) :=
  match n with
  | O => None
  | S n =>
      match skip s with
      | String c r =>
          if negb (Ascii.eqb c dquote) then None else
          '(key, r1) ← str_body r;
          match skip r1 with
          | String c1 r2 =>
              if negb (Ascii.eqb c1 ":"%char) then None else
              '(v, r3) ← parse_value n levels r2;
              let m := (key, (taken (skip r2) r3, v)) in
              match skip r3 with
              | String c3 r4 =>
                  if Ascii.eqb c3 ","%char then '(ms, r5) ← parse_members n levels r4; Some (m :: ms, r5)
                  else if Ascii.eqb c3 "}"%char then Some ([m], r4) else None
              | EmptyString => None
              end
          | EmptyString => None
          end
      | EmptyString => None
      end
  end.

(** Enough fuel for a text: two calls for each byte. *)
Definition enough (s : string) : nat := (2 * String.length s + 2)%nat.

(** A whole text is one document between white space. *)
Definition parse_within (levels : Z) (s : string) : option value :=
  '(v, r) ← parse_value (enough s) levels s;
  match skip r with EmptyString => Some v | _ => None end.
Definition parse (s : string) : option value := parse_within maxNestingDepth s.

Example parse_example :
  parse (dquoted " {'a': [1, -2.5e3 , true], 'b' : { } } ") =
  Some (VObj [("a", ("[1, -2.5e3 , true]", VArr [VNum "1"; VNum "-2.5e3"; VBool true]));
              ("b", ("{ }", VObj []))]).
Proof. by vm_compute. Qed.

(** ** The scanner, up to the end of the text *)

(** Whether the scanner accepts what is left. *)
Fixpoint finish (s : scan_state) (st : list parse_state) (text : string) : bool :=
  match text with
  | EmptyString =>
      match s with
      | EndTop => true
      | _ => match step s st " "%char with Some (EndTop, _) => true | _ => false end
      end
  | String c r => match step s st c with Some (s', st') => finish s' st' r | None => false end
  end.

Lemma finish_Valid s : Valid s = finish BeginValue [] s.
Proof.
  unfold Valid. enough (H : forall s sc st, finish sc st s =
    match scan sc st s with
    | Some (EndTop, _) => true
    | Some (s', st') => match step s' st' " "%char with Some (EndTop, _) => true | _ => false end
    | None => false
    end) by (by rewrite H).
  induction s0 as [|c r IH]; intros sc st; simpl; [by destruct sc|].
  destruct (step sc st c) as [[s' st']|]; simpl; [apply IH|done].
Qed.

(** One byte, as the tests the parser makes. *)
Ltac all_bytes c := destruct c as [[] [] [] [] [] [] [] []]; try reflexivity.

Lemma stateBeginValue_tests c st :
  stateBeginValue c st =
    if isSpace c then Some (BeginValue, st)
    else if Ascii.eqb c dquote then Some (InString, st)
    else if Ascii.eqb c "{"%char then pushParseState BeginStringOrEmpty ParseObjectKey st
    else if Ascii.eqb c "["%char then pushParseState BeginValueOrEmpty ParseArrayValue st
    else if Ascii.eqb c "t"%char then Some (Literal ["r"; "u"; "e"]%char, st)
    else if Ascii.eqb c "f"%char then Some (Literal ["a"; "l"; "s"; "e"]%char, st)
    else if Ascii.eqb c "n"%char then Some (Literal ["u"; "l"; "l"]%char, st)
    else if Ascii.eqb c "-"%char then Some (NumNeg, st)
    else if Ascii.eqb c "0"%char then Some (Num0, st)
    else if isDigit c then Some (Num1, st) else None.
Proof. all_bytes c. Qed.

Lemma stateEndValue_tests c p st :
  stateEndValue c (p :: st) =
    if isSpace c then Some (EndValue, p :: st) else
    match p with
    | ParseObjectKey => if Ascii.eqb c ":"%char then Some (BeginValue, ParseObjectValue :: st) else None
    | ParseObjectValue =>
        if Ascii.eqb c ","%char then Some (BeginString, ParseObjectKey :: st)
        else if Ascii.eqb c "}"%char then Some (popParseState (p :: st)) else None
    | ParseArrayValue =>
        if Ascii.eqb c ","%char then Some (BeginValue, p :: st)
        else if Ascii.eqb c "]"%char then Some (popParseState (p :: st)) else None
    end.
Proof. destruct p; all_bytes c. Qed.

Lemma stateNum0_tests c st :
  stateNum0 c st =
    if Ascii.eqb c "."%char then Some (NumDot, st)
    else if is_one_of ["e"; "E"]%char c then Some (NumE, st) else stateEndValue c st.
Proof. all_bytes c. Qed.

Lemma numDot0_tests c st :
  step NumDot0 st c =
    if isDigit c then Some (NumDot0, st)
    else if is_one_of ["e"; "E"]%char c then Some (NumE, st) else stateEndValue c st.
Proof. all_bytes c. Qed.

Lemma numE_tests c st :
  step NumE st c = if is_one_of ["+"; "-"]%char c then Some (NumESign, st) else stateESign c st.
Proof. all_bytes c. Qed.

Lemma numNeg_tests c st :
  step NumNeg st c =
    if Ascii.eqb c "0"%char then Some (Num0, st) else if isDigit c then Some (Num1, st) else None.
Proof. all_bytes c. Qed.

Lemma inString_tests c st :
  step InString st c =
    if Ascii.eqb c dquote then Some (EndValue, st)
    else if Ascii.eqb c "\"%char then Some (InStringEsc, st)
    else if code c <? 32 then None else Some (InString, st).
Proof. all_bytes c. Qed.

Lemma inStringEsc_tests c st :
  step InStringEsc st c =
    if is_one_of escapes c then Some (InString, st)
    else if Ascii.eqb c "u"%char then Some (InStringEscU 4, st) else None.
Proof. all_bytes c. Qed.

(** After a value only the stack matters. *)
Lemma finish_skip st s : finish EndValue st s = finish EndValue st (skip s).
Proof.
  revert st. induction s as [|c r IH]; intros st; [done|]. cbn [skip]. destruct (isSpace c) eqn:Hc; [|done].
  rewrite <-IH. cbn. destruct st as [|p st].
  - unfold stateEndValue. rewrite Hc. clear. induction r as [|c r IH]; [done|].
    cbn. unfold stateEndValue. by destruct (isSpace c).
  - by rewrite stateEndValue_tests, Hc.
Qed.

Lemma finish_top r : finish EndTop [] r = finish EndValue [] r.
Proof. by destruct r. Qed.

Lemma finish_end r : finish EndValue [] r = match skip r with EmptyString => true | _ => false end.
Proof.
  rewrite finish_skip. assert (Hs : forall c r', skip r = String c r' -> isSpace c = false).
  { induction r as [|c r IH]; simpl; [done|]. intros c' r'. destruct (isSpace c) eqn:E; [apply IH|].
    by intros [= -> _]. }
  destruct (skip r) as [|c r'] eqn:E; [done|]. cbn [finish step]. unfold stateEndValue.
  by rewrite (Hs c r').
Qed.

Lemma finish_pop p st r : (let '(s', st') := popParseState (p :: st) in finish s' st' r) = finish EndValue st r.
Proof. destruct st; [apply finish_top|done]. Qed.

Lemma finish_begin_skip st s : finish BeginValue st s = finish BeginValue st (skip s).
Proof.
  induction s as [|c r IH]; [done|]. cbn [skip]. destruct (isSpace c) eqn:Hc; [|done].
  rewrite <-IH. cbn. by rewrite stateBeginValue_tests, Hc.
Qed.

Lemma skip_head s c r : skip s = String c r -> isSpace c = false.
Proof.
  induction s as [|c' s IH]; simpl; [done|]. destruct (isSpace c') eqn:E; [done|]. by intros [= -> _].
Qed.

Lemma skip_length s : (String.length (skip s) <= String.length s)%nat.
Proof. induction s as [|c s IH]; simpl; [lia|]. destruct (isSpace c); simpl; lia. Qed.

Lemma skip_digits_length s : (String.length (skip_digits s) <= String.length s)%nat.
Proof. induction s as [|c s IH]; simpl; [lia|]. destruct (isDigit c); simpl; lia. Qed.

(** ** The scanner and the lexers *)

Abbreviation agrees b st o := (b = match o with Some r => finish EndValue st r | None => false end).

Lemma literal_scan w st : forall s, w <> [] ->
  agrees (finish (Literal w) st s) st (literal w s).
Proof.
  induction w as [|x w IH]; intros s Hw; [done|]. destruct s as [|c r].
  - cbn. destruct w; by destruct (Ascii.eqb x " ").
  - cbn [finish step literal]. destruct w as [|y w].
    + by destruct (Ascii.eqb x c).
    + destruct (Ascii.eqb x c); [|done]. by apply IH.
Qed.

Lemma finish_same s1 s2 st s :
  (forall c, step s1 st c = step s2 st c) -> s1 <> EndTop -> s2 <> EndTop -> finish s1 st s = finish s2 st s.
Proof. intros H H1 H2. destruct s as [|c r]; cbn [finish]; rewrite H; [by destruct s1, s2|done]. Qed.

(** States that go on while they read digits. *)
Lemma digits_scan s1 s2 st s :
  (forall c, step s1 st c = if isDigit c then Some (s1, st) else step s2 st c) ->
  s1 <> EndTop -> s2 <> EndTop ->
  finish s1 st s = finish s1 st (skip_digits s) /\
  (forall c r, skip_digits s = String c r -> isDigit c = false).
Proof.
  intros H H1 H2. induction s as [|c r IH]; [done|]. cbn [skip_digits].
  destruct (isDigit c) eqn:E; [|split; [done|by intros c' r' [= <- _]]].
  split; [|apply IH]. destruct IH as [<- _]. cbn [finish]. by rewrite H, E.
Qed.

Lemma exp_digits_scan st r : agrees (finish NumE0 st r) st (Some (skip_digits r)).
Proof.
  destruct (digits_scan NumE0 NumE0 st r) as [-> Hr]; [intros c; simpl; by destruct (isDigit c)|done..|].
  destruct (skip_digits r) as [|c r'] eqn:E; [done|]. cbn [finish step]. by rewrite (Hr c r').
Qed.

Lemma stateESign_scan st s : agrees (finish NumESign st s) st (digits1 s).
Proof.
  destruct s as [|c r]; [done|]. cbn [finish step]. unfold stateESign, digits1.
  destruct (isDigit c); [apply exp_digits_scan|done].
Qed.

Lemma signed_digits_scan st s : agrees (finish NumE st s) st (signed_digits s).
Proof.
  destruct s as [|c r]; [done|]. cbn [finish signed_digits]. rewrite numE_tests.
  destruct (is_one_of ["+"; "-"]%char c); [apply stateESign_scan|]. apply (stateESign_scan st (String c r)).
Qed.

Lemma exponent_scan st s0 s :
  (forall c, step s0 st c = if isDigit c then Some (s0, st)
     else if is_one_of ["e"; "E"]%char c then Some (NumE, st) else stateEndValue c st) ->
  s0 <> EndTop ->
  agrees (finish s0 st s) st (exponent (skip_digits s)).
Proof.
  intros H H0. destruct (digits_scan s0 s0 st s) as [-> Hd]; [intros c; rewrite H; by destruct (isDigit c)|done..|].
  destruct (skip_digits s) as [|c r] eqn:E.
  - cbn [exponent]. destruct s0; try done; cbn [finish]; by rewrite H.
  - cbn [finish exponent]. rewrite H, (Hd c r) by done.
    destruct (is_one_of ["e"; "E"]%char c); [apply signed_digits_scan|done].
Qed.

Lemma fraction_scan st s : agrees (finish Num0 st s) st (fraction s).
Proof.
  destruct s as [|c r]; [done|]. cbn [finish fraction step]. rewrite stateNum0_tests.
  destruct (Ascii.eqb c ".").
  - destruct r as [|c' r']; [done|]. cbn [finish digits1]. change (step NumDot st c') with
      (if isDigit c' then Some (NumDot0, st) else None).
    destruct (isDigit c'); [|done]. apply exponent_scan; [|done]. intros. apply numDot0_tests.
  - unfold exponent. destruct (is_one_of ["e"; "E"]%char c); [apply signed_digits_scan|done].
Qed.

Lemma integer_scan st s : agrees (finish Num1 st s) st (fraction (skip_digits s)).
Proof.
  destruct (digits_scan Num1 Num0 st s) as [-> Hd]; [done..|]. rewrite <-fraction_scan.
  destruct (skip_digits s) as [|c r] eqn:E; [done|]. cbn [finish step]. by rewrite (Hd c r).
Qed.

(** A number, from its first byte on. *)
Lemma number_scan st c r :
  agrees (if Ascii.eqb c "-" then finish NumNeg st r else if Ascii.eqb c "0" then finish Num0 st r
          else if isDigit c then finish Num1 st r else false) st (number c r).
Proof.
  unfold number, unsigned. destruct (Ascii.eqb c "-").
  - destruct r as [|c' r']; [done|]. cbn [finish]. rewrite numNeg_tests.
    destruct (Ascii.eqb c' "0"); [apply fraction_scan|]. destruct (isDigit c'); [apply integer_scan|done].
  - destruct (Ascii.eqb c "0"); [apply fraction_scan|]. destruct (isDigit c); [apply integer_scan|done].
Qed.

(** The rest of a string. *)
Definition strings_agree st s : Prop :=
  finish InString st s = match str_body s with Some (_, r) => finish EndValue st r | None => false end.

Lemma prepend_rest p x (f : string -> bool) :
  match prepend p x with Some (_, r) => f r | None => false end = match x with Some (_, r) => f r | None => false end.
Proof. by destruct x as [[]|]. Qed.

Lemma hex4_scan st s :
  finish (InStringEscU 4) st s =
    match s with
    | String h1 (String h2 (String h3 (String h4 r))) =>
        if isHex h1 && isHex h2 && isHex h3 && isHex h4 then finish InString st r else false
    | _ => false
    end.
Proof.
  destruct s as [|h1 [|h2 [|h3 [|h4 r]]]]; cbn [finish step]; [done|..]; destruct (isHex h1); try done;
    cbn [finish step andb]; try (destruct (isHex h2); try done); cbn [finish step andb];
    try (destruct (isHex h3); try done); cbn [finish step andb]; by destruct (isHex h4).
Qed.

Lemma str_body_scan st (n : nat) : forall s, (String.length s <= n)%nat -> strings_agree st s.
Proof.
  induction n as [|n IH]; intros [|c r] Hn; try done; simpl in Hn; [lia|]. unfold strings_agree in *.
  cbn [finish str_body]. rewrite inString_tests.
  destruct (Ascii.eqb c dquote); [done|]. destruct (Ascii.eqb c "\").
  - destruct r as [|e r1]; [done|]. cbn [finish]. rewrite inStringEsc_tests. simpl in Hn.
    destruct (is_one_of escapes e); [rewrite prepend_rest; apply IH; lia|].
    destruct (Ascii.eqb e "u"); [|done]. rewrite hex4_scan.
    destruct r1 as [|h1 [|h2 [|h3 [|h4 r2]]]]; try done. simpl in Hn.
    destruct (isHex h1 && isHex h2 && isHex h3 && isHex h4); [rewrite prepend_rest; apply IH; lia|done].
  - destruct (code c <? 32); [done|]. rewrite prepend_rest. apply IH. lia.
Qed.

(** *** What is left is shorter *)

Lemma literal_length w : forall s r, literal w s = Some r -> (String.length r <= String.length s)%nat.
Proof.
  induction w as [|x w IH]; intros s r; cbn; [by intros [= <-]|]. destruct s as [|c s]; [done|].
  destruct (Ascii.eqb x c); [|done]. intros H%IH. simpl. lia.
Qed.

Lemma digits1_length s r : digits1 s = Some r -> (String.length r < String.length s)%nat.
Proof.
  destruct s as [|c s]; [done|]. cbn. destruct (isDigit c); [|done]. intros [= <-].
  pose proof (skip_digits_length s). lia.
Qed.

Lemma exponent_length s r : exponent s = Some r -> (String.length r <= String.length s)%nat.
Proof.
  unfold exponent, signed_digits. destruct s as [|c s]; [by intros [= <-]|].
  destruct (is_one_of _ c); [|by intros [= <-]]. destruct s as [|c' s]; [done|].
  destruct (is_one_of _ c'); intros H%digits1_length; simpl in *; lia.
Qed.

Lemma fraction_length s r : fraction s = Some r -> (String.length r <= String.length s)%nat.
Proof.
  unfold fraction. destruct s as [|c s]; [by intros [= <-]|]. destruct (Ascii.eqb c "."); [|apply exponent_length].
  destruct (digits1 s) as [r'|] eqn:E; [|done]. simpl. apply digits1_length in E. intros H%exponent_length. lia.
Qed.

Lemma number_length c s r : number c s = Some r -> (String.length r <= String.length s)%nat.
Proof.
  assert (Hu : forall c s r, unsigned c s = Some r -> (String.length r <= String.length s)%nat).
  { clear. intros c s r. unfold unsigned. destruct (Ascii.eqb c "0"); [apply fraction_length|].
    destruct (isDigit c); [|done]. intros H%fraction_length. pose proof (skip_digits_length s). lia. }
  unfold number. destruct (Ascii.eqb c "-"); [|apply Hu]. destruct s as [|c' s]; [done|].
  intros H%Hu. simpl. lia.
Qed.

Lemma prepend_Some p x a r : prepend p x = Some (a, r) -> exists a', x = Some (a', r) /\ a = p +:+ a'.
Proof. destruct x as [[a' r']|]; [|done]. cbn. intros [= <- <-]. eauto. Qed.

Lemma str_body_length (n : nat) : forall s a r, (String.length s <= n)%nat ->
  str_body s = Some (a, r) -> (String.length r < String.length s)%nat.
Proof.
  induction n as [|n IH]; intros [|c s] a r Hn; try done; simpl in Hn; [lia|]. cbn [str_body].
  destruct (Ascii.eqb c dquote); [intros [= <- <-]; simpl; lia|]. destruct (Ascii.eqb c "\").
  - destruct s as [|e s]; [done|]. simpl in Hn.
    destruct (is_one_of escapes e); [intros (? & H & _)%prepend_Some; apply IH in H; simpl; lia|].
    destruct (Ascii.eqb e "u"); [|done]. destruct s as [|h1 [|h2 [|h3 [|h4 s]]]]; try done. simpl in Hn.
    destruct (isHex h1 && isHex h2 && isHex h3 && isHex h4); [|done].
    intros (? & H & _)%prepend_Some; apply IH in H; simpl; lia.
  - destruct (code c <? 32); [done|]. intros (? & H & _)%prepend_Some; apply IH in H; simpl; lia.
Qed.

(** ** The scanner and the parser *)

Abbreviation levels_of st := (maxNestingDepth - Z.of_nat (length (st : list parse_state))).
(** The parse of [s] decides what the scanner makes of it. *)
Definition decides {A} (o : option (A * string)) (st : list parse_state) (s : string) (b : bool) : Prop :=
  match o with
  | Some (_, r) => b = finish EndValue st r /\ (String.length r < String.length s)%nat
  | None => b = false
  end.

Lemma pushParseState_levels s p st :
  pushParseState s p st = if levels_of st <=? 0 then None else Some (s, p :: st).
Proof.
  unfold pushParseState. simpl. destruct (_ <=? maxNestingDepth) eqn:E, (levels_of st <=? 0) eqn:E'; reflect_bools; lia || done.
Qed.

Definition value_decided (n : nat) : Prop := forall st s,
  (2 * String.length s < n)%nat ->
  decides (parse_value n (levels_of st) s) st s (finish BeginValue st s).
Definition elements_decided (n : nat) : Prop := forall st s,
  (2 * String.length s + 1 < n)%nat ->
  decides (parse_elements n (levels_of (ParseArrayValue :: st)) s) st s
    (finish BeginValue (ParseArrayValue :: st) s).
Definition members_decided (n : nat) : Prop := forall st s,
  (2 * String.length s < n)%nat ->
  decides (parse_members n (levels_of (ParseObjectKey :: st)) s) st s
    (finish BeginString (ParseObjectKey :: st) s).

Lemma levels_push p st : levels_of (p :: st) = levels_of st - 1.
Proof. simpl. lia. Qed.

Lemma finish_beginString_skip st s : finish BeginString st s = finish BeginString st (skip s).
Proof.
  induction s as [|c r IH]; [done|]. cbn [skip]. destruct (isSpace c) eqn:Hc; [|done].
  rewrite <-IH. cbn [finish step]. unfold stateBeginString. by rewrite Hc.
Qed.

(** The two states behind an opening bracket. *)
Lemma finish_empty_array st s :
  finish BeginValueOrEmpty (ParseArrayValue :: st) s =
    match skip s with
    | String c r => if Ascii.eqb c "]" then finish EndValue st r else finish BeginValue (ParseArrayValue :: st) (skip s)
    | EmptyString => false
    end.
Proof.
  induction s as [|c r IH]; [done|]. cbn [finish skip step]. destruct (isSpace c) eqn:Hc; [apply IH|].
  destruct (Ascii.eqb_spec c "]") as [->|Hne].
  - cbn [finish]. rewrite stateEndValue_tests. cbn -[popParseState]. apply finish_pop.
  - cbn [finish step]. replace (match c with "]"%char => stateEndValue c (ParseArrayValue :: st) | _ => _ end)
      with (stateBeginValue c (ParseArrayValue :: st)); [done|].
    by destruct c as [[] [] [] [] [] [] [] []].
Qed.

Lemma finish_empty_object st s :
  finish BeginStringOrEmpty (ParseObjectKey :: st) s =
    match skip s with
    | String c r => if Ascii.eqb c "}" then finish EndValue st r else finish BeginString (ParseObjectKey :: st) (skip s)
    | EmptyString => false
    end.
Proof.
  induction s as [|c r IH]; [done|]. cbn [finish skip step]. destruct (isSpace c) eqn:Hc; [apply IH|].
  destruct (Ascii.eqb_spec c "}") as [->|Hne].
  - cbn [finish]. rewrite stateEndValue_tests. cbn -[popParseState]. apply finish_pop.
  - cbn [finish step]. replace (match c with "}"%char => stateEndValue c (ParseObjectValue :: st) | _ => _ end)
      with (stateBeginString c (ParseObjectKey :: st)); [done|].
    by destruct c as [[] [] [] [] [] [] [] []].
Qed.

Lemma shorter {A} (o : option (A * string)) st s s' b :
  (String.length s <= String.length s')%nat -> decides o st s b -> decides o st s' b.
Proof. destruct o as [[a r]|]; simpl; [|done]. intros ? []. split; [done|lia]. Qed.

(** A container: what its contents decide. *)
Lemma decides_map {A B} (o : option (A * string)) (f : A -> B) st s b :
  decides o st s b -> decides ('(a, r) ← o; Some (f a, r)) st s b.
Proof. by destruct o as [[a r]|]. Qed.

Lemma value_step n :
  elements_decided n -> members_decided n -> value_decided (S n).
Proof.
  intros Hel Hme st s Hn. rewrite finish_begin_skip. apply (shorter _ _ (skip s)); [apply skip_length|].
  pose proof (skip_length s) as Hs. cbn [parse_value].
  destruct (skip s) as [|c r] eqn:Esk; [done|]. cbn [finish step].
  rewrite stateBeginValue_tests, (skip_head _ _ _ Esk). simpl in Hs. pose proof (skip_length r) as Hr.
  destruct (Ascii.eqb c dquote).
  { apply decides_map, (shorter _ _ r); [simpl; lia|]. pose proof (str_body_scan st _ r (le_n _)) as H.
    unfold strings_agree in H. rewrite H.
    destruct (str_body r) as [[a r']|] eqn:E; [|done]. split; [done|]. eapply str_body_length; [|exact E]. done. }
  destruct (Ascii.eqb c "{").
  { rewrite pushParseState_levels. destruct (levels_of st <=? 0) eqn:El; [done|]. cbn -[finish].
    rewrite finish_empty_object. destruct (skip r) as [|c' r'] eqn:Er; [exact eq_refl|]. simpl in Hr.
    destruct (Ascii.eqb c' "}"); [split; [done|simpl; lia]|].
    rewrite <-levels_push with (p := ParseObjectKey). apply decides_map, (shorter _ _ (String c' r')); [simpl; lia|].
    apply Hme. simpl. lia. }
  destruct (Ascii.eqb c "[").
  { rewrite pushParseState_levels. destruct (levels_of st <=? 0) eqn:El; [done|]. cbn -[finish].
    rewrite finish_empty_array. destruct (skip r) as [|c' r'] eqn:Er; [exact eq_refl|]. simpl in Hr.
    destruct (Ascii.eqb c' "]"); [split; [done|simpl; lia]|].
    rewrite <-levels_push with (p := ParseArrayValue). apply decides_map, (shorter _ _ (String c' r')); [simpl; lia|].
    apply Hel. simpl. lia. }
  assert (Hlit : forall w v, w <> [] ->
    decides (A:=value) (r' ← literal w r; Some (v, r')) st (String c r) (finish (Literal w) st r)).
  { intros w v Hw. rewrite literal_scan by done. destruct (literal w r) as [r'|] eqn:E; [|done].
    split; [done|]. apply literal_length in E. simpl. lia. }
  destruct (Ascii.eqb c "t"); [by apply Hlit|]. destruct (Ascii.eqb c "f"); [by apply Hlit|].
  destruct (Ascii.eqb c "n"); [by apply Hlit|].
  pose proof (number_scan st c r) as H.
  assert (Hb : forall b, agrees b st (number c r) ->
    decides (A:=value) (r' ← number c r; Some (VNum (taken (String c r) r'), r')) st (String c r) b).
  { intros b ->. destruct (number c r) as [r'|] eqn:E; [|done]. split; [done|].
    apply number_length in E. simpl. lia. }
  destruct (Ascii.eqb c "-"); [by apply Hb|]. destruct (Ascii.eqb c "0"); [by apply Hb|].
  destruct (isDigit c); by apply Hb.
Qed.

Lemma elements_step n :
  value_decided n -> elements_decided n -> elements_decided (S n).
Proof.
  intros Hva Hel st s Hn. cbn [parse_elements]. specialize (Hva (ParseArrayValue :: st) s ltac:(lia)).
  destruct (parse_value n _ s) as [[v r]|]; [|done]. destruct Hva as [-> Hlt]. cbn -[finish parse_elements].
  rewrite finish_skip. pose proof (skip_length r) as Hr.
  destruct (skip r) as [|c r1] eqn:Er; [done|]. simpl in Hr. cbn [finish step].
  rewrite stateEndValue_tests, (skip_head _ _ _ Er). destruct (Ascii.eqb c ",").
  - apply decides_map, (shorter _ _ r1); [lia|]. apply Hel. lia.
  - destruct (Ascii.eqb c "]"); [|done]. split; [apply finish_pop|lia].
Qed.

Lemma members_step n :
  value_decided n -> members_decided n -> members_decided (S n).
Proof.
  intros Hva Hme st s Hn. cbn [parse_members]. rewrite finish_beginString_skip.
  apply (shorter _ _ (skip s)); [apply skip_length|]. pose proof (skip_length s) as Hs.
  destruct (skip s) as [|c r] eqn:Es; [done|]. simpl in Hs. cbn [finish step]. unfold stateBeginString.
  rewrite (skip_head _ _ _ Es). destruct (Ascii.eqb c dquote); [|done]. cbn [negb].
  pose proof (str_body_scan (ParseObjectKey :: st) _ r (le_n _)) as H. unfold strings_agree in H. rewrite H.
  destruct (str_body r) as [[key r1]|] eqn:Ek; [|done]. apply (str_body_length _ _ _ _ (le_n _)) in Ek.
  cbn -[finish parse_members parse_value]. rewrite finish_skip. pose proof (skip_length r1) as Hr1.
  destruct (skip r1) as [|c1 r2] eqn:E1; [done|]. simpl in Hr1. cbn [finish step].
  rewrite stateEndValue_tests, (skip_head _ _ _ E1). destruct (Ascii.eqb c1 ":"); [|done]. cbn [negb].
  specialize (Hva (ParseObjectValue :: st) r2 ltac:(lia)).
  change (levels_of (ParseObjectKey :: st)) with (levels_of (ParseObjectValue :: st)).
  destruct (parse_value n _ r2) as [[v r3]|]; [|done]. destruct Hva as [-> Hlt].
  cbn -[finish parse_members]. rewrite finish_skip. pose proof (skip_length r3) as Hr3.
  destruct (skip r3) as [|c3 r4] eqn:E3; [done|]. simpl in Hr3. cbn [finish step].
  rewrite stateEndValue_tests, (skip_head _ _ _ E3). destruct (Ascii.eqb c3 ",").
  - apply decides_map, (shorter _ _ r4); [simpl; lia|]. apply (Hme st r4). lia.
  - destruct (Ascii.eqb c3 "}"); [|done]. split; [apply finish_pop|simpl; lia].
Qed.

Lemma all_decided n : value_decided n /\ elements_decided n /\ members_decided n.
Proof.
  induction n as [|n (Hv & He & Hm)].
  - split_and!; intros st s Hn; lia.
  - split_and!; [by apply value_step|by apply elements_step|by apply members_step].
Qed.

Lemma Valid_parses (s : string) : Valid s = true <-> exists v, parse s = Some v.
Proof.
  rewrite finish_Valid. unfold parse, parse_within.
  pose proof (proj1 (all_decided (enough s)) [] s ltac:(unfold enough; lia)) as H.
  change (levels_of []) with maxNestingDepth in H.
  destruct (parse_value (enough s) maxNestingDepth s) as [[v r]|]; cbn -[finish] in *.
  - destruct H as [-> _]. rewrite finish_end. destruct (skip r); naive_solver.
  - rewrite H. naive_solver.
Qed.

(** The byte scanner and the parser agree: [json.Valid], which admission and
    every decoder run over a text first, accepts exactly the texts that are one
    JSON document, nested at most ten thousand deep; so a decoder that has
    passed it never meets a syntax error, and the fuel of the parser is enough. *)
Theorem Valid_parse (s : string) : Valid s = true <-> exists v, parse s = Some v.
Proof. apply Valid_parses. Qed.
