(* ===== verification/Strconv.v ===== *)
(** * Strconv: numbers and booleans as text

    The parsers of [strconv] that the settings and the JSON decoder use, and
    that they read back what was printed. *)

From S2P Require Import Prelude.
Local Open Scope string_scope.
Local Open Scope list_scope.
Local Open Scope Z_scope.

(** ** Characters *)

Definition digit_of (c : ascii) : option Z :=
  let n := Z.of_nat (nat_of_ascii c) in
  if (48 <=? n) && (n <=? 57) then Some (n - 48) else None.

(** ** [strconv] *)

(** The digits of a decimal number, most significant first. *)
Fixpoint digits (s : string) (acc : Z) : option Z :=
  match s with
  | EmptyString => Some acc
  | String c s' => d ← digit_of c; digits s' (acc * 10 + d)
  end.

(** The optional sign both parsers start with. *)
Definition sign (s : string) : bool * string :=
  match s with
  | String c r =>
      if bool_decide (c = "-"%char) then (true, r)
      else if bool_decide (c = "+"%char) then (false, r) else (false, s)
  | EmptyString => (false, s)
  end.

(** [strconv.Atoi]: an optional sign, at least one digit, and the value must fit
    64 bits. *)
Definition Atoi (s : string) : option Z :=
  let '(neg, body) := sign s in
  if bool_decide (body = EmptyString) then None else
  n ← digits body 0;
  if neg : bool then (if n <=? 2 ^ 63 then Some (- n) else None)
  else (if n <=? max_int64 then Some n else None).

Definition ParseBool (s : string) : option bool :=
  if bool_decide (s ∈ ["1"; "t"; "T"; "TRUE"; "true"; "True"]) then Some true
  else if bool_decide (s ∈ ["0"; "f"; "F"; "FALSE"; "false"; "False"]) then Some false
  else None.

(** ** Parsing what was printed *)

Lemma digit_of_pretty n : (n < 10)%N -> digit_of (pretty_N_char n) = Some (Z.of_N n).
Proof.
  intros Hn. rewrite <- (N2Nat.id n) in *. generalize (N.to_nat n) Hn. clear n Hn.
  intros k Hk. do 10 (destruct k as [|k]; [reflexivity|]). lia.
Qed.

Lemma digits_pretty_go n : forall s, digits (pretty_N_go n s) 0 = digits s (Z.of_N n).
Proof.
  induction (N.lt_wf_0 n) as [n _ IH]; intros s.
  destruct (decide (n = 0%N)) as [->|Hn]; [by rewrite pretty_N_go_0|].
  rewrite pretty_N_go_step, IH by (try apply N.div_lt; lia). simpl.
  rewrite digit_of_pretty by (apply N.mod_lt; lia). simpl. f_equal.
  pose proof (N.div_mod n 10 ltac:(lia)). lia.
Qed.

Lemma digits_pretty (n : N) : digits (pretty n) 0 = Some (Z.of_N n).
Proof.
  unfold pretty, pretty_N. case_decide as H; [by subst|]. apply digits_pretty_go.
Qed.

Lemma sign_number s n : s <> EmptyString -> digits s 0 = Some n -> sign s = (false, s).
Proof.
  destruct s as [|c s]; [done|]. intros _ Hd.
  unfold sign. case_bool_decide; [by subst|]. by case_bool_decide; [subst|].
Qed.

Lemma Atoi_unsigned s n :
  s <> EmptyString -> digits s 0 = Some n -> n <= max_int64 -> Atoi s = Some n.
Proof.
  intros Hne Hd Hn. unfold Atoi. rewrite (sign_number _ _ Hne Hd).
  case_bool_decide; [done|]. rewrite Hd. simpl.
  by destruct (Z.leb_spec n max_int64); [|lia].
Qed.

Lemma pretty_N_nonempty (n : N) : pretty n <> EmptyString.
Proof. intros H. pose proof (digits_pretty n) as Hd. rewrite H in Hd. simpl in Hd. simplify_eq.
  assert (n = 0%N) as -> by lia. discriminate H. Qed.

Lemma Atoi_pretty_overflow (z : Z) : z < - 2 ^ 63 \/ max_int64 < z -> Atoi (pretty z) = None.
Proof.
  unfold max_int64. intros Hz. destruct z as [|p|p]; [lia|..]; unfold Atoi.
  - change (pretty (Z.pos p)) with (pretty (N.pos p)).
    erewrite sign_number; [|apply pretty_N_nonempty|apply digits_pretty].
    case_bool_decide; [done|]. rewrite digits_pretty. simpl.
    destruct (Z.leb_spec (Z.pos p) max_int64); unfold max_int64 in *; [lia|done].
  - change (pretty (Z.neg p)) with (String "-" (pretty (N.pos p))).
    change (sign (String "-" (pretty (N.pos p)))) with (true, pretty (N.pos p)). cbv iota beta. case_bool_decide; [done|].
    rewrite digits_pretty. simpl. by destruct (Z.leb_spec (Z.pos p) (2 ^ 63)); [lia|].
Qed.

Lemma Atoi_pretty (z : Z) : - 2 ^ 63 <= z <= max_int64 -> Atoi (pretty z) = Some z.
Proof.
  intros Hz. destruct z as [|p|p].
  - done.
  - change (pretty (Z.pos p)) with (pretty (N.pos p)).
    apply Atoi_unsigned; [apply pretty_N_nonempty|apply digits_pretty|lia].
  - change (pretty (Z.neg p)) with (String "-" (pretty (N.pos p))).
    unfold Atoi. change (sign (String "-" (pretty (N.pos p)))) with (true, pretty (N.pos p)). cbv iota beta. case_bool_decide as Hb; [by apply pretty_N_nonempty in Hb|].
    rewrite digits_pretty. simpl. by destruct (Z.leb_spec (Z.pos p) (2 ^ 63)); [|lia].
Qed.
