(* ===== verification/Rfc3339.v ===== *)
(** * Rfc3339: instants as text

    [time.Time]'s formats and parser for RFC 3339: [Format(time.RFC3339)], the
    text of [MarshalJSON], and the strict parser behind [UnmarshalJSON].  All
    instants are UTC, as the program keeps them; a text with an offset is read as
    the instant it names.  Printing and parsing are inverse for the years 0 to
    9999. *)

From S2P Require Import Prelude Json Strconv.
Local Open Scope string_scope.
Local Open Scope Z_scope.

(** ** The calendar *)

(** The civil date of a day number (days since 1970-01-01). *)
Definition civil_from_days (days : Z) : Z * Z * Z :=
  let z := days + 719468 in
  let era := z / 146097 in
  let doe := z mod 146097 in
  let yoe := (doe - doe / 1460 + doe / 36524 - doe / 146096) / 365 in
  let doy := doe - (365 * yoe + yoe / 4 - yoe / 100) in
  let mp := (5 * doy + 2) / 153 in
  let d := doy - (153 * mp + 2) / 5 + 1 in
  let m := if mp <? 10 then mp + 3 else mp - 9 in
  (yoe + era * 400 + (if m <=? 2 then 1 else 0), m, d).

Definition days_from_civil (y m d : Z) : Z :=
  let y := if m <=? 2 then y - 1 else y in
  let era := y / 400 in
  let yoe := y mod 400 in
  let mp := if m <=? 2 then m + 9 else m - 3 in
  let doy := (153 * mp + 2) / 5 + d - 1 in
  era * 146097 + (yoe * 365 + yoe / 4 - yoe / 100 + doy) - 719468.

Definition isLeap (y : Z) : bool := (y mod 4 =? 0) && (negb (y mod 100 =? 0) || (y mod 400 =? 0)).
Definition daysIn (m y : Z) : Z :=
  if m =? 2 then (if isLeap y then 29 else 28)
  else if existsb (Z.eqb m) [4; 6; 9; 11]%list then 30 else 31.

Lemma year_of_day doe : 0 <= doe < 146097 ->
  let yoe := (doe - doe / 1460 + doe / 36524 - doe / 146096) / 365 in
  0 <= yoe < 400 /\ 365 * yoe + yoe / 4 - yoe / 100 <= doe /\
  doe - (365 * yoe + yoe / 4 - yoe / 100) <= 365.
Proof. intros H yoe. subst yoe. Z.to_euclidean_division_equations. lia. Qed.

(** The month and the day of the month of a day of the year that starts in
    March. *)
Lemma month_of_day doy : 0 <= doy <= 365 ->
  let mp := (5 * doy + 2) / 153 in
  0 <= mp <= 11 /\ (153 * mp + 2) / 5 <= doy /\ doy - (153 * mp + 2) / 5 <= 30.
Proof. intros H mp. subst mp. Z.to_euclidean_division_equations. lia. Qed.

Lemma days_civil z : let '(y, m, d) := civil_from_days z in days_from_civil y m d = z.
Proof.
  unfold civil_from_days, days_from_civil. set (w := z + 719468).
  pose proof (Z.mod_pos_bound w 146097 ltac:(lia)) as Hdoe. set (doe := w mod 146097) in *.
  destruct (year_of_day doe Hdoe) as (Hy & Hlo & Hhi).
  set (yoe := (doe - doe / 1460 + doe / 36524 - doe / 146096) / 365) in *.
  set (doy := doe - (365 * yoe + yoe / 4 - yoe / 100)) in *.
  destruct (month_of_day doy ltac:(lia)) as (Hm & Hd & _). set (mp := (5 * doy + 2) / 153) in *.
  assert (Hw : w = 146097 * (w / 146097) + doe) by (apply Z.div_mod; lia).
  set (era := w / 146097) in *. clearbody era yoe mp doe.
  assert (He : (if (if mp <? 10 then mp + 3 else mp - 9) <=? 2
    then yoe + era * 400 + (if (if mp <? 10 then mp + 3 else mp - 9) <=? 2 then 1 else 0) - 1
    else yoe + era * 400 + (if (if mp <? 10 then mp + 3 else mp - 9) <=? 2 then 1 else 0)) = yoe + era * 400)
    by (match goal with |- context [?x <=? 2] => destruct (Z.leb_spec x 2) end; lia).
  rewrite He, Z.div_add, Z.mod_add, Z.div_small, Z.mod_small by lia.
  assert (Hmp : (if (if mp <? 10 then mp + 3 else mp - 9) <=? 2
    then (if mp <? 10 then mp + 3 else mp - 9) + 9 else (if mp <? 10 then mp + 3 else mp - 9) - 3) = mp).
  { destruct (Z.ltb_spec mp 10);
      match goal with |- context [?x <=? 2] => destruct (Z.leb_spec x 2) end; lia. }
  rewrite Hmp. subst w doy. lia.
Qed.

(** A year of 366 days is one whose February, at its end, is long. *)
Lemma long_year doe : 0 <= doe < 146097 ->
  let yoe := (doe - doe / 1460 + doe / 36524 - doe / 146096) / 365 in
  doe - (365 * yoe + yoe / 4 - yoe / 100) = 365 ->
  (yoe + 1) mod 4 = 0 /\ ((yoe + 1) mod 100 <> 0 \/ yoe = 399).
Proof. intros H yoe. subst yoe. Z.to_euclidean_division_equations. lia. Qed.

(** Month by month: the 366 days of a year that starts in March. *)
Definition month_ok (doy : Z) : bool :=
  let mp := (5 * doy + 2) / 153 in
  let m := if mp <? 10 then mp + 3 else mp - 9 in
  let d := doy - (153 * mp + 2) / 5 + 1 in
  (1 <=? m) && (m <=? 12) && (1 <=? d) && Bool.eqb (m <=? 2) (306 <=? doy) &&
  (if m =? 2 then d =? doy - 336
   else if existsb (Z.eqb m) [4; 6; 9; 11]%list then d <=? 30 else d <=? 31).
Lemma months_ok doy : 0 <= doy <= 365 -> month_ok doy = true.
Proof.
  intros H. assert (Hall : forallb month_ok (seqZ 0 366) = true) by (vm_compute; reflexivity).
  rewrite forallb_forall in Hall. apply Hall, list_elem_of_In, elem_of_seqZ. lia.
Qed.

(** The date is one that the calendar has. *)
Lemma civil_valid z : let '(y, m, d) := civil_from_days z in 1 <= m <= 12 /\ 1 <= d <= daysIn m y.
Proof.
  unfold civil_from_days. set (w := z + 719468).
  pose proof (Z.mod_pos_bound w 146097 ltac:(lia)) as Hdoe. set (doe := w mod 146097) in *.
  destruct (year_of_day doe Hdoe) as (Hy & Hlo & Hhi). pose proof (long_year doe Hdoe) as Hlong. cbv zeta in Hlong.
  set (yoe := (doe - doe / 1460 + doe / 36524 - doe / 146096) / 365) in *.
  set (doy := doe - (365 * yoe + yoe / 4 - yoe / 100)) in *.
  pose proof (months_ok doy ltac:(lia)) as Hok. unfold month_ok in Hok. set (mp := (5 * doy + 2) / 153) in *.
  set (m := if mp <? 10 then mp + 3 else mp - 9) in *. set (d := doy - (153 * mp + 2) / 5 + 1) in *.
  set (era := w / 146097). clearbody era yoe m d doy. unfold daysIn.
  apply andb_true_iff in Hok as [Hok Hlen]. apply andb_true_iff in Hok as [Hok Hmar]. apply eqb_prop in Hmar.
  reflect_bools. split; [lia|]. destruct (Z.eqb_spec m 2) as [->|Hne].
  - reflect_bools. cbn -[isLeap Z.mul Z.add] in *. symmetry in Hmar. apply Z.leb_le in Hmar.
    destruct (isLeap (yoe + era * 400 + 1)) eqn:El; [lia|]. split; [lia|].
    assert (doy <> 365); [|lia]. intros H365. specialize (Hlong H365).
    unfold isLeap in El. apply andb_false_iff in El. rewrite orb_false_iff, negb_false_iff in El.
    rewrite !Z.eqb_neq, Z.eqb_eq in El. Z.to_euclidean_division_equations. lia.
  - destruct (existsb _ _); reflect_bools; lia.
Qed.

(** ** Printing *)

Definition dig (n : Z) : ascii := ascii_of_nat (48 + Z.to_nat (n mod 10)).
(** The last [k] digits of [n]. *)
Fixpoint fixed_digits (k : nat) (n : Z) : string :=
  match k with
  | O => EmptyString
  | S k' => fixed_digits k' (n / 10) +:+ String (dig n) EmptyString
  end.
(** [appendInt] with a width. *)
Definition two_digits (n : Z) : string := fixed_digits 2 n.
Definition four_digits (n : Z) : string :=
  if n <? 0 then "-" +:+ (if - n <? 10000 then fixed_digits 4 (- n) else pretty (- n))
  else if n <? 10000 then fixed_digits 4 n else pretty n.

(** Up to the seconds, without a zone. *)
Definition date_time (t : Time) : string :=
  let secs := t / Second in
  let '(y, m, d) := civil_from_days (secs / 86400) in
  let s := secs mod 86400 in
  four_digits y +:+ "-" +:+ two_digits m +:+ "-" +:+ two_digits d +:+ "T" +:+
  two_digits (s / 3600) +:+ ":" +:+ two_digits (s / 60 mod 60) +:+ ":" +:+ two_digits (s mod 60).

(** [t.UTC().Format(time.RFC3339)]. *)
Definition FormatRFC3339 (t : Time) : string := date_time t +:+ "Z".

Example rfc3339_example :
  FormatRFC3339 (1709210096 * Second + 5) = "2024-02-29T12:34:56Z".
Proof. vm_compute. reflexivity. Qed.

(** The fraction of a second without its trailing zeros. *)
Fixpoint trimmed (k : nat) (n : Z) : string :=
  match k with
  | O => EmptyString
  | S k' => if n mod 10 =? 0 then trimmed k' (n / 10) else fixed_digits k n
  end.
Definition nanos (t : Time) : string :=
  let n := t mod Second in if n =? 0 then EmptyString else "." +:+ trimmed 9 n.
Definition FormatRFC3339Nano (t : Time) : string := date_time t +:+ nanos t +:+ "Z".

Definition year_of (t : Time) : Z := (civil_from_days (t / Second / 86400)).1.1.
(** What [MarshalJSON] accepts. *)
Definition in_years (t : Time) : bool := (0 <=? year_of t) && (year_of t <=? 9999).

Example rfc3339nano_examples :
  FormatRFC3339Nano (1709210096 * Second + 120000050) = "2024-02-29T12:34:56.12000005Z" /\
  FormatRFC3339Nano (-1) = "1969-12-31T23:59:59.999999999Z".
Proof. split; vm_compute; reflexivity. Qed.

(** ** Parsing *)

Local Open Scope list_scope.

(** Exactly [k] digits. *)
Fixpoint read_digits (k : nat) (s : string) (acc : Z) : option (Z * string) :=
  match k with
  | O => Some (acc, s)
  | S k' =>
      match s with
      | String c r => d ← digit_of c; read_digits k' r (acc * 10 + d)
      | EmptyString => None
      end
  end.
(** [parseUint] with its bounds. *)
Definition parseUint (k : nat) (min max : Z) (s : string) : option (Z * string) :=
  '(x, r) ← read_digits k s 0;
  if (x <? min) || (max <? x) then None else Some (x, r).
Definition expect (c : ascii) (s : string) : option string :=
  match s with String c' r => if Ascii.eqb c c' then Some r else None | EmptyString => None end.

(** The digits of a fraction: the first nine count. *)
Fixpoint frac_digits (s : string) (k : nat) (acc : Z) : Z * nat * string :=
  match s with
  | String c r =>
      match digit_of c with
      | Some d => match k with
                  | O => frac_digits r O acc
                  | S k' => frac_digits r k' (acc * 10 + d)
                  end
      | None => (acc, k, s)
      end
  | EmptyString => (acc, k, EmptyString)
  end.
Definition parse_nanos (s : string) : Z * string :=
  match s with
  | String c (String c' r) =>
      if Ascii.eqb c "." && bool_decide (is_Some (digit_of c')) then
        let '(n, k, r') := frac_digits (String c' r) 9 0 in (n * 10 ^ Z.of_nat k, r')
      else (0, s)
  | _ => (0, s)
  end.

(** The zone: its offset in seconds. *)
Definition parse_zone (s : string) : option Z :=
  if bool_decide (s = "Z") then Some 0 else
  match s with
  | String c r =>
      if Ascii.eqb c "-" || Ascii.eqb c "+" then
        '(hr, r1) ← parseUint 2 0 23 r; r2 ← expect ":" r1; '(mm, r3) ← parseUint 2 0 59 r2;
        if bool_decide (r3 = EmptyString) then
          Some (let off := (hr * 60 + mm) * 60 in if Ascii.eqb c "-" then - off else off)
        else None
      else None
  | EmptyString => None
  end.

(** [parseRFC3339]. *)
Definition parseRFC3339 (s : string) : option Time :=
  '(y, s) ← parseUint 4 0 9999 s; s ← expect "-" s;
  '(m, s) ← parseUint 2 1 12 s; s ← expect "-" s;
  '(d, s) ← parseUint 2 1 (daysIn m y) s; s ← expect "T" s;
  '(hh, s) ← parseUint 2 0 23 s; s ← expect ":" s;
  '(mm, s) ← parseUint 2 0 59 s; s ← expect ":" s;
  '(ss, s) ← parseUint 2 0 59 s;
  let '(ns, s) := parse_nanos s in
  off ← parse_zone s;
  Some ((days_from_civil y m d * 86400 + hh * 3600 + mm * 60 + ss - off) * Second + ns).

Example parse_examples :
  parseRFC3339 "2024-02-29T12:34:56.12000005Z" = Some (1709210096 * Second + 120000050) /\
  parseRFC3339 "1970-01-01T01:00:00+01:00" = Some 0 /\
  parseRFC3339 "2023-02-29T00:00:00Z" = None /\ parseRFC3339 "2023-02-28 00:00:00Z" = None.
Proof. split_and!; vm_compute; reflexivity. Qed.

(** ** Parsing what was printed *)

Lemma sapp_cons x a b : String x a +:+ b = String x (a +:+ b).
Proof. done. Qed.

Lemma sapp_char x b : String x EmptyString +:+ b = String x b.
Proof. done. Qed.

Lemma sapp_assoc a b c : (a +:+ b) +:+ c = a +:+ (b +:+ c).
Proof. induction a as [|x a IH]; [done|]. by rewrite !sapp_cons, IH. Qed.

Lemma digit_of_dig n : digit_of (dig n) = Some (n mod 10).
Proof.
  unfold dig. pose proof (Z.mod_pos_bound n 10 ltac:(lia)). rewrite <-(Z2Nat.id (n mod 10)) at 2 by lia.
  assert (Hk : (Z.to_nat (n mod 10) < 10)%nat) by lia. revert Hk. generalize (Z.to_nat (n mod 10)). intros k Hk.
  do 10 (destruct k as [|k]; [reflexivity|]). lia.
Qed.

Lemma read_digits_app k : forall n acc r, 0 <= n < 10 ^ Z.of_nat k ->
  forall j, read_digits (k + j) (fixed_digits k n +:+ r) acc = read_digits j r (acc * 10 ^ Z.of_nat k + n).
Proof.
  induction k as [|k IH]; intros n acc r Hn j.
  - simpl. f_equal. simpl in Hn. lia.
  - cbn [fixed_digits]. rewrite sapp_assoc. rewrite Nat2Z.inj_succ, Z.pow_succ_r in Hn by lia.
    replace (S k + j)%nat with (k + S j)%nat by lia.
    rewrite IH by (split; [apply Z.div_pos; lia|apply Z.div_lt_upper_bound; lia]).
    rewrite sapp_cons. cbn [read_digits]. rewrite digit_of_dig. cbn. f_equal.
    rewrite Nat2Z.inj_succ, Z.pow_succ_r by lia. pose proof (Z.div_mod n 10 ltac:(lia)). lia.
Qed.

Lemma read_fixed k n r : 0 <= n < 10 ^ Z.of_nat k ->
  read_digits k (fixed_digits k n +:+ r) 0 = Some (n, r).
Proof. intros Hn. rewrite <-(Nat.add_0_r k) at 1. by rewrite read_digits_app. Qed.

Lemma parseUint_fixed k n r min max : 0 <= n < 10 ^ Z.of_nat k -> min <= n <= max ->
  parseUint k min max (fixed_digits k n +:+ r) = Some (n, r).
Proof.
  intros Hn Hr. unfold parseUint. rewrite read_fixed by done. cbn.
  destruct (Z.ltb_spec n min); [lia|]. by destruct (Z.ltb_spec max n); [lia|].
Qed.

Lemma frac_digits_app k : forall n j acc r, 0 <= n < 10 ^ Z.of_nat k ->
  frac_digits (fixed_digits k n +:+ r) (k + j) acc = frac_digits r j (acc * 10 ^ Z.of_nat k + n).
Proof.
  induction k as [|k IH]; intros n j acc r Hn.
  - simpl. f_equal. simpl in Hn. lia.
  - cbn [fixed_digits]. rewrite sapp_assoc. rewrite Nat2Z.inj_succ, Z.pow_succ_r in Hn by lia.
    replace (S k + j)%nat with (k + S j)%nat by lia.
    rewrite IH by (split; [apply Z.div_pos; lia|apply Z.div_lt_upper_bound; lia]).
    rewrite sapp_cons. cbn [frac_digits]. rewrite digit_of_dig. f_equal.
    rewrite Nat2Z.inj_succ, Z.pow_succ_r by lia. pose proof (Z.div_mod n 10 ltac:(lia)). lia.
Qed.

Lemma trimmed_fixed k : forall n, 0 < n < 10 ^ Z.of_nat k ->
  exists j m, trimmed k n = fixed_digits j m /\ (0 < j <= k)%nat /\ 0 <= m < 10 ^ Z.of_nat j /\
    n = m * 10 ^ Z.of_nat (k - j).
Proof.
  induction k as [|k IH]; intros n Hn; [simpl in Hn; lia|]. cbn [trimmed].
  rewrite Nat2Z.inj_succ, Z.pow_succ_r in Hn by lia. pose proof (Z.div_mod n 10 ltac:(lia)) as Hdm.
  destruct (Z.eqb_spec (n mod 10) 0) as [H0|H0].
  - destruct (IH (n / 10)) as (j & m & E & Hj & Hm & En); [split; [lia|apply Z.div_lt_upper_bound; lia]|].
    exists j, m. split_and!; [done|lia..|]. replace (S k - j)%nat with (S (k - j)) by lia.
    rewrite Nat2Z.inj_succ, Z.pow_succ_r by lia. lia.
  - exists (S k), n. split_and!; [done|lia..| |].
    + rewrite Nat2Z.inj_succ, Z.pow_succ_r by lia. lia.
    + rewrite Nat.sub_diag. simpl. lia.
Qed.

Lemma fixed_digits_head k n r :
  (0 < k)%nat -> exists c s, fixed_digits k n +:+ r = String c s /\ is_Some (digit_of c).
Proof.
  revert n r. induction k as [|k IH]; intros n r Hk; [lia|]. cbn [fixed_digits]. rewrite sapp_assoc.
  destruct k as [|k]; [|apply IH; lia]. eexists _, _. split; [reflexivity|]. rewrite digit_of_dig. by eexists.
Qed.

Lemma parse_nanos_printed t : parse_nanos (nanos t +:+ "Z") = (t mod Second, "Z").
Proof.
  unfold nanos. pose proof (Z.mod_pos_bound t Second ltac:(done)) as Hb. set (n := t mod Second) in *.
  destruct (Z.eqb_spec n 0) as [->|Hn]; [done|]. 
  destruct (trimmed_fixed 9 n) as (j & m & -> & Hj & Hm & ->); [unfold Second in *; simpl; lia|].
  change (("." +:+ fixed_digits j m) +:+ "Z") with (String "." (fixed_digits j m +:+ "Z")).
  destruct (fixed_digits_head j m "Z") as (c & s & E & Hc); [lia|]. rewrite E. cbn [parse_nanos Ascii.eqb Bool.eqb].
  rewrite bool_decide_true by done. cbn [andb]. rewrite <-E.
  replace 9%nat with (j + (9 - j))%nat at 1 by lia. rewrite frac_digits_app by done. done.
Qed.

Lemma expect_head c r : expect c (String c r) = Some r.
Proof. unfold expect. by rewrite Ascii.eqb_refl. Qed.

Lemma parse_date_time t r : in_years t = true ->
  parseRFC3339 (date_time t +:+ r) =
    (let '(ns, s) := parse_nanos r in
     off ← parse_zone s; Some ((t / Second - off) * Second + ns)).
Proof.
  unfold in_years, year_of, date_time. intros [Hy1 Hy2]%andb_true_iff. apply Z.leb_le in Hy1, Hy2.
  pose proof (civil_valid (t / Second / 86400)) as Hv. pose proof (days_civil (t / Second / 86400)) as Hd.
  destruct (civil_from_days (t / Second / 86400)) as [[y m] d]. simpl in Hy1, Hy2.
  set (s := (t / Second) mod 86400). pose proof (Z.mod_pos_bound (t / Second) 86400 ltac:(lia)) as Hs. fold s in Hs.
  unfold four_digits. destruct (Z.ltb_spec y 0); [lia|]. destruct (Z.ltb_spec y 10000); [|lia].
  destruct Hv as [Hm Hday]. assert (daysIn m y <= 31) by (unfold daysIn; repeat case_match; lia).
  assert (Hh : 0 <= s / 3600 < 24) by (Z.to_euclidean_division_equations; lia).
  assert (Hmi : 0 <= s / 60 mod 60 < 60) by (apply Z.mod_pos_bound; lia).
  assert (Hse : 0 <= s mod 60 < 60) by (apply Z.mod_pos_bound; lia).
  assert (Hsum : s = s / 3600 * 3600 + s / 60 mod 60 * 60 + s mod 60) by (Z.to_euclidean_division_equations; lia).
  unfold parseRFC3339, two_digits. rewrite !sapp_assoc, !sapp_char.
  rewrite parseUint_fixed by (simpl; lia). cbn [mbind option_bind]. rewrite expect_head. cbn [mbind option_bind].
  do 5 (rewrite parseUint_fixed by (simpl; lia); cbn [mbind option_bind];
        try rewrite expect_head; cbn [mbind option_bind]).
  destruct (parse_nanos r) as [ns r']. destruct (parse_zone r') as [off|]; [|done]. cbn [mbind option_bind].
  f_equal. rewrite Hd. pose proof (Z.div_mod (t / Second) 86400 ltac:(lia)) as Hdm. fold s in Hdm.
  rewrite Hsum in Hdm at 1. f_equal. f_equal. lia.
Qed.

Lemma parse_Format t : in_years t = true -> parseRFC3339 (FormatRFC3339 t) = Some (t / Second * Second).
Proof. intros Ht. unfold FormatRFC3339. rewrite parse_date_time by done.
  change (parse_nanos "Z") with (0, "Z"). cbv beta iota. change (parse_zone "Z") with (Some 0).
  cbn [mbind option_bind]. by rewrite Z.sub_0_r, Z.add_0_r.
Qed.

Lemma parse_FormatNano t : in_years t = true -> parseRFC3339 (FormatRFC3339Nano t) = Some t.
Proof.
  intros Ht. unfold FormatRFC3339Nano. rewrite parse_date_time, parse_nanos_printed by done.
  change (parse_zone "Z") with (Some 0). cbn [mbind option_bind]. rewrite Z.sub_0_r. f_equal.
  pose proof (Z.div_mod t Second ltac:(done)). lia.
Qed.
