(* ===== verification/Encode.v ===== *)
(** * Encode: printing JSON documents

    What [json.Marshal] writes, below the types of the program: documents
    without white space ([render]), strings with their escapes ([quote]) and what
    the decoder makes of them ([unquote]).  The parser of [Decode.v] reads back
    what is printed. *)

From S2P Require Import Prelude Json Rfc3339 Decode.
Local Open Scope string_scope.
Local Open Scope list_scope.
Local Open Scope Z_scope.

(** ** Lexers look no further than they read *)

(** Bytes that end a number. *)
Definition delimiter (c : ascii) : bool :=
  negb (isDigit c) && negb (is_one_of ["."; "e"; "E"; "+"; "-"]%char c).

(** A lexer that stopped in front of [r] also stops in front of [r']. *)
Definition stops (r r' : string) : Prop :=
  match r' with
  | EmptyString => True
  | String c _ => delimiter c = true \/ exists t, r = String c t
  end.

(** The lexer reads a prefix, whatever follows. *)
Definition local_lexer (f : string -> option string) : Prop := forall s r, f s = Some r ->
  exists p, s = p +:+ r /\ forall r', stops r r' -> f (p +:+ r') = Some r'.

Lemma stops_app p r r' : stops r r' -> stops (p +:+ r) (p +:+ r').
Proof. destruct p as [|c p]; [done|]. intros _. right. by eexists. Qed.

Lemma delimiter_digit c : delimiter c = true -> isDigit c = false.
Proof. unfold delimiter. by destruct (isDigit c). Qed.
Lemma delimiter_other c cs : delimiter c = true -> incl cs ["."; "e"; "E"; "+"; "-"]%char -> is_one_of cs c = false.
Proof.
  unfold delimiter. intros [_ H]%andb_true_iff Hi. apply negb_true_iff in H. unfold is_one_of in *.
  apply not_true_iff_false. intros (x & Hx & E)%existsb_exists.
  apply Bool.not_true_iff_false in H. apply H, existsb_exists. eauto.
Qed.

Lemma skip_digits_local : local_lexer (fun s => Some (skip_digits s)).
Proof.
  intros s r [= <-]. induction s as [|c s IH].
  - exists EmptyString. split; [done|]. intros [|c' r'] Hs; [done|]. destruct Hs as [Hd|[t Ht]]; [|done].
    change (EmptyString +:+ String c' r') with (String c' r'). cbn [skip_digits].
    by rewrite (delimiter_digit _ Hd).
  - cbn [skip_digits]. destruct (isDigit c) eqn:E.
    + destruct IH as (p & Hs & Hp). exists (String c p). split; [by rewrite sapp_cons, <-Hs|]. intros r' Hr.
      rewrite sapp_cons. cbn [skip_digits]. rewrite E. by apply Hp.
    + exists EmptyString. split; [done|]. intros [|c' r'] Hs; [done|].
      change (EmptyString +:+ String c' r') with (String c' r'). cbn [skip_digits].
      destruct Hs as [Hd|[t [= <- _]]]; [by rewrite (delimiter_digit _ Hd)|by rewrite E].
Qed.

Lemma sapp_nil_r s : s +:+ EmptyString = s.
Proof. induction s as [|c s IH]; [done|]. by rewrite sapp_cons, IH. Qed.

(** Reading one byte and going on. *)
Lemma local_cons c (f g : string -> option string) s r :
  local_lexer f -> (forall t, g (String c t) = f t) -> g (String c s) = Some r ->
  exists p, String c s = p +:+ r /\ forall r', stops r r' -> g (p +:+ r') = Some r'.
Proof.
  intros Hf Hg. rewrite Hg. intros (p & -> & Hp)%Hf. exists (String c p). split; [done|].
  intros r' Hr. rewrite sapp_cons, Hg. by apply Hp.
Qed.

Lemma digits1_local : local_lexer digits1.
Proof.
  intros [|c s] r; [done|]. destruct (isDigit c) eqn:E; [|by cbn; rewrite E].
  apply (local_cons c (fun s => Some (skip_digits s))); [apply skip_digits_local|]. intros t. cbn. by rewrite E.
Qed.

Lemma signed_digits_local : local_lexer signed_digits.
Proof.
  intros [|c s] r; [done|]. destruct (is_one_of ["+"; "-"]%char c) eqn:E.
  - apply (local_cons c digits1); [apply digits1_local|]. intros t. unfold signed_digits. by rewrite E.
  - unfold signed_digits at 1. rewrite E. intros (p & Hs & Hp)%(digits1_local (String c s)).
    exists p. split; [done|]. intros r' Hr. specialize (Hp r' Hr).
    destruct p as [|c' p]; [|injection Hs as <- _; rewrite sapp_cons in *; unfold signed_digits; by rewrite E].
    change (EmptyString +:+ r') with r' in *. destruct r' as [|c' r']; [done|]. unfold signed_digits.
    by apply digits1_length in Hp; simpl in Hp; lia.
Qed.

Lemma exponent_local : local_lexer exponent.
Proof.
  intros [|c s] r.
  - intros [= <-]. exists EmptyString. split; [done|]. intros [|c r'] Hs; [done|].
    destruct Hs as [Hd|[t Ht]]; [|done]. change (EmptyString +:+ String c r') with (String c r').
    unfold exponent. by rewrite (delimiter_other _ ["e"; "E"]%char Hd) by (intros x; simpl; tauto).
  - destruct (is_one_of ["e"; "E"]%char c) eqn:E.
    + apply (local_cons c signed_digits); [apply signed_digits_local|]. intros t. unfold exponent. by rewrite E.
    + unfold exponent at 1. rewrite E. intros [= <-]. exists EmptyString. split; [done|].
      intros [|c' r'] Hs; [done|]. change (EmptyString +:+ String c' r') with (String c' r').
      unfold exponent. destruct Hs as [Hd|[t [= <- _]]]; [|by rewrite E].
      by rewrite (delimiter_other _ ["e"; "E"]%char Hd) by (intros x; simpl; tauto).
Qed.

(** One lexer after the other. *)
Lemma local_seq f g : local_lexer f -> local_lexer g -> local_lexer (fun s => r ← f s; g r).
Proof.
  intros Hf Hg s r. destruct (f s) as [r1|] eqn:E; [|done]. cbn.
  intros (p2 & -> & H2)%Hg. apply Hf in E as (p1 & -> & H1). exists (p1 +:+ p2).
  split; [by rewrite sapp_assoc|]. intros r' Hr. rewrite sapp_assoc, H1 by by apply stops_app. by apply H2.
Qed.

Lemma fraction_local : local_lexer fraction.
Proof.
  intros [|c s] r.
  - intros [= <-]. exists EmptyString. split; [done|]. intros [|c r'] Hs; [done|].
    destruct Hs as [Hd|[t Ht]]; [|done]. change (EmptyString +:+ String c r') with (String c r').
    unfold fraction. assert (Ascii.eqb c "." = false) as ->.
    { pose proof (delimiter_other _ ["."]%char Hd) as H. unfold is_one_of in H. cbn [existsb] in H.
      rewrite orb_false_r in H. apply H. intros x; simpl; tauto. }
    unfold exponent. by rewrite (delimiter_other _ ["e"; "E"]%char Hd) by (intros x; simpl; tauto).
  - destruct (Ascii.eqb c ".") eqn:E.
    + apply (local_cons c (fun s => r ← digits1 s; exponent r));
        [by apply local_seq; [apply digits1_local|apply exponent_local]|].
      intros t. unfold fraction. by rewrite E.
    + unfold fraction at 1. rewrite E. intros (p & Hs & Hp)%(exponent_local (String c s)).
      exists p. split; [done|]. intros r' Hr. specialize (Hp r' Hr).
      destruct p as [|c' p].
      * change (EmptyString +:+ r') with r' in *. destruct r' as [|c' r']; [done|]. unfold fraction.
        destruct (Ascii.eqb_spec c' ".") as [->|]; [|done]. destruct Hr as [Hd|[t Ht]]; [done|].
        change (EmptyString +:+ r) with r in Hs.
        rewrite Ht in Hs. by injection Hs as -> _.
      * injection Hs as <- _. rewrite sapp_cons in *. unfold fraction. by rewrite E.
Qed.

Lemma digits_fraction_local : local_lexer (fun s => fraction (skip_digits s)).
Proof. apply (local_seq (fun s => Some (skip_digits s)) fraction); [apply skip_digits_local|apply fraction_local]. Qed.

Lemma unsigned_local c : local_lexer (unsigned c).
Proof.
  intros s r. unfold unsigned. destruct (Ascii.eqb c "0"); [apply fraction_local|].
  destruct (isDigit c); [apply digits_fraction_local|done].
Qed.

Lemma number_local c : local_lexer (number c).
Proof.
  intros s r. destruct (Ascii.eqb c "-") eqn:E.
  - destruct s as [|c' s]; [unfold number; by rewrite E|].
    apply (local_cons c' (unsigned c')); [apply unsigned_local|]. intros t. unfold number. by rewrite E.
  - unfold number. rewrite E. apply unsigned_local.
Qed.

Lemma str_body_app (n : nat) : forall s raw r, (String.length s <= n)%nat ->
  str_body s = Some (raw, r) ->
  s = raw +:+ String dquote r /\ forall r', str_body (raw +:+ String dquote r') = Some (raw, r').
Proof.
  induction n as [|n IH]; intros [|c s] raw r Hn; try done; simpl in Hn; [lia|]. cbn [str_body].
  destruct (Ascii.eqb_spec c dquote) as [->|Hq]; [by intros [= <- <-]|].
  apply Ascii.eqb_neq in Hq. destruct (Ascii.eqb c "\") eqn:Eb.
  - destruct s as [|e s]; [done|]. simpl in Hn.
    destruct (is_one_of escapes e) eqn:Ee.
    { intros (a & H & ->)%prepend_Some. apply IH in H as [-> H]; [|lia]. split; [done|]. intros r'.
      change ((String c (String e EmptyString) +:+ a) +:+ String dquote r')
        with (String c (String e (a +:+ String dquote r'))).
      cbn [str_body]. by rewrite Hq, Eb, Ee, H. }
    destruct (Ascii.eqb e "u") eqn:Eu; [|done]. destruct s as [|h1 [|h2 [|h3 [|h4 s]]]]; try done. simpl in Hn.
    destruct (isHex h1 && isHex h2 && isHex h3 && isHex h4) eqn:Eh; [|done].
    intros (a & H & ->)%prepend_Some. apply IH in H as [-> H]; [|lia]. split; [done|]. intros r'.
    change ((String c (String e (String h1 (String h2 (String h3 (String h4 EmptyString))))) +:+ a) +:+ String dquote r')
      with (String c (String e (String h1 (String h2 (String h3 (String h4 (a +:+ String dquote r'))))))).
    cbn [str_body]. by rewrite Hq, Eb, Ee, Eu, Eh, H.
  - destruct (code c <? 32) eqn:Ec; [done|].
    intros (a & H & ->)%prepend_Some. apply IH in H as [-> H]; [|lia]. split; [done|]. intros r'.
    change ((String c EmptyString +:+ a) +:+ String dquote r') with (String c (a +:+ String dquote r')).
    cbn [str_body]. by rewrite Hq, Eb, Ec, H.
Qed.

(** ** Printing documents *)

Definition enclosed (open close : ascii) (items : list string) : string :=
  String open (String.concat "," items +:+ String close EmptyString).
Definition in_quotes (raw : string) : string := String dquote (raw +:+ String dquote EmptyString).

(** Without white space; the raw texts of members are not used. *)
Fixpoint render (v : value) : string :=
  match v with
  | VNull => "null"
  | VBool b => if b then "true" else "false"
  | VNum lit => lit
  | VStr raw => in_quotes raw
  | VArr vs => enclosed "[" "]" (map render vs)
  | VObj ms => enclosed "{" "}" (map (fun m => in_quotes m.1 +:+ ":" +:+ render m.2.2) ms)
  end.

(** A document whose leaves lex, nested at most [levels] deep. *)
Definition number_ok (lit : string) : bool :=
  match lit with
  | String c r => bool_decide (number c r = Some EmptyString)
  | EmptyString => false
  end.
Definition str_ok (raw : string) : bool :=
  bool_decide (str_body (raw +:+ String dquote EmptyString) = Some (raw, EmptyString)).
Fixpoint wf (levels : Z) (v : value) : bool :=
  match v with
  | VNull | VBool _ => true
  | VNum lit => number_ok lit
  | VStr raw => str_ok raw
  | VArr vs => (0 <? levels) && forallb (wf (levels - 1)) vs
  | VObj ms => (0 <? levels) && forallb (fun m => str_ok m.1 && wf (levels - 1) m.2.2) ms
  end.

(** The document with the raw texts it has when it is printed. *)
Fixpoint printed (v : value) : value :=
  match v with
  | VArr vs => VArr (map printed vs)
  | VObj ms => VObj (map (fun m => (m.1, (render m.2.2, printed m.2.2))) ms)
  | _ => v
  end.

(** What the parser returns is well-formed. *)
Lemma taken_app p r : taken (p +:+ r) r = p.
Proof.
  unfold taken. rewrite length_sapp. replace (String.length p + String.length r - String.length r)%nat
    with (String.length p) by lia.
  unfold stake. induction p as [|c p IH]; [by destruct r|]. rewrite sapp_cons. simpl. by rewrite IH.
Qed.

Lemma number_ok_taken c s r : number c s = Some r -> number_ok (taken (String c s) r) = true.
Proof.
  intros (p & -> & Hp)%number_local. rewrite <-sapp_cons, taken_app. simpl.
  apply bool_decide_eq_true. specialize (Hp EmptyString I). by rewrite sapp_nil_r in Hp.
Qed.

Lemma str_ok_body s raw r : str_body s = Some (raw, r) -> str_ok raw = true.
Proof. intros [_ H]%(str_body_app _ _ _ _ (le_n _)). apply bool_decide_eq_true, H. Qed.

Lemma parse_wf n : forall levels,
  (forall s v r, parse_value n levels s = Some (v, r) -> wf levels v = true) /\
  (forall s vs r, parse_elements n levels s = Some (vs, r) -> forallb (wf levels) vs = true) /\
  (forall s ms r, parse_members n levels s = Some (ms, r) ->
     forallb (fun m => str_ok m.1 && wf levels m.2.2) ms = true).
Proof.
  induction n as [|n IH]; intros levels; [done|]. split_and!.
  - intros s v r. cbn [parse_value]. destruct (skip s) as [|c t]; [done|].
    destruct (Ascii.eqb c dquote).
    { destruct (str_body t) as [[raw r']|] eqn:E; [|done]. intros [= <- _]. by eapply str_ok_body. }
    destruct (Ascii.eqb c "{").
    { destruct (Z.leb_spec levels 0) as [|Hl]; [done|]. destruct (skip t) as [|c' t'] eqn:Et; [done|].
      destruct (Ascii.eqb c' "}").
      { intros [= <- _]. simpl. rewrite andb_true_r. by apply Z.ltb_lt. }
      destruct (parse_members n _ _) as [[ms r']|] eqn:E; [|done]. intros [= <- _].
      apply IH in E. simpl. rewrite E, andb_true_r. by apply Z.ltb_lt. }
    destruct (Ascii.eqb c "[").
    { destruct (Z.leb_spec levels 0) as [|Hl]; [done|]. destruct (skip t) as [|c' t'] eqn:Et; [done|].
      destruct (Ascii.eqb c' "]").
      { intros [= <- _]. simpl. rewrite andb_true_r. by apply Z.ltb_lt. }
      destruct (parse_elements n _ _) as [[vs r']|] eqn:E; [|done]. intros [= <- _].
      apply IH in E. simpl. rewrite E, andb_true_r. by apply Z.ltb_lt. }
    destruct (Ascii.eqb c "t"); [destruct (literal _ t); [by intros [= <- _]|done]|].
    destruct (Ascii.eqb c "f"); [destruct (literal _ t); [by intros [= <- _]|done]|].
    destruct (Ascii.eqb c "n"); [destruct (literal _ t); [by intros [= <- _]|done]|].
    destruct (number c t) as [r'|] eqn:E; [|done]. intros [= <- _]. by apply number_ok_taken.
  - intros s vs r. cbn [parse_elements]. destruct (parse_value n levels s) as [[v t]|] eqn:E; [|done].
    apply IH in E. cbn. destruct (skip t) as [|c t1]; [done|]. destruct (Ascii.eqb c ",").
    + destruct (parse_elements n levels t1) as [[vs' r']|] eqn:E'; [|done]. intros [= <- _]. apply IH in E'.
      simpl. by rewrite E, E'.
    + destruct (Ascii.eqb c "]"); [|done]. intros [= <- _]. simpl. by rewrite E.
  - intros s ms r. cbn [parse_members]. destruct (skip s) as [|c t]; [done|]. destruct (negb _); [done|].
    destruct (str_body t) as [[key t1]|] eqn:Ek; [|done]. cbn. apply str_ok_body in Ek.
    destruct (skip t1) as [|c1 t2]; [done|]. destruct (negb _); [done|].
    destruct (parse_value n levels t2) as [[v t3]|] eqn:E; [|done]. apply IH in E. cbn.
    destruct (skip t3) as [|c3 t4]; [done|]. destruct (Ascii.eqb c3 ",").
    + destruct (parse_members n levels t4) as [[ms' r']|] eqn:E'; [|done]. intros [= <- _]. apply IH in E'.
      simpl. by rewrite Ek, E, E'.
    + destruct (Ascii.eqb c3 "}"); [|done]. intros [= <- _]. simpl. by rewrite Ek, E.
Qed.

(** Induction over documents. *)
Section value_induction.
Context (P : value -> Prop) (Hnull : P VNull) (Hbool : forall b, P (VBool b)) (Hnum : forall l, P (VNum l))
  (Hstr : forall r, P (VStr r)) (Harr : forall vs, Forall P vs -> P (VArr vs))
  (Hobj : forall ms, Forall (fun m => P m.2.2) ms -> P (VObj ms)).
Fixpoint value_nested_ind (v : value) : P v :=
  match v with
  | VNull => Hnull
  | VBool b => Hbool b
  | VNum l => Hnum l
  | VStr r => Hstr r
  | VArr vs => Harr vs ((fix go vs := match vs return Forall P vs with
                                      | [] => Forall_nil_2 _
                                      | v :: vs => Forall_cons_2 _ _ _ (value_nested_ind v) (go vs)
                                      end) vs)
  | VObj ms => Hobj ms ((fix go ms := match ms return Forall (fun m => P m.2.2) ms with
                                      | [] => Forall_nil_2 _
                                      | m :: ms => Forall_cons_2 _ _ _ (value_nested_ind m.2.2) (go ms)
                                      end) ms)
  end.
End value_induction.

(** ** Parsing what was printed *)

(** What may follow a value: nothing, or a byte that ends a number. *)
Definition ended (x : string) : Prop :=
  match x with EmptyString => True | String c _ => delimiter c = true end.
Lemma ended_stops x : ended x -> stops EmptyString x.
Proof. destruct x as [|c x]; [done|]. by left. Qed.

Lemma number_head c r r' : number c r = Some r' ->
  isSpace c = false /\ Ascii.eqb c dquote = false /\ Ascii.eqb c "{" = false /\ Ascii.eqb c "[" = false /\
  Ascii.eqb c "t" = false /\ Ascii.eqb c "f" = false /\ Ascii.eqb c "n" = false.
Proof.
  intros H. assert (Hc : Ascii.eqb c "-" || isDigit c = true).
  { unfold number, unsigned in H. destruct (Ascii.eqb c "-"); [done|].
    destruct (Ascii.eqb_spec c "0") as [->|]; [done|]. by destruct (isDigit c). }
  clear H. destruct c as [[] [] [] [] [] [] [] []]; try discriminate Hc; by split_and!.
Qed.

Lemma render_head v levels : wf levels v = true -> exists c r, render v = String c r /\ isSpace c = false.
Proof.
  destruct v as [|b|lit|raw|vs|ms]; simpl; intros Hw; try (by eexists _, _).
  - destruct b; by eexists _, _.
  - destruct lit as [|c r]; [done|]. eexists _, _. split; [done|]. apply bool_decide_eq_true in Hw.
    by apply number_head in Hw as [? _].
Qed.

Lemma skip_render v levels x : wf levels v = true -> skip (render v +:+ x) = render v +:+ x.
Proof.
  intros (c & r & -> & Hc)%render_head. rewrite sapp_cons. cbn [skip]. by rewrite Hc.
Qed.

Definition reads_back (v : value) : Prop := forall levels n x,
  wf levels v = true -> ended x -> (2 * String.length (render v) < n)%nat ->
  parse_value n levels (render v +:+ x) = Some (printed v, x).

Lemma elements_back vs : Forall reads_back vs -> vs <> [] -> forall levels n x,
  forallb (wf levels) vs = true ->
  (2 * String.length (String.concat "," (map render vs)) + 1 < n)%nat ->
  parse_elements n levels (String.concat "," (map render vs) +:+ String "]" x) = Some (map printed vs, x).
Proof.
  induction 1 as [|v vs Hv _ IH]; [done|]. intros _ levels n x Hw Hn. destruct n as [|n]; [lia|].
  simpl in Hw. apply andb_true_iff in Hw as [Hwv Hws]. cbn [map] in Hn |- *. cbn [parse_elements]. destruct vs as [|v' vs].
  - cbn [String.concat map] in *. rewrite Hv by (done || lia). done.
  - change (String.concat "," (render v :: map render (v' :: vs))) with
      (render v +:+ String "," (String.concat "," (map render (v' :: vs)))) in *.
    rewrite length_sapp in Hn. change (String.length (String "," ?s)) with (S (String.length s)) in Hn.
    rewrite sapp_assoc, sapp_cons, Hv by (done || lia). cbn [mbind option_bind].
    change (skip (String "," ?s)) with (String "," s). cbv iota beta. change (Ascii.eqb "," ",") with true.
    cbv iota. by rewrite IH by (done || lia).
Qed.

Definition render_member (m : string * (string * value)) : string := in_quotes m.1 +:+ ":" +:+ render m.2.2.
Definition print_member (m : string * (string * value)) : string * (string * value) :=
  (m.1, (render m.2.2, printed m.2.2)).

Lemma member_text k t : in_quotes k +:+ t = String dquote (k +:+ String dquote t).
Proof. unfold in_quotes. by rewrite sapp_cons, sapp_assoc, sapp_char. Qed.

Lemma str_ok_read raw r : str_ok raw = true -> str_body (raw +:+ String dquote r) = Some (raw, r).
Proof.
  intros H%bool_decide_eq_true. by apply (str_body_app _ _ _ _ (le_n _)) in H as [_ ->].
Qed.

(** One member, up to the byte behind its value. *)
Lemma member_back k raw v levels n x c ms r :
  reads_back v -> str_ok k = true -> wf levels v = true ->
  (2 * String.length (render_member (k, (raw, v))) < S n)%nat ->
  c = ","%char \/ c = "}"%char ->
  (if Ascii.eqb c "," then '(ms, r) ← parse_members n levels x; Some (print_member (k, (raw, v)) :: ms, r)
   else Some ([print_member (k, (raw, v))], x)) = Some (ms, r) ->
  parse_members (S n) levels (render_member (k, (raw, v)) +:+ String c x) = Some (ms, r).
Proof.
  intros Hv Hk Hw Hn Hc Hr. unfold render_member in *. cbn [fst snd] in *.
  rewrite sapp_assoc, member_text, sapp_assoc, sapp_char. cbn [parse_members].
  change (skip (String dquote ?y)) with (String dquote y). cbv iota beta.
  change (negb (Ascii.eqb dquote dquote)) with false. cbv iota. rewrite str_ok_read by done. cbn [mbind option_bind].
  change (skip (String ":" ?y)) with (String ":" y). cbv iota beta.
  change (negb (Ascii.eqb ":" ":")) with false. cbv iota.
  rewrite !length_sapp in Hn. simpl String.length in Hn.
  rewrite Hv; [|done|by destruct Hc as [->| ->]|lia]. cbn [mbind option_bind].
  rewrite skip_render with (levels := levels), taken_app by done.
  destruct Hc as [->| ->]; change (skip (String ?a x)) with (String a x); exact Hr.
Qed.

Lemma members_back ms : Forall (fun m => reads_back m.2.2) ms -> ms <> [] -> forall levels n x,
  forallb (fun m => str_ok m.1 && wf levels m.2.2) ms = true ->
  (2 * String.length (String.concat "," (map render_member ms)) < n)%nat ->
  parse_members n levels (String.concat "," (map render_member ms) +:+ String "}" x) = Some (map print_member ms, x).
Proof.
  induction 1 as [|[k [raw v]] ms Hv _ IH]; [done|]. intros _ levels n x Hw Hn. destruct n as [|n]; [lia|].
  simpl in Hw. apply andb_true_iff in Hw as [[Hk Hwv]%andb_true_iff Hws]. cbn [map] in Hn |- *. destruct ms as [|m' ms].
  - cbn [String.concat map] in *. by apply (member_back k raw v); auto.
  - change (String.concat "," (render_member (k, (raw, v)) :: map render_member (m' :: ms))) with
      (render_member (k, (raw, v)) +:+ String "," (String.concat "," (map render_member (m' :: ms)))) in *.
    rewrite length_sapp in Hn. change (String.length (String "," ?s)) with (S (String.length s)) in Hn.
    rewrite sapp_assoc, sapp_cons. apply member_back; auto; [lia|].
    change (Ascii.eqb "," ",") with true. cbv iota. by rewrite IH by (done || lia).
Qed.

Lemma enclosed_text o c items x :
  enclosed o c items +:+ x = String o (String.concat "," items +:+ String c x).
Proof. unfold enclosed. by rewrite sapp_cons, sapp_assoc, sapp_char. Qed.
Lemma enclosed_length o c items :
  String.length (enclosed o c items) = S (S (String.length (String.concat "," items))).
Proof.
  unfold enclosed. change (S (String.length (String.concat "," items +:+ String c EmptyString)) =
    S (S (String.length (String.concat "," items)))). rewrite length_sapp. simpl. lia.
Qed.

Lemma concat_head (l : list string) t ts : l = t :: ts -> exists u, String.concat "," l = t +:+ u.
Proof.
  intros ->. destruct ts as [|t' ts]; [exists EmptyString; by rewrite sapp_nil_r|by eexists].
Qed.

Lemma render_first v levels : wf levels v = true ->
  exists c r, render v = String c r /\ isSpace c = false /\ Ascii.eqb c "]" = false.
Proof.
  intros Hw. destruct v as [|b|lit|raw|vs|ms]; try (by eexists _, _).
  - destruct b; by eexists _, _.
  - simpl in *. destruct lit as [|c r]; [done|]. eexists _, _. split; [done|]. apply bool_decide_eq_true in Hw.
    unfold number, unsigned in Hw. revert Hw. all_bytes c; try done; intros; by split.
Qed.

(** The parser reads back what is printed. *)
Lemma parse_render v : reads_back v.
Proof.
  induction v as [|b|lit|raw|vs IH|ms IH] using value_nested_ind; intros levels n x Hw Hx Hn;
    (destruct n as [|n]; [lia|]).
  - done.
  - by destruct b.
  - simpl in Hw. destruct lit as [|c r]; [done|]. apply bool_decide_eq_true in Hw.
    pose proof (number_head _ _ _ Hw) as (H1 & H2 & H3 & H4 & H5 & H6 & H7).
    change (render (VNum (String c r))) with (String c r). rewrite sapp_cons.
    cbn [parse_value skip]. rewrite H1, H2, H3, H4, H5, H6, H7.
    apply number_local in Hw as (p & Hp & Hr). rewrite sapp_nil_r in Hp. subst p.
    rewrite Hr by by apply ended_stops. cbn [mbind option_bind]. by rewrite <-sapp_cons, taken_app.
  - change (render (VStr raw)) with (in_quotes raw). rewrite member_text. cbn [parse_value].
    change (skip (String dquote ?y)) with (String dquote y). cbv iota beta.
    change (Ascii.eqb dquote dquote) with true. cbv iota. by rewrite str_ok_read.
  - simpl in Hw. apply andb_true_iff in Hw as [Hl Hw]. apply Z.ltb_lt in Hl.
    change (render (VArr vs)) with (enclosed "[" "]" (map render vs)) in *. rewrite enclosed_text.
    rewrite enclosed_length in Hn. cbn [parse_value]. change (skip (String "[" ?y)) with (String "[" y).
    cbn -[parse_elements skip map String.concat]. destruct (Z.leb_spec levels 0); [lia|].
    destruct vs as [|v vs]; [done|].
    assert (Hsk : exists c r, String.concat "," (map render (v :: vs)) +:+ String "]" x = String c r /\
      isSpace c = false /\ Ascii.eqb c "]" = false).
    { simpl in Hw. apply andb_true_iff in Hw as [Hv _]. apply render_first in Hv as (c & r & Hc & Hs).
      destruct (concat_head (map render (v :: vs)) (render v) (map render vs) eq_refl) as [u ->].
      rewrite Hc, sapp_assoc, sapp_cons. by eexists _, _. }
    destruct Hsk as (c & r & Hc & Hs & Hb). rewrite Hc. cbn [skip]. rewrite Hs, Hb, <-Hc.
    by rewrite elements_back by (done || lia).
  - simpl in Hw. apply andb_true_iff in Hw as [Hl Hw]. apply Z.ltb_lt in Hl.
    change (render (VObj ms)) with (enclosed "{" "}" (map render_member ms)) in *. rewrite enclosed_text.
    rewrite enclosed_length in Hn. cbn [parse_value]. change (skip (String "{" ?y)) with (String "{" y).
    cbn -[parse_members skip map String.concat]. destruct (Z.leb_spec levels 0); [lia|].
    destruct ms as [|m ms]; [done|].
    assert (Hsk : exists r, String.concat "," (map render_member (m :: ms)) +:+ String "}" x = String dquote r).
    { destruct (concat_head (map render_member (m :: ms)) (render_member m) (map render_member ms) eq_refl) as [u ->].
      unfold render_member. rewrite !sapp_assoc, member_text. by eexists. }
    destruct Hsk as (r & Hc). rewrite Hc. change (skip (String dquote r)) with (String dquote r). cbv iota beta.
    change (Ascii.eqb dquote "}") with false. cbv iota. rewrite <-Hc.
    by rewrite members_back by (done || lia).
Qed.

Lemma parse_within_render levels v : wf levels v = true -> parse_within levels (render v) = Some (printed v).
Proof.
  intros Hw. unfold parse_within, enough. rewrite <-(sapp_nil_r (render v)) at 2.
  by rewrite parse_render by (done || lia).
Qed.
Lemma parse_within_wf levels s v : parse_within levels s = Some v -> wf levels v = true.
Proof.
  unfold parse_within. destruct (parse_value _ _ _) as [[v' r]|] eqn:E; [|done]. cbn.
  destruct (skip r); [|done]. intros [= <-]. by apply parse_wf in E.
Qed.

(** ** Strings *)

Definition byte_in (lo hi : Z) (c : ascii) : bool := (lo <=? code c) && (code c <=? hi).
(** The second byte of a UTF-8 sequence that starts with [a]. *)
Definition second_ok (a b : ascii) : bool :=
  let x := code a in
  byte_in (if x =? 224 then 160 else if x =? 240 then 144 else 128)
          (if x =? 237 then 159 else if x =? 244 then 143 else 191) b.
Definition continues (c : ascii) : bool := byte_in 128 191 c.

(** The size of the UTF-8 sequence at the head, [0] when it is not one
    ([utf8.DecodeRune] answers [RuneError] of width 1). *)
Definition rune_size (s : string) : nat :=
  match s with
  | EmptyString => O
  | String a r =>
      if code a <? 128 then 1%nat
      else if byte_in 194 223 a then
        match r with String b _ => if continues b then 2%nat else O | _ => O end
      else if byte_in 224 239 a then
        match r with
        | String b (String c _) => if second_ok a b && continues c then 3%nat else O
        | _ => O
        end
      else if byte_in 240 244 a then
        match r with
        | String b (String c (String d _)) => if second_ok a b && continues c && continues d then 4%nat else O
        | _ => O
        end
      else O
  end.

Definition bytes (l : list Z) : string := string_of_list_ascii (map (fun z => ascii_of_nat (Z.to_nat z)) l).
Definition RuneError : string := bytes [239; 191; 189].

Definition hex_digit (n : Z) : ascii := ascii_of_nat (Z.to_nat (if n <? 10 then 48 + n else 87 + n)).
(** [\u00XX], and the escapes with a letter. *)
Definition u_escape (hi lo : Z) : string :=
  "\u" +:+ String (hex_digit (hi / 16)) (String (hex_digit (hi mod 16))
    (String (hex_digit (lo / 16)) (String (hex_digit (lo mod 16)) EmptyString))).
Definition is_html (c : ascii) : bool := is_one_of ["<"; ">"; "&"]%char c.
Definition escape_byte (c : ascii) : string :=
  let n := code c in
  if Ascii.eqb c "\" || Ascii.eqb c dquote then String "\" (String c EmptyString)
  else if n =? 8 then "\b" else if n =? 12 then "\f" else if n =? 10 then "\n"
  else if n =? 13 then "\r" else if n =? 9 then "\t"
  else if (n <? 32) || is_html c then u_escape 0 n
  else String c EmptyString.

(** [appendString], with the escapes for HTML.  The number of bytes of a sequence
    that are still to be copied, or (negative) dropped. *)
Fixpoint escape (todo : Z) (s : string) : string :=
  match s with
  | EmptyString => EmptyString
  | String c r =>
      if 0 <? todo then String c (escape (todo - 1) r)
      else if todo <? 0 then escape (todo + 1) r
      else if code c <? 128 then escape_byte c +:+ escape 0 r
      else match rune_size s with
           | O => "\ufffd" +:+ escape 0 r
           | n =>
               match r with
               | String b (String d _) =>
                   if (code c =? 226) && (code b =? 128) && ((code d =? 168) || (code d =? 169))
                   then u_escape 32 (code d - 128) +:+ escape (-2) r
                   else String c (escape (Z.of_nat n - 1) r)
               | _ => String c (escape (Z.of_nat n - 1) r)
               end
           end
  end.
Definition quote (s : string) : string := escape 0 s.

(** UTF-8 of a code point. *)
Definition encode_rune (r : Z) : string :=
  if r <? 128 then bytes [r]
  else if r <? 2048 then bytes [192 + r / 64; 128 + r mod 64]
  else if r <? 65536 then bytes [224 + r / 4096; 128 + r / 64 mod 64; 128 + r mod 64]
  else bytes [240 + r / 262144; 128 + r / 4096 mod 64; 128 + r / 64 mod 64; 128 + r mod 64].

Definition hex_value (c : ascii) : Z :=
  let n := code c in if n <? 58 then n - 48 else if n <? 71 then n - 55 else n - 87.
Definition hex4 (a b c d : ascii) : Z :=
  ((hex_value a * 16 + hex_value b) * 16 + hex_value c) * 16 + hex_value d.
Definition high_surrogate (r : Z) : bool := (55296 <=? r) && (r <? 56320).
Definition low_surrogate (r : Z) : bool := (56320 <=? r) && (r <? 57344).

(** [unquote], on the raw body of a string that lexes: escapes are read, and what
    is not UTF-8 becomes [RuneError]. *)
Fixpoint unescape (todo : nat) (s : string) : string :=
  match s with
  | EmptyString => EmptyString
  | String c r =>
      match todo with
      | S n => String c (unescape n r)
      | O =>
          if Ascii.eqb c "\" then
            match r with
            | EmptyString => EmptyString
            | String e r1 =>
                match e with
                | "b"%char => String (ascii_of_nat 8) (unescape 0 r1)
                | "f"%char => String (ascii_of_nat 12) (unescape 0 r1)
                | "n"%char => String (ascii_of_nat 10) (unescape 0 r1)
                | "r"%char => String (ascii_of_nat 13) (unescape 0 r1)
                | "t"%char => String (ascii_of_nat 9) (unescape 0 r1)
                | "u"%char =>
                    match r1 with
                    | String h1 (String h2 (String h3 (String h4 r2))) =>
                        let u := hex4 h1 h2 h3 h4 in
                        if high_surrogate u || low_surrogate u then
                          match r2 with
                          | String b1 (String b2 (String k1 (String k2 (String k3 (String k4 r3))))) =>
                              let l := hex4 k1 k2 k3 k4 in
                              if high_surrogate u && Ascii.eqb b1 "\" && Ascii.eqb b2 "u" && low_surrogate l
                              then encode_rune (65536 + (u - 55296) * 1024 + (l - 56320)) +:+ unescape 0 r3
                              else RuneError +:+ unescape 0 r2
                          | _ => RuneError +:+ unescape 0 r2
                          end
                        else encode_rune u +:+ unescape 0 r2
                    | _ => EmptyString
                    end
                | _ => String e (unescape 0 r1)
                end
            end
          else match rune_size s with
               | O => RuneError +:+ unescape 0 r
               | S n => String c (unescape n r)
               end
      end
  end.
Definition unquote (raw : string) : string := unescape 0 raw.

Example quote_example :
  quote (bytes [60; 34; 226; 128; 168; 195; 169; 255; 7]) = "\u003c\" +:+ String dquote ("\u2028" +:+ bytes [195; 169] +:+ "\ufffd\u0007").
Proof. by vm_compute. Qed.
Example unquote_example : unquote "a\u00e9\ud83d\ude00\ud83dx\/" = "a" +:+ bytes [195; 169; 240; 159; 152; 128; 239; 191; 189] +:+ "x/".
Proof. by vm_compute. Qed.

(** Every byte belongs to a UTF-8 sequence. *)
Fixpoint utf8_valid (todo : nat) (s : string) : bool :=
  match s with
  | EmptyString => bool_decide (todo = O)
  | String c r =>
      match todo with
      | S n => utf8_valid n r
      | O => match rune_size s with O => false | S n => utf8_valid n r end
      end
  end.

(** Bytes beyond ASCII. *)
Fixpoint high (u : string) : bool :=
  match u with String c u' => (128 <=? code c) && high u' | EmptyString => true end.
Lemma continues_high c : continues c = true -> (128 <=? code c) = true.
Proof. unfold continues, byte_in. by intros [? _]%andb_true_iff. Qed.
Lemma second_high a b : second_ok a b = true -> (128 <=? code b) = true.
Proof.
  unfold second_ok, byte_in. intros [H _]%andb_true_iff. apply Z.leb_le in H. apply Z.leb_le.
  revert H. repeat case_match; lia.
Qed.

(** The sequence at the head is decided by its bytes. *)
Lemma rune_shape a r n : rune_size (String a r) = S n ->
  exists u v, r = u +:+ v /\ String.length u = n /\ (forall v', rune_size (String a (u +:+ v')) = S n) /\
    high u = true.
Proof.
  cbn [rune_size]. destruct (code a <? 128) eqn:E1.
  { intros [= <-]. exists EmptyString, r. by split_and!. }
  destruct (byte_in 194 223 a) eqn:E2.
  { destruct r as [|b r]; [done|]. destruct (continues b) eqn:Eb; [|done]. intros [= <-].
    exists (String b EmptyString), r. split_and!; [done..| |].
    - intros v'. rewrite sapp_char. by rewrite Eb.
    - simpl. by rewrite continues_high. }
  destruct (byte_in 224 239 a) eqn:E3.
  { destruct r as [|b [|c r]]; [done..|]. destruct (second_ok a b && continues c) eqn:Eb; [|done]. intros [= <-].
    exists (String b (String c EmptyString)), r. split_and!; [done..| |].
    - intros v'. rewrite !sapp_cons. cbv iota beta. by rewrite Eb.
    - apply andb_true_iff in Eb as [Hb Hc]. simpl. by rewrite (second_high a b), (continues_high c). }
  destruct (byte_in 240 244 a) eqn:E4; [|done].
  destruct r as [|b [|c [|d r]]]; [done..|]. destruct (second_ok a b && continues c && continues d) eqn:Eb; [|done].
  intros [= <-]. exists (String b (String c (String d EmptyString))), r. split_and!; [done..| |].
  - intros v'. rewrite !sapp_cons. cbv iota beta. by rewrite Eb.
  - apply andb_true_iff in Eb as [[Hb Hc]%andb_true_iff Hd]. simpl.
    by rewrite (second_high a b), (continues_high c), (continues_high d).
Qed.

Lemma escape_copy u v : escape (Z.of_nat (String.length u)) (u +:+ v) = u +:+ escape 0 v.
Proof.
  induction u as [|c u IH]; [done|]. rewrite !sapp_cons. cbn [escape].
  change (String.length (String c u)) with (S (String.length u)).
  destruct (Z.ltb_spec 0 (Z.of_nat (S (String.length u)))); [|lia].
  replace (Z.of_nat (S (String.length u)) - 1) with (Z.of_nat (String.length u)) by lia. by rewrite IH.
Qed.
Lemma unescape_copy u v : unescape (String.length u) (u +:+ v) = u +:+ unescape 0 v.
Proof. induction u as [|c u IH]; [done|]. rewrite !sapp_cons. cbn [unescape String.length]. by rewrite IH. Qed.
Lemma utf8_valid_app u v : utf8_valid (String.length u) (u +:+ v) = utf8_valid 0 v.
Proof. induction u as [|c u IH]; [done|]. rewrite !sapp_cons. cbn [utf8_valid String.length]. by rewrite IH. Qed.

(** One step of [escape]: an ASCII byte, no sequence, or a sequence that is copied
    or escaped as a whole. *)
Lemma escape_cases c r :
  let s := String c r in
  (code c < 128 /\ escape 0 s = escape_byte c +:+ escape 0 r) \/
  (128 <= code c /\ rune_size s = O /\ escape 0 s = "\ufffd" +:+ escape 0 r) \/
  (exists u v, 128 <= code c /\ r = u +:+ v /\ high u = true /\
     (forall v', rune_size (String c (u +:+ v')) = S (String.length u)) /\
     (escape 0 s = String c (u +:+ escape 0 v) \/
      exists d, (code d = 168 \/ code d = 169) /\ String c u = bytes [226; 128; code d] /\
        escape 0 s = u_escape 32 (code d - 128) +:+ escape 0 v)).
Proof.
  intros s. subst s. cbn [escape]. change (0 <? 0) with false. cbv iota. destruct (Z.ltb_spec (code c) 128); [by left|]. right.
  destruct (rune_size (String c r)) as [|n] eqn:En; [by left|]. right.
  destruct (rune_shape _ _ _ En) as (u & v & -> & <- & Hu & Hh). exists u, v. split_and!; [done..|].
  assert (Hcopy : String c (escape (Z.of_nat (S (String.length u)) - 1) (u +:+ v)) = String c (u +:+ escape 0 v)).
  { replace (Z.of_nat (S (String.length u)) - 1) with (Z.of_nat (String.length u)) by lia. by rewrite escape_copy. }
  destruct u as [|b u]; [left; destruct v as [|b [|d v]]; try exact Hcopy|].
  { exfalso. specialize (Hu EmptyString). cbn [rune_size] in Hu. destruct (Z.ltb_spec (code c) 128); [lia|].
    by repeat case_match. }
  destruct u as [|d u]; [rewrite !sapp_cons in *|].
  { left. change (EmptyString +:+ v) with v in *. destruct v as [|d v]; [exact Hcopy|].
    destruct ((code c =? 226) && (code b =? 128) && ((code d =? 168) || (code d =? 169))) eqn:Et; [|exact Hcopy].
    exfalso. specialize (Hu EmptyString). rewrite sapp_nil_r in Hu. reflect_bools. cbn [rune_size] in Hu.
    unfold byte_in in Hu. replace (code c) with 226 in Hu by done. cbn in Hu. by repeat case_match. }
  rewrite !sapp_cons in *. destruct (_ && _ && _) eqn:Et; [|left; exact Hcopy]. right. exists d.
  apply andb_true_iff in Et as [[Hc Hb]%andb_true_iff Hd]. apply orb_true_iff in Hd. reflect_bools.
  assert (Hlen : u = EmptyString).
  { specialize (Hu EmptyString). rewrite sapp_nil_r in Hu. cbn [rune_size] in Hu. unfold byte_in in Hu.
    replace (code c) with 226 in Hu by done. cbv -[second_ok continues andb String.length] in Hu.
    destruct (second_ok c b && continues d); [|discriminate Hu]. destruct u; [done|discriminate Hu]. }
  subst u. change (EmptyString +:+ v) with v. split_and!.
  - rewrite !Z.eqb_eq in Hd. done.
  - unfold bytes. simpl. unfold code in *. rewrite Nat2Z.id, ascii_nat_embedding.
    rewrite <-(ascii_nat_embedding c), <-(ascii_nat_embedding b).
    by replace (nat_of_ascii c) with 226%nat by lia; replace (nat_of_ascii b) with 128%nat by lia.
  - done.
Qed.

Lemma str_body_high u t : high u = true -> str_body (u +:+ t) = prepend u (str_body t).
Proof.
  induction u as [|c u IH]; intros Hu; [change (EmptyString +:+ t) with t; by destruct (str_body t) as [[]|]|]. simpl in Hu.
  apply andb_true_iff in Hu as [Hc Hu]. rewrite sapp_cons.
  assert (E : forall x, str_body (String c x) = prepend (String c EmptyString) (str_body x)).
  { intros x. revert Hc. all_bytes c; discriminate. }
  rewrite E, IH by done. by destruct (str_body t) as [[]|].
Qed.

Lemma str_body_escape_byte c t : code c < 128 ->
  str_body (escape_byte c +:+ t) = prepend (escape_byte c) (str_body t).
Proof. intros Hc. destruct c as [[] [] [] [] [] [] [] []]; solve [reflexivity|by vm_compute in Hc]. Qed.

Lemma prepend_app a b x : prepend (a +:+ b) x = prepend a (prepend b x).
Proof. destruct x as [[t r]|]; [|done]. cbn. by rewrite sapp_assoc. Qed.

Lemma quote_ok s : str_ok (quote s) = true.
Proof.
  apply bool_decide_eq_true. enough (H : forall n s t, (String.length s <= n)%nat ->
    str_body (quote s +:+ String dquote t) = Some (quote s, t)) by by eapply H.
  clear s. induction n as [|n IH]; intros [|c r] t Hn; try done; simpl in Hn; [lia|]. unfold quote in *.
  destruct (escape_cases c r) as [[Hc ->]|[(Hc & _ & ->)|(u & v & Hc & -> & Hh & _ & Hu)]].
  - rewrite sapp_assoc, str_body_escape_byte, IH by (done || lia). done.
  - rewrite sapp_assoc. change (str_body ("\ufffd" +:+ ?x)) with (prepend "\ufffd" (str_body x)).
    by rewrite IH by lia.
  - rewrite length_sapp in Hn.
    assert (Hcu : high (String c u) = true) by (simpl; rewrite Hh, andb_true_r; by apply Z.leb_le).
    destruct Hu as [->|(d & Hd & _ & ->)].
    + rewrite <-sapp_cons, sapp_assoc, str_body_high, IH by (done || lia). done.
    + rewrite sapp_assoc.
      assert (E : forall x, str_body (u_escape 32 (code d - 128) +:+ x) =
        prepend (u_escape 32 (code d - 128)) (str_body x)) by (by destruct Hd as [-> | ->]).
      by rewrite E, IH by lia.
Qed.

Lemma unescape_escape_byte c t : code c < 128 -> unescape 0 (escape_byte c +:+ t) = String c (unescape 0 t).
Proof. intros Hc. destruct c as [[] [] [] [] [] [] [] []]; solve [reflexivity|by vm_compute in Hc]. Qed.

(** UTF-8 text comes back as it was. *)
Lemma unquote_quote s : utf8_valid 0 s = true -> unquote (quote s) = s.
Proof.
  enough (H : forall n s, (String.length s <= n)%nat -> utf8_valid 0 s = true -> unquote (quote s) = s)
    by by eapply H. unfold unquote, quote.
  clear s. induction n as [|n IH]; intros [|c r] Hn Hv; try done; simpl in Hn; [lia|].
  destruct (escape_cases c r) as [[Hc ->]|[(Hc & H0 & ->)|(u & v & Hc & -> & Hh & Hs & Hu)]].
  - cbn [utf8_valid] in Hv. rewrite unescape_escape_byte by done. f_equal. apply IH; [lia|].
    cbn [rune_size] in Hv. by destruct (Z.ltb_spec (code c) 128); [|lia].
  - cbn [utf8_valid] in Hv. by rewrite H0 in Hv.
  - rewrite length_sapp in Hn. cbn [utf8_valid] in Hv. rewrite Hs, utf8_valid_app in Hv.
    specialize (IH v ltac:(lia) Hv). destruct Hu as [->|(d & Hd & Eu & ->)].
    + cbn [unescape]. assert (Ascii.eqb c "\" = false) as ->.
      { destruct (Ascii.eqb_spec c "\") as [->|]; [by vm_compute in Hc|done]. }
      by rewrite Hs, unescape_copy, IH.
    + assert (E : forall x, unescape 0 (u_escape 32 (code d - 128) +:+ x) = bytes [226; 128; code d] +:+ unescape 0 x)
        by (by destruct Hd as [-> | ->]).
      by rewrite E, IH, <-Eu.
Qed.

(** ** Embedding a text that is JSON already *)

(** The escapes for HTML in a raw string; what else it holds is kept. *)
Fixpoint html (s : string) : string :=
  match s with
  | EmptyString => EmptyString
  | String c r =>
      if is_html c then u_escape 0 (code c) +:+ html r
      else match r with
           | String b (String d r') =>
               if (code c =? 226) && (code b =? 128) && ((code d =? 168) || (code d =? 169))
               then u_escape 32 (code d - 128) +:+ html r' else String c (html r)
           | _ => String c (html r)
           end
  end.
Fixpoint escaped (v : value) : value :=
  match v with
  | VStr raw => VStr (html raw)
  | VArr vs => VArr (map escaped vs)
  | VObj ms => VObj (map (fun m => (html m.1, (m.2.1, escaped m.2.2))) ms)
  | _ => v
  end.
(** [appendCompact] with [escapeHTML], on a valid text. *)
Definition compact (text : string) : option string := v ← parse text; Some (render (escaped v)).

Example compact_example :
  compact (dquoted " {'a' : [1 , '<b>'] } ") = Some (dquoted "{'a':[1,'\u003cb\u003e']}").
Proof. by vm_compute. Qed.

(** A byte that [html] keeps. *)
Lemma html_keep c r : is_html c = false -> (code c =? 226) = false -> html (String c r) = String c (html r).
Proof. intros H1 H2. cbn [html]. rewrite H1, H2. destruct r as [|b [|d r]]; done. Qed.

Lemma str_body_u_escape hi lo x : 0 <= hi < 256 -> 0 <= lo < 256 ->
  str_body (u_escape hi lo +:+ x) = prepend (u_escape hi lo) (str_body x).
Proof.
  intros H1 H2. unfold u_escape.
  assert (Hh : forall n, 0 <= n < 16 -> isHex (hex_digit n) = true).
  { intros n Hn. replace n with (Z.of_nat (Z.to_nat n)) by lia. assert (Hk : (Z.to_nat n < 16)%nat) by lia.
    revert Hk. generalize (Z.to_nat n). intros k Hk. do 16 (destruct k as [|k]; [reflexivity|]). lia. }
  change (str_body (("\u" +:+ ?y) +:+ x)) with (str_body (String "\" (String "u" (y +:+ x)))).
  rewrite !sapp_cons. change (EmptyString +:+ x) with x.
  pose proof (Hh (hi / 16) ltac:(Z.to_euclidean_division_equations; lia)) as Ha.
  pose proof (Hh (hi mod 16) ltac:(apply Z.mod_pos_bound; lia)) as Hb.
  pose proof (Hh (lo / 16) ltac:(Z.to_euclidean_division_equations; lia)) as Hc.
  pose proof (Hh (lo mod 16) ltac:(apply Z.mod_pos_bound; lia)) as Hd.
  cbn [str_body]. change (Ascii.eqb "\" dquote) with false. change (Ascii.eqb "\" "\") with true. cbv iota.
  change (is_one_of escapes "u") with false. change (Ascii.eqb "u" "u") with true. cbv iota.
  by rewrite Ha, Hb, Hc, Hd.
Qed.

Lemma code_range c : 0 <= code c < 256.
Proof. unfold code. pose proof (nat_ascii_bounded c). lia. Qed.

Lemma html_ok_body (n : nat) : forall s raw r, (String.length s <= n)%nat -> str_body s = Some (raw, r) ->
  forall t, str_body (html raw +:+ String dquote t) = Some (html raw, t).
Proof.
  induction n as [|n IH]; intros [|c s] raw r Hn; try done; simpl in Hn; [lia|]. cbn [str_body].
  destruct (Ascii.eqb_spec c dquote) as [->|Hq]; [by intros [= <- <-]|]. apply Ascii.eqb_neq in Hq.
  destruct (Ascii.eqb_spec c "\") as [->|Hb].
  - destruct s as [|e s]; [done|]. simpl in Hn. destruct (is_one_of escapes e) eqn:Ee.
    { intros (a & H & ->)%prepend_Some t. change (String "\" (String e EmptyString) +:+ a) with (String "\" (String e a)).
      assert (He : is_html e = false /\ (code e =? 226) = false).
      { revert Ee. all_bytes e; try discriminate; by split. }
      destruct He as [He1 He2]. rewrite !html_keep by done. rewrite !sapp_cons. cbn [str_body].
      change (Ascii.eqb "\" dquote) with false. change (Ascii.eqb "\" "\") with true. cbv iota. rewrite Ee.
      rewrite (fun Hl => IH _ _ _ Hl H) by lia. done. }
    destruct (Ascii.eqb_spec e "u") as [->|]; [|done]. destruct s as [|h1 [|h2 [|h3 [|h4 s]]]]; try done. simpl in Hn.
    destruct (isHex h1 && isHex h2 && isHex h3 && isHex h4) eqn:Eh; [|done].
    intros (a & H & ->)%prepend_Some t.
    change (String "\" (String "u" (String h1 (String h2 (String h3 (String h4 EmptyString))))) +:+ a)
      with (String "\" (String "u" (String h1 (String h2 (String h3 (String h4 a)))))).
    assert (Hx : forall h, isHex h = true -> is_html h = false /\ (code h =? 226) = false).
    { intros h. all_bytes h; try discriminate; by split. }
    pose proof Eh as [[[H1 H2]%andb_true_iff H3]%andb_true_iff H4]%andb_true_iff.
    destruct (Hx _ H1), (Hx _ H2), (Hx _ H3), (Hx _ H4). rewrite !html_keep by done. rewrite !sapp_cons.
    cbn [str_body]. change (Ascii.eqb "\" dquote) with false. change (Ascii.eqb "\" "\") with true. cbv iota.
    change (is_one_of escapes "u") with false. change (Ascii.eqb "u" "u") with true. cbv iota.
    rewrite Eh. rewrite (fun Hl => IH _ _ _ Hl H) by lia. done.
  - apply Ascii.eqb_neq in Hb. destruct (code c <? 32) eqn:Ec; [done|].
    intros (a & H & ->)%prepend_Some t. change (String c EmptyString +:+ a) with (String c a).
    assert (Hplain : str_body (String c (html a) +:+ String dquote t) = Some (String c (html a), t)).
    { rewrite sapp_cons. cbn [str_body]. rewrite Hq, Hb, Ec. rewrite (fun Hl => IH _ _ _ Hl H) by lia. done. }
    pose proof (code_range c). cbn [html]. destruct (is_html c) eqn:Eht.
    { rewrite sapp_assoc, str_body_u_escape by lia. rewrite (fun Hl => IH _ _ _ Hl H) by lia. done. }
    destruct a as [|b [|d a]]; [exact Hplain..|]. destruct (_ && _ && _) eqn:Et; [|exact Hplain].
    apply andb_true_iff in Et as [[_ Eb]%andb_true_iff Ed]. apply orb_true_iff in Ed. rewrite !Z.eqb_eq in Ed.
    apply Z.eqb_eq in Eb. pose proof H as [-> _]%(str_body_app _ _ _ _ (le_n _)).
    assert (H' : str_body (a +:+ String dquote r) = Some (a, r)).
    { revert H. rewrite !sapp_cons. cbn [str_body].
      assert (Hhi : forall h, 128 <= code h -> Ascii.eqb h dquote = false /\ Ascii.eqb h "\" = false /\ (code h <? 32) = false).
      { intros h. destruct (Ascii.eqb_spec h dquote) as [->|]; [by vm_compute|].
        destruct (Ascii.eqb_spec h "\") as [->|]; [by vm_compute|]. intros. split_and!; [done..|]. apply Z.ltb_ge. lia. }
      destruct (Hhi b ltac:(lia)) as (-> & -> & ->), (Hhi d ltac:(lia)) as (-> & -> & ->).
      intros (x & (y & Hy & ->)%prepend_Some & E)%prepend_Some. rewrite !sapp_char in E. injection E as ->. exact Hy. }
    rewrite sapp_assoc, str_body_u_escape by lia. rewrite !sapp_cons in Hn. simpl in Hn.
    rewrite (fun Hl => IH _ _ _ Hl H') by lia. done.
Qed.

Lemma html_ok raw : str_ok raw = true -> str_ok (html raw) = true.
Proof. intros H%bool_decide_eq_true. apply bool_decide_eq_true. by eapply html_ok_body. Qed.

Lemma wf_escaped v : forall levels, wf levels v = true -> wf levels (escaped v) = true.
Proof.
  induction v as [|b|lit|raw|vs IH|ms IH] using value_nested_ind; intros levels Hw; simpl in *; try done.
  - by apply html_ok.
  - apply andb_true_iff in Hw as [-> Hw]. simpl. induction IH as [|v vs Hv _ IHvs]; [done|]. simpl in *.
    apply andb_true_iff in Hw as [H1 H2]. by rewrite Hv, IHvs.
  - apply andb_true_iff in Hw as [-> Hw]. simpl. induction IH as [|m ms Hv _ IHms]; [done|]. simpl in *.
    apply andb_true_iff in Hw as [[Hk H1]%andb_true_iff H2]. by rewrite html_ok, Hv, IHms.
Qed.

(** Text that went through once is left as it is. *)
Lemma html_u_escape hi lo x : 0 <= hi < 256 -> 0 <= lo < 256 -> html (u_escape hi lo +:+ x) = u_escape hi lo +:+ html x.
Proof.
  intros H1 H2. unfold u_escape.
  assert (Hh : forall n, 0 <= n < 16 -> is_html (hex_digit n) = false /\ (code (hex_digit n) =? 226) = false).
  { intros n Hn. replace n with (Z.of_nat (Z.to_nat n)) by lia. assert (Hk : (Z.to_nat n < 16)%nat) by lia.
    revert Hk. generalize (Z.to_nat n). intros k Hk. do 16 (destruct k as [|k]; [by split|]). lia. }
  change (("\u" +:+ ?y) +:+ x) with (String "\" (String "u" (y +:+ x))).
  rewrite !sapp_cons. change (EmptyString +:+ x) with x. change (EmptyString +:+ html x) with (html x).
  destruct (Hh (hi / 16) ltac:(Z.to_euclidean_division_equations; lia)).
  destruct (Hh (hi mod 16) ltac:(apply Z.mod_pos_bound; lia)).
  destruct (Hh (lo / 16) ltac:(Z.to_euclidean_division_equations; lia)).
  destruct (Hh (lo mod 16) ltac:(apply Z.mod_pos_bound; lia)).
  by rewrite !html_keep.
Qed.

(** What does not start an escape was there before. *)
Lemma html_first r b t : html r = String b t -> b <> "\"%char -> exists r', r = String b r' /\ t = html r'.
Proof.
  destruct r as [|c r]; [done|]. cbn [html]. intros Hr Hb.
  destruct (is_html c); [by injection Hr as <- _|].
  destruct r as [|b' [|d r]]; [|by injection Hr as <- <-; eexists..|]; [injection Hr as <- <-; by eexists|].
  destruct (_ && _ && _); [by injection Hr as <- _|]. injection Hr as <- <-. by eexists.
Qed.

Lemma html_pair c b d t : is_html c = false ->
  html (String c (String b (String d t))) =
    if (code c =? 226) && (code b =? 128) && ((code d =? 168) || (code d =? 169))
    then u_escape 32 (code d - 128) +:+ html t else String c (html (String b (String d t))).
Proof. intros Hc. cbn [html]. by rewrite Hc. Qed.

Lemma html_idem s : html (html s) = html s.
Proof.
  enough (H : forall n s, (String.length s <= n)%nat -> html (html s) = html s) by by eapply H.
  clear s. intros n. induction n as [|n IH]; intros [|c s] Hn; try done; simpl in Hn; [lia|].
  pose proof (code_range c). cbn [html]. destruct (is_html c) eqn:Eh.
  { by rewrite html_u_escape, IH by lia. }
  assert (Hkeep : (forall b d s', s = String b (String d s') ->
      (code c =? 226) && (code b =? 128) && ((code d =? 168) || (code d =? 169)) = false) ->
    html (String c (html s)) = String c (html s)).
  { intros Hno. assert (Hs : html (html s) = html s) by (apply IH; lia).
    destruct (code c =? 226) eqn:Ec; [|by rewrite html_keep, Hs].
    destruct (html s) as [|b [|d t]] eqn:Et; [by cbn [html]; rewrite Eh|by rewrite <-Hs at 2; cbn [html]; rewrite Eh|].
    rewrite html_pair by done. rewrite Ec. cbn [andb]. destruct (code b =? 128) eqn:Eb; cbn [andb]; [|by rewrite Hs].
    destruct ((code d =? 168) || (code d =? 169)) eqn:Ed; [|by rewrite Hs]. exfalso.
    apply html_first in Et as (s1 & -> & Et); [|intros ->; by vm_compute in Eb].
    symmetry in Et. apply html_first in Et as (s2 & -> & _); [|intros ->; by vm_compute in Ed].
    specialize (Hno b d s2 eq_refl). by rewrite Eb, Ed in Hno. }
  destruct s as [|b [|d s]]; [by apply Hkeep..|].
  destruct (_ && _ && _) eqn:E; [|by apply Hkeep; intros ??? [= <- <- <-]].
  apply andb_true_iff in E as [_ Ed]. apply orb_true_iff in Ed. rewrite !Z.eqb_eq in Ed.
  rewrite html_u_escape, IH by (simpl in *; lia). done.
Qed.

Lemma escaped_idem v : escaped (escaped v) = escaped v.
Proof.
  induction v as [|b|lit|raw|vs IH|ms IH] using value_nested_ind; simpl; try done.
  - by rewrite html_idem.
  - f_equal. rewrite map_map. by apply map_ext_Forall.
  - f_equal. rewrite map_map. apply map_ext_Forall. eapply Forall_impl; [exact IH|]. intros m Hm. simpl.
    by rewrite html_idem, Hm.
Qed.

Lemma render_escaped_printed v : render (escaped (printed v)) = render (escaped v).
Proof.
  induction v as [|b|lit|raw|vs IH|ms IH] using value_nested_ind; simpl; try done.
  - f_equal. rewrite !map_map. by apply map_ext_Forall.
  - f_equal. rewrite !map_map. apply map_ext_Forall. eapply Forall_impl; [exact IH|]. intros m Hm. simpl. by rewrite Hm.
Qed.

(** More levels change nothing. *)
Lemma parse_more_levels n : forall l l', l <= l' ->
  (forall s x, parse_value n l s = Some x -> parse_value n l' s = Some x) /\
  (forall s x, parse_elements n l s = Some x -> parse_elements n l' s = Some x) /\
  (forall s x, parse_members n l s = Some x -> parse_members n l' s = Some x).
Proof.
  induction n as [|n IH]; intros l l' Hl; [done|]. split_and!; intros s x.
  - cbn [parse_value]. destruct (skip s) as [|c r]; [done|]. destruct (Ascii.eqb c dquote); [done|].
    destruct (Z.leb_spec l 0) as [|Hpos]; [by repeat case_match|]. destruct (Z.leb_spec l' 0); [lia|].
    destruct (Ascii.eqb c "{").
    { destruct (skip r) as [|c' r']; [done|]. destruct (Ascii.eqb c' "}"); [done|].
      destruct (parse_members n (l - 1) _) as [y|] eqn:E; [|done].
      by rewrite (proj2 (proj2 (IH (l - 1) (l' - 1) ltac:(lia))) _ _ E). }
    destruct (Ascii.eqb c "["); [|done].
    destruct (skip r) as [|c' r']; [done|]. destruct (Ascii.eqb c' "]"); [done|].
    destruct (parse_elements n (l - 1) _) as [y|] eqn:E; [|done].
    by rewrite (proj1 (proj2 (IH (l - 1) (l' - 1) ltac:(lia))) _ _ E).
  - cbn [parse_elements]. destruct (parse_value n l s) as [[v r]|] eqn:E; [|done].
    rewrite (proj1 (IH l l' Hl) _ _ E). cbn [mbind option_bind]. destruct (skip r) as [|c r1]; [done|].
    destruct (Ascii.eqb c ","); [|done]. destruct (parse_elements n l r1) as [y|] eqn:E'; [|done].
    by rewrite (proj1 (proj2 (IH l l' Hl)) _ _ E').
  - cbn [parse_members]. destruct (skip s) as [|c r]; [done|]. destruct (negb _); [done|].
    destruct (str_body r) as [[k r1]|]; [|done]. cbn [mbind option_bind]. destruct (skip r1) as [|c1 r2]; [done|].
    destruct (negb _); [done|]. destruct (parse_value n l r2) as [[v r3]|] eqn:E; [|done].
    rewrite (proj1 (IH l l' Hl) _ _ E). cbn [mbind option_bind]. destruct (skip r3) as [|c3 r4]; [done|].
    destruct (Ascii.eqb c3 ","); [|done]. destruct (parse_members n l r4) as [y|] eqn:E'; [|done].
    by rewrite (proj2 (proj2 (IH l l' Hl)) _ _ E').
Qed.

Lemma parse_within_more l l' s v : l <= l' -> parse_within l s = Some v -> parse_within l' s = Some v.
Proof.
  intros Hl. unfold parse_within. destruct (parse_value _ l s) as [[v' r]|] eqn:E; [|done].
  by rewrite (proj1 (parse_more_levels _ l l' Hl) _ _ E).
Qed.

(** ** Texts without escapes *)

Definition plain_byte (c : ascii) : bool :=
  (32 <=? code c) && (code c <? 128) && negb (is_one_of [dquote; "\"]%char c).
Definition plain (s : string) : bool := forallb plain_byte (list_ascii_of_string s).

Lemma plain_cons c s : plain (String c s) = plain_byte c && plain s.
Proof. done. Qed.
Lemma plain_app a b : plain (a +:+ b) = plain a && plain b.
Proof. induction a as [|c a IH]; [done|]. by rewrite sapp_cons, !plain_cons, IH, andb_assoc. Qed.

Lemma str_body_plain s r : plain s = true -> str_body (s +:+ String dquote r) = Some (s, r).
Proof.
  induction s as [|c s IH]; [done|]. rewrite plain_cons. intros [Hc Hs]%andb_true_iff. rewrite sapp_cons.
  assert (E : forall x, str_body (String c x) = prepend (String c EmptyString) (str_body x)).
  { intros x. revert Hc. all_bytes c; discriminate. }
  by rewrite E, IH.
Qed.
Lemma plain_ok s : plain s = true -> str_ok s = true.
Proof. intros H. by apply bool_decide_eq_true, str_body_plain. Qed.

Lemma plain_unquote s : plain s = true -> unquote s = s.
Proof.
  unfold unquote. induction s as [|c s IH]; [done|]. rewrite plain_cons. intros [Hc Hs]%andb_true_iff.
  rewrite <-(IH Hs) at 2. revert Hc. all_bytes c; discriminate.
Qed.

(** ** Decimal numbers *)

Fixpoint all_digits (s : string) : bool :=
  match s with String c r => isDigit c && all_digits r | EmptyString => true end.
Lemma skip_all_digits s : all_digits s = true -> skip_digits s = EmptyString.
Proof. induction s as [|c s IH]; [done|]. simpl. intros [-> H]%andb_true_iff. auto. Qed.

Lemma pretty_N_go_digits n : forall s, (n <> 0)%N -> all_digits s = true ->
  exists c r, pretty_N_go n s = String c r /\ isDigit c = true /\ Ascii.eqb c "0" = false /\ all_digits r = true.
Proof.
  assert (Hd : forall k, (k < 10)%N -> isDigit (pretty_N_char k) = true /\ (k <> 0 -> Ascii.eqb (pretty_N_char k) "0" = false)%N).
  { intros k Hk. rewrite <-(N2Nat.id k) in *. generalize dependent (N.to_nat k). clear. intros k Hk.
    do 10 (destruct k as [|k]; [by split; [|intros]|]). lia. }
  induction (N.lt_wf_0 n) as [n _ IH]; intros s Hn Hs. rewrite pretty_N_go_step by lia.
  destruct (Hd (n `mod` 10)%N ltac:(apply N.mod_lt; lia)) as [H1 H2].
  destruct (decide (n `div` 10 = 0)%N) as [E|E].
  - rewrite E, pretty_N_go_0. eexists _, _. split_and!; [done..|apply H2|done].
    intros Hm. pose proof (N.div_mod n 10 ltac:(lia)). lia.
  - apply IH; [apply N.div_lt; lia|done|]. simpl. by rewrite H1, Hs.
Qed.

Lemma pretty_N_number (n : N) : exists c r, pretty n = String c r /\ number c r = Some EmptyString /\ plain (pretty n) = true.
Proof.
  assert (Hp : forall s, all_digits s = true -> plain s = true).
  { induction s as [|c s IHs]; [done|]. simpl. intros [Hc Hs]%andb_true_iff. rewrite plain_cons, IHs by done.
    rewrite andb_true_r. revert Hc. all_bytes c; done. }
  unfold pretty, pretty_N. case_decide as H; [by eexists _, _|].
  destruct (pretty_N_go_digits n EmptyString H eq_refl) as (c & r & -> & Hc & H0 & Hr).
  eexists _, _. split; [done|]. split; [|apply Hp; simpl; by rewrite Hc].
  unfold number, unsigned. assert (Ascii.eqb c "-" = false) as ->.
  { destruct (Ascii.eqb_spec c "-") as [->|]; [discriminate Hc|done]. }
  rewrite H0, Hc, skip_all_digits by done. done.
Qed.

Lemma pretty_number (z : Z) : number_ok (pretty z) = true /\ plain (pretty z) = true.
Proof.
  destruct z as [|p|p]; [done|..].
  - change (pretty (Z.pos p)) with (pretty (N.pos p)).
    destruct (pretty_N_number (N.pos p)) as (c & r & E & Hn & Hp). split; [|done]. rewrite E. by apply bool_decide_eq_true.
  - change (pretty (Z.neg p)) with (String "-" (pretty (N.pos p))).
    destruct (pretty_N_number (N.pos p)) as (c & r & E & Hn & Hp). split; [|by rewrite plain_cons].
    apply bool_decide_eq_true. rewrite E. unfold number. change (Ascii.eqb "-" "-") with true. cbv iota.
    unfold number in Hn. destruct (Ascii.eqb_spec c "-") as [->|]; [|done].
    exfalso. destruct (pretty_N_go_digits (N.pos p) EmptyString ltac:(lia) eq_refl) as (c' & r' & E' & Hc & _).
    unfold pretty, pretty_N in E. case_decide; [lia|]. rewrite E' in E. by injection E as -> _.
Qed.

(** ** Times *)

Lemma fixed_digits_plain k : forall n, plain (fixed_digits k n) = true.
Proof.
  induction k as [|k IH]; intros n; [done|]. cbn [fixed_digits]. rewrite plain_app, IH.
  change (plain_byte (dig n) && true = true). rewrite andb_true_r. unfold dig. pose proof (Z.mod_pos_bound n 10 ltac:(lia)).
  assert (Hk : (Z.to_nat (n mod 10) < 10)%nat) by lia. revert Hk. generalize (Z.to_nat (n mod 10)). intros j Hj.
  do 10 (destruct j as [|j]; [reflexivity|]). lia.
Qed.
Lemma trimmed_plain k : forall n, plain (trimmed k n) = true.
Proof.
  induction k as [|k IH]; intros n; [done|]. cbn [trimmed]. case_match; [apply IH|apply fixed_digits_plain].
Qed.
Lemma date_time_plain t : in_years t = true -> plain (date_time t) = true.
Proof.
  unfold in_years, year_of, date_time. destruct (civil_from_days _) as [[y m] d]. cbn [fst].
  intros [H1 H2]%andb_true_iff. apply Z.leb_le in H1, H2. unfold four_digits.
  destruct (Z.ltb_spec y 0); [lia|]. destruct (Z.ltb_spec y 10000); [|lia].
  unfold two_digits. by rewrite !plain_app, !fixed_digits_plain.
Qed.
Lemma Format_plain t : in_years t = true -> plain (FormatRFC3339 t) = true.
Proof. intros H. unfold FormatRFC3339. by rewrite plain_app, date_time_plain. Qed.
Lemma FormatNano_plain t : in_years t = true -> plain (FormatRFC3339Nano t) = true.
Proof.
  intros H. unfold FormatRFC3339Nano, nanos. rewrite !plain_app, date_time_plain by done.
  case_match; [done|]. by rewrite plain_app, trimmed_plain.
Qed.
