(* ===== verification/Raw.v ===== *)
(** * Raw: the raw texts of members

    A [json.RawMessage] holds the text of a value as it stood in the document
    around it.  The parser of [Decode.v] reads no further than a value, so this
    text parses by itself, to the same value, and nests less deeply than
    the document; [internal/api/server.go] relies on it when it takes the payload
    out of a request body and [internal/job/job.go] when it puts it into an
    envelope. *)

From S2P Require Import Prelude Json Decode Rfc3339 Encode.
Local Open Scope string_scope.
Local Open Scope list_scope.
Local Open Scope Z_scope.

(** ** The parser looks no further than it reads *)

(** It reads a part that is not empty, and reads the same in front of another
    rest. *)
Definition local_parser {A} (f : string -> option (A * string)) : Prop := forall s a r,
  f s = Some (a, r) ->
  exists p, s = p +:+ r /\ p <> EmptyString /\ forall r', stops r r' -> f (p +:+ r') = Some (a, r').

Lemma sapp_nonempty_r (a b : string) : b <> EmptyString -> a +:+ b <> EmptyString.
Proof. by destruct a. Qed.

Lemma skip_local s c r : skip s = String c r ->
  exists w, s = w +:+ String c r /\ forall y, skip (w +:+ String c y) = String c y.
Proof.
  induction s as [|d s IH]; [done|]. cbn [skip]. destruct (isSpace d) eqn:E.
  - intros (w & -> & Hw)%IH. exists (String d w). split; [done|]. intros y. rewrite sapp_cons. cbn [skip].
    by rewrite E.
  - intros [= -> ->]. exists EmptyString. split; [done|]. intros y. change (EmptyString +:+ ?x) with x.
    cbn [skip]. by rewrite E.
Qed.

Lemma literal_local w : forall s r, literal w s = Some r ->
  exists p, s = p +:+ r /\ forall r', literal w (p +:+ r') = Some r'.
Proof.
  induction w as [|x w IH]; intros s r; cbn [literal].
  - intros [= ->]. by exists EmptyString.
  - destruct s as [|c s]; [done|]. destruct (Ascii.eqb x c) eqn:E; [|done]. intros (p & -> & Hp)%IH.
    exists (String c p). split; [done|]. intros r'. rewrite sapp_cons. by rewrite E.
Qed.

Lemma str_body_local s raw r : str_body s = Some (raw, r) ->
  s = raw +:+ String dquote r /\ forall r', str_body (raw +:+ String dquote r') = Some (raw, r').
Proof. apply (str_body_app _ _ _ _ (le_n _)). Qed.

Section steps.
Context (n : nat).

(** A container, given its contents' locality [H]. *)
Ltac container t H Hrest :=
  destruct (_ <=? 0); [done|];
  let Et := fresh "Et" in let c' := fresh "c" in let t' := fresh "t" in let E' := fresh "E" in
  let w' := fresh "w" in let Hw' := fresh "Hw" in let r' := fresh "r" in
  destruct (skip t) as [|c' t'] eqn:Et; [done|];
  apply skip_local in Et as (w' & -> & Hw');
  match goal with |- context [if ?b then _ else _] => destruct b eqn:E' end;
  [ intros [= <- <-]; apply (Hrest (w' +:+ String c' EmptyString)); rewrite sapp_assoc; split; [done|];
    intros r' _; rewrite sapp_assoc;
    change (String c' EmptyString +:+ r') with (String c' r'); by rewrite Hw', E'
  | let xs := fresh "xs" in let r1 := fresh "r" in let E := fresh "E" in let p := fresh "p" in
    let c1 := fresh "c" in let Hr := fresh "Hr" in
    match goal with |- context [mbind _ ?o] => destruct o as [[xs r1]|] eqn:E end; [|done];
    intros [= <- <-]; apply H in E as (p & E & ? & Hr); destruct p as [|c1 p]; [done|];
    rewrite sapp_cons in E; injection E as -> ->; apply (Hrest (w' +:+ String c1 p));
    rewrite sapp_assoc; split; [done|];
    intros r' ?; rewrite sapp_assoc, sapp_cons, Hw', E'; rewrite <-sapp_cons, Hr by done; done ].

Lemma value_local :
  (forall levels, local_parser (parse_elements n levels)) ->
  (forall levels, local_parser (parse_members n levels)) ->
  forall levels, local_parser (parse_value (S n) levels).
Proof.
  intros Hel Hme levels s v r. cbn [parse_value]. destruct (skip s) as [|c t] eqn:Es; [done|].
  apply skip_local in Es as (w & -> & Hw).
  (* what is read behind the first byte *)
  assert (Hrest : forall p, (t = p +:+ r /\ forall r', stops r r' -> parse_value (S n) levels (w +:+ String c (p +:+ r')) = Some (v, r')) ->
    exists p, w +:+ String c t = p +:+ r /\ p <> EmptyString /\
      forall r', stops r r' -> parse_value (S n) levels (p +:+ r') = Some (v, r')).
  { intros p [-> Hp]. exists (w +:+ String c p). rewrite sapp_assoc, sapp_cons.
    split; [done|]. split; [by apply sapp_nonempty_r|]. intros r' Hr. rewrite sapp_assoc, sapp_cons. auto. }
  cbn [parse_value] in Hrest. setoid_rewrite Hw in Hrest.
  destruct (Ascii.eqb c dquote).
  { destruct (str_body t) as [[raw r1]|] eqn:E; [|done]. intros [= <- <-].
    apply str_body_local in E as [-> Hs]. apply (Hrest (raw +:+ String dquote EmptyString)).
    rewrite sapp_assoc. split; [done|]. intros r' _. rewrite sapp_assoc. change (String dquote EmptyString +:+ r') with (String dquote r').
    by rewrite Hs. }
  destruct (Ascii.eqb c "{"); [container t Hme Hrest|]. destruct (Ascii.eqb c "["); [container t Hel Hrest|].
  assert (Hlit : forall l x, (r' ← literal l t; Some (x, r')) = Some (v, r) ->
    exists p, t = p +:+ r /\ forall r', (r'' ← literal l (p +:+ r'); Some (x, r'')) = Some (v, r')).
  { intros l x. destruct (literal l t) as [r1|] eqn:E; [|done]. intros [= -> ->].
    apply literal_local in E as (p & -> & Hp). exists p. split; [done|]. intros r'. by rewrite Hp. }
  destruct (Ascii.eqb c "t"); [intros (p & -> & Hp)%Hlit; apply (Hrest p); by split; [|intros r' _; apply Hp]|].
  destruct (Ascii.eqb c "f"); [intros (p & -> & Hp)%Hlit; apply (Hrest p); by split; [|intros r' _; apply Hp]|].
  destruct (Ascii.eqb c "n"); [intros (p & -> & Hp)%Hlit; apply (Hrest p); by split; [|intros r' _; apply Hp]|].
  destruct (number c t) as [r1|] eqn:E; [|done]. intros [= <- <-].
  apply number_local in E as (p & -> & Hp). apply (Hrest p). split; [done|]. intros r' Hs.
  rewrite Hp by done. cbn [mbind option_bind]. by rewrite <-!sapp_cons, !taken_app.
Qed.
Lemma elements_local :
  (forall levels, local_parser (parse_value n levels)) ->
  (forall levels, local_parser (parse_elements n levels)) ->
  forall levels, local_parser (parse_elements (S n) levels).
Proof.
  intros Hva Hel levels s vs r. cbn [parse_elements].
  destruct (parse_value n levels s) as [[v t]|] eqn:E; [|done]. apply Hva in E as (p & -> & Hp & Hv). cbn.
  destruct (skip t) as [|c t1] eqn:Et; [done|]. apply skip_local in Et as (w & -> & Hw).
  destruct (Ascii.eqb c ",") eqn:Ec.
  - destruct (parse_elements n levels t1) as [[vs' r1]|] eqn:E1; [|done]. intros [= <- <-].
    apply Hel in E1 as (p1 & -> & _ & Hr). exists (p +:+ (w +:+ String c p1)).
    rewrite !sapp_assoc, sapp_cons. split; [done|]. split; [by destruct p|]. intros r' Hs.
    rewrite !sapp_assoc, sapp_cons, Hv by (apply stops_app; by right; eexists). cbn.
    by rewrite Hw, Ec, Hr.
  - destruct (Ascii.eqb c "]") eqn:Ec'; [|done]. intros [= <- <-]. exists (p +:+ (w +:+ String c EmptyString)).
    rewrite !sapp_assoc. split; [done|]. split; [by destruct p|]. intros r' _. rewrite !sapp_assoc.
    change (String c EmptyString +:+ r') with (String c r').
    rewrite Hv by (apply stops_app; by right; eexists). cbn. by rewrite Hw, Ec, Ec'.
Qed.

(** The raw text of a value is what was read, without the space in front. *)
Lemma skip_app a x : skip a <> EmptyString -> skip (a +:+ x) = skip a +:+ x.
Proof.
  induction a as [|c a IH]; [done|]. rewrite sapp_cons. cbn [skip]. destruct (isSpace c); [apply IH|done].
Qed.

Lemma parse_value_nonspace levels s x : parse_value n levels s = Some x -> skip s <> EmptyString.
Proof. intros H E. destruct n; [done|]. cbn [parse_value] in H. by rewrite E in H. Qed.

Lemma raw_text levels p v r : (forall r', stops r r' -> parse_value n levels (p +:+ r') = Some (v, r')) ->
  forall x, taken (skip (p +:+ x)) x = skip p.
Proof.
  intros Hv x. specialize (Hv EmptyString I). rewrite sapp_nil_r in Hv. apply parse_value_nonspace in Hv.
  by rewrite skip_app, taken_app.
Qed.

Lemma members_local :
  (forall levels, local_parser (parse_value n levels)) ->
  (forall levels, local_parser (parse_members n levels)) ->
  forall levels, local_parser (parse_members (S n) levels).
Proof.
  intros Hva Hme levels s ms r. cbn [parse_members].
  destruct (skip s) as [|c t] eqn:Es; [done|]. apply skip_local in Es as (w & -> & Hw).
  destruct (negb (Ascii.eqb c dquote)) eqn:Ec; [done|].
  destruct (str_body t) as [[key t1]|] eqn:Ek; [|done]. apply str_body_local in Ek as [-> Hk]. cbn -[skip].
  destruct (skip t1) as [|c1 t2] eqn:E1; [done|]. apply skip_local in E1 as (w1 & -> & Hw1).
  destruct (negb (Ascii.eqb c1 ":")) eqn:Ec1; [done|].
  destruct (parse_value n levels t2) as [[v t3]|] eqn:Ev; [|done]. apply Hva in Ev as (p & -> & Hp & Hv).
  cbn -[skip]. destruct (skip t3) as [|c3 t4] eqn:E3; [done|]. apply skip_local in E3 as (w3 & -> & Hw3).
  pose proof (raw_text levels p v _ Hv) as Hraw.
  destruct (Ascii.eqb c3 ",") eqn:Ec3.
  - destruct (parse_members n levels t4) as [[ms' r1]|] eqn:E4; [|done]. intros [= <- <-].
    apply Hme in E4 as (p4 & -> & _ & Hr).
    exists (w +:+ String c (key +:+ String dquote (w1 +:+ String c1 (p +:+ (w3 +:+ String c3 p4))))).
    rewrite !sapp_assoc, !sapp_cons, !sapp_assoc, !sapp_cons, !sapp_assoc, !sapp_cons, !sapp_assoc, !sapp_cons.
    split; [done|]. split; [by apply sapp_nonempty_r|]. intros r' Hs.
    rewrite !sapp_assoc, !sapp_cons, !sapp_assoc, !sapp_cons, !sapp_assoc, !sapp_cons, !sapp_assoc, !sapp_cons.
    rewrite Hw, Ec, Hk. cbn -[skip]. rewrite Hw1, Ec1, Hv by (apply stops_app; by right; eexists). cbn -[skip].
    rewrite Hw3, Ec3, Hr by done. by rewrite !Hraw.
  - destruct (Ascii.eqb c3 "}") eqn:Ec3'; [|done]. intros [= <- <-].
    exists (w +:+ String c (key +:+ String dquote (w1 +:+ String c1 (p +:+ (w3 +:+ String c3 EmptyString))))).
    rewrite !sapp_assoc, !sapp_cons, !sapp_assoc, !sapp_cons, !sapp_assoc, !sapp_cons, !sapp_assoc.
    split; [done|]. split; [by apply sapp_nonempty_r|]. intros r' Hs.
    rewrite !sapp_assoc, !sapp_cons, !sapp_assoc, !sapp_cons, !sapp_assoc, !sapp_cons, !sapp_assoc.
    change (String c3 EmptyString +:+ r') with (String c3 r').
    rewrite Hw, Ec, Hk. cbn -[skip]. rewrite Hw1, Ec1, Hv by (apply stops_app; by right; eexists). cbn -[skip].
    rewrite Hw3, Ec3, Ec3'. by rewrite !Hraw.
Qed.
End steps.

Lemma parse_local n : forall levels,
  local_parser (parse_value n levels) /\ local_parser (parse_elements n levels) /\
  local_parser (parse_members n levels).
Proof.
  induction n as [|n IH]; intros levels; [done|]. split_and!.
  - apply value_local; intros; apply IH.
  - apply elements_local; intros; apply IH.
  - apply members_local; intros; apply IH.
Qed.

Lemma parsed_shorter {A} (f : string -> option (A * string)) s a r :
  local_parser f -> f s = Some (a, r) -> (String.length r < String.length s)%nat.
Proof. intros Hf (p & -> & Hp & _)%Hf. rewrite length_sapp. destruct p; [done|]. simpl. lia. Qed.

(** ** Any fuel that is enough gives the same *)

Lemma parse_fuel n : forall m levels,
  (forall s x, parse_value n levels s = Some x -> (2 * String.length s < m)%nat -> parse_value m levels s = Some x) /\
  (forall s x, parse_elements n levels s = Some x -> (2 * String.length s + 1 < m)%nat ->
     parse_elements m levels s = Some x) /\
  (forall s x, parse_members n levels s = Some x -> (2 * String.length s < m)%nat -> parse_members m levels s = Some x).
Proof.
  induction n as [|n IH]; intros m levels; [done|]. split_and!; intros s x; destruct m as [|m]; try lia.
  - cbn [parse_value]. pose proof (skip_length s). destruct (skip s) as [|c t]; [done|]. simpl in *.
    pose proof (skip_length t). destruct (Ascii.eqb c dquote); [done|].
    destruct (Ascii.eqb c "{").
    { destruct (levels <=? 0); [done|]. destruct (skip t) as [|c' t'] eqn:Et; [done|]. destruct (Ascii.eqb c' "}"); [done|].
      destruct (parse_members n _ _) as [y|] eqn:E; [|done]. intros Hx Hm.
      by rewrite (proj2 (proj2 (IH m _)) _ _ E) by (simpl in *; lia). }
    destruct (Ascii.eqb c "["); [|done]. destruct (levels <=? 0); [done|].
    destruct (skip t) as [|c' t'] eqn:Et; [done|]. destruct (Ascii.eqb c' "]"); [done|].
    destruct (parse_elements n _ _) as [y|] eqn:E; [|done]. intros Hx Hm.
    by rewrite (proj1 (proj2 (IH m _)) _ _ E) by (simpl in *; lia).
  - cbn [parse_elements]. destruct (parse_value n levels s) as [[v t]|] eqn:E; [|done]. intros Hx Hm.
    rewrite (proj1 (IH m _) _ _ E) by lia. apply parsed_shorter in E; [|apply parse_local].
    cbn [mbind option_bind] in *. pose proof (skip_length t). destruct (skip t) as [|c r]; [done|]. simpl in *.
    destruct (Ascii.eqb c ","); [|done]. destruct (parse_elements n levels r) as [y|] eqn:E'; [|done].
    by rewrite (proj1 (proj2 (IH m _)) _ _ E') by lia.
  - cbn [parse_members]. pose proof (skip_length s). destruct (skip s) as [|c t]; [done|]. simpl in *.
    destruct (negb _); [done|]. destruct (str_body t) as [[k t1]|] eqn:Ek; [|done].
    apply (str_body_length _ _ _ _ (le_n _)) in Ek. cbn [mbind option_bind]. pose proof (skip_length t1).
    destruct (skip t1) as [|c1 t2]; [done|]. simpl in *. destruct (negb _); [done|].
    destruct (parse_value n levels t2) as [[v t3]|] eqn:E; [|done]. intros Hx Hm.
    rewrite (proj1 (IH m _) _ _ E) by lia. apply parsed_shorter in E; [|apply parse_local].
    cbn [mbind option_bind] in *. pose proof (skip_length t3). destruct (skip t3) as [|c3 t4]; [done|]. simpl in *.
    destruct (Ascii.eqb c3 ","); [|done]. destruct (parse_members n levels t4) as [y|] eqn:E'; [|done].
    by rewrite (proj2 (proj2 (IH m _)) _ _ E') by lia.
Qed.

(** ** Members *)

Lemma skip_skip s : skip (skip s) = skip s.
Proof. induction s as [|c s IH]; [done|]. cbn [skip]. destruct (isSpace c) eqn:E; [done|]. cbn [skip]. by rewrite E. Qed.
Lemma parse_value_skip n levels s : parse_value n levels (skip s) = parse_value n levels s.
Proof. destruct n; [done|]. cbn [parse_value]. by rewrite skip_skip. Qed.

(** The raw text of a member is a document by itself: the member's value. *)
Definition raw_parses (levels : Z) (m : string * (string * value)) : Prop :=
  parse_within levels m.2.1 = Some m.2.2.

Lemma members_raw n levels : forall s ms r,
  parse_members n levels s = Some (ms, r) -> Forall (raw_parses levels) ms.
Proof.
  induction n as [|n IH]; intros s ms r; [done|]. cbn [parse_members].
  destruct (skip s) as [|c t]; [done|]. destruct (negb _); [done|].
  destruct (str_body t) as [[k t1]|]; [|done]. cbn [mbind option_bind].
  destruct (skip t1) as [|c1 t2]; [done|]. destruct (negb _); [done|].
  destruct (parse_value n levels t2) as [[v t3]|] eqn:E; [|done]. cbn [mbind option_bind].
  assert (Hm : raw_parses levels (k, (taken (skip t2) t3, v))).
  { apply parse_local in E as (p & -> & _ & Hv). unfold raw_parses. simpl. rewrite (raw_text _ _ _ _ _ Hv).
    specialize (Hv EmptyString I). rewrite sapp_nil_r, <-parse_value_skip in Hv. unfold parse_within.
    by rewrite (proj1 (parse_fuel n (enough (skip p)) levels) _ _ Hv) by (unfold enough; lia). }
  destruct (skip t3) as [|c3 t4]; [done|]. destruct (Ascii.eqb c3 ",").
  - destruct (parse_members n levels t4) as [[ms' r']|] eqn:E'; [|done]. intros [= <- _]. constructor; [done|].
    by eapply IH.
  - destruct (Ascii.eqb c3 "}"); [|done]. intros [= <- _]. by repeat constructor.
Qed.

Lemma value_raw n levels s ms r :
  parse_value n levels s = Some (VObj ms, r) -> Forall (raw_parses (levels - 1)) ms.
Proof.
  destruct n as [|n]; [done|]. cbn [parse_value]. destruct (skip s) as [|c t]; [done|].
  destruct (Ascii.eqb c dquote); [by destruct (str_body t) as [[]|]|].
  destruct (Ascii.eqb c "{").
  { destruct (levels <=? 0); [done|]. destruct (skip t) as [|c' t']; [done|].
    destruct (Ascii.eqb c' "}"); [by intros [= <- _]|].
    destruct (parse_members n _ _) as [[ms' r']|] eqn:E; [|done]. intros [= <- _]. by eapply members_raw. }
  destruct (Ascii.eqb c "[").
  { destruct (levels <=? 0); [done|]. destruct (skip t) as [|c' t']; [done|].
    destruct (Ascii.eqb c' "]"); [done|]. by destruct (parse_elements n _ _) as [[]|]. }
  destruct (Ascii.eqb c "t"); [by destruct (literal _ t)|]. destruct (Ascii.eqb c "f"); [by destruct (literal _ t)|].
  destruct (Ascii.eqb c "n"); [by destruct (literal _ t)|by destruct (number c t)].
Qed.
