(* ===== verification/Job.v ===== *)
(** * Job: the domain model

    Models [internal/job/job.go] and [internal/job/statemachine.go]: statuses and
    priorities (Go string types, so strings here), the transition table, job
    admission ([New]) and the queue envelope. *)

From S2P Require Import Prelude Errors Json.
Local Open Scope string_scope.

(** ** Statuses *)

Abbreviation Status := string (only parsing).
Definition StatusPending : Status := "PENDING".
Definition StatusRunning : Status := "RUNNING".
Definition StatusCompleted : Status := "COMPLETED".
Definition StatusFailed : Status := "FAILED".
Definition StatusRetrying : Status := "RETRYING".
Definition StatusDeadLetter : Status := "DEAD_LETTER".
Definition StatusCancelled : Status := "CANCELLED".

Definition Statuses : list Status :=
  [StatusPending; StatusRunning; StatusCompleted; StatusFailed;
   StatusRetrying; StatusDeadLetter; StatusCancelled].

Definition StatusValid (s : Status) : bool :=
  existsb (fun v => bool_decide (s = v)) Statuses.

Definition Terminal (s : Status) : bool :=
  bool_decide (s = StatusCompleted) || bool_decide (s = StatusFailed)
  || bool_decide (s = StatusDeadLetter) || bool_decide (s = StatusCancelled).

(** ** Priorities *)

Abbreviation Priority := string (only parsing).
Definition PriorityHigh : Priority := "high".
Definition PriorityDefault : Priority := "default".
Definition PriorityLow : Priority := "low".

Definition PriorityOrder : list Priority := [PriorityHigh; PriorityDefault; PriorityLow].

Definition PriorityValid (p : Priority) : bool :=
  bool_decide (p = PriorityHigh) || bool_decide (p = PriorityDefault)
  || bool_decide (p = PriorityLow).

(** ** The state machine ([statemachine.go]) *)

(** [transitions]: a map of maps, missing keys reading as the zero value. *)
Definition transitions : gmap Status (gmap Status bool) :=
  list_to_map
    [(StatusPending, list_to_map
        [(StatusRunning, true); (StatusCancelled, true)]);
     (StatusRunning, list_to_map
        [(StatusCompleted, true); (StatusRetrying, true); (StatusFailed, true);
         (StatusDeadLetter, true); (StatusCancelled, true)]);
     (StatusRetrying, list_to_map
        [(StatusPending, true); (StatusRunning, true); (StatusCancelled, true)]);
     (StatusDeadLetter, list_to_map [(StatusPending, true)]);
     (StatusCompleted, ∅); (StatusFailed, ∅); (StatusCancelled, ∅)].

Definition CanTransition (from to : Status) : bool :=
  default false (default ∅ (transitions !! from) !! to).

Inductive TransitionError :=
| UnknownStatus (s : Status)
| InvalidTransitionError (From To : Status).

Definition Transition (from to : Status) : result TransitionError unit :=
  if negb (StatusValid from) then Err (UnknownStatus from)
  else if negb (StatusValid to) then Err (UnknownStatus to)
  else if negb (CanTransition from to) then Err (InvalidTransitionError from to)
  else Ok tt.

(** ** Admission ([New]) *)

Definition MaxPayloadBytes : Z := (2 ^ 20)%Z.
Definition MaxAttemptsCeiling : Z := 25.
Definition DefaultMaxAttempts : Z := 5.
Definition DefaultQueue : string := "default".

(** [nameRe]: [^[a-zA-Z0-9][a-zA-Z0-9_.-]{0,99}$]. *)
Definition isAlnum (c : ascii) : bool :=
  let n := code c in
  ((97 <=? n) && (n <=? 122) || (65 <=? n) && (n <=? 90) || (48 <=? n) && (n <=? 57))%Z.
Definition isNameByte (c : ascii) : bool :=
  isAlnum c || Ascii.eqb c "_" || Ascii.eqb c "." || Ascii.eqb c "-".

Definition ValidName (s : string) : bool :=
  match s with
  | EmptyString => false
  | String c rest =>
      isAlnum c && forallb isNameByte (String.list_ascii_of_string rest)
      && (slen rest <=? 99)%Z
  end.

Record Job := {
  ID : string; Type_ : string; Queue : string; Status_ : Status; Priority_ : Priority;
  Payload : string; Result : string; Error_ : string;
  IdempotencyKey : string;
  AttemptCount : Z; MaxAttempts : Z;
  LeaseEpoch : Z; LeaseExpiresAt : option Time; WorkerID : string;
  CreatedAt : Time; ScheduledAt : Time;
  StartedAt : option Time; CompletedAt : option Time
}.

Record Options := {
  opt_Queue : string; opt_Priority : Priority; opt_MaxAttempts : Z;
  opt_IdempotencyKey : string; opt_ScheduledAt : Time
}.

Inductive NewError :=
| InvalidType (t : string)
| PayloadTooLarge (n : Z)
| PayloadNotJSON
| InvalidQueue (q : string)
| InvalidPriority (p : Priority)
| MaxAttemptsOutOfRange (n : Z)
| IdempotencyKeyTooLong.

Local Open Scope Z_scope.
Local Open Scope go_scope.

(** Validates and builds a job.  [uuid] is the identifier that [uuid.NewString]
    returns; an empty [payload] is a nil [json.RawMessage]. *)
Definition New (uuid : string) (jobType payload : string) (opts : Options) (now : Time)
    : result NewError Job :=
  guard ValidName jobType else InvalidType jobType in
  guard negb (MaxPayloadBytes <? slen payload) else PayloadTooLarge (slen payload) in
  guard negb ((0 <? slen payload) && negb (Json.Valid payload)) else PayloadNotJSON in
  let q := if bool_decide (opt_Queue opts = EmptyString) then DefaultQueue else opt_Queue opts in
  guard ValidName q else InvalidQueue q in
  let p := if bool_decide (opt_Priority opts = EmptyString) then PriorityDefault
           else opt_Priority opts in
  guard PriorityValid p else InvalidPriority p in
  let ma := if opt_MaxAttempts opts =? 0 then DefaultMaxAttempts else opt_MaxAttempts opts in
  guard negb ((ma <? 1) || (MaxAttemptsCeiling <? ma)) else MaxAttemptsOutOfRange ma in
  guard negb (256 <? slen (opt_IdempotencyKey opts)) else IdempotencyKeyTooLong in
  let sched := if IsZero (opt_ScheduledAt opts) then now else opt_ScheduledAt opts in
  Ok {| ID := uuid; Type_ := jobType; Queue := q; Status_ := StatusPending; Priority_ := p;
        Payload := payload; Result := EmptyString; Error_ := EmptyString;
        IdempotencyKey := opt_IdempotencyKey opts;
        AttemptCount := 0; MaxAttempts := ma;
        LeaseEpoch := 0; LeaseExpiresAt := None; WorkerID := EmptyString;
        CreatedAt := now; ScheduledAt := sched; StartedAt := None; CompletedAt := None |}.

(** ** The envelope *)

Record Envelope := {
  env_ID : string; env_Type : string; env_Queue : string; env_Priority : Priority;
  env_Attempt : Z; env_Payload : string; env_EnqueuedAt : Time
}.

Definition NewEnvelope (j : Job) (now : Time) : Envelope :=
  {| env_ID := ID j; env_Type := Type_ j; env_Queue := Queue j; env_Priority := Priority_ j;
     env_Attempt := 1; env_Payload := Payload j; env_EnqueuedAt := now |}.

(** The wire format: [json.Marshal] and [json.Unmarshal] of an [Envelope].  The
    components that put envelopes on the wire are written against this
    interface; [Wire.v] implements it as [encoding/json] does.  [sendable] is
    the set of envelopes JSON carries without loss. *)
Class EnvelopeJSON := {
  Marshal : Envelope -> option string;
  Unmarshal : string -> option Envelope;
  sendable : Envelope -> Prop;
  Unmarshal_Marshal e : sendable e -> exists text, Marshal e = Some text /\ Unmarshal text = Some e
}.

Section codec.
Context `{EnvelopeJSON}.

Definition Encode (e : Envelope) : result error string :=
  match Marshal e with
  | Some text => Ok text
  | None => Err (EWrap "job: encoding envelope: " (EMsg "json"))
  end.

(** A failure is a corrupt entry. *)
Definition DecodeEnvelope (s : string) : result error Envelope :=
  match Unmarshal s with
  | None => Err (EWrap "job: decoding envelope: " (EMsg "json"))
  | Some e =>
      if bool_decide (env_ID e = EmptyString) || bool_decide (env_Type e = EmptyString)
      then Err (EMsg "job: envelope missing id or type")
      else Ok e
  end.
End codec.

(** ** Lemmas on statuses *)

Lemma StatusValid_elem_of s : StatusValid s = true <-> s ∈ Statuses.
Proof. apply existsb_eqb_elem_of. Qed.

Lemma CanTransition_from_Terminal s t :
  Terminal s = true -> CanTransition s t = true ->
  s = StatusDeadLetter /\ t = StatusPending.
Proof.
  unfold Terminal. intros Hs Ht.
  rewrite !orb_true_iff, !bool_decide_eq_true in Hs.
  destruct Hs as [[[-> | ->] | ->] | ->]; try (vm_compute in Ht; discriminate).
  split; [done|]. unfold CanTransition in Ht.
  change (default ∅ (transitions !! StatusDeadLetter))
    with ({[ StatusPending := true ]} : gmap string bool) in Ht.
  destruct (decide (t = StatusPending)); [done|].
  by rewrite lookup_singleton_ne in Ht.
Qed.

(** The edges, as a list: what the table says and nothing else. *)
Definition edges : list (Status * Status) :=
  [(StatusPending, StatusRunning); (StatusPending, StatusCancelled);
   (StatusRunning, StatusCompleted); (StatusRunning, StatusRetrying);
   (StatusRunning, StatusFailed); (StatusRunning, StatusDeadLetter);
   (StatusRunning, StatusCancelled);
   (StatusRetrying, StatusPending); (StatusRetrying, StatusRunning);
   (StatusRetrying, StatusCancelled); (StatusDeadLetter, StatusPending)].

Lemma CanTransition_both_valid from to :
  CanTransition from to = true -> from ∈ Statuses /\ to ∈ Statuses.
Proof.
  unfold CanTransition. destruct (transitions !! from) as [m|] eqn:Hm; [|done].
  simpl. destruct (m !! to) as [b|] eqn:Hb; [|done]. intros _.
  apply elem_of_list_to_map_2, list_elem_of_In in Hm.
  repeat destruct Hm as [Hm|Hm]; try done; simplify_eq;
    apply elem_of_list_to_map_2, list_elem_of_In in Hb;
    repeat destruct Hb as [Hb|Hb]; try done; simplify_eq;
    split; apply StatusValid_elem_of; reflexivity.
Qed.

Lemma Transition_Ok from to : Transition from to = Ok tt <-> CanTransition from to = true.
Proof.
  unfold Transition. split.
  - destruct (StatusValid from), (StatusValid to), (CanTransition from to); done.
  - intros Hc. destruct (CanTransition_both_valid _ _ Hc) as [Hf Ht].
    apply StatusValid_elem_of in Hf, Ht. by rewrite Hf, Ht, Hc.
Qed.

(** ** Theorems *)

(** The transition table is exactly the documented edge list: [Transition]
    accepts [from -> to] if and only if the pair is one of the eleven edges, a
    terminal status has no exit other than the operator requeue of
    [DEAD_LETTER], and no status that is not one of the seven is accepted on
    either side. *)
Theorem Transition_spec (from to : Status) :
  (Transition from to = Ok tt <-> (from, to) ∈ edges) /\
  (Transition from to = Ok tt -> Terminal from = true ->
     from = StatusDeadLetter /\ to = StatusPending) /\
  (Transition from to = Err (InvalidTransitionError from to) ->
     from ∈ Statuses /\ to ∈ Statuses /\ (from, to) ∉ edges).
Proof.
  assert (Hedge : CanTransition from to = true <-> (from, to) ∈ edges).
  { split.
    - intros Hc. destruct (CanTransition_both_valid _ _ Hc) as [Hf Ht].
      apply list_elem_of_In in Hf, Ht. apply list_elem_of_In.
      repeat destruct Hf as [<-|Hf]; try done; repeat destruct Ht as [<-|Ht]; try done;
        first [vm_compute in Hc; discriminate | simpl; tauto].
    - intros Hin%list_elem_of_In.
      repeat destruct Hin as [[= <- <-]|Hin]; try done; reflexivity. }
  split; [by rewrite Transition_Ok|split].
  - intros ?%Transition_Ok ?. by apply CanTransition_from_Terminal.
  - rewrite <-!StatusValid_elem_of, <-Hedge. unfold Transition.
    destruct (StatusValid from), (StatusValid to), (CanTransition from to); done.
Qed.

Lemma Transition_spec_witness :
  Transition StatusDeadLetter StatusPending = Ok tt /\
  StatusDeadLetter = StatusDeadLetter /\ StatusPending = StatusPending.
Proof.
  split; [reflexivity|].
  apply (Transition_spec StatusDeadLetter StatusPending); reflexivity.
Defined.

(** What admission promises the rest of the system about a job. *)
Record admitted (j : Job) : Prop := {
  adm_status : Status_ j = StatusPending;
  adm_type : ValidName (Type_ j) = true;
  adm_queue : ValidName (Queue j) = true;
  adm_priority : Priority_ j ∈ PriorityOrder;
  adm_payload : Payload j = EmptyString \/
                (slen (Payload j) <= MaxPayloadBytes /\ Valid (Payload j) = true);
  adm_budget : 1 <= MaxAttempts j <= MaxAttemptsCeiling;
  adm_key : slen (IdempotencyKey j) <= 256;
  adm_fresh : AttemptCount j = 0 /\ LeaseEpoch j = 0 /\ LeaseExpiresAt j = None /\
              StartedAt j = None /\ CompletedAt j = None
}.

Lemma PriorityValid_elem_of p : PriorityValid p = true <-> p ∈ PriorityOrder.
Proof.
  unfold PriorityValid, PriorityOrder.
  rewrite !orb_true_iff, !bool_decide_eq_true, !elem_of_cons, elem_of_nil. tauto.
Qed.

Lemma slen_nonneg s : 0 <= slen s.
Proof. unfold slen. lia. Qed.

Lemma slen_pos_iff s : 0 < slen s <-> s <> EmptyString.
Proof. unfold slen. destruct s; simpl; split; intros; [lia|done|done|lia]. Qed.

(** The submission as a request: every check of [New], as one predicate. *)
Definition submittable (jobType payload : string) (o : Options) : Prop :=
  ValidName jobType = true /\
  slen payload <= MaxPayloadBytes /\
  (payload <> EmptyString -> Valid payload = true) /\
  (opt_Queue o <> EmptyString -> ValidName (opt_Queue o) = true) /\
  (opt_Priority o <> EmptyString -> opt_Priority o ∈ PriorityOrder) /\
  0 <= opt_MaxAttempts o <= MaxAttemptsCeiling /\
  slen (opt_IdempotencyKey o) <= 256.

(** Soundness and completeness of the checks. *)
Lemma New_admits_iff (uuid t p : string) (o : Options) (now : Time) :
  (is_Ok (New uuid t p o now) = true <-> submittable t p o) /\
  (forall j, New uuid t p o now = Ok j ->
     admitted j /\ ID j = uuid /\ Type_ j = t /\ Payload j = p /\
     IdempotencyKey j = opt_IdempotencyKey o /\
     ScheduledAt j = (if IsZero (opt_ScheduledAt o) then now else opt_ScheduledAt o)).
Proof.
  pose proof (slen_pos_iff p) as Hp. pose proof (slen_nonneg p) as Hp0.
  unfold New, submittable, MaxAttemptsCeiling.
  assert (Hq : ValidName DefaultQueue = true) by reflexivity.
  assert (Hd : PriorityValid PriorityDefault = true) by reflexivity.
  rewrite <-PriorityValid_elem_of.
  destruct (ValidName t) eqn:Ht; simpl; [|split; [split; [done|naive_solver]|done]].
  destruct (MaxPayloadBytes <? slen p) eqn:Hlen; reflect_bools; simpl;
    [split; [split; [done|intros; destruct_and?; lia]|done]|].
  destruct ((0 <? slen p) && negb (Valid p)) eqn:Hjson; simpl.
  { reflect_bools. split; [|done]. split; [done|]. intros (_ & _ & Hv & _).
    rewrite Hv in *; [done|tauto]. }
  assert (Hjson' : p <> EmptyString -> Valid p = true).
  { intros ?%Hp. destruct (Valid p); [done|]. rewrite andb_true_r in Hjson.
    reflect_bools. lia. }
  set (q := if bool_decide (opt_Queue o = EmptyString) then _ else _).
  assert (Hqv : ValidName q = true <-> (opt_Queue o <> EmptyString -> ValidName (opt_Queue o) = true)).
  { unfold q. case_bool_decide; naive_solver. }
  destruct (ValidName q) eqn:Hvq; simpl; [|split; [split; [done|naive_solver]|done]].
  set (pr := if bool_decide (opt_Priority o = EmptyString) then _ else _).
  assert (Hpv : PriorityValid pr = true <->
                (opt_Priority o <> EmptyString -> PriorityValid (opt_Priority o) = true)).
  { unfold pr. case_bool_decide; naive_solver. }
  destruct (PriorityValid pr) eqn:Hvp; simpl; [|split; [split; [done|naive_solver]|done]].
  set (ma := if opt_MaxAttempts o =? 0 then _ else _).
  assert (Hma : 1 <= ma <= 25 <-> 0 <= opt_MaxAttempts o <= 25).
  { unfold ma, DefaultMaxAttempts. destruct (opt_MaxAttempts o =? 0) eqn:?; reflect_bools; lia. }
  destruct ((ma <? 1) || (25 <? ma)) eqn:Hrange; simpl.
  { split; [|done]. split; [done|]. intros; destruct_and?.
    apply orb_true_iff in Hrange as [?|?]; reflect_bools; lia. }
  reflect_bools.
  destruct (256 <? slen (opt_IdempotencyKey o)) eqn:Hk; reflect_bools; simpl.
  { split; [split; [done|intros; destruct_and?; lia]|done]. }
  split; [split; [intros _; naive_solver lia|done]|].
  intros j Hj. simplify_eq/=. split; [|done]. split; simpl; try done.
  - by apply PriorityValid_elem_of.
  - destruct (decide (p = EmptyString)); [by left|right; auto].
Qed.

Lemma New_admits uuid t p o now j :
  New uuid t p o now = Ok j ->
  admitted j /\ ID j = uuid /\ Type_ j = t /\ Payload j = p.
Proof. intros H. apply New_admits_iff in H. tauto. Qed.

(** The shape of an admitted job. *)
Lemma New_shape uuid t p o now j :
  New uuid t p o now = Ok j ->
  admitted j /\ ID j = uuid /\ Type_ j = t /\ Payload j = p /\
  Result j = EmptyString /\ Error_ j = EmptyString /\ AttemptCount j = 0 /\ LeaseEpoch j = 0 /\
  LeaseExpiresAt j = None /\ WorkerID j = EmptyString /\ StartedAt j = None /\ CompletedAt j = None.
Proof.
  intros H. split; [by apply New_admits in H as [? _]|].
  unfold New in H. repeat (case_match; [|discriminate]). by injection H as <-.
Qed.

(** C15. Admission is sound and complete: [New] succeeds exactly on the
    submissions that pass every check (the zero options included), and the job it
    builds is a fresh [PENDING] job whose type, queue, priority, payload, retry
    budget and idempotency key are all within the domain's limits, so nothing
    below needs to validate again. *)
Theorem New_spec (uuid t p : string) (o : Options) (now : Time) :
  (is_Ok (New uuid t p o now) = true <-> submittable t p o) /\
  (forall j, New uuid t p o now = Ok j ->
     admitted j /\ ID j = uuid /\ Type_ j = t /\ Payload j = p /\
     IdempotencyKey j = opt_IdempotencyKey o /\
     ScheduledAt j = (if IsZero (opt_ScheduledAt o) then now else opt_ScheduledAt o) /\
     Result j = EmptyString /\ Error_ j = EmptyString /\ WorkerID j = EmptyString).
Proof.
  split; [apply (New_admits_iff uuid t p o now)|]. intros j H.
  destruct (proj2 (New_admits_iff uuid t p o now) j H) as (? & ? & ? & ? & ? & ?).
  destruct (New_shape _ _ _ _ _ _ H) as (_ & _ & _ & _ & ? & ? & _ & _ & _ & ? & _). done.
Qed.

Definition no_options : Options :=
  {| opt_Queue := EmptyString; opt_Priority := EmptyString; opt_MaxAttempts := 0;
     opt_IdempotencyKey := EmptyString; opt_ScheduledAt := zero_time |}.

Lemma New_spec_witness :
  exists j, New "u1" "bench.sleep" "{}" no_options 7 = Ok j /\ admitted j /\ ScheduledAt j = 7.
Proof.
  eexists. split; [reflexivity|].
  destruct (New_spec "u1" "bench.sleep" "{}" no_options 7) as [_ Hj].
  specialize (Hj _ eq_refl). split; [apply Hj|reflexivity].
Defined.

(** A concrete codec for the witnesses: it carries the envelopes of one shape,
    by their id. *)
Definition demo_env (id : string) : Envelope :=
  {| env_ID := id; env_Type := "bench.sleep"; env_Queue := DefaultQueue;
     env_Priority := PriorityDefault; env_Attempt := 1; env_Payload := "{}"; env_EnqueuedAt := 0 |}.
Definition DemoJSON : EnvelopeJSON.
Proof.
  refine {| Marshal e := Some (env_ID e); Unmarshal s := Some (demo_env s);
            sendable e := e = demo_env (env_ID e) |}.
  intros e He. exists (env_ID e). by rewrite <-He.
Defined.
