(* ===== verification/Wire.v ===== *)
(** * Wire: the JSON of the program's types

    [encoding/json] on the structs that travel: how a document fills the fields of
    any struct, which the request bodies, the payloads of the handlers and the
    answers that the tools read share, and the envelope of
    [internal/job/job.go] both ways.  [time.Parse], which [UnmarshalJSON] falls back to for times
    that are not strict RFC 3339, is an argument. *)

From S2P Require Import Prelude Errors Json Decode Strconv Rfc3339 Encode Job.
Local Open Scope string_scope.
Local Open Scope list_scope.
Local Open Scope Z_scope.

(** ** Decoding into a struct *)

(** [foldName]: ASCII letters to upper case; the two letters outside ASCII that
    fold to ASCII ones are U+017F and U+212A. *)
Definition upper (c : ascii) : ascii :=
  if byte_in 97 122 c then ascii_of_nat (nat_of_ascii c - 32) else c.
Fixpoint foldName (s : string) : string :=
  match s with
  | EmptyString => EmptyString
  | String c r =>
      match r with
      | String b r' =>
          if (code c =? 197) && (code b =? 191) then String "S" (foldName r')
          else match r' with
               | String d r'' =>
                   if (code c =? 226) && (code b =? 132) && (code d =? 170) then String "K" (foldName r'')
                   else String (upper c) (foldName r)
               | EmptyString => String (upper c) (foldName r)
               end
      | EmptyString => String (upper c) EmptyString
      end
  end.

(** The fields of a struct: how a member of that name changes it; [None] is an
    [UnmarshalTypeError], or the error of a nested [UnmarshalJSON]. *)
Definition fields (A : Type) : Type := list (string * (A -> string -> value -> option A)).

Definition field_named {A} (fs : fields A) (key : string) : option (A -> string -> value -> option A) :=
  match filter (fun f => f.1 = key) fs with
  | f :: _ => Some f.2
  | [] => snd <$> head (filter (fun f => foldName f.1 = foldName key) fs)
  end.

(** One member after the other, in the order of the text; unknown ones are
    ignored, and the last of several with one name stands. *)
Fixpoint decode_members {A} (fs : fields A) (ms : list (string * (string * value))) (x : A) : option A :=
  match ms with
  | [] => Some x
  | (key, (raw, v)) :: ms' =>
      match field_named fs (unquote key) with
      | None => decode_members fs ms' x
      | Some set => y ← set x raw v; decode_members fs ms' y
      end
  end.
Definition decode_struct {A} (fs : fields A) (x : A) (v : value) : option A :=
  match v with
  | VObj ms => decode_members fs ms x
  | VNull => Some x
  | _ => None
  end.

(** A null leaves a field as it was. *)
Definition dec_string (old : string) (v : value) : option string :=
  match v with VStr raw => Some (unquote raw) | VNull => Some old | _ => None end.
Definition dec_int (old : Z) (v : value) : option Z :=
  match v with VNum lit => Atoi lit | VNull => Some old | _ => None end.
Definition at_string {A} (set : A -> string -> A) (get : A -> string) : A -> string -> value -> option A :=
  fun x _ v => set x <$> dec_string (get x) v.
Definition at_int {A} (set : A -> Z -> A) (get : A -> Z) : A -> string -> value -> option A :=
  fun x _ v => set x <$> dec_int (get x) v.
(** A [json.RawMessage] takes the text, also of a null. *)
Definition at_raw {A} (set : A -> string -> A) : A -> string -> value -> option A :=
  fun x raw _ => Some (set x raw).

Section codec.
(** [time.Parse(time.RFC3339, s)]. *)
Context (time_Parse : string -> option Time).

(** [Time.UnmarshalJSON]: the text between the quotes is not unescaped. *)
Definition dec_time (old : Time) (v : value) : option Time :=
  match v with
  | VStr raw => match parseRFC3339 raw with Some t => Some t | None => time_Parse raw end
  | VNull => Some old
  | _ => None
  end.
Definition at_instant {A} (set : A -> Time -> A) (get : A -> Time) : A -> string -> value -> option A :=
  fun x _ v => set x <$> dec_time (get x) v.

(** [json.Unmarshal] into a struct. *)
Definition unmarshal {A} (fs : fields A) (zero : A) (text : string) : option A :=
  v ← parse text; decode_struct fs zero v.

(** ** The envelope *)

Definition zero_envelope : Envelope :=
  {| env_ID := EmptyString; env_Type := EmptyString; env_Queue := EmptyString; env_Priority := EmptyString;
     env_Attempt := 0; env_Payload := EmptyString; env_EnqueuedAt := zero_time |}.

Definition set_ID (e : Envelope) (x : string) : Envelope :=
  {| env_ID := x; env_Type := env_Type e; env_Queue := env_Queue e; env_Priority := env_Priority e;
     env_Attempt := env_Attempt e; env_Payload := env_Payload e; env_EnqueuedAt := env_EnqueuedAt e |}.
Definition set_Type (e : Envelope) (x : string) : Envelope :=
  {| env_ID := env_ID e; env_Type := x; env_Queue := env_Queue e; env_Priority := env_Priority e;
     env_Attempt := env_Attempt e; env_Payload := env_Payload e; env_EnqueuedAt := env_EnqueuedAt e |}.
Definition set_Queue (e : Envelope) (x : string) : Envelope :=
  {| env_ID := env_ID e; env_Type := env_Type e; env_Queue := x; env_Priority := env_Priority e;
     env_Attempt := env_Attempt e; env_Payload := env_Payload e; env_EnqueuedAt := env_EnqueuedAt e |}.
Definition set_Priority (e : Envelope) (x : string) : Envelope :=
  {| env_ID := env_ID e; env_Type := env_Type e; env_Queue := env_Queue e; env_Priority := x;
     env_Attempt := env_Attempt e; env_Payload := env_Payload e; env_EnqueuedAt := env_EnqueuedAt e |}.
Definition set_Attempt (e : Envelope) (x : Z) : Envelope :=
  {| env_ID := env_ID e; env_Type := env_Type e; env_Queue := env_Queue e; env_Priority := env_Priority e;
     env_Attempt := x; env_Payload := env_Payload e; env_EnqueuedAt := env_EnqueuedAt e |}.
Definition set_Payload (e : Envelope) (x : string) : Envelope :=
  {| env_ID := env_ID e; env_Type := env_Type e; env_Queue := env_Queue e; env_Priority := env_Priority e;
     env_Attempt := env_Attempt e; env_Payload := x; env_EnqueuedAt := env_EnqueuedAt e |}.
Definition set_EnqueuedAt (e : Envelope) (x : Time) : Envelope :=
  {| env_ID := env_ID e; env_Type := env_Type e; env_Queue := env_Queue e; env_Priority := env_Priority e;
     env_Attempt := env_Attempt e; env_Payload := env_Payload e; env_EnqueuedAt := x |}.

Definition envelope_fields : fields Envelope :=
  [("id", at_string set_ID env_ID); ("type", at_string set_Type env_Type);
   ("queue", at_string set_Queue env_Queue); ("priority", at_string set_Priority env_Priority);
   ("attempt", at_int set_Attempt env_Attempt); ("payload", at_raw set_Payload);
   ("enqueuedAt", at_instant set_EnqueuedAt env_EnqueuedAt)].

Definition unmarshal_envelope (text : string) : option Envelope := unmarshal envelope_fields zero_envelope text.

(** The document [json.Marshal] writes; [payload] is left out when it is empty. *)
Definition member (key : string) (v : value) : string * (string * value) := (key, (EmptyString, v)).
Definition envelope_document (e : Envelope) (payload : list (string * (string * value))) : value :=
  VObj ([member "id" (VStr (quote (env_ID e))); member "type" (VStr (quote (env_Type e)));
         member "queue" (VStr (quote (env_Queue e))); member "priority" (VStr (quote (env_Priority e)));
         member "attempt" (VNum (pretty (env_Attempt e)))] ++ payload ++
        [member "enqueuedAt" (VStr (FormatRFC3339Nano (env_EnqueuedAt e)))]).

(** [None] is an error: a payload that is not JSON, a year beyond 9999. *)
Definition marshal_envelope (e : Envelope) : option string :=
  payload ← (if bool_decide (env_Payload e = EmptyString) then Some []
             else v ← parse (env_Payload e); Some [member "payload" (escaped v)]);
  if in_years (env_EnqueuedAt e) then Some (render (envelope_document e payload)) else None.
End codec.

(** The interface, as [encoding/json] implements it.  An attempt outside an [int]
    is no envelope of the program. *)
Definition int_range (n : Z) : bool := (- 2 ^ 63 <=? n) && (n <=? max_int64).

Example envelope_example :
  let e := {| env_ID := "j1"; env_Type := "bench.sleep"; env_Queue := "default"; env_Priority := "high";
              env_Attempt := 2; env_Payload := dquoted "{'ms': 5}"; env_EnqueuedAt := 1709210096 * Second |} in
  marshal_envelope e = Some (dquoted "{'id':'j1','type':'bench.sleep','queue':'default','priority':'high','attempt':2,'payload':{'ms':5},'enqueuedAt':'2024-02-29T12:34:56Z'}") /\
  unmarshal_envelope (fun _ => None) (dquoted " { 'ID' : 'j1', 'attempt':3, 'extra':[], 'payload' : { 'ms' : 5 } }")
  = Some (set_ID (set_Attempt (set_Payload zero_envelope (dquoted "{ 'ms' : 5 }")) 3) "j1").
Proof. by vm_compute. Qed.

(** ** What is decoded is what was encoded *)

(** The bytes of JSON text without white space. *)
Definition compacted (p : string) : string := default EmptyString (compact p).

Lemma compacted_again p v : parse p = Some v -> compacted (compacted p) = compacted p.
Proof.
  intros Hp. assert (E : compacted p = render (escaped v)) by (unfold compacted, compact; by rewrite Hp).
  pose proof (parse_within_wf _ _ _ Hp) as Hw. rewrite E. unfold compacted, compact, parse.
  rewrite parse_within_render by by apply wf_escaped. simpl. by rewrite render_escaped_printed, escaped_idem.
Qed.

(** An envelope whose parts a JSON document can carry: text, a 64-bit attempt, and
    a payload that is absent or a document that may stand in another one. *)
Record carried (e : Envelope) : Prop := {
  ca_id : utf8_valid 0 (env_ID e) = true;
  ca_type : utf8_valid 0 (env_Type e) = true;
  ca_queue : utf8_valid 0 (env_Queue e) = true;
  ca_priority : utf8_valid 0 (env_Priority e) = true;
  ca_attempt : - 2 ^ 63 <= env_Attempt e <= max_int64;
  ca_payload : env_Payload e = EmptyString \/ is_Some (parse_within (maxNestingDepth - 1) (env_Payload e))
}.

Lemma decode_member {A} (fs : fields A) k set raw v ms x :
  field_named fs (unquote k) = Some set ->
  decode_members fs ((k, (raw, v)) :: ms) x = (y ← set x raw v; decode_members fs ms y).
Proof. intros H. cbn [decode_members]. by rewrite H. Qed.

Section roundtrip.
Context (time_Parse : string -> option Time).

Lemma envelope_document_wf e payload :
  in_years (env_EnqueuedAt e) = true ->
  forallb (fun m => str_ok m.1 && wf (maxNestingDepth - 1) m.2.2) payload = true ->
  wf maxNestingDepth (envelope_document e payload) = true.
Proof.
  intros Ht Hp. pose proof (proj1 (pretty_number (env_Attempt e))) as Hn. unfold envelope_document.
  change (wf maxNestingDepth (VObj ?ms)) with (forallb (fun m => str_ok m.1 && wf (maxNestingDepth - 1) m.2.2) ms).
  rewrite !forallb_app, Hp. cbn [forallb member fst snd wf].
  by rewrite !quote_ok, Hn, (plain_ok (FormatRFC3339Nano _)) by by apply FormatNano_plain.
Qed.

Lemma decode_envelope_document e payload (p : string) :
  carried e -> in_years (env_EnqueuedAt e) = true ->
  (payload = [] /\ p = EmptyString \/ exists v, payload = [member "payload" v] /\ p = render v) ->
  decode_struct (envelope_fields time_Parse) zero_envelope (printed (envelope_document e payload)) =
    Some (set_Payload e p).
Proof.
  intros [Hi Hty Hq Hpr Ha _] Ht Hp.
  assert (Hts : dec_time time_Parse zero_time (VStr (FormatRFC3339Nano (env_EnqueuedAt e))) = Some (env_EnqueuedAt e)).
  { unfold dec_time. by rewrite parse_FormatNano. }
  pose proof (Atoi_pretty _ Ha) as Hat. set (fs := envelope_fields time_Parse).
  assert (Hstr : forall set get x raw s, utf8_valid 0 s = true ->
    at_string (A:=Envelope) set get x raw (VStr (quote s)) = Some (set x s)).
  { intros. unfold at_string, dec_string. by rewrite unquote_quote. }
  unfold envelope_document. change (printed (VObj ?ms)) with (VObj (map (fun m => (m.1, (render m.2.2, printed m.2.2))) ms)).
  rewrite map_app. cbn [decode_struct]. cbn [map member fst snd printed app].
  rewrite (decode_member fs "id" (at_string set_ID env_ID)), Hstr by done. cbn [mbind option_bind].
  rewrite (decode_member fs "type" (at_string set_Type env_Type)), Hstr by done. cbn [mbind option_bind].
  rewrite (decode_member fs "queue" (at_string set_Queue env_Queue)), Hstr by done. cbn [mbind option_bind].
  rewrite (decode_member fs "priority" (at_string set_Priority env_Priority)), Hstr by done. cbn [mbind option_bind].
  rewrite (decode_member fs "attempt" (at_int set_Attempt env_Attempt)) by done.
  unfold at_int at 1. unfold dec_int at 1. rewrite Hat. cbn [mbind option_bind fmap option_fmap option_map].
  destruct Hp as [[-> ->]|(v & -> & ->)]; cbn [map member fst snd printed app].
  - rewrite (decode_member fs "enqueuedAt" (at_instant time_Parse set_EnqueuedAt env_EnqueuedAt)) by done.
    unfold at_instant. cbn [env_EnqueuedAt set_Attempt set_Priority set_Queue set_Type set_ID zero_envelope].
    rewrite Hts. by destruct e.
  - rewrite (decode_member fs "payload" (at_raw set_Payload)) by done. unfold at_raw at 1. cbn [mbind option_bind].
    rewrite (decode_member fs "enqueuedAt" (at_instant time_Parse set_EnqueuedAt env_EnqueuedAt)) by done.
    unfold at_instant. cbn [env_EnqueuedAt set_Attempt set_Priority set_Queue set_Type set_ID set_Payload zero_envelope].
    rewrite Hts. by destruct e.
Qed.

Lemma envelope_carried_back (e : Envelope) :
  carried e -> in_years (env_EnqueuedAt e) = true ->
  exists text, marshal_envelope e = Some text /\
    unmarshal_envelope time_Parse text = Some (set_Payload e (compacted (env_Payload e))) /\
    (compacted (env_Payload e) = env_Payload e -> unmarshal_envelope time_Parse text = Some e).
Proof.
  intros Hc Ht. unfold marshal_envelope, unmarshal_envelope, unmarshal, parse.
  destruct (ca_payload e Hc) as [Hp|[v Hp]].
  - rewrite bool_decide_true, Ht by done. cbn [mbind option_bind]. eexists. split; [done|].
    rewrite parse_within_render by by apply envelope_document_wf. cbn [mbind option_bind].
    rewrite (decode_envelope_document e [] EmptyString) by auto. rewrite Hp. split; [done|]. intros _.
    destruct e. simpl in *. by subst.
  - assert (Hne : env_Payload e <> EmptyString) by (intros E; rewrite E in Hp; discriminate).
    rewrite bool_decide_false by done.
    pose proof (parse_within_more (maxNestingDepth - 1) maxNestingDepth _ _ ltac:(done) Hp) as Hp'.
    rewrite Hp', Ht. cbn [mbind option_bind]. eexists. split; [done|].
    rewrite parse_within_render.
    2:{ apply envelope_document_wf; [done|]. cbn [forallb member fst snd]. apply andb_true_iff. split; [|done].
        apply andb_true_iff. split; [done|]. by apply wf_escaped, (parse_within_wf _ (env_Payload e)). }
    cbn [mbind option_bind].
    rewrite (decode_envelope_document e _ (render (escaped v))) by eauto.
    unfold compacted, compact, parse. rewrite Hp'. cbn. split; [done|]. intros E. rewrite E. by destruct e.
Qed.
End roundtrip.

(** An envelope that comes back as it was. *)
Definition sendable_json (e : Envelope) : Prop :=
  carried e /\ in_years (env_EnqueuedAt e) = true /\ compacted (env_Payload e) = env_Payload e.
Definition marshal_json (e : Envelope) : option string :=
  if int_range (env_Attempt e) then marshal_envelope e else None.

Lemma marshal_json_carried e : carried e -> marshal_json e = marshal_envelope e.
Proof. intros []. unfold marshal_json, int_range. by rewrite !(proj2 (Z.leb_le _ _)) by lia. Qed.

Program Definition WireJSON (time_Parse : string -> option Time) : EnvelopeJSON :=
  {| Marshal := marshal_json; Unmarshal := unmarshal_envelope time_Parse; sendable := sendable_json |}.
Next Obligation.
  intros time_Parse e (Hc & Ht & Hp). destruct (envelope_carried_back time_Parse e Hc Ht) as (text & HM & _ & HU).
  exists text. by rewrite marshal_json_carried, HM, HU.
Qed.

(** C20. The envelope survives the wire. Every envelope whose parts JSON can carry
    is encoded, unless its time lies outside the years 0 to 9999, and decoding
    the text gives the envelope back, to the nanosecond, with its payload
    without white space and with the characters [<], [>], [&] escaped; a payload
    that is in this form already comes back byte for byte. *)
Theorem envelope_roundtrip (time_Parse : string -> option Time) (e : Envelope) :
  carried e -> in_years (env_EnqueuedAt e) = true ->
  exists text, marshal_json e = Some text /\
    unmarshal_envelope time_Parse text = Some (set_Payload e (compacted (env_Payload e))) /\
    (compacted (env_Payload e) = env_Payload e -> unmarshal_envelope time_Parse text = Some e).
Proof. intros Hc. rewrite marshal_json_carried by done. by apply envelope_carried_back. Qed.

(** ** Witness *)

Definition demo_sent : Envelope :=
  {| env_ID := "j1"; env_Type := "bench.sleep"; env_Queue := "default"; env_Priority := "high"; env_Attempt := 2;
     env_Payload := dquoted "{ 'ms': 5, 'note': '<\u00e9>' }"; env_EnqueuedAt := 1709210096 * Second + 7 |}.
Definition demo_payload_back : string := dquoted "{'ms':5,'note':'\u003c\u00e9\u003e'}".

Lemma envelope_roundtrip_witness :
  exists text, marshal_json demo_sent = Some text /\
    unmarshal_envelope (fun _ => None) text = Some (set_Payload demo_sent demo_payload_back).
Proof.
  destruct (envelope_roundtrip (fun _ => None) demo_sent) as (text & HM & HU & _).
  - constructor; try (vm_compute; reflexivity); [split; vm_compute; discriminate|].
    right. eexists. vm_compute. reflexivity.
  - vm_compute. reflexivity.
  - exists text. split; [exact HM|]. rewrite HU. vm_compute. reflexivity.
Defined.
