(* ===== verification/Requests.v ===== *)
(** * Requests: what the server reads out of a request

    The bodies that [internal/api/server.go] decodes: [json.Decoder.Decode] on a
    size-limited reader (the first JSON value of the body, read byte by byte),
    into [submitRequest] and into the body of the concurrency command; and the
    query parameter [since].  What [encoding/json] says about a bad body, and
    the lenient part of [time.Parse], are arguments ([GoText]). *)

From S2P Require Import Prelude Errors Json Decode Rfc3339 Encode Raw Job Wire.
Local Open Scope string_scope.
Local Open Scope list_scope.
Local Open Scope Z_scope.

(** The two texts of the standard library that are not modelled: the times
    that [time.Parse] accepts though they are not strict RFC 3339, and the message
    of a decoding error. *)
Class GoText := { time_Parse : string -> option Time; json_error : string -> string }.

(** ** The first value of a body *)

(** [Decoder.readValue]: how many bytes the first value takes, up to and
    including its last; or the scanner's error; or the text ends before the value
    does, with or without a value that the end of the input completes. *)
Inductive reading := Found (n : nat) | SyntaxError | Open (complete : bool).

(** Whether the end of the input completes the value. *)
Definition ends (s : scan_state) (st : list parse_state) : bool :=
  match step s st " "%char with Some (EndTop, _) => true | _ => false end.

Fixpoint readValue (s : scan_state) (st : list parse_state) (n : nat) (text : string) : reading :=
  match text with
  | EmptyString => Open (ends s st)
  | String c text' =>
      match step s st c with
      | Some (EndTop, _) => Found (if st is [] then n else S n)
      | Some (s', st') => readValue s' st' (S n) text'
      | None => if ends s st then Found n else SyntaxError
      end
  end.

(** What [json.Decoder.Decode] made of a size-limited body. *)
Inductive decoded (A : Type) : Type :=
| Decoded (a : A)
| BodyTooLarge
| InvalidJSON (err : string).
Arguments Decoded {A} a.
Arguments BodyTooLarge {A}.
Arguments InvalidJSON {A} err.

Section decoding.
Context `{GoText}.

(** [json.NewDecoder(http.MaxBytesReader(w, r.Body, limit)).Decode(&x)]. *)
Definition decode_body {A} (fs : fields A) (zero : A) (limit : Z) (body : string) : decoded A :=
  let window := stake (Z.to_nat limit) body in
  let bad := InvalidJSON (json_error body) in
  let decode (text : string) :=
    match unmarshal fs zero text with Some x => Decoded x | None => bad end in
  match readValue BeginValue [] 0 window with
  | Found n => decode (stake n window)
  | SyntaxError => bad
  | Open complete =>
      if Z.max 0 limit <? slen body then BodyTooLarge
      else if complete then decode window else bad
  end.

(** ** A submission *)

Record submitRequest := {
  sr_Type : string; sr_Payload : string; sr_Queue : string; sr_Priority : Priority;
  sr_MaxAttempts : Z; sr_IdempotencyKey : string; sr_DelaySeconds : Z; sr_ScheduledAt : Time
}.
Definition zero_submit : submitRequest :=
  {| sr_Type := EmptyString; sr_Payload := EmptyString; sr_Queue := EmptyString; sr_Priority := EmptyString;
     sr_MaxAttempts := 0; sr_IdempotencyKey := EmptyString; sr_DelaySeconds := 0; sr_ScheduledAt := zero_time |}.

Definition set_sr_Type (r : submitRequest) (x : string) : submitRequest :=
  Build_submitRequest x (sr_Payload r) (sr_Queue r) (sr_Priority r) (sr_MaxAttempts r)
    (sr_IdempotencyKey r) (sr_DelaySeconds r) (sr_ScheduledAt r).
Definition set_sr_Payload (r : submitRequest) (x : string) : submitRequest :=
  Build_submitRequest (sr_Type r) x (sr_Queue r) (sr_Priority r) (sr_MaxAttempts r)
    (sr_IdempotencyKey r) (sr_DelaySeconds r) (sr_ScheduledAt r).
Definition set_sr_Queue (r : submitRequest) (x : string) : submitRequest :=
  Build_submitRequest (sr_Type r) (sr_Payload r) x (sr_Priority r) (sr_MaxAttempts r)
    (sr_IdempotencyKey r) (sr_DelaySeconds r) (sr_ScheduledAt r).
Definition set_sr_Priority (r : submitRequest) (x : string) : submitRequest :=
  Build_submitRequest (sr_Type r) (sr_Payload r) (sr_Queue r) x (sr_MaxAttempts r)
    (sr_IdempotencyKey r) (sr_DelaySeconds r) (sr_ScheduledAt r).
Definition set_sr_MaxAttempts (r : submitRequest) (x : Z) : submitRequest :=
  Build_submitRequest (sr_Type r) (sr_Payload r) (sr_Queue r) (sr_Priority r) x
    (sr_IdempotencyKey r) (sr_DelaySeconds r) (sr_ScheduledAt r).
Definition set_sr_IdempotencyKey (r : submitRequest) (x : string) : submitRequest :=
  Build_submitRequest (sr_Type r) (sr_Payload r) (sr_Queue r) (sr_Priority r) (sr_MaxAttempts r)
    x (sr_DelaySeconds r) (sr_ScheduledAt r).
Definition set_sr_DelaySeconds (r : submitRequest) (x : Z) : submitRequest :=
  Build_submitRequest (sr_Type r) (sr_Payload r) (sr_Queue r) (sr_Priority r) (sr_MaxAttempts r)
    (sr_IdempotencyKey r) x (sr_ScheduledAt r).
Definition set_sr_ScheduledAt (r : submitRequest) (x : Time) : submitRequest :=
  Build_submitRequest (sr_Type r) (sr_Payload r) (sr_Queue r) (sr_Priority r) (sr_MaxAttempts r)
    (sr_IdempotencyKey r) (sr_DelaySeconds r) x.

(** The nested [Options] struct, and the struct around it. *)
Definition options_fields : fields submitRequest :=
  [("queue", at_string set_sr_Queue sr_Queue); ("priority", at_string set_sr_Priority sr_Priority);
   ("maxAttempts", at_int set_sr_MaxAttempts sr_MaxAttempts);
   ("idempotencyKey", at_string set_sr_IdempotencyKey sr_IdempotencyKey);
   ("delaySeconds", at_int set_sr_DelaySeconds sr_DelaySeconds);
   ("scheduledAt", at_instant time_Parse set_sr_ScheduledAt sr_ScheduledAt)].
Definition submit_fields : fields submitRequest :=
  [("type", at_string set_sr_Type sr_Type); ("payload", at_raw set_sr_Payload);
   ("options", fun r _ v => decode_struct options_fields r v)].

Definition decode_submit (limit : Z) (body : string) : decoded submitRequest :=
  decode_body submit_fields zero_submit limit body.

(** ** A concurrency target *)

Definition target_fields : fields Z := [("target", at_int (fun _ x => x) id)].
Definition target_limit : Z := 1024.
Definition decode_target (body : string) : decoded Z := decode_body target_fields 0 target_limit body.

(** ** The query parameter [since]: absent, not RFC 3339, or an instant *)

Inductive since_param := NoSince | BadSince | Since (t : Time).
Definition parse_since (q : string) : since_param :=
  if bool_decide (q = EmptyString) then NoSince
  else match (match parseRFC3339 q with Some t => Some t | None => time_Parse q end) with
       | Some t => Since t
       | None => BadSince
       end.
End decoding.

(** A stand-in for examples. *)
Definition DemoText : GoText := {| time_Parse := fun _ => None; json_error := fun _ => "bad body" |}.

Example decode_submit_examples :
  let d := @decode_submit DemoText 200 in
  d (dquoted "{'type':'bench.sleep','payload': {'ms': 5} ,'options':{'maxAttempts':3,'Priority':'low'}} junk") =
    Decoded {| sr_Type := "bench.sleep"; sr_Payload := dquoted "{'ms': 5}"; sr_Queue := ""; sr_Priority := "low";
               sr_MaxAttempts := 3; sr_IdempotencyKey := ""; sr_DelaySeconds := 0; sr_ScheduledAt := zero_time |} /\
  d (dquoted "{'type': 5}") = InvalidJSON "bad body" /\ d (dquoted "{'type'") = InvalidJSON "bad body" /\
  @decode_submit DemoText 7 (dquoted "{'type':'x'}") = BodyTooLarge /\
  @decode_submit DemoText 7 (dquoted "{]type':'x'}") = InvalidJSON "bad body" /\
  @decode_target DemoText (dquoted " { 'target' : 12 }") = Decoded 12 /\
  @decode_target DemoText (dquoted "{'target': 1.5}") = InvalidJSON "bad body" /\
  d " " = InvalidJSON "bad body" /\ d "null" = Decoded zero_submit.
Proof. by vm_compute. Qed.

(** ** The first value is found *)

Fixpoint last_byte (s : string) : option ascii :=
  match s with
  | EmptyString => None
  | String c EmptyString => Some c
  | String _ s' => last_byte s'
  end.
Definition closes (c : ascii) : bool := Ascii.eqb c "}" || Ascii.eqb c "]".

Lemma scan_top s st' : scan EndTop [] s = Some (EndTop, st') -> forall c, last_byte s = Some c -> isSpace c = true.
Proof.
  induction s as [|d s IH]; [done|]. cbn [scan step]. destruct (isSpace d) eqn:E; [|done]. cbn. intros H c.
  destruct s as [|e s]; [by intros [= <-]|]. by apply IH.
Qed.

(** The literals are spelt without brackets. *)
Definition spelt (s : scan_state) : bool :=
  match s with Literal rest => forallb (fun c => negb (closes c)) rest | _ => true end.

Lemma step_spelt s st c s' st' : spelt s = true -> step s st c = Some (s', st') -> spelt s' = true.
Proof.
  intros Hs Hstep. destruct s' as [| | | | | | | | | | | | | | | | |rest]; try done.
  assert (Hb : forall st0, stateBeginValue c st0 = Some (Literal rest, st') -> spelt (Literal rest) = true).
  { intros st0. rewrite stateBeginValue_tests. unfold pushParseState. by repeat case_match; intros; simplify_eq. }
  assert (He : forall st0, stateEndValue c st0 <> Some (Literal rest, st')).
  { intros [|p st0]; [unfold stateEndValue; by destruct (isSpace c)|]. rewrite stateEndValue_tests.
    unfold popParseState. by repeat case_match. }
  assert (Hg : forall st0, stateBeginString c st0 <> Some (Literal rest, st')).
  { intros st0. unfold stateBeginString. by repeat case_match. }
  destruct s; cbn [step] in Hstep; try (by apply Hb in Hstep); try (by apply He in Hstep); try (by apply Hg in Hstep);
    try (unfold stateNum0, stateESign in Hstep);
    try (destruct (isSpace c); [done|]);
    repeat (case_match; try done; try (by apply Hb in Hstep); try (by apply He in Hstep); try (by apply Hg in Hstep)).
  all: simplify_eq; cbn [spelt forallb] in Hs |- *; by apply andb_true_iff in Hs as [_ Hs].
Qed.

(** A closing bracket never leaves a value that only the end completes. *)
Lemma closes_ends s st c s' st' :
  closes c = true -> spelt s = true -> step s st c = Some (s', st') -> ends s' st' = true -> s' = EndTop.
Proof.
  intros Hc Hs. assert (Hcase : c = "}"%char \/ c = "]"%char).
  { unfold closes in Hc. apply orb_true_iff in Hc as [->%Ascii.eqb_eq| ->%Ascii.eqb_eq]; auto. }
  assert (Hpop : forall p st0, popParseState (p :: st0) = (s', st') -> ends s' st' = true -> s' = EndTop).
  { intros p [|p' st0] [= <- <-]; [done|]. by destruct p'. }
  assert (Hend : forall st0, stateEndValue c st0 = Some (s', st') -> ends s' st' = true -> s' = EndTop).
  { intros [|p st0]; [by destruct Hcase as [-> | ->]|]. rewrite stateEndValue_tests.
    destruct Hcase as [-> | ->], p; try done; intros [= H]; exact (Hpop ParseArrayValue st0 H). }
  assert (Hlit : forall rest, s = Literal rest -> step s st c = Some (s', st') -> s' = EndTop).
  { intros [|x [|y rest]] ->; cbn [step]; [done|..]; destruct (Ascii.eqb_spec x c) as [->|]; try done;
      cbn [spelt forallb] in Hs; by rewrite Hc in Hs. }
  destruct s;
  destruct Hcase as [-> | ->]; simpl; try done; try (apply Hend);
    try (intros [= <- <-]; done).
  - destruct st as [|p [|p' st0]]; by intros; simplify_eq.
  - intros H _. by apply (Hlit rest).
  - intros H _. by apply (Hlit rest).
Qed.

Lemma last_byte_cons c s : s <> EmptyString -> last_byte (String c s) = last_byte s.
Proof. by destruct s. Qed.

(** A value that ends with a bracket is found whatever follows it. *)
Lemma readValue_closed p x b : closes b = true -> last_byte p = Some b -> forall s st n,
  s <> EndTop -> spelt s = true -> finish s st p = true ->
  readValue s st n (p +:+ x) = Found (n + String.length p).
Proof.
  intros Hb. induction p as [|c p IH]; [done|]. intros Hl s st n Hs Hsp Hf. rewrite sapp_cons.
  cbn [finish] in Hf. cbn [readValue]. destruct (step s st c) as [[s' st']|] eqn:Estep; [|done].
  destruct (decide (p = EmptyString)) as [->|Hp].
  - cbn [last_byte] in Hl. injection Hl as ->.
    assert (s' = EndTop) as ->.
    { destruct (decide (s' = EndTop)); [done|]. eapply closes_ends; [exact Hb|exact Hsp|exact Estep|].
      unfold ends. by destruct s'. }
    destruct st as [|p st]; [|f_equal; simpl; lia]. exfalso.
    assert (Hb' : b = "}"%char \/ b = "]"%char).
    { unfold closes in Hb. apply orb_true_iff in Hb as [->%Ascii.eqb_eq| ->%Ascii.eqb_eq]; auto. }
    by destruct Hb' as [-> | ->], s as [| | | | | | | | | | | | | | | | |[|? []]]; simpl in Estep; simplify_option_eq;
      try case_match.
  - rewrite last_byte_cons in Hl by done. destruct (decide (s' = EndTop)) as [->|Hne].
    + exfalso. assert (Hlast : forall s st', finish EndTop st' s = true -> s <> EmptyString ->
        forall c, last_byte s = Some c -> isSpace c = true).
      { clear. intros s st'. induction s as [|c s IH]; [done|]. cbn [finish step]. destruct (isSpace c) eqn:E; [|done].
        intros Hf _ d. destruct (decide (s = EmptyString)) as [->|Hs]; [by intros [= <-]|].
        rewrite last_byte_cons by done. by apply IH. }
      specialize (Hlast _ _ Hf Hp _ Hl). unfold closes in Hb.
      apply orb_true_iff in Hb as [->%Ascii.eqb_eq| ->%Ascii.eqb_eq]; done.
    + assert (E : readValue s' st' (S n) (p +:+ x) = Found (S n + String.length p)).
      { apply IH; [done|done|by eapply step_spelt|done]. }
      rewrite E. destruct s'; try done; f_equal; simpl; lia.
Qed.

(** ** Documents arrive *)

Lemma last_byte_app a b : b <> EmptyString -> last_byte (a +:+ b) = last_byte b.
Proof.
  intros Hb. induction a as [|c a IH]; [done|]. rewrite sapp_cons, last_byte_cons; [done|]. by apply sapp_nonempty_r.
Qed.

Lemma render_object_last ms : last_byte (render (VObj ms)) = Some "}"%char.
Proof. cbn [render]. unfold enclosed. rewrite last_byte_cons by (by apply sapp_nonempty_r). by rewrite last_byte_app. Qed.

Section arrival.
Context `{GoText}.

(** A client that sends an object, within the limit and followed by anything,
    has it decoded. *)
Lemma decode_body_object {A} (fs : fields A) (zero : A) limit ms junk :
  wf maxNestingDepth (VObj ms) = true -> slen (render (VObj ms)) <= limit ->
  decode_body fs zero limit (render (VObj ms) +:+ junk) =
    match decode_struct fs zero (printed (VObj ms)) with
    | Some x => Decoded x
    | None => InvalidJSON (json_error (render (VObj ms) +:+ junk))
    end.
Proof.
  intros Hwf Hl. set (doc := render (VObj ms)) in *. unfold decode_body, unmarshal.
  assert (Hp : parse doc = Some (printed (VObj ms))) by (by apply parse_within_render).
  assert (Hw : exists x, stake (Z.to_nat limit) (doc +:+ junk) = doc +:+ x).
  { unfold slen in Hl. clear -Hl. assert (Hn : (String.length doc <= Z.to_nat limit)%nat) by lia. clear Hl.
    revert Hn. generalize (Z.to_nat limit) as n, doc as d. clear.
    intros n d. revert n. induction d as [|c d IH]; intros n Hn.
    - by exists (stake n junk).
    - destruct n as [|n]; [simpl in Hn; lia|]. destruct (IH n ltac:(simpl in Hn; lia)) as [x Hx]. exists x.
      rewrite !sapp_cons. unfold stake in *. cbn [String.substring]. by rewrite Hx. }
  destruct Hw as [x ->].
  assert (Hf : finish BeginValue [] doc = true) by (rewrite <-finish_Valid; apply Valid_parses; by eexists).
  rewrite (readValue_closed doc x "}" eq_refl (render_object_last ms) BeginValue [] 0 ltac:(done) eq_refl Hf).
  rewrite Nat.add_0_l. replace (stake (String.length doc) (doc +:+ x)) with doc.
  2: { unfold stake. clear. induction doc as [|c d IH]; [by destruct x|]. rewrite sapp_cons. cbn. by rewrite <-IH. }
  by rewrite Hp.
Qed.

Lemma field_named_In {A} (fs : fields A) key set :
  field_named fs key = Some set -> exists f, f ∈ fs /\ f.2 = set.
Proof.
  assert (Hf : forall (P : string * (A -> string -> value -> option A) -> Prop) `{!forall x, Decision (P x)} f l,
    filter P fs = f :: l -> f ∈ fs).
  { intros P ? f l E. assert (Hin : f ∈ f :: l) by (by left). rewrite <-E in Hin.
    by apply list_elem_of_filter in Hin as [_ ?]. }
  unfold field_named. destruct (filter _ fs) as [|f l] eqn:E1; [|intros [= <-]; eauto].
  destruct (filter (fun f => foldName f.1 = foldName key) fs) as [|f l] eqn:E2; [done|]. intros [= <-]. eauto.
Qed.

(** What every member keeps, the decoded struct has. *)
Lemma decode_members_inv {A} (fs : fields A) (P : A -> Prop) (Q : string -> value -> Prop) :
  (forall f x raw v y, f ∈ fs -> P x -> Q raw v -> f.2 x raw v = Some y -> P y) ->
  forall ms x y, Forall (fun m => Q m.2.1 m.2.2) ms -> P x -> decode_members fs ms x = Some y -> P y.
Proof.
  intros Hfs ms. induction ms as [|[key [raw v]] ms IH]; intros x y Hms Hx; cbn [decode_members]; [by intros [= <-]|].
  apply Forall_cons in Hms as [Hm Hms]. destruct (field_named fs (unquote key)) as [set|] eqn:Ef; [|by apply IH].
  destruct (set x raw v) as [x'|] eqn:Es; [|done]. cbn. apply IH; [done|].
  apply field_named_In in Ef as (f & Hin & <-). by eapply Hfs.
Qed.

Lemma options_keep_payload r v r' : decode_struct options_fields r v = Some r' -> sr_Payload r' = sr_Payload r.
Proof.
  destruct v as [| | | | |ms]; try done; [by intros [= <-]|]. cbn [decode_struct]. intros Hd.
  apply (decode_members_inv options_fields (fun y => sr_Payload y = sr_Payload r) (fun _ _ => True)) with (ms := ms) (x := r);
    [|by apply Forall_true|done|done].
  intros f x raw v y Hf <- _. unfold options_fields, at_string, at_int, at_instant in Hf.
  repeat (apply elem_of_cons in Hf as [->|Hf]); [..|by apply elem_of_nil in Hf]; cbn [snd];
    intros (z & _ & ->)%fmap_Some; done.
Qed.

(** The payload of a decoded submission is absent, or JSON that may stand inside
    another document. *)
Lemma decode_submit_payload limit body req :
  decode_submit limit body = Decoded req ->
  sr_Payload req = EmptyString \/ is_Some (parse_within (maxNestingDepth - 1) (sr_Payload req)).
Proof.
  set (P := fun r => sr_Payload r = EmptyString \/ is_Some (parse_within (maxNestingDepth - 1) (sr_Payload r))).
  assert (Hun : forall text, unmarshal submit_fields zero_submit text = Some req -> P req).
  { intros text. unfold unmarshal, parse, parse_within.
    destruct (parse_value _ _ text) as [[v r]|] eqn:E; [|done]. cbn. destruct (skip r); [|done]. cbn.
    destruct v as [| | | | |ms]; try done; [intros [= <-]; by left|]. cbn [decode_struct]. intros Hd.
    apply (decode_members_inv submit_fields P (fun raw v => parse_within (maxNestingDepth - 1) raw = Some v))
      with (ms := ms) (x := zero_submit); [|by eapply value_raw|by left|exact Hd].
    intros f x raw v y Hf HP Hraw. unfold submit_fields, at_string, at_raw in Hf.
    repeat (apply elem_of_cons in Hf as [->|Hf]); [..|by apply elem_of_nil in Hf]; cbn [snd].
    - intros (z & _ & ->)%fmap_Some. exact HP.
    - intros [= <-]. right. by eexists.
    - intros Hy%options_keep_payload. unfold P in *. by rewrite Hy. }
  unfold decode_submit, decode_body. intros Hd.
  assert (Hdec : forall text, match unmarshal submit_fields zero_submit text with
    | Some x => Decoded x | None => InvalidJSON (json_error body) end = Decoded req -> P req).
  { intros text. destruct (unmarshal _ _ text) as [x|] eqn:E; [|done]. intros [= ->]. by eapply Hun. }
  destruct (readValue _ _ _ _) as [n| |complete]; [by eapply Hdec|done|].
  destruct (_ <? _); [done|]. destruct complete; [by eapply Hdec|done].
Qed.
End arrival.
