(* ===== verification/Retry.v ===== *)
(** * Retry: full-jitter exponential backoff

    Models [internal/retry/backoff.go].  The policy's [rng] is the [math/rand]
    generator; the draw it returns is an argument of [Delay], as the numerator
    [u] of the float [u / 2^53] (the values [rand.Float64] returns are of that
    form, and 1.0, which the tests use, is [2^53]).  The [float64] conversion
    and product are IEEE binary64 with round-to-nearest-even, written out in
    integers: no exponent limit is met between [2^-53] and [2^116]. *)

From S2P Require Import Prelude.
Local Open Scope Z_scope.

Record Policy := { base : Duration; cap : Duration }.

(** The 53-bit rounding of a non-negative integer, ties to even. *)
Definition round53_abs (m : Z) : Z :=
  if m <? 2 ^ 53 then m else
  let s := Z.log2 m - 52 in
  let q := m / 2 ^ s in
  let r := m mod 2 ^ s in
  let half := 2 ^ (s - 1) in
  if (r <? half) || ((r =? half) && Z.even q) then q * 2 ^ s else (q + 1) * 2 ^ s.

Definition round53 (m : Z) : Z := Z.sgn m * round53_abs (Z.abs m).

(** [for i := 1; i < attempt; i++]: [n] iterations left. *)
Fixpoint doubling (n : nat) (p : Policy) (ceiling : Z) : Z :=
  match n with
  | O => ceiling
  | S n' => if cap p <=? ceiling then ceiling else doubling n' p (wrap64 (ceiling * 2))
  end.

Definition ceiling (p : Policy) (attempt : Z) : Duration :=
  let attempt := if attempt <? 1 then 1 else attempt in
  let c := doubling (Z.to_nat (attempt - 1)) p (base p) in
  if cap p <? c then cap p else c.

(** [time.Duration(p.rng() * float64(ceiling))], for a draw of [u / 2^53]. *)
Definition Delay (p : Policy) (u : Z) (attempt : Z) : Duration :=
  Z.quot (round53 (u * round53 (ceiling p attempt))) (2 ^ 53).

(** ** Lemmas *)

Lemma doubling_spec (p : Policy) (n : nat) : forall c,
  0 < c -> cap p <= 2 ^ 62 ->
  Z.min (cap p) (doubling n p c) = Z.min (cap p) (c * 2 ^ Z.of_nat n).
Proof.
  induction n as [|n IH]; intros c Hc Hcap; [simpl; f_equal; lia|].
  rewrite Nat2Z.inj_succ, Z.pow_succ_r by lia. simpl.
  assert (0 < 2 ^ Z.of_nat n) by (apply Z.pow_pos_nonneg; lia).
  destruct (cap p <=? c) eqn:Hle; reflect_bools.
  - rewrite !Z.min_l; [done|nia|lia].
  - rewrite wrap64_id by lia. rewrite IH by lia. f_equal. lia.
Qed.

Lemma ceiling_spec (p : Policy) (attempt : Z) :
  0 < base p -> cap p <= 2 ^ 62 ->
  ceiling p attempt = Z.min (cap p) (base p * 2 ^ (Z.max attempt 1 - 1)).
Proof.
  intros Hb Hcap. unfold ceiling.
  set (a := if attempt <? 1 then 1 else attempt).
  assert (a = Z.max attempt 1) as -> by (unfold a; destruct (attempt <? 1) eqn:?; reflect_bools; lia).
  pose proof (doubling_spec p (Z.to_nat (Z.max attempt 1 - 1)) (base p) Hb Hcap) as H.
  rewrite Z2Nat.id in H by lia. rewrite <-H.
  destruct (cap p <? _) eqn:?; reflect_bools; lia.
Qed.

Lemma round53_nonneg m : 0 <= m -> round53 m = round53_abs m.
Proof.
  intros Hm. unfold round53. destruct (decide (m = 0)) as [->|]; [done|].
  rewrite Z.sgn_pos, Z.abs_eq by lia. lia.
Qed.

(** The shift that brings a large number back to 53 bits. *)
Lemma round53_shift m : 2 ^ 53 <= m ->
  1 <= Z.log2 m - 52 /\ 2 ^ 52 * 2 ^ (Z.log2 m - 52) <= m < 2 ^ 53 * 2 ^ (Z.log2 m - 52).
Proof.
  intros Hm. pose proof (Z.log2_le_pow2 m 53).
  pose proof (Z.log2_spec m). rewrite <-!Z.pow_add_r by lia.
  replace (52 + (Z.log2 m - 52)) with (Z.log2 m) by lia.
  replace (53 + (Z.log2 m - 52)) with (Z.succ (Z.log2 m)) by lia. lia.
Qed.

(** Rounding never passes a multiple of the unit it rounds to. *)
Lemma round53_abs_bounds m : 2 ^ 53 <= m ->
  let d := 2 ^ (Z.log2 m - 52) in
  m / d * d <= round53_abs m /\
  (forall k, m <= k * d -> round53_abs m <= k * d).
Proof.
  intros Hm d. destruct (round53_shift m Hm) as [Hs _].
  assert (Hd : 0 < d) by (apply Z.pow_pos_nonneg; lia).
  assert (Hhalf : 0 < 2 ^ (Z.log2 m - 52 - 1)) by (apply Z.pow_pos_nonneg; lia).
  unfold round53_abs. destruct (m <? 2 ^ 53) eqn:?; reflect_bools; [lia|]. fold d.
  pose proof (Z.div_mod m d) as Hdm. pose proof (Z.mod_pos_bound m d Hd).
  destruct (_ || _) eqn:Hr; (split; [nia|]); intros k Hk; [nia|].
  apply orb_false_iff in Hr as [Hlt _]. reflect_bools.
  assert (m / d < k) by nia. nia.
Qed.

Lemma round53_abs_nonneg m : 0 <= m -> 0 <= round53_abs m.
Proof.
  intros Hm. destruct (decide (m < 2 ^ 53)) as [Hlt|Hge].
  - unfold round53_abs. by rewrite (proj2 (Z.ltb_lt _ _) Hlt).
  - destruct (round53_shift m) as [Hs _]; [lia|].
    destruct (round53_abs_bounds m) as [Hb _]; [lia|].
    assert (0 < 2 ^ (Z.log2 m - 52)) by (apply Z.pow_pos_nonneg; lia).
    pose proof (Z.div_pos m (2 ^ (Z.log2 m - 52))). nia.
Qed.

(** A multiple of [2^53] with a 53-bit quotient is a float; rounding a smaller
    number stays below it. *)
Lemma round53_abs_le m q : 0 <= m <= q * 2 ^ 53 -> q <= 2 ^ 53 -> round53_abs m <= q * 2 ^ 53.
Proof.
  intros Hm Hq. destruct (decide (m < 2 ^ 53)) as [Hlt|Hge].
  { unfold round53_abs. rewrite (proj2 (Z.ltb_lt _ _) Hlt). lia. }
  destruct (round53_shift m) as [Hs [Hlo Hhi]]; [lia|].
  destruct (round53_abs_bounds m) as [_ Hub]; [lia|].
  set (s := Z.log2 m - 52) in *.
  destruct (decide (s <= 53)) as [Hs53|Hs53].
  - assert (E : q * 2 ^ 53 = q * 2 ^ (53 - s) * 2 ^ s).
    { rewrite <-Z.mul_assoc, <-Z.pow_add_r by lia. do 2 f_equal. lia. }
    rewrite E. apply Hub. rewrite <-E. lia.
  - (* the product is then exactly [2 ^ 106] *)
    assert (2 ^ 54 <= 2 ^ s) by (apply Z.pow_le_mono_r; lia).
    assert (q = 2 ^ 53) as -> by lia. assert (2 ^ s = 2 ^ 54) as E by lia.
    assert (E' : 2 ^ 53 * 2 ^ 53 = 2 ^ 52 * 2 ^ s) by (rewrite E; lia).
    rewrite E'. apply Hub. rewrite <-E'. lia.
Qed.

Lemma round53_abs_exact q : 0 <= q <= 2 ^ 53 -> round53_abs (q * 2 ^ 53) = q * 2 ^ 53.
Proof.
  intros Hq. apply Z.le_antisymm; [apply round53_abs_le; lia|].
  destruct (decide (q = 0)) as [->|]; [done|].
  destruct (round53_shift (q * 2 ^ 53)) as [Hs [Hlo Hhi]]; [lia|].
  destruct (round53_abs_bounds (q * 2 ^ 53)) as [Hlb _]; [lia|].
  set (s := Z.log2 (q * 2 ^ 53) - 52) in *.
  enough (q * 2 ^ 53 / 2 ^ s * 2 ^ s = q * 2 ^ 53) by lia.
  assert (0 < 2 ^ s) by (apply Z.pow_pos_nonneg; lia).
  rewrite Z.mul_comm. symmetry. apply Z.div_exact; [lia|].
  destruct (decide (s <= 53)) as [Hs53|Hs53].
  - replace (q * 2 ^ 53) with (q * 2 ^ (53 - s) * 2 ^ s); [apply Z_mod_mult|].
    rewrite <-Z.mul_assoc, <-Z.pow_add_r by lia. do 2 f_equal. lia.
  - assert (2 ^ 54 <= 2 ^ s) by (apply Z.pow_le_mono_r; lia).
    assert (q = 2 ^ 53) as -> by lia. assert (2 ^ s = 2 ^ 54) as E by lia. by rewrite E.
Qed.

Lemma round53_small c : 0 <= c <= 2 ^ 53 -> round53 c = c.
Proof.
  intros Hc. rewrite round53_nonneg by lia. unfold round53_abs.
  destruct (c <? 2 ^ 53) eqn:?; [done|]. reflect_bools. by assert (c = 2 ^ 53) as -> by lia.
Qed.

(** ** Theorems *)

(** C17. The backoff is full jitter over the documented window: for a positive base
    and a cap of at most [2^53] nanoseconds (104 days), the delay before the next
    attempt lies between zero and [min(cap, base * 2^(attempt-1))]; the two ends
    are reached by the draws 0 and 1, and no draw, whatever its float rounding,
    passes the window. *)
Theorem Delay_window (p : Policy) (u attempt : Z) :
  0 < base p -> 0 < cap p <= 2 ^ 53 -> 0 <= u <= 2 ^ 53 ->
  let c := Z.min (cap p) (base p * 2 ^ (Z.max attempt 1 - 1)) in
  0 <= Delay p u attempt <= c /\ Delay p 0 attempt = 0 /\ Delay p (2 ^ 53) attempt = c.
Proof.
  intros Hb Hc Hu c. unfold Delay.
  rewrite ceiling_spec by lia. fold c.
  assert (0 < base p * 2 ^ (Z.max attempt 1 - 1)).
  { apply Z.mul_pos_pos; [lia|]. apply Z.pow_pos_nonneg; lia. }
  assert (Hc53 : 0 <= c <= 2 ^ 53) by lia.
  rewrite (round53_small c Hc53), !round53_nonneg by nia.
  split; [|split; [done|]].
  - assert (0 <= u * c <= c * 2 ^ 53) by nia.
    pose proof (round53_abs_nonneg (u * c)). pose proof (round53_abs_le (u * c) c).
    rewrite Z.quot_div_nonneg by lia. split; [apply Z.div_pos; lia|].
    apply Z.div_le_upper_bound; lia.
  - rewrite (Z.mul_comm (2 ^ 53)), round53_abs_exact by lia. by rewrite Z.quot_mul by lia.
Qed.

Lemma Delay_window_witness :
  let p := {| base := Second; cap := 5 * Minute |} in
  0 <= Delay p (2 ^ 52 + 1) 10 <= 5 * Minute.
Proof.
  cbv zeta.
  pose proof (Delay_window {| base := Second; cap := 5 * Minute |} (2 ^ 52 + 1) 10) as H.
  destruct H as [H _]; [vm_compute; reflexivity|split; vm_compute; congruence|
    split; vm_compute; congruence|].
  vm_compute in H. vm_compute. exact H.
Defined.

(** The ceilings of the project's own test table. *)
Example test_ceilings :
  map (Delay {| base := Second; cap := 5 * Minute |} (2 ^ 53)) [0; 1; 2; 3; 4; 9; 10; 20; 63]
  = map (Z.mul Second) [1; 1; 2; 4; 8; 256; 300; 300; 300].
Proof. vm_compute. reflexivity. Qed.

(** The doubling is overflow-free only up to a cap of [2^62]: above it, a base
    and a cap exist for which an admissible attempt number wraps to a negative
    ceiling. *)
Lemma ceiling_overflows_above_2_62 :
  exists p attempt, 0 < base p < cap p /\ cap p <= max_int64 /\ 1 <= attempt <= 25 /\
    ceiling p attempt < 0.
Proof.
  exists {| base := 600 * Second; cap := max_int64 |}, 25.
  repeat split; vm_compute; congruence.
Qed.
