(* ===== verification/Database.v ===== *)
(** * Database: the Postgres tables and the SQL statements

    The schema of [internal/store/migrations/0001_init.sql] and every SQL
    statement that [internal/store/store.go] and [batch.go] send, each as a
    function of the tables and of the server's [now()].  A conditional
    [UPDATE ... WHERE id = $1 AND ...] is [update_where]; its row count and its
    [RETURNING] clause are the result.  Statements that a constraint refuses
    return [Err] and change nothing. *)

From stdpp Require Import sorting.
From S2P Require Import Prelude Errors Job.
Local Open Scope Z_scope.

(** ** Schema *)

(** The columns of [jobs] that no statement updates. *)
Record JobDef := {
  d_id : string; d_type : string; d_queue : string; d_priority : Priority;
  d_payload : string; d_idempotency_key : option string; d_max_attempts : Z;
  d_created_at : Time
}.

(** A row of [jobs]; a nullable column is an option. *)
Record JobRow := {
  r_def : JobDef;
  r_status : Status;
  r_result : option string;
  r_error : option string;
  r_attempt_count : Z;
  r_lease_epoch : Z;
  r_lease_expires_at : option Time;
  r_worker_id : option string;
  r_enqueued_stream_id : option string;
  r_scheduled_at : Time;
  r_started_at : option Time;
  r_completed_at : option Time;
  r_updated_at : Time
}.

Definition r_max_attempts (r : JobRow) : Z := d_max_attempts (r_def r).

(** A row of [job_attempts]; the table is keyed by its UNIQUE (job_id, attempt). *)
Record AttemptRow := {
  a_worker_id : option string; a_started_at : Time; a_finished_at : option Time;
  a_outcome : Outcome; a_error : option string
}.

(** [detail] columns: the Go map, before it is marshalled. *)
Inductive event_value := EvText (s : string) | EvTime (t : Time).
Inductive event_detail := JsonNull | JsonObject (members : list (string * event_value)).
Record EventRow := {
  e_job_id : string; e_at : Time; e_event : string;
  e_detail : option event_detail
}.

Record WorkerRow := {
  w_hostname : option string; w_pid : option Z; w_concurrency : Z;
  w_target_concurrency : Z; w_active_jobs : Z; w_processed : Z; w_state : string;
  w_started_at : Time; w_last_heartbeat_at : Time
}.

Record DB := {
  jobs : gmap string JobRow;
  job_attempts : gmap (string * Z) AttemptRow;
  job_events : list EventRow;
  workers : gmap string WorkerRow
}.

Definition empty_db : DB :=
  {| jobs := ∅; job_attempts := ∅; job_events := []; workers := ∅ |}.

Definition set_jobs (js : gmap string JobRow) (db : DB) : DB :=
  {| jobs := js; job_attempts := job_attempts db; job_events := job_events db;
     workers := workers db |}.
Definition set_attempts (xs : gmap (string * Z) AttemptRow) (db : DB) : DB :=
  {| jobs := jobs db; job_attempts := xs; job_events := job_events db;
     workers := workers db |}.
Definition add_events (es : list EventRow) (db : DB) : DB :=
  {| jobs := jobs db; job_attempts := job_attempts db; job_events := job_events db ++ es;
     workers := workers db |}.
Definition set_workers (ws : gmap string WorkerRow) (db : DB) : DB :=
  {| jobs := jobs db; job_attempts := job_attempts db; job_events := job_events db;
     workers := ws |}.

(** ** UPDATE *)

(** [UPDATE jobs SET (f) WHERE id = $1 AND (p) RETURNING *]. *)
Definition update_where (id : string) (p : JobRow -> bool) (f : JobRow -> JobRow) (db : DB)
    : option JobRow * DB :=
  match jobs db !! id with
  | Some r => if p r then (Some (f r), set_jobs (<[id := f r]> (jobs db)) db) else (None, db)
  | None => (None, db)
  end.

Definition RowsAffected (r : option JobRow) : Z := match r with Some _ => 1 | None => 0 end.

Definition status_is (s : Status) (r : JobRow) : bool := bool_decide (r_status r = s).

(** [WHERE ... lease_epoch = $2 AND status = 'RUNNING']: the fence. *)
Definition fence (epoch : Z) (r : JobRow) : bool :=
  bool_decide (r_lease_epoch r = epoch) && status_is StatusRunning r.

(** [status IN ('PENDING','RETRYING')]. *)
Definition claimable (r : JobRow) : bool :=
  status_is StatusPending r || status_is StatusRetrying r.

(** *** Dispatch *)

Definition row_claimed (now : Time) (workerID : string) (leaseTTL : Duration) (r : JobRow) : JobRow :=
  {| r_def := r_def r; r_status := StatusRunning; r_result := r_result r; r_error := r_error r;
     r_attempt_count := r_attempt_count r + 1; r_lease_epoch := r_lease_epoch r + 1;
     r_lease_expires_at := Some (now + leaseTTL); r_worker_id := Some workerID;
     r_enqueued_stream_id := r_enqueued_stream_id r; r_scheduled_at := r_scheduled_at r;
     r_started_at := Some (default now (r_started_at r)); r_completed_at := r_completed_at r;
     r_updated_at := now |}.

Definition row_lease_extended (now : Time) (ttl : Duration) (r : JobRow) : JobRow :=
  {| r_def := r_def r; r_status := r_status r; r_result := r_result r; r_error := r_error r;
     r_attempt_count := r_attempt_count r; r_lease_epoch := r_lease_epoch r;
     r_lease_expires_at := Some (now + ttl); r_worker_id := r_worker_id r;
     r_enqueued_stream_id := r_enqueued_stream_id r; r_scheduled_at := r_scheduled_at r;
     r_started_at := r_started_at r; r_completed_at := r_completed_at r; r_updated_at := now |}.

Definition row_enqueued (now : Time) (streamID : string) (r : JobRow) : JobRow :=
  {| r_def := r_def r; r_status := r_status r; r_result := r_result r; r_error := r_error r;
     r_attempt_count := r_attempt_count r; r_lease_epoch := r_lease_epoch r;
     r_lease_expires_at := r_lease_expires_at r; r_worker_id := r_worker_id r;
     r_enqueued_stream_id := Some streamID; r_scheduled_at := r_scheduled_at r;
     r_started_at := r_started_at r; r_completed_at := r_completed_at r; r_updated_at := now |}.

(** *** Terminal writes *)

Definition row_completed (now : Time) (res : string) (r : JobRow) : JobRow :=
  {| r_def := r_def r; r_status := StatusCompleted; r_result := Some res; r_error := None;
     r_attempt_count := r_attempt_count r; r_lease_epoch := r_lease_epoch r;
     r_lease_expires_at := None; r_worker_id := r_worker_id r;
     r_enqueued_stream_id := r_enqueued_stream_id r; r_scheduled_at := r_scheduled_at r;
     r_started_at := r_started_at r; r_completed_at := Some now; r_updated_at := now |}.

(** [FAILED] and [DEAD_LETTER] set the same columns. *)
Definition row_failed (now : Time) (st : Status) (errMsg : string) (r : JobRow) : JobRow :=
  {| r_def := r_def r; r_status := st; r_result := r_result r; r_error := Some errMsg;
     r_attempt_count := r_attempt_count r; r_lease_epoch := r_lease_epoch r;
     r_lease_expires_at := None; r_worker_id := r_worker_id r;
     r_enqueued_stream_id := r_enqueued_stream_id r; r_scheduled_at := r_scheduled_at r;
     r_started_at := r_started_at r; r_completed_at := Some now; r_updated_at := now |}.

Definition row_cancelled_running (now : Time) (r : JobRow) : JobRow :=
  {| r_def := r_def r; r_status := StatusCancelled; r_result := r_result r; r_error := r_error r;
     r_attempt_count := r_attempt_count r; r_lease_epoch := r_lease_epoch r;
     r_lease_expires_at := None; r_worker_id := r_worker_id r;
     r_enqueued_stream_id := r_enqueued_stream_id r; r_scheduled_at := r_scheduled_at r;
     r_started_at := r_started_at r; r_completed_at := Some now; r_updated_at := now |}.

Definition row_retry (now : Time) (errMsg : string) (nextAt : Time) (r : JobRow) : JobRow :=
  {| r_def := r_def r; r_status := StatusRetrying; r_result := r_result r; r_error := Some errMsg;
     r_attempt_count := r_attempt_count r; r_lease_epoch := r_lease_epoch r;
     r_lease_expires_at := None; r_worker_id := None;
     r_enqueued_stream_id := r_enqueued_stream_id r; r_scheduled_at := nextAt;
     r_started_at := r_started_at r; r_completed_at := r_completed_at r; r_updated_at := now |}.

(** *** Cancel, reap, promote, requeue *)

Definition row_cancelled (now : Time) (r : JobRow) : JobRow :=
  {| r_def := r_def r; r_status := StatusCancelled; r_result := r_result r; r_error := r_error r;
     r_attempt_count := r_attempt_count r; r_lease_epoch := r_lease_epoch r + 1;
     r_lease_expires_at := r_lease_expires_at r; r_worker_id := r_worker_id r;
     r_enqueued_stream_id := r_enqueued_stream_id r; r_scheduled_at := r_scheduled_at r;
     r_started_at := r_started_at r; r_completed_at := Some now; r_updated_at := now |}.

Definition exhausted (r : JobRow) : bool := r_max_attempts r <=? r_attempt_count r.

Definition row_reaped (now : Time) (retryDelay : Duration) (r : JobRow) : JobRow :=
  {| r_def := r_def r;
     r_status := if exhausted r then StatusDeadLetter else StatusRetrying;
     r_result := r_result r; r_error := Some "lease expired: worker presumed dead";
     r_attempt_count := r_attempt_count r; r_lease_epoch := r_lease_epoch r + 1;
     r_lease_expires_at := None; r_worker_id := None;
     r_enqueued_stream_id := r_enqueued_stream_id r;
     r_scheduled_at := if exhausted r then r_scheduled_at r else now + retryDelay;
     r_started_at := r_started_at r;
     r_completed_at := if exhausted r then Some now else r_completed_at r;
     r_updated_at := now |}.

Definition row_promoted (now : Time) (r : JobRow) : JobRow :=
  {| r_def := r_def r; r_status := StatusPending; r_result := r_result r; r_error := r_error r;
     r_attempt_count := r_attempt_count r; r_lease_epoch := r_lease_epoch r;
     r_lease_expires_at := r_lease_expires_at r; r_worker_id := r_worker_id r;
     r_enqueued_stream_id := r_enqueued_stream_id r; r_scheduled_at := r_scheduled_at r;
     r_started_at := r_started_at r; r_completed_at := r_completed_at r; r_updated_at := now |}.

Definition row_requeued (now : Time) (r : JobRow) : JobRow :=
  {| r_def := r_def r; r_status := StatusPending; r_result := None; r_error := None;
     r_attempt_count := 0; r_lease_epoch := r_lease_epoch r + 1;
     r_lease_expires_at := r_lease_expires_at r; r_worker_id := r_worker_id r;
     r_enqueued_stream_id := None; r_scheduled_at := now;
     r_started_at := None; r_completed_at := None; r_updated_at := now |}.

(** ** Statements *)

(** [store.Attempt] and [store.WorkerInfo]: what the Go side sends. *)
Record Attempt := {
  att_JobID : string; att_Attempt : Z; att_WorkerID : string;
  att_StartedAt : Time; att_FinishedAt : Time; att_Outcome : Outcome; att_Error : string
}.

Record WorkerInfo := {
  wi_ID : string; wi_Hostname : string; wi_PID : Z; wi_Concurrency : Z;
  wi_TargetConcurrency : Z; wi_ActiveJobs : Z; wi_Processed : Z; wi_State : string;
  wi_StartedAt : Time; wi_LastHeartbeatAt : Time
}.

(** [NULLIF(s, '')] and [COALESCE(c, '')]. *)
Definition nullif (s : string) : option string :=
  if bool_decide (s = EmptyString) then None else Some s.
Definition coalesce (c : option string) : string := default EmptyString c.

Inductive stmt : Type -> Type :=
| InsertJob (j : Job) (payload : string) : stmt (option string)
| SelectJob (id : string) : stmt (option JobRow)
| SelectJobByKey (type key : string) : stmt (option JobRow)
| UpdateEnqueued (id streamID : string) : stmt unit
| UpdateClaim (id workerID : string) (leaseTTL : Duration) : stmt (option JobRow)
| UpdateLease (id : string) (epoch : Z) (ttl : Duration) : stmt Z
| UpdateComplete (id : string) (epoch : Z) (res : string) : stmt Z
| UpdateFail (id : string) (epoch : Z) (errMsg : string) : stmt Z
| UpdateDeadLetter (id : string) (epoch : Z) (errMsg : string) : stmt Z
| UpdateCancelRunning (id : string) (epoch : Z) : stmt Z
| UpdateRetry (id : string) (epoch : Z) (errMsg : string) (nextAt : Time) : stmt Z
| InsertAttempt (a : Attempt) : stmt unit
| SelectAttempts (jobID : string) : stmt (list (Z * AttemptRow))
| InsertEvent (jobID event : string) (detail : option event_detail) : stmt unit
| UpdateCancel (id : string) : stmt Z
| UpdateReap (id : string) (retryDelay : Duration) (grace : Duration)
    : stmt (option (JobRow * option string))
| SelectExpiredRunning (grace : Duration) (limit : Z) : stmt (list JobRow)
| SelectUnenqueued (olderThan : Duration) (limit : Z) : stmt (list JobRow)
| SelectStuckRetrying (olderThan : Duration) (limit : Z) : stmt (list JobRow)
| UpdatePromoted (ids : list string) : stmt Z
| SelectDeadLetters (limit offset : Z) : stmt (list JobRow)
| UpdateRequeue (id : string) : stmt (option JobRow)
| UpsertWorkerRow (w : WorkerInfo) : stmt unit
| SelectWorkers : stmt (list (string * WorkerRow))
| SelectStatusCounts (since : Time) : stmt (list (Status * Z))
| SelectAttemptSums (since : Time) : stmt (Z * Z)
| SelectPercentiles (since : Time) : stmt (list Z * list Z)
| UpdateWorkersGone (cutoff : Duration) : stmt Z
| BatchComplete (vs : list (string * Z * string)) : stmt (list string)
| BatchInsertAttempts (xs : list Attempt) : stmt unit
| BatchInsertEvents (es : list (string * string * option event_detail)) : stmt unit.

Section semantics.
Context (now : Time).

Definition row_inserted (j : Job) (payload : string) : JobRow :=
  {| r_def := {| d_id := ID j; d_type := Type_ j; d_queue := Queue j;
                 d_priority := Priority_ j; d_payload := payload;
                 d_idempotency_key := nullif (IdempotencyKey j);
                 d_max_attempts := MaxAttempts j; d_created_at := CreatedAt j |};
     r_status := Status_ j; r_result := None; r_error := None; r_attempt_count := 0;
     r_lease_epoch := 0; r_lease_expires_at := None; r_worker_id := None;
     r_enqueued_stream_id := None; r_scheduled_at := ScheduledAt j;
     r_started_at := None; r_completed_at := None; r_updated_at := now |}.

(** The row the partial unique index [jobs_idempotency_uq] finds. *)
Definition find_by_key (type key : string) (db : DB) : option JobRow :=
  snd <$> head (filter (fun '(_, r) =>
    d_type (r_def r) = type /\ d_idempotency_key (r_def r) = Some key)
    (map_to_list (jobs db))).

(** [INSERT INTO jobs ... ON CONFLICT (type, idempotency_key) DO NOTHING]: the
    CHECKs, the arbiter index, then the primary key. *)
Definition insert_job (j : Job) (payload : string) (db : DB)
    : result string (option string) * DB :=
  let r := row_inserted j payload in
  if negb (StatusValid (Status_ j) && PriorityValid (Priority_ j))
  then (Err "jobs check constraint", db)
  else match nullif (IdempotencyKey j) ≫= fun k => find_by_key (Type_ j) k db with
       | Some _ => (Ok None, db)
       | None =>
           match jobs db !! ID j with
           | Some _ => (Err "jobs_pkey", db)
           | None => (Ok (Some (ID j)), set_jobs (<[ID j := r]> (jobs db)) db)
           end
       end.

(** [INSERT INTO job_attempts ... ON CONFLICT (job_id, attempt) DO NOTHING],
    with the foreign key to [jobs]. *)
Definition insert_attempt_row (id : string) (n : Z) (row : AttemptRow) (db : DB)
    : result string DB :=
  match job_attempts db !! (id, n) with
  | Some _ => Ok db
  | None =>
      match jobs db !! id with
      | None => Err "job_attempts_job_id_fkey"
      | Some _ => Ok (set_attempts (<[(id, n) := row]> (job_attempts db)) db)
      end
  end.

Definition attempt_row (nullify : bool) (a : Attempt) : AttemptRow :=
  let col s := if nullify then nullif s else Some s in
  {| a_worker_id := col (att_WorkerID a); a_started_at := att_StartedAt a;
     a_finished_at := Some (att_FinishedAt a); a_outcome := att_Outcome a;
     a_error := col (att_Error a) |}.

Fixpoint insert_attempts (xs : list Attempt) (db : DB) : result string DB :=
  match xs with
  | [] => Ok db
  | a :: xs' =>
      result_bind (insert_attempt_row (att_JobID a) (att_Attempt a) (attempt_row false a) db)
        (insert_attempts xs')
  end.

Definition event_row (id ev : string) (detail : option event_detail) : EventRow :=
  {| e_job_id := id; e_at := now; e_event := ev; e_detail := detail |}.

(** [lease_expires_at < now() - make_interval(secs => grace)]; NULL compares
    to nothing. *)
Definition lease_expired (grace : Duration) (r : JobRow) : bool :=
  match r_lease_expires_at r with Some t => t <? now - grace | None => false end.

Definition select_rows (p : JobRow -> bool) (db : DB) : list JobRow :=
  filter (fun r => p r = true) (snd <$> map_to_list (jobs db)).

(** [ORDER BY completed_at DESC NULLS LAST]. *)
Definition completed_desc (x y : JobRow) : Prop :=
  match r_completed_at x, r_completed_at y with
  | Some a, Some b => b <= a
  | None, Some _ => False
  | _, None => True
  end.
#[global] Instance completed_desc_dec : RelDecision completed_desc.
Proof.
  intros x y. unfold completed_desc.
  destruct (r_completed_at x), (r_completed_at y); apply _.
Defined.

(** [UPDATE ... FROM (unnest ...) v WHERE jobs.id = v.id AND epoch = v.epoch
    AND status = 'RUNNING']: each target row is updated at most once, from a
    matching [v]. *)
Definition batch_match (vs : list (string * Z * string)) (id : string) (r : JobRow)
    : option string :=
  if status_is StatusRunning r
  then snd <$> head (filter (fun v => v.1 = (id, r_lease_epoch r)) vs)
  else None.

(** [UPDATE jobs SET status = 'PENDING' WHERE id = ANY($1) AND status = 'RETRYING']. *)
Definition promoted_hit (ids : list string) (id : string) (r : JobRow) : bool :=
  bool_decide (id ∈ ids) && status_is StatusRetrying r.
Definition mark_promoted (ids : list string) (db : DB) : Z * DB :=
  (Z.of_nat (length (filter (fun x => promoted_hit ids x.1 x.2 = true) (map_to_list (jobs db)))),
   set_jobs (map_imap (fun id r => Some (if promoted_hit ids id r then row_promoted now r else r))
               (jobs db)) db).

(** The multi-row completion of a batch, and the ids it returns. *)
Definition batch_complete (vs : list (string * Z * string)) (db : DB) : list string * DB :=
  (omap (fun x => (fun _ => x.1) <$> batch_match vs x.1 x.2) (map_to_list (jobs db)),
   set_jobs (map_imap (fun id r => Some
     (match batch_match vs id r with Some res => row_completed now res r | None => r end))
     (jobs db)) db).

(** [INSERT INTO workers ... ON CONFLICT (id) DO UPDATE]. *)
Definition upsert_worker (w : WorkerInfo) (db : DB) : result string DB :=
  let old := workers db !! wi_ID w in
  let row :=
    {| w_hostname := match old with Some o => w_hostname o | None => Some (wi_Hostname w) end;
       w_pid := match old with Some o => w_pid o | None => Some (wi_PID w) end;
       w_concurrency := wi_Concurrency w;
       w_target_concurrency := wi_TargetConcurrency w;
       w_active_jobs := wi_ActiveJobs w; w_processed := wi_Processed w;
       w_state := wi_State w;
       w_started_at := match old with Some o => w_started_at o | None => now end;
       w_last_heartbeat_at := now |} in
  if bool_decide (wi_State w ∈ ["active"; "draining"; "gone"])
  then Ok (set_workers (<[wi_ID w := row]> (workers db)) db)
  else Err "workers check constraint".

Definition worker_silent (cutoff : Duration) (w : WorkerRow) : bool :=
  (w_last_heartbeat_at w <? now - cutoff) && negb (bool_decide (w_state w = "gone")).
Definition worker_gone (w : WorkerRow) : WorkerRow :=
  {| w_hostname := w_hostname w; w_pid := w_pid w; w_concurrency := w_concurrency w;
     w_target_concurrency := w_target_concurrency w; w_active_jobs := w_active_jobs w;
     w_processed := w_processed w; w_state := "gone"; w_started_at := w_started_at w;
     w_last_heartbeat_at := w_last_heartbeat_at w |}.
Definition mark_dead_workers (cutoff : Duration) (db : DB) : Z * DB :=
  (Z.of_nat (length (filter (fun x => worker_silent cutoff x.2 = true) (map_to_list (workers db)))),
   set_workers ((fun w => if worker_silent cutoff w then worker_gone w else w) <$> workers db) db).

(** *** The statements of the summary *)

Definition created_since (since : Time) (r : JobRow) : bool := since <=? d_created_at (r_def r).

(** [SELECT status, count( * ) ... GROUP BY status]. *)
Definition count_status (st : Status) (rs : list JobRow) : Z :=
  Z.of_nat (length (filter (fun r => r_status r = st) rs)).
Definition status_counts (rs : list JobRow) : list (Status * Z) :=
  map (fun st => (st, count_status st rs)) (remove_dups (map r_status rs)).

(** [percentile_cont(k / 100) WITHIN GROUP (ORDER BY v)], times 100: linear
    interpolation between the two neighbours of the fractional position. *)
Definition percentile (vs : list Z) (k : Z) : Z :=
  let pos := k * Z.of_nat (length vs - 1) in
  let lo := nth (Z.to_nat (pos / 100)) vs 0 in
  let hi := nth (S (Z.to_nat (pos / 100))) vs lo in
  100 * lo + (pos mod 100) * (hi - lo).
(** The three percentiles of the values that are not NULL; zeros when there are none. *)
Definition percentiles (vs : list (option Z)) : list Z :=
  match omap (fun v => v) vs with
  | [] => [0; 0; 0]
  | xs => map (percentile (merge_sort Z.le xs)) [50; 95; 99]
  end.
Definition finished_since (since : Time) (r : JobRow) : bool :=
  created_since since r && status_is StatusCompleted r && bool_decide (is_Some (r_completed_at r)).
Definition elapsed (from to : option Time) : option Duration :=
  match from, to with Some a, Some b => Some (b - a) | _, _ => None end.

(** One statement at server time [now]. *)
Definition exec_stmt {A} (s : stmt A) (db : DB) : result string A * DB :=
  let upd id p f := let '(r, db') := update_where id p f db in (Ok (RowsAffected r), db') in
  match s in stmt A return result string A * DB with
  | InsertJob j payload => insert_job j payload db
  | SelectJob id => (Ok (jobs db !! id), db)
  | SelectJobByKey ty key => (Ok (find_by_key ty key db), db)
  | UpdateEnqueued id sid =>
      let '(_, db') := update_where id (fun r => bool_decide (r_enqueued_stream_id r = None))
                         (row_enqueued now sid) db in
      (Ok tt, db')
  | UpdateClaim id w ttl =>
      let '(r, db') := update_where id claimable (row_claimed now w ttl) db in (Ok r, db')
  | UpdateLease id e ttl => upd id (fence e) (row_lease_extended now ttl)
  | UpdateComplete id e res => upd id (fence e) (row_completed now res)
  | UpdateFail id e msg => upd id (fence e) (row_failed now StatusFailed msg)
  | UpdateDeadLetter id e msg => upd id (fence e) (row_failed now StatusDeadLetter msg)
  | UpdateCancelRunning id e => upd id (fence e) (row_cancelled_running now)
  | UpdateRetry id e msg t => upd id (fence e) (row_retry now msg t)
  | InsertAttempt a =>
      match insert_attempt_row (att_JobID a) (att_Attempt a) (attempt_row true a) db with
      | Ok db' => (Ok tt, db')
      | Err e => (Err e, db)
      end
  | SelectAttempts id =>
      (Ok (merge_sort (le_on fst)
             (omap (fun '((i, n), a) => if bool_decide (i = id) then Some (n, a) else None)
                (map_to_list (job_attempts db)))), db)
  | InsertEvent id ev detail =>
      match jobs db !! id with
      | None => (Err "job_events_job_id_fkey", db)
      | Some _ => (Ok tt, add_events [event_row id ev detail] db)
      end
  | UpdateCancel id => upd id claimable (row_cancelled now)
  | UpdateReap id delay grace =>
      let prev := jobs db !! id ≫= r_worker_id in
      let '(r, db') := update_where id
        (fun r => status_is StatusRunning r && lease_expired grace r) (row_reaped now delay) db in
      (Ok ((fun r => (r, prev)) <$> r), db')
  | SelectExpiredRunning grace limit =>
      (Ok (take (Z.to_nat limit)
             (select_rows (fun r => status_is StatusRunning r && lease_expired grace r) db)), db)
  | SelectUnenqueued older limit =>
      (Ok (take (Z.to_nat limit)
             (select_rows (fun r => status_is StatusPending r
                && bool_decide (r_enqueued_stream_id r = None)
                && (r_scheduled_at r <=? now) && (d_created_at (r_def r) <? now - older)) db)), db)
  | SelectStuckRetrying older limit =>
      (Ok (take (Z.to_nat limit)
             (select_rows (fun r => status_is StatusRetrying r
                && (r_scheduled_at r <? now - older)) db)), db)
  | UpdatePromoted ids => let '(n, db') := mark_promoted ids db in (Ok n, db')
  | SelectDeadLetters limit offset =>
      (Ok (take (Z.to_nat limit) (drop (Z.to_nat offset)
             (merge_sort completed_desc (select_rows (status_is StatusDeadLetter) db)))), db)
  | UpdateRequeue id =>
      let '(r, db') := update_where id (status_is StatusDeadLetter) (row_requeued now) db in
      (Ok r, db')
  | UpsertWorkerRow w =>
      match upsert_worker w db with
      | Ok db' => (Ok tt, db')
      | Err e => (Err e, db)
      end
  | SelectWorkers =>
      (Ok (merge_sort (le_on (fun x => w_started_at x.2))
             (map_to_list (workers db))), db)
  | SelectStatusCounts since => (Ok (status_counts (select_rows (created_since since) db)), db)
  | SelectAttemptSums since =>
      let rs := select_rows (created_since since) db in
      (Ok (Z.of_nat (length (filter (fun r => 1 < r_attempt_count r) rs)),
           foldr (fun r n => r_attempt_count r + n) 0 rs), db)
  | SelectPercentiles since =>
      let rs := select_rows (finished_since since) db in
      (Ok (percentiles (map (fun r => elapsed (Some (d_created_at (r_def r))) (r_completed_at r)) rs),
           percentiles (map (fun r => elapsed (r_started_at r) (r_completed_at r)) rs)), db)
  | UpdateWorkersGone cutoff =>
      let '(n, db') := mark_dead_workers cutoff db in (Ok n, db')
  | BatchComplete vs => let '(ids, db') := batch_complete vs db in (Ok ids, db')
  | BatchInsertAttempts xs =>
      match insert_attempts xs db with
      | Ok db' => (Ok tt, db')
      | Err e => (Err e, db)
      end
  | BatchInsertEvents es =>
      if forallb (fun '(id, _, _) => bool_decide (is_Some (jobs db !! id))) es
      then (Ok tt, add_events (map (fun '(id, ev, d) => event_row id ev d) es) db)
      else (Err "job_events_job_id_fkey", db)
  end.
End semantics.
