(* ===== verification/Rows.v ===== *)
(** * Rows: what the SQL statements can do to a job row

    Every statement of [Database.v] acts on each row of [jobs] by one step of
    the relation [row_step] (or inserts the row); the facts that hold of all
    statements, whoever sends them and in whatever order, are proved by cases
    on it: the state machine, the fence, the row invariant. *)

From S2P Require Import Prelude Errors Job Database.
Local Open Scope Z_scope.

(** ** The step relation *)

Inductive row_step : JobRow -> JobRow -> Prop :=
| step_same r : row_step r r
| step_enqueued now sid r : r_enqueued_stream_id r = None -> row_step r (row_enqueued now sid r)
| step_claimed now w ttl r : claimable r = true -> row_step r (row_claimed now w ttl r)
| step_lease now ttl r : r_status r = StatusRunning -> row_step r (row_lease_extended now ttl r)
| step_completed now res r : r_status r = StatusRunning -> row_step r (row_completed now res r)
| step_failed now msg r :
    r_status r = StatusRunning -> row_step r (row_failed now StatusFailed msg r)
| step_dead now msg r :
    r_status r = StatusRunning -> row_step r (row_failed now StatusDeadLetter msg r)
| step_cancelled_running now r :
    r_status r = StatusRunning -> row_step r (row_cancelled_running now r)
| step_retry now msg t r : r_status r = StatusRunning -> row_step r (row_retry now msg t r)
| step_cancelled now r : claimable r = true -> row_step r (row_cancelled now r)
| step_reaped now delay r : r_status r = StatusRunning -> row_step r (row_reaped now delay r)
| step_promoted now r : r_status r = StatusRetrying -> row_step r (row_promoted now r)
| step_requeued now r : r_status r = StatusDeadLetter -> row_step r (row_requeued now r).

Create HintDb rows.
#[export] Hint Constructors row_step : rows.

(** What one statement does to the row of [id]: nothing to an absent row unless
    it inserts it. *)
Inductive slot_step : option JobRow -> option JobRow -> Prop :=
| slot_absent : slot_step None None
| slot_insert now j payload :
    StatusValid (Status_ j) && PriorityValid (Priority_ j) = true ->
    slot_step None (Some (row_inserted now j payload))
| slot_row r r' : row_step r r' -> slot_step (Some r) (Some r').
#[export] Hint Constructors slot_step : rows.

Lemma slot_refl o : slot_step o o.
Proof. destruct o; eauto with rows. Qed.
#[export] Hint Resolve slot_refl : rows.

Lemma fence_spec e r : fence e r = true <-> r_lease_epoch r = e /\ r_status r = StatusRunning.
Proof. unfold fence, status_is. by rewrite andb_true_iff, !bool_decide_eq_true. Qed.

Lemma claimable_spec r :
  claimable r = true <-> r_status r = StatusPending \/ r_status r = StatusRetrying.
Proof. unfold claimable, status_is. by rewrite orb_true_iff, !bool_decide_eq_true. Qed.

(** ** [update_where] *)

Lemma update_where_slot id p f db id' :
  (forall r, p r = true -> row_step r (f r)) ->
  slot_step (jobs db !! id') (jobs (update_where id p f db).2 !! id').
Proof.
  intros Hf. unfold update_where.
  destruct (jobs db !! id) as [r|] eqn:Hr; [destruct (p r) eqn:Hp|]; simpl; auto with rows.
  destruct (decide (id = id')) as [<-|Hne].
  - rewrite lookup_insert_eq, Hr. auto with rows.
  - rewrite lookup_insert_ne by done. auto with rows.
Qed.

(** The row count of an [update_where] says what happened. *)
Lemma update_where_miss id p f db :
  RowsAffected (update_where id p f db).1 <> 1 ->
  (update_where id p f db).2 = db /\
  (forall r, jobs db !! id = Some r -> p r = false).
Proof.
  unfold update_where. destruct (jobs db !! id) as [r|]; [destruct (p r) eqn:Hp|];
    simpl; try done. intros _. split; [done|]. by intros ? [= <-].
Qed.

Lemma update_where_hit id p f db r' :
  (update_where id p f db).1 = Some r' ->
  exists r, jobs db !! id = Some r /\ p r = true /\ r' = f r /\
    jobs (update_where id p f db).2 = <[id := r']> (jobs db).
Proof.
  unfold update_where. destruct (jobs db !! id) as [r|]; [destruct (p r) eqn:Hp|];
    simpl; try done. intros [= <-]. by exists r.
Qed.

Lemma insert_attempt_row_jobs id n row db db' :
  insert_attempt_row id n row db = Ok db' -> jobs db' = jobs db.
Proof. unfold insert_attempt_row. repeat case_match; naive_solver. Qed.

Lemma insert_attempts_jobs xs : forall db db', insert_attempts xs db = Ok db' -> jobs db' = jobs db.
Proof.
  induction xs as [|a xs IH]; simpl; intros db db'; [naive_solver|].
  intros (db1 & H1 & H2)%result_bind_Ok.
  rewrite (IH _ _ H2). by eapply insert_attempt_row_jobs.
Qed.

Lemma map_imap_slot (f : string -> JobRow -> JobRow) (m : gmap string JobRow) id :
  (forall i r, row_step r (f i r)) ->
  slot_step (m !! id) (map_imap (fun i r => Some (f i r)) m !! id).
Proof.
  intros Hf. rewrite map_lookup_imap. destruct (m !! id); simpl; auto with rows.
Qed.

(** Two different constants for one status. *)
Ltac status_clash :=
  exfalso;
  repeat match goal with H : _ \/ _ |- _ => destruct H end;
  match goal with
  | H1 : r_status ?r = _, H2 : r_status ?r = _ |- _ => rewrite H1 in H2; discriminate
  | _ => done
  end.

Ltac spec_bools :=
  repeat match goal with
  | H : fence _ _ = true |- _ => apply fence_spec in H as [??]
  | H : status_is _ _ = true |- _ => apply bool_decide_eq_true in H
  end.

Lemma batch_match_Some vs id r res :
  batch_match vs id r = Some res ->
  r_status r = StatusRunning /\ ((id, r_lease_epoch r), res) ∈ vs.
Proof.
  unfold batch_match. destruct (status_is StatusRunning r) eqn:Hs; [|done].
  destruct (filter _ vs) as [|[k v] l] eqn:Hf; simpl; [done|]. intros [= <-].
  spec_bools. split; [done|].
  assert (Hin : (k, v) ∈ (k, v) :: l) by apply list_elem_of_here.
  rewrite <-Hf in Hin. by apply list_elem_of_filter in Hin as [<- ?].
Qed.

Ltac spec_update :=
  match goal with
  | |- context [update_where ?i ?p ?f ?db] =>
      let H := fresh in
      pose proof (fun id => update_where_slot i p f db id) as H;
      destruct (update_where i p f db); simpl in *; apply H; intros ? ?;
      reflect_bools; spec_bools; simplify_eq; eauto with rows
  end.

(** Every statement is, on every row, a step of the relation. *)
Lemma exec_stmt_slots {A} (now : Time) (s : stmt A) (db : DB) (id : string) :
  slot_step (jobs db !! id) (jobs (exec_stmt now s db).2 !! id).
Proof.
  destruct s; simpl; auto with rows; try spec_update.
  - (* InsertJob *)
    unfold insert_job. destruct (_ && _) eqn:Hc; simpl; auto with rows.
    destruct (_ ≫= _); simpl; auto with rows.
    destruct (jobs db !! ID j) eqn:Hj; simpl; auto with rows.
    destruct (decide (ID j = id)) as [<-|]; [|rewrite lookup_insert_ne; auto with rows].
    rewrite lookup_insert_eq, Hj. by constructor.
  - destruct (insert_attempt_row _ _ _ _) eqn:Ha; simpl; auto with rows.
    rewrite (insert_attempt_row_jobs _ _ _ _ _ Ha). auto with rows.
  - destruct (jobs db !! jobID); simpl; auto with rows.
  - apply map_imap_slot. intros i r. unfold promoted_hit.
    destruct (bool_decide _), (status_is _ r) eqn:?; simpl; spec_bools; auto with rows.
  - unfold upsert_worker. destruct (bool_decide _); simpl; auto with rows.
  - apply map_imap_slot. intros i r. destruct (batch_match vs i r) eqn:Hm; auto with rows.
    apply batch_match_Some in Hm as [??]. auto with rows.
  - destruct (insert_attempts xs db) eqn:Ha; simpl; auto with rows.
    rewrite (insert_attempts_jobs _ _ _ Ha). auto with rows.
  - destruct (forallb _ es); simpl; auto with rows.
Qed.

(** ** The state machine *)

Lemma row_step_status r r' :
  row_step r r' -> r_status r = r_status r' \/ CanTransition (r_status r) (r_status r') = true.
Proof.
  destruct 1; simpl; auto; try (right; by match goal with H : r_status _ = _ |- _ => rewrite H end).
  - apply claimable_spec in H as [-> | ->]; by right.
  - apply claimable_spec in H as [-> | ->]; by right.
  - rewrite H. destruct (exhausted r); by right.
Qed.

(** ** Epochs *)

Lemma row_step_def r r' : row_step r r' -> r_def r' = r_def r.
Proof. by destruct 1. Qed.

(** The epoch never falls, and while it stands still the attempt counter stands
    still and the row cannot become [RUNNING]. *)
Lemma row_step_epoch r r' :
  row_step r r' ->
  r_lease_epoch r <= r_lease_epoch r' /\
  (r_lease_epoch r' = r_lease_epoch r ->
     r_attempt_count r' = r_attempt_count r /\
     (r_status r' = StatusRunning -> r_status r = StatusRunning)).
Proof. destruct 1; simpl; (split; [lia|]); intros; split; try done; lia. Qed.

(** ** The row invariant *)

Record row_wf (r : JobRow) : Prop := {
  wf_status : r_status r ∈ Statuses;
  wf_priority : d_priority (r_def r) ∈ PriorityOrder;
  wf_budget : 1 <= r_max_attempts r <= MaxAttemptsCeiling;
  wf_counters : 0 <= r_attempt_count r <= r_lease_epoch r;
  wf_lease : is_Some (r_lease_expires_at r) <-> r_status r = StatusRunning;
  wf_owner : r_status r = StatusRunning -> is_Some (r_worker_id r);
  wf_started : is_Some (r_started_at r) <-> 0 < r_attempt_count r;
  wf_running : r_status r = StatusRunning \/ r_status r = StatusCompleted -> 0 < r_attempt_count r;
  wf_completed_at : is_Some (r_completed_at r) <-> Terminal (r_status r) = true;
  wf_result : is_Some (r_result r) <-> r_status r = StatusCompleted;
  wf_touched : r_status r <> StatusPending -> 0 < r_lease_epoch r;
  wf_error : r_status r ∈ [StatusFailed; StatusDeadLetter; StatusRetrying] -> is_Some (r_error r)
}.

Lemma is_Some_Some {A} (x : A) : is_Some (Some x) <-> True.
Proof. split; [done|by eexists]. Qed.
Lemma is_Some_None' {A} : is_Some (@None A) <-> False.
Proof. split; [by intros [? ?]|done]. Qed.

Lemma Terminal_spec s :
  Terminal s = true <->
  s = StatusCompleted \/ s = StatusFailed \/ s = StatusDeadLetter \/ s = StatusCancelled.
Proof. unfold Terminal. rewrite !orb_true_iff, !bool_decide_eq_true. tauto. Qed.

(** Close a field of the row invariant: statuses are constants here. *)
Ltac wf_field :=
  rewrite ?is_Some_Some, ?is_Some_None', ?Terminal_spec in *;
  rewrite ?elem_of_cons, ?elem_of_nil in *; unfold r_max_attempts in *; simpl in *;
  solve [ done | lia | by apply StatusValid_elem_of | eauto
        | intuition (first [done | discriminate | lia | eauto]) ].

Lemma row_wf_inserted now j payload : admitted j -> row_wf (row_inserted now j payload).
Proof.
  intros [Hst _ _ Hpr _ Hbud _ _]. constructor; simpl; rewrite ?Hst; wf_field.
Qed.

Lemma row_wf_step r r' : row_step r r' -> row_wf r -> row_wf r'.
Proof.
  intros Hstep Hwf. destruct Hstep; try done; try apply claimable_spec in H;
    destruct Hwf as [Hst Hpr Hbud Hcnt Hlease Howner Hstarted Hrun Hcomp Hres Htou Herr];
    try (destruct H as [H|H]).
  all: try match goal with |- row_wf (row_reaped _ _ _) =>
             unfold row_reaped; destruct (exhausted r) end.
  all: constructor; simpl; rewrite ?H in *;
    [ first [ done | by apply StatusValid_elem_of ] | done | done
    | clear Hlease Hcomp Hres Herr; lia
    | clear -Hlease; wf_field | clear -Howner; wf_field | clear -Hstarted Hcnt; wf_field
    | first [ exact Hrun | intros _; apply Hrun; by left | clear -Hcnt; wf_field ]
    | clear -Hcomp; wf_field | clear -Hres; wf_field
    | first [ exact Htou | intros _; apply Htou; discriminate | clear -Hcnt; intros; lia | done ]
    | clear -Herr; wf_field ].
Qed.

(** ** Statement traces

    Any number of clients interleave their statements; what the database sees
    is a sequence of statements with the server time of each. *)

Definition sql : Type := { A : Type & stmt A }.
Definition sql_of {A} (s : stmt A) : sql := existT A s.
Definition exec_sql (x : Time * sql) (db : DB) : DB := (exec_stmt x.1 (projT2 x.2) db).2.

Fixpoint run_sql (tr : list (Time * sql)) (db : DB) : DB :=
  match tr with [] => db | x :: tr' => run_sql tr' (exec_sql x db) end.

(** The fenced statements, by the (id, epoch) they carry. *)
Inductive fenced_write (id : string) (e : Z) : stmt Z -> Prop :=
| fw_lease ttl : fenced_write id e (UpdateLease id e ttl)
| fw_complete res : fenced_write id e (UpdateComplete id e res)
| fw_fail msg : fenced_write id e (UpdateFail id e msg)
| fw_dead msg : fenced_write id e (UpdateDeadLetter id e msg)
| fw_cancel : fenced_write id e (UpdateCancelRunning id e)
| fw_retry msg t : fenced_write id e (UpdateRetry id e msg t).

(** The epoch [e] of job [id] has been superseded, or its run is over. *)
Definition settled (id : string) (e : Z) (db : DB) : Prop :=
  exists r, jobs db !! id = Some r /\
    (e < r_lease_epoch r \/ (r_lease_epoch r = e /\ r_status r <> StatusRunning)).

Lemma slot_Some o r' : slot_step o (Some r') -> 
  (exists r, o = Some r /\ row_step r r') \/
  (o = None /\ r_lease_epoch r' = 0 /\ r_result r' = None).
Proof. inversion 1; subst; [right|left]; eauto. Qed.

Lemma slot_from_Some r o : slot_step (Some r) o -> exists r', o = Some r' /\ row_step r r'.
Proof. inversion 1; subst; eauto. Qed.

Lemma settled_exec id e x db : settled id e db -> settled id e (exec_sql x db).
Proof.
  intros (r & Hr & Hs). destruct x as [now [A s]].
  pose proof (exec_stmt_slots now s db id) as H. rewrite Hr in H.
  apply slot_from_Some in H as (r' & Hr' & Hstep).
  exists r'. split; [done|]. apply row_step_epoch in Hstep as [Hle Heq].
  destruct (decide (r_lease_epoch r' = r_lease_epoch r)) as [E|]; [|left; lia].
  destruct (Heq E) as [_ Hrun]. destruct Hs as [?|[? ?]]; [left; lia|right].
  split; [lia|naive_solver].
Qed.

Lemma settled_run id e tr : forall db, settled id e db -> settled id e (run_sql tr db).
Proof. induction tr as [|x tr IH]; intros db Hs; simpl; [done|]. by apply IH, settled_exec. Qed.

Lemma settled_fence id e db r :
  settled id e db -> jobs db !! id = Some r -> fence e r = false.
Proof.
  intros (r' & Hr' & Hs) Hr. simplify_eq. apply not_true_iff_false.
  rewrite fence_spec. naive_solver lia.
Qed.

(** A fenced write either hits the row at its epoch or does nothing. *)
Lemma exec_fenced id e s now db :
  fenced_write id e s ->
  exists f, exec_stmt now s db =
    (let '(r, db') := update_where id (fence e) f db in (Ok (RowsAffected r), db')).
Proof. destruct 1; eexists; reflexivity. Qed.

Lemma fenced_miss id e s now db :
  fenced_write id e s -> (forall r, jobs db !! id = Some r -> fence e r = false) ->
  exec_stmt now s db = (Ok 0, db).
Proof.
  intros Hw Hmiss. destruct (exec_fenced id e s now db Hw) as [f ->].
  unfold update_where. destruct (jobs db !! id) as [r|] eqn:Hr; [|done]. by rewrite Hmiss.
Qed.
#[export] Hint Resolve settled_exec settled_run settled_fence fenced_miss : rows.

(** The statements that move ownership on, with what they report when they do. *)
Inductive ownership_change (id : string) (now : Time) (db : DB) : DB -> Prop :=
| oc_claim w ttl r db' :
    exec_stmt now (UpdateClaim id w ttl) db = (Ok (Some r), db') -> ownership_change id now db db'
| oc_reap delay grace r db' :
    exec_stmt now (UpdateReap id delay grace) db = (Ok (Some r), db') -> ownership_change id now db db'
| oc_cancel db' :
    exec_stmt now (UpdateCancel id) db = (Ok 1, db') -> ownership_change id now db db'
| oc_requeue r db' :
    exec_stmt now (UpdateRequeue id) db = (Ok (Some r), db') -> ownership_change id now db db'.

Lemma ownership_change_bumps id now db db' :
  ownership_change id now db db' ->
  exists r r', jobs db !! id = Some r /\ jobs db' !! id = Some r' /\
    r_lease_epoch r' = r_lease_epoch r + 1.
Proof.
  assert (Hgen : forall p f o db', update_where id p f db = (Some o, db') ->
    (forall r, r_lease_epoch (f r) = r_lease_epoch r + 1) ->
    exists r r', jobs db !! id = Some r /\ jobs db' !! id = Some r' /\
      r_lease_epoch r' = r_lease_epoch r + 1).
  { intros p f o db1 Hu Hf. pose proof (update_where_hit id p f db o) as H.
    rewrite Hu in H. destruct (H eq_refl) as (r & Hr & _ & -> & Hj).
    exists r, (f r). simpl in Hj. rewrite Hj, lookup_insert_eq. auto. }
  destruct 1 as [? ? ? ? H|? ? ? ? H|? H|? ? H]; simpl in H;
    destruct (update_where _ _ _ _) as [[o|] db1] eqn:Hu; simplify_eq/=;
    by eapply Hgen.
Qed.

(** C9. Fencing. Once ownership of a job has moved on (a later claim, a reap, a
    cancel or an operator requeue) every write that carries an epoch handed out
    before that - lease renewals and all five terminal writes - reports zero
    rows and leaves the whole database unchanged, at any later time and whatever
    other statements ran in between. *)
Theorem stale_write_bounces (id : string) (now now' : Time) (db db' : DB) (r : JobRow) (e : Z)
    (tr : list (Time * sql)) (s : stmt Z) :
  jobs db !! id = Some r -> e <= r_lease_epoch r ->
  ownership_change id now db db' -> fenced_write id e s ->
  exec_stmt now' s (run_sql tr db') = (Ok 0, run_sql tr db').
Proof.
  intros Hr He Hoc Hw.
  destruct (ownership_change_bumps _ _ _ _ Hoc) as (r0 & r' & Hr0 & Hr' & Hep). simplify_eq.
  assert (settled id e db') by (exists r'; split; [done|left; lia]).
  eauto with rows.
Qed.

(** *** A concrete history, for the witnesses *)

Definition demo_job : Job :=
  {| ID := "j1"; Type_ := "bench.sleep"; Queue := DefaultQueue; Status_ := StatusPending;
     Priority_ := PriorityDefault; Payload := "{}"; Result := EmptyString;
     Error_ := EmptyString; IdempotencyKey := "k1"; AttemptCount := 0; MaxAttempts := 2;
     LeaseEpoch := 0; LeaseExpiresAt := None; WorkerID := EmptyString; CreatedAt := 0;
     ScheduledAt := 0; StartedAt := None; CompletedAt := None |}.

Lemma demo_job_admitted : admitted demo_job.
Proof.
  constructor; try reflexivity; try (by right); try (vm_compute; split; congruence).
  - by apply PriorityValid_elem_of.
  - vm_compute. congruence.
  - done.
Qed.

Definition demo_inserted : DB := exec_sql (0, sql_of (InsertJob demo_job "{}")) empty_db.
Definition demo_claimed : DB := exec_sql (1, sql_of (UpdateClaim "j1" "w1" 10)) demo_inserted.
Definition demo_reaped : DB := exec_sql (20, sql_of (UpdateReap "j1" 5 0)) demo_claimed.
Definition demo_completed : DB := exec_sql (2, sql_of (UpdateComplete "j1" 1 "42")) demo_claimed.

Lemma stale_write_bounces_witness :
  exec_stmt 40 (UpdateComplete "j1" 1 "late")
    (run_sql [(30, sql_of (UpdateClaim "j1" "w2" 10))] demo_reaped)
  = (Ok 0, run_sql [(30, sql_of (UpdateClaim "j1" "w2" 10))] demo_reaped).
Proof.
  destruct (jobs demo_claimed !! "j1") as [r|] eqn:Hr; [|vm_compute in Hr; discriminate].
  apply (stale_write_bounces "j1" 20 40 demo_claimed demo_reaped r 1
           [(30, sql_of (UpdateClaim "j1" "w2" 10))] (UpdateComplete "j1" 1 "late")).
  - exact Hr.
  - vm_compute in Hr. injection Hr as <-. vm_compute. congruence.
  - eapply (oc_reap "j1" 20 demo_claimed 5 0). reflexivity.
  - constructor.
Defined.

(** ** One outcome per claim *)

(** The statement moved the row of [id] out of the run with epoch [e]. *)
Definition landed (id : string) (e : Z) (db db' : DB) : bool :=
  match jobs db !! id, jobs db' !! id with
  | Some r, Some r' =>
      fence e r && bool_decide (r_lease_epoch r' = e) && negb (status_is StatusRunning r')
  | _, _ => false
  end.

Fixpoint landings (id : string) (e : Z) (tr : list (Time * sql)) (db : DB) : nat :=
  match tr with
  | [] => 0
  | x :: tr' =>
      ((if landed id e db (exec_sql x db) then 1 else 0)
       + landings id e tr' (exec_sql x db))%nat
  end.

Lemma landed_settled id e db db' : landed id e db db' = true -> settled id e db'.
Proof.
  unfold landed. destruct (jobs db !! id); [|done]. destruct (jobs db' !! id) as [r'|] eqn:Hr'; [|done].
  intros. reflect_bools. exists r'. split; [done|right]. split; [done|].
  match goal with H : status_is _ _ = false |- _ => by apply bool_decide_eq_false in H end.
Qed.

Lemma settled_landings id e tr : forall db, settled id e db -> landings id e tr db = 0%nat.
Proof.
  induction tr as [|x tr IH]; intros db Hs; simpl; [done|].
  rewrite IH by auto with rows.
  destruct (landed id e db (exec_sql x db)) eqn:Hl; [|done].
  unfold landed in Hl. destruct (jobs db !! id) as [r|] eqn:Hr; [|done].
  rewrite (settled_fence id e db r Hs Hr) in Hl.
  by destruct (jobs (exec_sql x db) !! id).
Qed.

(** The row count of a fenced terminal write says whether it landed. *)
Lemma fenced_reports id e s now db :
  fenced_write id e s -> (forall ttl, s <> UpdateLease id e ttl) ->
  (exec_stmt now s db).1 = Ok (if landed id e db (exec_stmt now s db).2 then 1 else 0).
Proof.
  intros Hw Hnl. unfold landed.
  destruct (jobs db !! id) as [r|] eqn:Hr; [destruct (fence e r) eqn:Hf|].
  - destruct (proj1 (fence_spec e r) Hf) as [He Hrun].
    destruct Hw; [by destruct (Hnl ttl)|..]; simpl; unfold update_where; rewrite Hr, Hf; simpl;
      rewrite lookup_insert_eq; simpl; rewrite He; by rewrite bool_decide_true.
  - rewrite (fenced_miss id e s now db Hw) by naive_solver. simpl. by rewrite ?Hr.
  - rewrite (fenced_miss id e s now db Hw) by naive_solver. simpl. by rewrite ?Hr.
Qed.

(** C10. Exactly-once recording. Whatever statements all clients of the database
    send, in whatever order and number (duplicate deliveries, retried writes,
    stalled workers that wake up), the run that holds a given epoch of a job
    gets at most one outcome recorded; and each of the five terminal writes
    reports one row exactly when it is the write that recorded it. *)
Theorem one_outcome_per_claim (id : string) (e : Z) (tr : list (Time * sql)) (db : DB) :
  (landings id e tr db <= 1)%nat /\
  (forall s now, fenced_write id e s -> (forall ttl, s <> UpdateLease id e ttl) ->
     (exec_stmt now s db).1 = Ok (if landed id e db (exec_stmt now s db).2 then 1 else 0)).
Proof.
  split; [|intros; by apply fenced_reports].
  revert db. induction tr as [|x tr IH]; intros db; simpl; [lia|].
  destruct (landed id e db (exec_sql x db)) eqn:Hl; [|apply IH].
  apply landed_settled in Hl. rewrite (settled_landings id e tr) by done. lia.
Qed.

Definition demo_trace : list (Time * sql) :=
  [(2, sql_of (UpdateComplete "j1" 1 "42")); (3, sql_of (UpdateFail "j1" 1 "x"))].

Lemma one_outcome_per_claim_witness :
  (landings "j1" 1 demo_trace demo_claimed <= 1)%nat /\
  (exec_stmt 2 (UpdateComplete "j1" 1 "42") demo_claimed).1 = Ok 1.
Proof.
  destruct (one_outcome_per_claim "j1" 1 demo_trace demo_claimed) as [H1 H2].
  split; [exact H1|].
  rewrite (H2 (UpdateComplete "j1" 1 "42") 2); [reflexivity|constructor|discriminate].
Defined.

(** ** Final states *)

(** Terminal means terminal. A job recorded [COMPLETED], [FAILED] or
    [CANCELLED] keeps its status, result, error and attempt count for ever,
    whatever statements run afterwards. *)
Theorem terminal_forever (id : string) (tr : list (Time * sql)) (db : DB) (r : JobRow) :
  jobs db !! id = Some r -> r_status r ∈ [StatusCompleted; StatusFailed; StatusCancelled] ->
  exists r', jobs (run_sql tr db) !! id = Some r' /\
    r_status r' = r_status r /\ r_result r' = r_result r /\ r_error r' = r_error r /\
    r_attempt_count r' = r_attempt_count r /\ r_completed_at r' = r_completed_at r.
Proof.
  revert db r. induction tr as [|x tr IH]; intros db r Hr Hst; simpl; [eauto 10|].
  pose proof (exec_stmt_slots x.1 (projT2 x.2) db id) as H. rewrite Hr in H.
  apply slot_from_Some in H as (r' & Hr' & Hstep).
  assert (Hkeep : r_status r' = r_status r /\ r_result r' = r_result r /\ r_error r' = r_error r /\
    r_attempt_count r' = r_attempt_count r /\ r_completed_at r' = r_completed_at r).
  { rewrite !elem_of_cons, elem_of_nil in Hst.
    destruct Hstep; try (split_and!; reflexivity);
      try apply claimable_spec in H; status_clash. }
  destruct Hkeep as (E1 & E2 & E3 & E4 & E5).
  destruct (IH (exec_sql x db) r') as (r2 & H2 & ?); [done|by rewrite E1|].
  exists r2. split; [done|]. naive_solver congruence.
Qed.

Lemma terminal_forever_witness :
  exists r', jobs (run_sql demo_trace demo_completed) !! "j1" = Some r' /\
    r_status r' = StatusCompleted /\ r_result r' = Some "42".
Proof.
  destruct (jobs demo_completed !! "j1") as [r|] eqn:Hr; [|vm_compute in Hr; discriminate].
  destruct (terminal_forever "j1" demo_trace demo_completed r Hr) as (r' & H & Hs & Hres & _).
  - vm_compute in Hr. injection Hr as <-. vm_compute. by constructor.
  - exists r'. split; [exact H|]. vm_compute in Hr. injection Hr as <-. auto.
Defined.

(** ** The database invariant *)

(** The statement is sent by code that validated the job ([job.New]). *)
Definition stmt_ok {A} (s : stmt A) : Prop :=
  match s with InsertJob j _ => admitted j | _ => True end.

(** Submission deduplication: no two jobs share a (type, idempotency key). *)
Definition keys_unique (db : DB) : Prop :=
  forall i1 i2 r1 r2 k, jobs db !! i1 = Some r1 -> jobs db !! i2 = Some r2 ->
    d_type (r_def r1) = d_type (r_def r2) ->
    d_idempotency_key (r_def r1) = Some k -> d_idempotency_key (r_def r2) = Some k -> i1 = i2.

Record db_wf (db : DB) : Prop := {
  wf_rows : forall id r, jobs db !! id = Some r -> row_wf r /\ d_id (r_def r) = id;
  wf_keys : keys_unique db;
  wf_attempts : forall id n a, job_attempts db !! (id, n) = Some a -> is_Some (jobs db !! id);
  wf_events : forall ev, ev ∈ job_events db -> is_Some (jobs db !! e_job_id ev)
}.

Lemma find_by_key_None ty k db :
  find_by_key ty k db = None -> forall id r, jobs db !! id = Some r ->
  ~ (d_type (r_def r) = ty /\ d_idempotency_key (r_def r) = Some k).
Proof.
  unfold find_by_key. intros Hf id r Hr Hk.
  destruct (filter _ (map_to_list (jobs db))) as [|x l] eqn:Hl; [|done].
  apply (not_elem_of_nil (id, r)). rewrite <-Hl. apply list_elem_of_filter.
  split; [done|]. by apply elem_of_map_to_list.
Qed.

Lemma find_by_key_Some ty k db r :
  find_by_key ty k db = Some r ->
  exists id, jobs db !! id = Some r /\ d_type (r_def r) = ty /\ d_idempotency_key (r_def r) = Some k.
Proof.
  unfold find_by_key. destruct (filter _ (map_to_list (jobs db))) as [|[id x] l] eqn:Hl; [done|].
  intros [= ->]. assert (Hin : (id, r) ∈ (id, r) :: l) by apply list_elem_of_here.
  rewrite <-Hl in Hin. apply list_elem_of_filter in Hin as [? Hin].
  apply elem_of_map_to_list in Hin. eauto.
Qed.

Lemma insert_job_cases now j payload db :
  (insert_job now j payload db).2 = db \/
  (jobs db !! ID j = None /\
   (insert_job now j payload db).2 = set_jobs (<[ID j := row_inserted now j payload]> (jobs db)) db /\
   forall k, nullif (IdempotencyKey j) = Some k -> find_by_key (Type_ j) k db = None).
Proof.
  unfold insert_job. destruct (_ && _); simpl; [|by left].
  destruct (nullif (IdempotencyKey j)) as [k|] eqn:Hk; simpl.
  - destruct (find_by_key (Type_ j) k db) eqn:Hf; simpl; [by left|].
    destruct (jobs db !! ID j) eqn:Hj; simpl; [by left|right]. naive_solver.
  - destruct (jobs db !! ID j) eqn:Hj; simpl; [by left|right]. naive_solver.
Qed.


Definition is_insert {A} (s : stmt A) : bool :=
  match s with InsertJob _ _ => true | _ => false end.

Lemma update_where_None id p f db id' :
  jobs db !! id' = None -> jobs (update_where id p f db).2 !! id' = None.
Proof.
  unfold update_where. intros Hn. repeat case_match; simpl; try done.
  rewrite lookup_insert_ne; [done|congruence].
Qed.

Lemma exec_stmt_absent {A} now (s : stmt A) db id :
  is_insert s = false -> jobs db !! id = None -> jobs (exec_stmt now s db).2 !! id = None.
Proof.
  intros Hi Hn. pose proof (exec_stmt_slots now s db id) as H. rewrite Hn in H.
  destruct s; try discriminate Hi; try exact Hn; simpl in *;
    try (match goal with |- context [update_where ?i ?p ?f ?db] =>
           pose proof (update_where_None i p f db id Hn);
           by destruct (update_where i p f db) end);
    try (by rewrite map_lookup_imap, Hn);
    repeat case_match; simpl in *; try done.
  - by erewrite insert_attempt_row_jobs.
  - unfold upsert_worker in *. by repeat case_match; simplify_eq/=.
  - by erewrite insert_attempts_jobs.
Qed.

(** Attempts and events are only ever added for a job that exists. *)
Lemma insert_attempt_row_keys id n row db db' i m a :
  insert_attempt_row id n row db = Ok db' -> job_attempts db' !! (i, m) = Some a ->
  is_Some (job_attempts db !! (i, m)) \/ is_Some (jobs db !! i).
Proof.
  unfold insert_attempt_row. destruct (job_attempts db !! (id, n)) eqn:Ha.
  { intros [= <-]. eauto. }
  destruct (jobs db !! id) eqn:Hj; [|done]. intros [= <-]. simpl.
  destruct (decide ((id, n) = (i, m))) as [[= <- <-]|Hne]; [right; eauto|].
  rewrite lookup_insert_ne by done. eauto.
Qed.

Lemma insert_attempts_keys xs : forall db db' i m a,
  insert_attempts xs db = Ok db' -> job_attempts db' !! (i, m) = Some a ->
  is_Some (job_attempts db !! (i, m)) \/ is_Some (jobs db !! i).
Proof.
  induction xs as [|x xs IH]; simpl; intros db db' i m a; [intros [= <-]; eauto|].
  intros (db1 & H1 & H2)%result_bind_Ok Ha.
  destruct (IH _ _ _ _ _ H2 Ha) as [[a' Ha']|Hj].
  - by eapply insert_attempt_row_keys.
  - rewrite (insert_attempt_row_jobs _ _ _ _ _ H1) in Hj. eauto.
Qed.

Lemma exec_stmt_attempts {A} now (s : stmt A) db i m a :
  job_attempts (exec_stmt now s db).2 !! (i, m) = Some a ->
  is_Some (job_attempts db !! (i, m)) \/ is_Some (jobs db !! i).
Proof.
  destruct s; simpl; try eauto;
    try (match goal with |- context [update_where ?i ?p ?f ?db] =>
      unfold update_where end; repeat case_match; simplify_eq/=; by eauto).
  - unfold insert_job. repeat case_match; simpl; eauto.
  - destruct (insert_attempt_row _ _ _ _) eqn:Hi; simpl; eauto using insert_attempt_row_keys.
  - repeat case_match; simpl; eauto.
  - unfold upsert_worker. repeat case_match; simplify_eq/=; eauto.
  - destruct (insert_attempts xs db) eqn:Hi; simpl; eauto using insert_attempts_keys.
  - repeat case_match; simpl; eauto.
Qed.

Lemma exec_stmt_events {A} now (s : stmt A) db ev :
  ev ∈ job_events (exec_stmt now s db).2 ->
  ev ∈ job_events db \/ is_Some (jobs db !! e_job_id ev).
Proof.
  destruct s; simpl; try eauto;
    try (match goal with |- context [update_where ?i ?p ?f ?db] =>
      unfold update_where end; repeat case_match; simplify_eq/=; by eauto).
  - unfold insert_job. repeat case_match; simpl; eauto.
  - unfold insert_attempt_row. repeat case_match; simplify_eq/=; eauto.
  - destruct (jobs db !! jobID) eqn:Hj; simpl; [|eauto].
    rewrite elem_of_app, list_elem_of_singleton. intros [?| ->]; [eauto|right]. simpl. eauto.
  - unfold upsert_worker. repeat case_match; simplify_eq/=; eauto.
  - destruct (insert_attempts xs db) as [db'|] eqn:Hi; simpl; [|eauto]. intros Hin. left.
    revert db db' Hi Hin. induction xs as [|x xs IH]; simpl; intros db db' Hi Hin; [by simplify_eq|].
    apply result_bind_Ok in Hi as (db1 & H1 & H2). specialize (IH _ _ H2 Hin).
    unfold insert_attempt_row in H1. repeat case_match; by simplify_eq/=.
  - destruct (forallb _ es) eqn:He; simpl; [|eauto].
    rewrite elem_of_app. intros [?|Hin]; [eauto|right].
    apply list_elem_of_In, in_map_iff in Hin as ([[id e] d] & <- & Hin). simpl.
    rewrite forallb_forall in He. specialize (He _ Hin). simpl in He.
    by apply bool_decide_eq_true in He.
Qed.

Lemma exec_stmt_present {A} now (s : stmt A) db id :
  is_Some (jobs db !! id) -> is_Some (jobs (exec_stmt now s db).2 !! id).
Proof.
  intros [r Hr]. pose proof (exec_stmt_slots now s db id) as H. rewrite Hr in H.
  apply slot_from_Some in H as (r' & -> & _). eauto.
Qed.

(** Where a row after the statement comes from. *)
Lemma exec_stmt_row_origin {A} now (s : stmt A) db id r' :
  stmt_ok s -> jobs (exec_stmt now s db).2 !! id = Some r' ->
  (exists r, jobs db !! id = Some r /\ row_step r r') \/
  (exists j payload, id = ID j /\ r' = row_inserted now j payload /\ admitted j /\
     jobs db !! id = None /\
     forall k, d_idempotency_key (r_def r') = Some k -> find_by_key (d_type (r_def r')) k db = None).
Proof.
  intros Hok Hr'. destruct (is_insert s) eqn:Hi.
  - destruct s; try discriminate Hi. simpl in *.
    destruct (insert_job_cases now j payload db) as [E|(Hn & E & Hkey)]; rewrite E in Hr'.
    + left. eauto using row_step.
    + simpl in Hr'. destruct (decide (ID j = id)) as [<-|Hne].
      * rewrite lookup_insert_eq in Hr'. injection Hr' as <-. right. by exists j, payload.
      * rewrite lookup_insert_ne in Hr' by done. left. eauto using row_step.
  - left. pose proof (exec_stmt_slots now s db id) as H. rewrite Hr' in H.
    destruct (jobs db !! id) as [r|] eqn:Hr.
    + apply slot_from_Some in H as (r1 & [= <-] & ?). eauto.
    + by rewrite (exec_stmt_absent now s db id Hi Hr) in Hr'.
Qed.

Lemma exec_stmt_keys_unique {A} now (s : stmt A) db :
  stmt_ok s -> keys_unique db -> keys_unique (exec_stmt now s db).2.
Proof.
  intros Hok Hu i1 i2 r1 r2 k H1 H2 Hty Hk1 Hk2.
  destruct (exec_stmt_row_origin now s db i1 r1 Hok H1)
    as [(o1 & Ho1 & S1)|(j1 & p1 & -> & E1 & _ & Hn1 & Hf1)];
  destruct (exec_stmt_row_origin now s db i2 r2 Hok H2)
    as [(o2 & Ho2 & S2)|(j2 & p2 & -> & E2 & _ & Hn2 & Hf2)].
  - apply row_step_def in S1, S2. rewrite S1 in *. rewrite S2 in *. eauto.
  - exfalso. apply row_step_def in S1.
    apply (find_by_key_None _ _ _ (Hf2 k Hk2) i1 o1 Ho1). by rewrite <-S1.
  - exfalso. apply row_step_def in S2.
    apply (find_by_key_None _ _ _ (Hf1 k Hk1) i2 o2 Ho2). by rewrite <-S2.
  - destruct (is_insert s) eqn:Hi; [|by rewrite (exec_stmt_absent now s db _ Hi Hn1) in H1].
    destruct s; try discriminate Hi. simpl in H1, H2.
    destruct (insert_job_cases now j payload db) as [E|(_ & E & _)]; rewrite E in H1, H2;
      [congruence|]. simpl in H1, H2.
    apply lookup_insert_Some in H1 as [[<- _]|[_ H1]]; [|congruence].
    by apply lookup_insert_Some in H2 as [[<- _]|[_ H2]]; [|congruence].
Qed.

(** C11. The database invariant holds for ever. Every statement the code sends
    preserves it, from the empty schema on: every row is well formed (status and
    priority in range, a lease exactly while [RUNNING], a result exactly when
    [COMPLETED], a completion time exactly when terminal, attempts and epochs
    consistent, a retry budget within [1, 25]), no two jobs share a (type,
    idempotency key), and attempts and events belong to jobs that exist; and
    each row's status moves only along an edge of the state machine. *)
Theorem statements_preserve_db_wf {A} (now : Time) (s : stmt A) (db : DB) :
  db_wf db -> stmt_ok s ->
  db_wf (exec_stmt now s db).2 /\
  (forall id r r', jobs db !! id = Some r -> jobs (exec_stmt now s db).2 !! id = Some r' ->
     r_status r' = r_status r \/ Transition (r_status r) (r_status r') = Ok tt).
Proof.
  intros [Hrows Hkeys Hatt Hev] Hok. split; [constructor|].
  - intros id r' Hr'. destruct (exec_stmt_row_origin now s db id r' Hok Hr')
      as [(r & Hr & Hs)|(j & p & -> & -> & Hj & _)].
    + destruct (Hrows _ _ Hr). split; [by eapply row_wf_step|]. by rewrite (row_step_def _ _ Hs).
    + split; [by apply row_wf_inserted|done].
  - by apply exec_stmt_keys_unique.
  - intros id n a Ha. apply exec_stmt_present.
    apply exec_stmt_attempts in Ha as [[a' Ha]|Ha]; eauto.
  - intros ev Hin. apply exec_stmt_present. apply exec_stmt_events in Hin as [?|?]; eauto.
  - intros id r r' Hr Hr'. pose proof (exec_stmt_slots now s db id) as H.
    rewrite Hr, Hr' in H. apply slot_from_Some in H as (r1 & [= <-] & Hs).
    apply row_step_status in Hs as [?|Hc]; [by left|right].
    by apply Transition_Ok.
Qed.

Lemma empty_db_wf : db_wf empty_db.
Proof. constructor; try done. intros ev Hin. by apply not_elem_of_nil in Hin. Qed.

Lemma statements_preserve_db_wf_witness :
  db_wf demo_inserted /\ demo_inserted <> empty_db.
Proof.
  split; [|intros H; vm_compute in H; discriminate].
  apply (statements_preserve_db_wf 0 (InsertJob demo_job "{}") empty_db).
  - exact empty_db_wf.
  - exact demo_job_admitted.
Defined.
