(* ===== verification/Redis.v ===== *)
(** * Redis: the interface of the transport

    Redis is a service outside the repository.  [RedisServer] is what
    [internal/queue/queue.go] relies on: the commands it sends, as functions of
    an abstract server state, and the documented behaviour of each command as a
    law, in terms of observations of the state ([entries], [unread], [pending],
    [members], [get], [issued]).
    [RedisModel] is a concrete server that satisfies every law; the witnesses
    run on it. *)

From S2P Require Import Prelude.
Local Open Scope Z_scope.

(** The field/value pairs of a stream entry, and the entry id with them. *)
Abbreviation fields := (list (string * string)) (only parsing).
Abbreviation entry := (string * list (string * string))%type (only parsing).

(** What is at a key is the same in both states. *)
Definition same_key {R : Type} (k : string) (s s' : R) (entries : string -> R -> list entry)
    (members : string -> R -> gmap string Z) (issued : string -> string -> R -> Prop) : Prop :=
  entries k s' = entries k s /\ members k s' = members k s /\
  forall id, issued k id s -> issued k id s'.

Class RedisServer (R : Type) := {
  (** Observations. *)
  entries : string -> R -> list entry;                      (* XRANGE key - + *)
  unread : string -> R -> list entry;                       (* after the group's last-delivered id *)
  pending : string -> R -> gmap string (string * Time);     (* the group's PEL *)
  members : string -> R -> gmap string Z;                   (* ZRANGE key WITHSCORES *)
  get : Time -> string -> R -> option string;               (* GET *)
  issued : string -> string -> R -> Prop;                   (* key, id: not above last-generated-id *)

  (** Streams (one consumer group per stream). *)
  xadd : string -> fields -> R -> string * R;
  xtrim : string -> Z -> R -> R;                            (* key, MAXLEN ~ *)
  xreadgroup : Time -> string -> string -> Z -> R -> list entry * R;
      (* now, consumer, key, COUNT; reads ">" *)
  xack : string -> string -> R -> R;
  xdel : string -> string -> R -> R;
  xclaim : Time -> string -> string -> string -> R -> R;    (* now, consumer, key, id; JUSTID *)
  xautoclaim : Time -> string -> string -> Duration -> Z -> R -> list entry * R;
      (* now, consumer, key, MINIDLE, COUNT *)
  (** Sorted sets. *)
  zadd : string -> Z -> string -> R -> R;
  zrangebyscore : string -> Z -> Z -> R -> list string;     (* key, max, LIMIT *)
  zrem : string -> string -> R -> R;
  (** Strings with a time to live. *)
  set : Time -> string -> string -> Duration -> R -> R;
  del : string -> R -> R;
  pexpire : Time -> string -> Duration -> R -> R;

  (** XADD appends one entry under a new id and touches nothing else. *)
  xadd_entries k fs s :
    entries k (xadd k fs s).2 = entries k s ++ [((xadd k fs s).1, fs)];
  xadd_other k k' fs s : k <> k' -> entries k' (xadd k fs s).2 = entries k' s;
  xadd_pending k k' fs s : pending k' (xadd k fs s).2 = pending k' s;
  xadd_members k k' fs s : members k' (xadd k fs s).2 = members k' s;

  (** An entry id is never given out twice, however many entries are deleted. *)
  entries_issued k s e : e ∈ entries k s -> issued k e.1 s;
  xadd_unissued k fs s : ~ issued k (xadd k fs s).1 s;
  xadd_issues k fs s : issued k (xadd k fs s).1 (xadd k fs s).2;
  xadd_issued k k' id fs s : issued k' id s -> issued k' id (xadd k fs s).2;
  xtrim_issued k k' id n s : issued k' id s -> issued k' id (xtrim k n s);
  xreadgroup_issued now c k k' id n s : issued k' id s -> issued k' id (xreadgroup now c k n s).2;
  xautoclaim_issued now c k k' id mi n s :
    issued k' id s -> issued k' id (xautoclaim now c k mi n s).2;
  xclaim_issued now c k k' i id s : issued k' id s -> issued k' id (xclaim now c k i s);
  xack_issued k k' i id s : issued k' id s -> issued k' id (xack k i s);
  xdel_issued k k' i id s : issued k' id s -> issued k' id (xdel k i s);
  zadd_issued k k' id sc m s : issued k' id s -> issued k' id (zadd k sc m s);
  zrem_issued k k' id m s : issued k' id s -> issued k' id (zrem k m s);

  (** MAXLEN ~ n drops a prefix and keeps at least the last [n] entries. *)
  xtrim_suffix k n s : exists es, entries k s = es ++ entries k (xtrim k n s);
  xtrim_keeps k n s :
    n <= Z.of_nat (length (entries k s)) -> n <= Z.of_nat (length (entries k (xtrim k n s)));
  xtrim_short k n s :
    Z.of_nat (length (entries k s)) <= n -> entries k (xtrim k n s) = entries k s;
  xtrim_other k k' n s : k <> k' -> entries k' (xtrim k n s) = entries k' s;
  xtrim_pending k k' n s : pending k' (xtrim k n s) = pending k' s;
  xtrim_members k k' n s : members k' (xtrim k n s) = members k' s;

  (** XREADGROUP delivers the first COUNT unread entries of the stream, puts
      exactly those into the PEL, and they are read from then on. *)
  unread_entries k s : sublist (unread k s) (entries k s);
  xadd_unread k fs s : unread k (xadd k fs s).2 = unread k s ++ [((xadd k fs s).1, fs)];
  xadd_unread_other k k' fs s : k <> k' -> unread k' (xadd k fs s).2 = unread k' s;
  xreadgroup_take now c k n s : (xreadgroup now c k n s).1 = take (Z.to_nat n) (unread k s);
  xreadgroup_unread now c k n s :
    unread k (xreadgroup now c k n s).2 =
      filter (fun e => e.1 ∉ (xreadgroup now c k n s).1.*1) (unread k s);
  xreadgroup_unread_other now c k k' n s :
    k <> k' -> unread k' (xreadgroup now c k n s).2 = unread k' s;
  xreadgroup_pending now c k n s id :
    pending k (xreadgroup now c k n s).2 !! id =
      if bool_decide (id ∈ (xreadgroup now c k n s).1.*1) then Some (c, now)
      else pending k s !! id;
  xreadgroup_entries now c k k' n s : entries k' (xreadgroup now c k n s).2 = entries k' s;
  xreadgroup_other now c k k' n s :
    k <> k' -> pending k' (xreadgroup now c k n s).2 = pending k' s;
  xreadgroup_members now c k k' n s : members k' (xreadgroup now c k n s).2 = members k' s;

  (** XAUTOCLAIM hands over entries of the stream whose PEL record is idle. *)
  xautoclaim_sublist now c k mi n s : sublist (xautoclaim now c k mi n s).1 (entries k s);
  xautoclaim_idle now c k mi n s e :
    e ∈ (xautoclaim now c k mi n s).1 ->
    exists c' t, pending k s !! e.1 = Some (c', t) /\ t + mi <= now;
  xautoclaim_entries now c k k' mi n s : entries k' (xautoclaim now c k mi n s).2 = entries k' s;
  xautoclaim_members now c k k' mi n s : members k' (xautoclaim now c k mi n s).2 = members k' s;

  (** XCLAIM JUSTID only touches the PEL. *)
  xclaim_entries now c k k' id s : entries k' (xclaim now c k id s) = entries k' s;
  xclaim_members now c k k' id s : members k' (xclaim now c k id s) = members k' s;
  xclaim_get now now' c k k' id s : get now' k' (xclaim now c k id s) = get now' k' s;

  (** XACK removes from the PEL, XDEL from the stream. *)
  xack_pending k id s : pending k (xack k id s) = delete id (pending k s);
  xack_other k k' id s : k <> k' -> pending k' (xack k id s) = pending k' s;
  xack_entries k k' id s : entries k' (xack k id s) = entries k' s;
  xack_members k k' id s : members k' (xack k id s) = members k' s;
  xack_unread k k' id s : unread k' (xack k id s) = unread k' s;
  xdel_entries k id s : entries k (xdel k id s) = filter (fun e => e.1 <> id) (entries k s);
  xdel_other k k' id s : k <> k' -> entries k' (xdel k id s) = entries k' s;
  xdel_pending k k' id s : pending k' (xdel k id s) = pending k' s;
  xdel_members k k' id s : members k' (xdel k id s) = members k' s;
  xdel_unread k id s : unread k (xdel k id s) = filter (fun e => e.1 <> id) (unread k s);
  xdel_unread_other k k' id s : k <> k' -> unread k' (xdel k id s) = unread k' s;

  (** ZADD, ZREM, ZRANGEBYSCORE -inf max LIMIT 0 n. *)
  zadd_members k sc m s : members k (zadd k sc m s) = <[m := sc]> (members k s);
  zadd_other k k' sc m s : k <> k' -> members k' (zadd k sc m s) = members k' s;
  zadd_entries k k' sc m s : entries k' (zadd k sc m s) = entries k' s;
  zadd_pending k k' sc m s : pending k' (zadd k sc m s) = pending k' s;
  zrem_members k m s : members k (zrem k m s) = delete m (members k s);
  zrem_other k k' m s : k <> k' -> members k' (zrem k m s) = members k' s;
  zrem_entries k k' m s : entries k' (zrem k m s) = entries k' s;
  zrem_pending k k' m s : pending k' (zrem k m s) = pending k' s;
  zrem_unread k k' m s : unread k' (zrem k m s) = unread k' s;
  zrange_due k mx n s m :
    m ∈ zrangebyscore k mx n s -> exists sc, members k s !! m = Some sc /\ sc <= mx;
  zrange_nodup k mx n s : NoDup (zrangebyscore k mx n s);
  zrange_count k mx n s : Z.of_nat (length (zrangebyscore k mx n s)) <= Z.max 0 n;
  zrange_all k mx n s m sc :
    Z.of_nat (length (zrangebyscore k mx n s)) < n ->
    members k s !! m = Some sc -> sc <= mx -> m ∈ zrangebyscore k mx n s;

  (** SET key value PX ttl, DEL, PEXPIRE. *)
  set_get now now' k v ttl s :
    get now' k (set now k v ttl s) = if now' <? now + ttl then Some v else None;
  set_other now now' k k' v ttl s : k <> k' -> get now' k' (set now k v ttl s) = get now' k' s;
  del_get now k s : get now k (del k s) = None;
  del_other now k k' s : k <> k' -> get now k' (del k s) = get now k' s;
  pexpire_get now now' k v ttl s :
    get now k s = Some v ->
    get now' k (pexpire now k ttl s) = if now' <? now + ttl then Some v else None;
  pexpire_other now now' k k' ttl s :
    k <> k' -> get now' k' (pexpire now k ttl s) = get now' k' s;
  set_keeps now k k' v ttl s :
    k <> k' -> same_key k' s (set now k v ttl s) entries members issued;
  del_keeps k k' s : k <> k' -> same_key k' s (del k s) entries members issued;
  pexpire_keeps now k k' ttl s : k <> k' -> same_key k' s (pexpire now k ttl s) entries members issued;

  (** What one kind of value does not do to another. *)
  xadd_get now k k' fs s : get now k' (xadd k fs s).2 = get now k' s;
  xtrim_get now k k' n s : get now k' (xtrim k n s) = get now k' s;
  xreadgroup_get now now' c k k' n s : get now' k' (xreadgroup now c k n s).2 = get now' k' s;
  xack_get now k k' id s : get now k' (xack k id s) = get now k' s;
  xdel_get now k k' id s : get now k' (xdel k id s) = get now k' s;
  zadd_get now k k' sc m s : get now k' (zadd k sc m s) = get now k' s;
  zrem_get now k k' m s : get now k' (zrem k m s) = get now k' s;
  zadd_unread k k' sc m s : unread k' (zadd k sc m s) = unread k' s;
  xclaim_unread now c k k' id s : unread k' (xclaim now c k id s) = unread k' s;
  xtrim_unread_other k k' n s : k <> k' -> unread k' (xtrim k n s) = unread k' s
}.

Lemma xadd_fresh {R} `{!RedisServer R} k fs (s : R) : (xadd k fs s).1 ∉ (entries k s).*1.
Proof.
  intros (e & He & Hin)%list_elem_of_fmap. apply (xadd_unissued k fs s). rewrite He.
  by apply entries_issued.
Qed.

(** ** A model *)

Record redis := {
  m_streams : gmap string (list entry);
  m_read : gmap string (gset string);                    (* ids already delivered *)
  m_gen : gmap string (gset string);                     (* ids generated *)
  m_pel : gmap string (gmap string (string * Time));
  m_zsets : gmap string (gmap string Z);
  m_strings : gmap string (string * Time)                (* value, expiry *)
}.

Definition empty_redis : redis :=
  {| m_streams := ∅; m_read := ∅; m_gen := ∅; m_pel := ∅; m_zsets := ∅; m_strings := ∅ |}.

Section model.
Implicit Types s : redis.

Definition m_entries (k : string) s : list entry := default [] (m_streams s !! k).
Definition m_pending (k : string) s : gmap string (string * Time) := default ∅ (m_pel s !! k).
Definition m_members (k : string) s : gmap string Z := default ∅ (m_zsets s !! k).
Definition m_seen (k : string) s : gset string := default ∅ (m_read s !! k).
Definition m_get (now : Time) (k : string) s : option string :=
  match m_strings s !! k with
  | Some (v, exp) => if now <? exp then Some v else None
  | None => None
  end.

Definition ids (es : list entry) : gset string := list_to_set (es.*1).
Definition m_known (k : string) s : gset string := ids (m_entries k s) ∪ default ∅ (m_gen s !! k).
Definition m_issued (k id : string) s : Prop := id ∈ m_known k s.

Definition with_stream (k : string) (es : list entry) s : redis :=
  {| m_streams := <[k := es]> (m_streams s); m_read := m_read s;
     m_gen := <[k := ids es ∪ m_known k s]> (m_gen s); m_pel := m_pel s;
     m_zsets := m_zsets s; m_strings := m_strings s |}.
Definition with_pel (k : string) (p : gmap string (string * Time)) s : redis :=
  {| m_streams := m_streams s; m_read := m_read s; m_gen := m_gen s; m_pel := <[k := p]> (m_pel s);
     m_zsets := m_zsets s; m_strings := m_strings s |}.
Definition with_seen (k : string) (r : gset string) s : redis :=
  {| m_streams := m_streams s; m_read := <[k := r]> (m_read s); m_gen := m_gen s; m_pel := m_pel s;
     m_zsets := m_zsets s; m_strings := m_strings s |}.
Definition with_zset (k : string) (z : gmap string Z) s : redis :=
  {| m_streams := m_streams s; m_read := m_read s; m_gen := m_gen s; m_pel := m_pel s;
     m_zsets := <[k := z]> (m_zsets s); m_strings := m_strings s |}.
Definition with_strings (ss : gmap string (string * Time)) s : redis :=
  {| m_streams := m_streams s; m_read := m_read s; m_gen := m_gen s; m_pel := m_pel s;
     m_zsets := m_zsets s; m_strings := ss |}.

(** A fresh entry id for the stream: never generated before, and not known to
    its PEL or the set of ids already delivered. *)
Definition used_ids (k : string) s : gset string :=
  m_known k s ∪ dom (m_pending k s) ∪ m_seen k s.

Definition m_xadd (k : string) (fs : fields) s : string * redis :=
  let id := fresh (used_ids k s) in (id, with_stream k (m_entries k s ++ [(id, fs)]) s).

Definition m_xtrim (k : string) (n : Z) s : redis :=
  with_stream k (drop (length (m_entries k s) - Z.to_nat n) (m_entries k s)) s.

Definition m_unread (k : string) s : list entry :=
  filter (fun e => e.1 ∉ m_seen k s) (m_entries k s).

Definition m_xreadgroup (now : Time) (c k : string) (n : Z) s : list entry * redis :=
  let es := take (Z.to_nat n) (m_unread k s) in
  (es, with_seen k (m_seen k s ∪ list_to_set (es.*1))
         (with_pel k (foldr (fun e p => <[e.1 := (c, now)]> p) (m_pending k s) es) s)).

(** The entry is pending and was last delivered at least [minIdle] ago. *)
Definition idle_for (now : Time) (minIdle : Duration) (p : option (string * Time)) : bool :=
  match p with Some (_, t) => t + minIdle <=? now | None => false end.

Definition m_xautoclaim (now : Time) (c k : string) (minIdle : Duration) (n : Z) s
    : list entry * redis :=
  let es := take (Z.to_nat n)
    (filter (fun e => idle_for now minIdle (m_pending k s !! e.1) = true) (m_entries k s)) in
  (es, with_pel k (foldr (fun e p => <[e.1 := (c, now)]> p) (m_pending k s) es) s).
(** XCLAIM JUSTID with MINIDLE 0: resets the owner and the idle clock of a
    pending entry. *)
Definition m_xclaim (now : Time) (c k id : string) s : redis :=
  match m_pending k s !! id with
  | Some _ => with_pel k (<[id := (c, now)]> (m_pending k s)) s
  | None => s
  end.

Definition m_zrangebyscore (k : string) (mx n : Z) s : list string :=
  take (Z.to_nat n) (filter (fun x => x.2 <= mx) (map_to_list (m_members k s))).*1.

Definition m_pexpire (now : Time) (k : string) (ttl : Duration) s : redis :=
  match m_get now k s with
  | Some v => with_strings (<[k := (v, now + ttl)]> (m_strings s)) s
  | None => s
  end.
End model.

Lemma default_insert_eq {A} (d x : A) (m : gmap string A) k : default d (<[k:=x]> m !! k) = x.
Proof. by rewrite lookup_insert_eq. Qed.
Lemma default_insert_ne {A} (d x : A) (m : gmap string A) k k' :
  k <> k' -> default d (<[k:=x]> m !! k') = default d (m !! k').
Proof. intros. by rewrite lookup_insert_ne. Qed.

Lemma m_xreadgroup_spec now c k n s id :
  m_pending k (m_xreadgroup now c k n s).2 !! id =
    if bool_decide (id ∈ ((m_xreadgroup now c k n s).1).*1) then Some (c, now)
    else m_pending k s !! id.
Proof.
  simpl. unfold m_pending at 1. simpl. rewrite lookup_insert_eq. simpl.
  induction (take (Z.to_nat n) (m_unread k s)) as [|e es IH]; simpl; [done|].
  destruct (decide (e.1 = id)) as [<-|Hne].
  - rewrite lookup_insert_eq, bool_decide_true; [done|]. constructor.
  - rewrite lookup_insert_ne, IH by done.
    case_bool_decide; case_bool_decide; try done; set_solver.
Qed.

Section model_laws.
Implicit Types (s : redis) (k id m v c : string) (now n : Z).

Lemma m_xadd_not_used k fs s : (m_xadd k fs s).1 ∉ used_ids k s.
Proof. apply is_fresh. Qed.

Lemma m_xadd_unissued k fs s : ~ m_issued k (m_xadd k fs s).1 s.
Proof. pose proof (m_xadd_not_used k fs s). unfold used_ids, m_issued in *. set_solver. Qed.

Lemma m_entries_issued k s e : e ∈ m_entries k s -> m_issued k e.1 s.
Proof.
  intros He. unfold m_issued, m_known, ids. apply elem_of_union_l, elem_of_list_to_set.
  by apply list_elem_of_fmap_2.
Qed.

Lemma m_stream_issues k es s e : e ∈ es -> m_issued k e.1 (with_stream k es s).
Proof.
  intros He. apply m_entries_issued. unfold m_entries. simpl. by rewrite lookup_insert_eq.
Qed.

Lemma m_stream_issued k k' id es s : m_issued k' id s -> m_issued k' id (with_stream k es s).
Proof.
  unfold m_issued, m_known, m_entries. intros Hid. simpl.
  destruct (decide (k = k')) as [<-|Hk].
  - rewrite !lookup_insert_eq. simpl. apply elem_of_union_r, elem_of_union_r, Hid.
  - by rewrite !lookup_insert_ne.
Qed.

Lemma m_xadd_issues k fs s : m_issued k (m_xadd k fs s).1 (m_xadd k fs s).2.
Proof.
  apply (m_stream_issues k _ s ((m_xadd k fs s).1, fs)). apply elem_of_app. right. by left.
Qed.

Lemma m_xclaim_entries now c k k' id s : m_entries k' (m_xclaim now c k id s) = m_entries k' s.
Proof. unfold m_xclaim. by destruct (m_pending k s !! id). Qed.

Lemma m_xclaim_members now c k k' id s : m_members k' (m_xclaim now c k id s) = m_members k' s.
Proof. unfold m_xclaim. by destruct (m_pending k s !! id). Qed.

Lemma m_xclaim_get now now' c k k' id s : m_get now' k' (m_xclaim now c k id s) = m_get now' k' s.
Proof. unfold m_xclaim. by destruct (m_pending k s !! id). Qed.

Lemma m_xclaim_unread now c k k' id s : m_unread k' (m_xclaim now c k id s) = m_unread k' s.
Proof. unfold m_xclaim. by destruct (m_pending k s !! id) as [[]|]. Qed.

Lemma m_xclaim_issued now c k k' i id s : m_issued k' id s -> m_issued k' id (m_xclaim now c k i s).
Proof. unfold m_xclaim. by destruct (m_pending k s !! i). Qed.

Lemma m_pexpire_keeps now k k' ttl s :
  same_key k' s (m_pexpire now k ttl s) m_entries m_members m_issued.
Proof. unfold m_pexpire. by destruct (m_get now k s). Qed.

Lemma m_xadd_unread k fs s :
  m_unread k (m_xadd k fs s).2 = m_unread k s ++ [((m_xadd k fs s).1, fs)].
Proof.
  unfold m_unread at 1. change (m_seen k (m_xadd k fs s).2) with (m_seen k s).
  assert (E : m_entries k (m_xadd k fs s).2 = m_entries k s ++ [((m_xadd k fs s).1, fs)])
    by apply default_insert_eq.
  rewrite E, filter_app, filter_cons_True; [done|]. simpl.
  pose proof (m_xadd_not_used k fs s). unfold used_ids in *. set_solver.
Qed.

Lemma m_xreadgroup_unread now c k n s :
  m_unread k (m_xreadgroup now c k n s).2 =
    filter (fun e => e.1 ∉ ((m_xreadgroup now c k n s).1).*1) (m_unread k s).
Proof.
  unfold m_unread. change (m_entries k (m_xreadgroup now c k n s).2) with (m_entries k s).
  assert (E : m_seen k (m_xreadgroup now c k n s).2 =
    m_seen k s ∪ list_to_set ((m_xreadgroup now c k n s).1).*1) by apply default_insert_eq.
  rewrite E, list_filter_filter. apply list_filter_iff. intros e. rewrite not_elem_of_union.
  rewrite elem_of_list_to_set. tauto.
Qed.

Lemma m_xdel_unread k id s :
  m_unread k (with_stream k (filter (fun e => e.1 <> id) (m_entries k s)) s) =
    filter (fun e => e.1 <> id) (m_unread k s).
Proof.
  unfold m_unread. change (m_seen k (with_stream k ?x s)) with (m_seen k s).
  assert (E : m_entries k (with_stream k (filter (fun e => e.1 <> id) (m_entries k s)) s) =
    filter (fun e => e.1 <> id) (m_entries k s)) by apply default_insert_eq.
  rewrite E. change (m_seen k _) with (m_seen k s). rewrite !list_filter_filter.
  apply list_filter_iff. tauto.
Qed.

Lemma take_count {A} n (l : list A) : Z.of_nat (length (take (Z.to_nat n) l)) <= Z.max 0 n.
Proof. rewrite length_take. lia. Qed.

Lemma sublist_map {A B} (f : A -> B) (l1 l2 : list A) :
  sublist l1 l2 -> sublist (f <$> l1) (f <$> l2).
Proof. induction 1; simpl; by constructor. Qed.

Lemma take_filter_sublist {A} (P : A -> Prop) `{!forall x, Decision (P x)} (i : nat) (l : list A) :
  sublist (take i (filter P l)) l.
Proof. etrans; [apply sublist_take|apply sublist_filter]. Qed.

Lemma elem_of_take_filter {A} (P : A -> Prop) `{!forall x, Decision (P x)} (i : nat) (l : list A) x :
  x ∈ take i (filter P l) -> P x /\ x ∈ l.
Proof.
  intros Hx. apply (proj1 (list_elem_of_filter P l x)).
  by eapply elem_of_sublist, sublist_take.
Qed.

Lemma m_zrange_due k mx n s m :
  m ∈ m_zrangebyscore k mx n s -> exists sc, m_members k s !! m = Some sc /\ sc <= mx.
Proof.
  unfold m_zrangebyscore. intros Hm.
  assert (Hm' : m ∈ (filter (fun x : string * Z => x.2 <= mx) (map_to_list (m_members k s))).*1)
    by (eapply elem_of_sublist; [done|apply sublist_take]).
  apply list_elem_of_fmap in Hm' as ([m' sc] & -> & Hin).
  apply list_elem_of_filter in Hin as [Hsc Hin%elem_of_map_to_list]. eauto.
Qed.

Lemma m_zrange_nodup k mx n s : NoDup (m_zrangebyscore k mx n s).
Proof.
  unfold m_zrangebyscore. eapply sublist_NoDup; [|apply sublist_take].
  eapply sublist_NoDup; [|apply sublist_map, sublist_filter]. apply NoDup_fst_map_to_list.
Qed.

Lemma m_zrange_all k mx n s m sc :
  Z.of_nat (length (m_zrangebyscore k mx n s)) < n ->
  m_members k s !! m = Some sc -> sc <= mx -> m ∈ m_zrangebyscore k mx n s.
Proof.
  unfold m_zrangebyscore. intros Hlen Hm Hsc.
  rewrite length_take in Hlen. rewrite take_ge by lia.
  apply list_elem_of_fmap. exists (m, sc). split; [done|].
  apply list_elem_of_filter. split; [done|]. by apply elem_of_map_to_list.
Qed.

Lemma m_idle now mi p c' t : p = Some (c', t) -> idle_for now mi p = true -> t + mi <= now.
Proof. intros ->. simpl. lia. Qed.

Lemma m_autoclaim_idle now c k mi n s e :
  e ∈ (m_xautoclaim now c k mi n s).1 ->
  exists c' t, m_pending k s !! e.1 = Some (c', t) /\ t + mi <= now.
Proof.
  intros [Hi _]%elem_of_take_filter. destruct (m_pending k s !! e.1) as [[c' t]|]; [|done].
  exists c', t. split; [done|]. simpl in Hi. lia.
Qed.

Lemma m_pexpire_get now now' k v ttl s :
  m_get now k s = Some v ->
  m_get now' k (m_pexpire now k ttl s) = if now' <? now + ttl then Some v else None.
Proof.
  intros Hg. unfold m_pexpire. rewrite Hg. unfold m_get. simpl. by rewrite lookup_insert_eq.
Qed.

Lemma m_pexpire_other now now' k k' ttl s :
  k <> k' -> m_get now' k' (m_pexpire now k ttl s) = m_get now' k' s.
Proof.
  intros Hk. unfold m_pexpire. destruct (m_get now k s); [|done].
  unfold m_get. simpl. by rewrite lookup_insert_ne.
Qed.

Lemma m_xtrim_at k n s :
  m_entries k (m_xtrim k n s) = drop (length (m_entries k s) - Z.to_nat n) (m_entries k s).
Proof. apply default_insert_eq. Qed.

Lemma m_xtrim_suffix k n s : exists es, m_entries k s = es ++ m_entries k (m_xtrim k n s).
Proof.
  exists (take (length (m_entries k s) - Z.to_nat n) (m_entries k s)).
  by rewrite m_xtrim_at, take_drop.
Qed.

Lemma m_xtrim_short k n s :
  Z.of_nat (length (m_entries k s)) <= n -> m_entries k (m_xtrim k n s) = m_entries k s.
Proof.
  intros Hn. rewrite m_xtrim_at. by replace (length (m_entries k s) - Z.to_nat n)%nat with 0%nat by lia.
Qed.

Lemma m_xtrim_keeps k n s :
  n <= Z.of_nat (length (m_entries k s)) ->
  n <= Z.of_nat (length (m_entries k (m_xtrim k n s))).
Proof.
  intros Hn. rewrite m_xtrim_at, length_drop. lia.
Qed.

End model_laws.

#[export] Program Instance RedisModel : RedisServer redis := {
  entries := m_entries; unread := m_unread; pending := m_pending; members := m_members; get := m_get;
  issued := m_issued;
  xadd := m_xadd; xtrim := m_xtrim; xreadgroup := m_xreadgroup;
  xack k id s := with_pel k (delete id (m_pending k s)) s;
  xdel k id s := with_stream k (filter (fun e => e.1 <> id) (m_entries k s)) s;
  xclaim := m_xclaim; xautoclaim := m_xautoclaim;
  zadd k sc m s := with_zset k (<[m := sc]> (m_members k s)) s;
  zrangebyscore := m_zrangebyscore;
  zrem k m s := with_zset k (delete m (m_members k s)) s;
  set now k v ttl s := with_strings (<[k := (v, now + ttl)]> (m_strings s)) s;
  del k s := with_strings (delete k (m_strings s)) s;
  pexpire := m_pexpire
}.
Solve All Obligations with
  (intros;
   try solve [ by apply m_entries_issued | apply m_xadd_unissued | by apply m_stream_issued
             | by apply m_xtrim_short | apply m_xclaim_get | apply m_xclaim_unread | apply m_xadd_issues | apply m_xclaim_entries | apply m_xclaim_members
             | by apply m_xclaim_issued | apply m_pexpire_keeps | apply m_xadd_unread | apply m_xreadgroup_unread
             | apply m_xdel_unread | apply m_xtrim_suffix
             | by apply m_xtrim_keeps | by eapply m_autoclaim_idle
             | by eapply m_zrange_due ];
   try solve [ apply m_stream_issues; apply elem_of_app; right; by left ];
   try solve [unfold m_unread, m_entries, m_seen, m_xadd; simpl; by rewrite ?default_insert_ne];
   unfold m_entries, m_pending, m_members, m_get, m_seen, m_xadd, m_xclaim, m_pexpire in *; simpl;
   try solve [ done | apply take_count
         | apply take_filter_sublist | apply sublist_filter | apply m_xreadgroup_spec
         | apply m_zrange_nodup
         | by eapply m_zrange_all | by apply m_pexpire_get | by apply m_pexpire_other | by rewrite default_insert_eq
         | by rewrite default_insert_ne
         | by rewrite lookup_insert_eq | by rewrite lookup_insert_ne
         | by rewrite lookup_delete_eq | by rewrite lookup_delete_ne ]).
