(* ===== verification/Effects.v ===== *)
(** * Effects: programs over Postgres, Redis and the clock

    The Go code that talks to the outside (packages [store], [queue], [worker],
    [recovery], [api]) is translated into programs of a free monad: a program
    either returns or makes one call and goes on with its answer.  A call can
    be refused before it takes effect or lose its answer afterwards, and the
    process can die between any two calls; [wp] is a weakest precondition in
    which, before every call, the world moves by an arbitrary step of a rely
    relation (what the other processes do meanwhile), and which checks a precondition
    of every call. *)

From S2P Require Import Prelude Errors Rfc3339 Job Database Redis.
Local Open Scope Z_scope.

(** ** The free monad *)

Inductive free (F : Type -> Type) (A : Type) : Type :=
| Ret (a : A)
| Vis {B : Type} (c : F B) (k : B -> free F A).
Arguments Ret {F A} a.
Arguments Vis {F A B} c k.

Fixpoint free_bind {F : Type -> Type} {A B} (p : free F A) (f : A -> free F B) : free F B :=
  match p with
  | Ret a => f a
  | Vis c k => Vis c (fun b => free_bind (k b) f)
  end.

Definition call {F : Type -> Type} {A} (c : F A) : free F A := Vis c Ret.

Declare Scope prog_scope.
Delimit Scope prog_scope with prog.
Notation "x <- p ;; f" := (free_bind p (fun x => f))
  (at level 100, p at next level, right associativity) : prog_scope.
Notation "p ;;; f" := (free_bind p (fun _ => f))
  (at level 100, right associativity) : prog_scope.
Local Open Scope prog_scope.

(** [x, err := p; if err != nil { return ..., err }]. *)
Definition bind_ok {F : Type -> Type} {A B} (p : free F (result error A))
    (f : A -> free F (result error B)) : free F (result error B) :=
  r <- p ;; match r with Ok a => f a | Err e => Ret (Err e) end.
Notation "x <-? p ;; f" := (bind_ok p (fun x => f))
  (at level 100, p at next level, right associativity) : prog_scope.

(** [if err != nil { return ..., fmt.Errorf("prefix: %w", err) }]. *)
Definition wrap_err {A} (prefix : string) (r : result error A) : result error A :=
  match r with Ok a => Ok a | Err e => Err (EWrap prefix e) end.
Definition Errorf {F : Type -> Type} {A} (prefix : string) (p : free F (result error A))
    : free F (result error A) :=
  r <- p ;; Ret (wrap_err prefix r).

Definition result_opt {A} (r : result error A) : option error :=
  match r with Ok _ => None | Err e => Some e end.

(** Every call the program can make satisfies [P]. *)
Fixpoint only {F : Type -> Type} (P : forall B, F B -> Prop) {A} (p : free F A) : Prop :=
  match p with
  | Ret _ => True
  | Vis c k => P _ c /\ forall b, only P (k b)
  end.

Lemma only_bind {F : Type -> Type} (P : forall B, F B -> Prop) {A B} (p : free F A)
    (f : A -> free F B) :
  only P p -> (forall a, only P (f a)) -> only P (free_bind p f).
Proof. induction p as [a|X c k IH]; simpl; [auto|]. intros [Hc Hk] Hf. eauto. Qed.

Lemma only_ok {F : Type -> Type} (P : forall B, F B -> Prop) {A B} (p : free F (result error A))
    (f : A -> free F (result error B)) :
  only P p -> (forall a, only P (f a)) -> only P (bind_ok p f).
Proof. intros Hp Hf. apply only_bind; [done|]. intros [a|e]; [apply Hf|exact I]. Qed.

Lemma only_Errorf {F : Type -> Type} (P : forall B, F B -> Prop) {A} prefix
    (p : free F (result error A)) :
  only P p -> only P (Errorf prefix p).
Proof. intros. apply only_bind; [done|]. by intros. Qed.

Lemma only_call {F : Type -> Type} (P : forall B, F B -> Prop) {A} (c : F A) :
  P _ c -> only P (call c).
Proof. done. Qed.

Lemma only_mono {F : Type -> Type} (P P' : forall B, F B -> Prop) {A} (p : free F A) :
  (forall B c, P B c -> P' B c) -> only P p -> only P' p.
Proof. intros HP. induction p; simpl; [done|]. intros []. eauto. Qed.

(** ** Redis commands *)

Inductive redis_cmd : Type -> Type :=
| XADD (key : string) (values : list (string * string)) : redis_cmd string
| XADD_MAXLEN (key : string) (maxlen : Z) (values : list (string * string)) : redis_cmd string
| XREADGROUP (consumer key : string) (count : Z) : redis_cmd (list entry)
| XREADGROUP_BLOCK (consumer : string) (keys : list string) (count : Z)
    : redis_cmd (list (string * list entry))
| XACK (key id : string) : redis_cmd unit
| XDEL (key id : string) : redis_cmd unit
| XCLAIM_JUSTID (consumer key id : string) : redis_cmd unit
| XAUTOCLAIM (consumer key : string) (minIdle : Duration) (count : Z) : redis_cmd (list entry)
| XREVRANGE (key : string) (count : Z) : redis_cmd (list entry)
| XLEN (key : string) : redis_cmd Z
| XPENDING (key : string) : redis_cmd Z
| ZCARD (key : string) : redis_cmd Z
| ZADD (key : string) (score : Z) (member : string) : redis_cmd unit
| ZRANGEBYSCORE (key : string) (max limit : Z) : redis_cmd (list string)
| ZREM (key member : string) : redis_cmd unit
| GET (key : string) : redis_cmd (option string)
| SET (key value : string) (ttl : Duration) : redis_cmd unit
| SETNX (key value : string) (ttl : Duration) : redis_cmd bool
| EXISTS (key : string) : redis_cmd Z
| DEL (key : string) : redis_cmd unit
| PEXPIRE (key : string) (ttl : Duration) : redis_cmd Z.

(** What the observability hooks report ([worker.Observer], and the API's
    counter of submissions). *)
Inductive obs_event :=
| JobStarted (jobType : string)
| JobCompleted (jobType : string) (exec e2e : Duration)
| JobFailed (jobType : string)
| JobRetried (jobType : string)
| JobDeadLettered (jobType : string)
| JobCancelled (jobType : string)
| ClaimSkipped
| WriteFenced
| JobsSubmitted (jobType queue : string).

(** The calls of a program.  [Tx] is a Postgres transaction (rolled back when a
    statement fails), [Script] a Lua script (atomic), [Backoff] the random draw
    of [retry.Policy.Delay]. *)
Inductive cmd : Type -> Type :=
| Sql {A} (s : stmt A) : cmd (result error A)
| Tx {A} (t : free stmt A) : cmd (result error A)
| Rdb {A} (c : redis_cmd A) : cmd (result error A)
| Script {A} (p : free redis_cmd A) : cmd (result error A)
| Now : cmd Time
| RandFloat : cmd Z
| Notify (o : obs_event) : cmd unit.

Abbreviation prog := (free cmd) (only parsing).

Definition pgExec {A} (s : stmt A) : prog (result error A) := call (Sql s).
Definition rdb {A} (c : redis_cmd A) : prog (result error A) := call (Rdb c).
Definition time_Now : prog Time := call Now.

Lemma only_pgExec (P : forall B, cmd B -> Prop) {A} (s : stmt A) : P _ (Sql s) -> only P (pgExec s).
Proof. done. Qed.
Lemma only_rdb (P : forall B, cmd B -> Prop) {A} (c : redis_cmd A) : P _ (Rdb c) -> only P (rdb c).
Proof. done. Qed.
Lemma only_now (P : forall B, cmd B -> Prop) : P _ Now -> only P time_Now.
Proof. done. Qed.

(** ** The world *)

(** Why a call failed: a broken connection, or the call's context. *)
Inductive outage := Broken (msg : string) | DeadlineExceeded | Canceled.
Definition outage_error (o : outage) : error :=
  match o with
  | Broken msg => EMsg msg
  | DeadlineExceeded => ESentinel ErrDeadlineExceeded
  | Canceled => ESentinel ErrCanceled
  end.

(** A call goes through, fails before it takes effect, or takes effect and its
    answer is lost. *)
Inductive fault := NoFault | FailBefore (o : outage) | FailAfter (o : outage).

(** What the environment decides about one call: the clock it reads, its fate,
    and the random draw ([0 <= draw < 2^53]). *)
Record tick := { at_ : Time; fate : fault; draw : Z }.

(** A call at time [t] that goes through. *)
Definition fine (t : Time) : tick := {| at_ := t; fate := NoFault; draw := 0 |}.

Section world.
Context (R : Type).
Record World := { w_db : DB; w_redis : R; w_obs : list obs_event }.
End world.
Arguments w_db {R} _.
Arguments w_redis {R} _.
Arguments w_obs {R} _.
Arguments Build_World {R} _ _ _.

Section semantics.
Context {R : Type} `{!RedisServer R}.

Definition with_db (db : DB) (w : World R) : World R := Build_World db (w_redis w) (w_obs w).
Definition with_redis (r : R) (w : World R) : World R := Build_World (w_db w) r (w_obs w).
Definition notify_obs (o : obs_event) (w : World R) : World R :=
  Build_World (w_db w) (w_redis w) (w_obs w ++ [o]).

(** XREADGROUP over several streams: each stream with new entries is served,
    up to COUNT entries of each. *)
Fixpoint read_streams (now : Time) (consumer : string) (keys : list string) (n : Z) (s : R)
    : list (string * list entry) * R :=
  match keys with
  | [] => ([], s)
  | k :: ks =>
      let '(es, s1) := xreadgroup now consumer k n s in
      let '(rest, s2) := read_streams now consumer ks n s1 in
      (match es with [] => rest | _ => (k, es) :: rest end, s2)
  end.

Definition redis_nil {A} : result error A := Err (ESentinel ErrRedisNil).

(** One command at server time [now]; an empty XREADGROUP answers nil. *)
Definition exec_redis {A} (now : Time) (c : redis_cmd A) (s : R) : result error A * R :=
  match c in redis_cmd A return result error A * R with
  | XADD k vs => let '(id, s') := xadd k vs s in (Ok id, s')
  | XADD_MAXLEN k n vs => let '(id, s') := xadd k vs s in (Ok id, xtrim k n s')
  | XREADGROUP c k n =>
      let '(es, s') := xreadgroup now c k n s in
      (match es with [] => redis_nil | _ => Ok es end, s')
  | XREADGROUP_BLOCK c ks n =>
      let '(es, s') := read_streams now c ks n s in
      (match es with [] => redis_nil | _ => Ok es end, s')
  | XACK k id => (Ok tt, xack k id s)
  | XDEL k id => (Ok tt, xdel k id s)
  | XCLAIM_JUSTID c k id => (Ok tt, xclaim now c k id s)
  | XAUTOCLAIM c k mi n => let '(es, s') := xautoclaim now c k mi n s in (Ok es, s')
  | XREVRANGE k n => (Ok (take (Z.to_nat n) (rev (entries k s))), s)
  | XLEN k => (Ok (Z.of_nat (length (entries k s))), s)
  | XPENDING k => (Ok (Z.of_nat (size (pending k s))), s)
  | ZCARD k => (Ok (Z.of_nat (size (members k s))), s)
  | ZADD k sc m => (Ok tt, zadd k sc m s)
  | ZRANGEBYSCORE k mx n => (Ok (zrangebyscore k mx n s), s)
  | ZREM k m => (Ok tt, zrem k m s)
  | GET k => (Ok (get now k s), s)
  | SET k v ttl => (Ok tt, set now k v ttl s)
  | SETNX k v ttl =>
      match get now k s with
      | Some _ => (Ok false, s)
      | None => (Ok true, set now k v ttl s)
      end
  | EXISTS k => (Ok (if get now k s is Some _ then 1 else 0), s)
  | DEL k => (Ok tt, del k s)
  | PEXPIRE k ttl => (Ok (if get now k s is Some _ then 1 else 0), pexpire now k ttl s)
  end.

(** A Lua script runs to its end with no other command in between. *)
Fixpoint exec_script {A} (now : Time) (p : free redis_cmd A) (s : R) : result error A * R :=
  match p with
  | Ret a => (Ok a, s)
  | Vis c k =>
      let '(r, s') := exec_redis now c s in
      match r with Ok b => exec_script now (k b) s' | Err e => (Err e, s') end
  end.

Lemma exec_script_bind {A B} now (p : free redis_cmd A) (f : A -> free redis_cmd B) : forall s : R,
  exec_script now (free_bind p f) s =
    match exec_script now p s with
    | (Ok a, s') => exec_script now (f a) s'
    | (Err e, s') => (Err e, s')
    end.
Proof.
  induction p as [a|X c k IH]; intros s; simpl; [done|].
  destruct (exec_redis now c s) as [[b|e] s']; [apply IH|done].
Qed.

(** A transaction: all its statements read the same clock; the first error
    rolls it back. *)
Fixpoint exec_tx {A} (now : Time) (t : free stmt A) (db : DB) : result error (A * DB) :=
  match t with
  | Ret a => Ok (a, db)
  | Vis s k =>
      let '(r, db') := exec_stmt now s db in
      match r with Ok b => exec_tx now (k b) db' | Err msg => Err (EMsg msg) end
  end.

Definition sql_error {A} (r : result string A) : result error A :=
  match r with Ok a => Ok a | Err msg => Err (EMsg msg) end.

Definition with_fate {A} (f : fault) (w : World R) (done : result error A * World R)
    : result error A * World R :=
  match f with
  | NoFault => done
  | FailBefore o => (Err (outage_error o), w)
  | FailAfter o => (Err (outage_error o), done.2)
  end.

Definition step_call {A} (t : tick) (c : cmd A) (w : World R) : A * World R :=
  match c in cmd A return A * World R with
  | Sql s =>
      with_fate (fate t) w
        (let '(r, db') := exec_stmt (at_ t) s (w_db w) in (sql_error r, with_db db' w))
  | Tx x =>
      with_fate (fate t) w
        (match exec_tx (at_ t) x (w_db w) with
         | Ok (a, db') => (Ok a, with_db db' w)
         | Err e => (Err e, w)
         end)
  | Rdb c =>
      with_fate (fate t) w
        (let '(r, s') := exec_redis (at_ t) c (w_redis w) in (r, with_redis s' w))
  | Script p =>
      with_fate (fate t) w
        (let '(r, s') := exec_script (at_ t) p (w_redis w) in (r, with_redis s' w))
  | Now => (at_ t, w)
  | RandFloat => (draw t, w)
  | Notify o => (tt, notify_obs o w)
  end.

(** A run: before each call the environment moves the world, and decides the
    call's tick; out of ticks, the process is dead.  The ticks left over come
    back with the answer. *)
Fixpoint steps {A} (p : prog A) (ts : list ((World R -> World R) * tick)) (w : World R)
    : option (A * list ((World R -> World R) * tick)) * World R :=
  match p, ts with
  | Ret a, _ => (Some (a, ts), w)
  | Vis _ _, [] => (None, w)
  | Vis c k, (env, t) :: ts' => let '(b, w') := step_call t c (env w) in steps (k b) ts' w'
  end.

Definition run_env {A} (p : prog A) (ts : list ((World R -> World R) * tick)) (w : World R)
    : option A * World R :=
  let '(r, w') := steps p ts w in (fst <$> r, w').

(** A run alone. *)
Definition alone (t : tick) : (World R -> World R) * tick := (fun w => w, t).
Definition run {A} (p : prog A) (ts : list tick) (w : World R) : option A * World R :=
  run_env p (map alone ts) w.

Lemma steps_bind {A B} (p : prog A) (f : A -> prog B) : forall ts w,
  steps (free_bind p f) ts w =
    match steps p ts w with
    | (Some (a, ts'), w') => steps (f a) ts' w'
    | (None, w') => (None, w')
    end.
Proof.
  induction p as [a|X c k IH]; intros ts w; simpl; [done|].
  destruct ts as [|[env t] ts]; [done|]. destruct (step_call t c (env w)). apply IH.
Qed.

(** ** Weakest preconditions *)

Section wp.
Context (rely : World R -> World R -> Prop).
Context (pre : forall B, cmd B -> World R -> Prop).

Fixpoint wp {A} (p : prog A) (Q : A -> World R -> Prop) (w : World R) : Prop :=
  match p with
  | Ret a => Q a w
  | Vis c k =>
      forall w1 t, rely w w1 ->
        pre _ c w1 /\ wp (k (step_call t c w1).1) Q (step_call t c w1).2
  end.

Lemma wp_bind {A B} (p : prog A) (f : A -> prog B) Q : forall w,
  wp (free_bind p f) Q w <-> wp p (fun a => wp (f a) Q) w.
Proof.
  induction p as [a|X c k IH]; intros w; simpl; [done|].
  setoid_rewrite IH. done.
Qed.

Lemma wp_mono {A} (p : prog A) (Q Q' : A -> World R -> Prop) : forall w,
  (forall a w', Q a w' -> Q' a w') -> wp p Q w -> wp p Q' w.
Proof.
  induction p as [a|X c k IH]; intros w HQ; simpl; [auto|].
  intros Hw w1 t Hr. destruct (Hw w1 t Hr). eauto.
Qed.

Lemma wp_ok {A B} (p : prog (result error A)) (f : A -> prog (result error B)) Q w :
  wp p (fun r w' => match r with Ok a => wp (f a) Q w' | Err e => Q (Err e) w' end) w ->
  wp (bind_ok p f) Q w.
Proof.
  intros Hp. apply wp_bind. eapply wp_mono; [|exact Hp]. by intros [a|e].
Qed.

(** A pure computation that may fail comes first. *)
Lemma wp_pure_ok {A B} (r : result error A) (f : A -> prog (result error B)) Q w :
  (forall a, r = Ok a -> wp (f a) Q w) -> (forall e, r = Err e -> Q (Err e) w) ->
  wp (bind_ok (Ret r) f) Q w.
Proof. destruct r; intros H1 H2; [exact (H1 _ eq_refl)|exact (H2 _ eq_refl)]. Qed.

Lemma wp_Errorf {A} prefix (p : prog (result error A)) Q w :
  wp p (fun r w' => Q (wrap_err prefix r) w') w -> wp (Errorf prefix p) Q w.
Proof. intros. by apply wp_bind. Qed.

(** [I] holds at every world the program passes through, if it is stable
    under the rely and every allowed call keeps it. *)
Lemma wp_invariant {A} (p : prog A) (I : World R -> Prop) (Q : A -> World R -> Prop) : forall w,
  (forall w1 w2, rely w1 w2 -> I w1 -> I w2) ->
  (forall B (c : cmd B) t w1, I w1 -> pre _ c w1 -> I (step_call t c w1).2) ->
  I w -> wp p Q w -> wp p (fun a w' => I w' /\ Q a w') w.
Proof.
  induction p as [a|X c k IH]; intros w Hst Hcall HI; simpl; [auto|].
  intros Hw w1 t Hr. destruct (Hw w1 t Hr) as [Hg Hk]. split; [done|].
  apply IH; eauto.
Qed.
End wp.

(** A stronger rely, weaker preconditions. *)
Lemma wp_weaken (rely rely' : World R -> World R -> Prop) pre pre' {A} (p : prog A) Q : forall w,
  (forall w1 w2, rely' w1 w2 -> rely w1 w2) ->
  (forall B (c : cmd B) w1, pre B c w1 -> pre' B c w1) ->
  wp rely pre p Q w -> wp rely' pre' p Q w.
Proof.
  induction p as [a|X c k IH]; intros w Hrely Hpre; simpl; [auto|].
  intros H w1 t Hr. destruct (H w1 t (Hrely _ _ Hr)). split; [auto|]. by apply IH.
Qed.

(** Two specifications of one program. *)
Lemma wp_and (rely : World R -> World R -> Prop) pre pre' {A} (p : prog A) Q Q' : forall w,
  wp rely pre p Q w -> wp rely pre' p Q' w ->
  wp rely (fun B c w => pre B c w /\ pre' B c w) p (fun a w => Q a w /\ Q' a w) w.
Proof.
  induction p as [a|X c k IH]; intros w; simpl; [auto|]. intros H H' w1 t Hr.
  destruct (H w1 t Hr), (H' w1 t Hr). split; [auto|]. by apply IH.
Qed.

(** What holds of all the calls of a program is a precondition it meets. *)
Lemma wp_only (rely : World R -> World R -> Prop) pre (P : forall B, cmd B -> Prop) {A} (p : prog A)
    (I : World R -> Prop) : forall w,
  only P p ->
  (forall w1 w2, rely w1 w2 -> I w1 -> I w2) ->
  (forall B (c : cmd B) t w1, I w1 -> P B c -> pre B c w1 /\ I (step_call t c w1).2) ->
  I w -> wp rely pre p (fun _ w' => I w') w.
Proof.
  induction p as [a|X c k IH]; intros w; simpl; [auto|]. intros [Hc Hk] Hst Hcall HI w1 t Hr.
  destruct (Hcall _ c t w1 (Hst _ _ Hr HI) Hc). split; [done|]. by apply IH.
Qed.

(** A program can be run from any later world. *)
Lemma wp_later (rely : World R -> World R -> Prop) pre {A} (p : prog A) Q w w' :
  Transitive rely -> (forall a w1 w2, rely w1 w2 -> Q a w1 -> Q a w2) ->
  rely w w' -> wp rely pre p Q w -> wp rely pre p Q w'.
Proof.
  destruct p as [a|X c k]; simpl; intros Ht HQ Hr; [by apply HQ|].
  intros H w1 t Hr'. apply H. by etrans.
Qed.

(** No precondition; no rely but what laws give. *)
Definition any_rely : World R -> World R -> Prop := fun _ _ => True.
Definition no_pre : forall B, cmd B -> World R -> Prop := fun _ _ _ => True.

(** Runs are covered by [wp]: with any environment that keeps to the rely, and
    alone when the rely is reflexive. *)
Lemma wp_run_env (rely : World R -> World R -> Prop) pre {A} (p : prog A) Q :
  forall ts w, Forall (fun x => forall w1, rely w1 (x.1 w1)) ts -> wp rely pre p Q w ->
  match run_env p ts w with (Some a, w') => Q a w' | (None, _) => True end.
Proof.
  unfold run_env. induction p as [a|X c k IH]; intros [|[env t] ts] w Hts; simpl; try done.
  apply Forall_cons in Hts as [Henv Hts].
  intros Hw. destruct (Hw (env w) t (Henv w)) as [_ Hk].
  destruct (step_call t c (env w)) as [b w']. by apply IH.
Qed.

Lemma wp_run (rely : World R -> World R -> Prop) pre {A} (p : prog A) Q :
  Reflexive rely ->
  forall w ts, wp rely pre p Q w ->
  match run p ts w with (Some a, w') => Q a w' | (None, _) => True end.
Proof.
  intros Hrefl w ts. apply wp_run_env. apply Forall_forall.
  intros x (t & <- & _)%list_elem_of_In%in_map_iff w1. apply Hrefl.
Qed.

(** ** Runs without interference and failures

    [goes t0 p Q w]: alone, with every call going through and at whatever times
    from [t0] on (before the year 10000, which JSON cannot write), the program
    comes to its end in a state where [Q] holds. *)
Fixpoint goes (t0 : Time) {A} (p : prog A) (Q : A -> World R -> Prop) (w : World R) : Prop :=
  match p with
  | Ret a => Q a w
  | Vis c k =>
      forall t, fate t = NoFault -> (t0 <= at_ t)%Z -> in_years (at_ t) = true ->
        goes t0 (k (step_call t c w).1) Q (step_call t c w).2
  end.

Lemma goes_bind t0 {A B} (p : prog A) (f : A -> prog B) Q : forall w,
  goes t0 (free_bind p f) Q w <-> goes t0 p (fun a => goes t0 (f a) Q) w.
Proof.
  induction p as [a|X c k IH]; intros w; simpl; [done|]. setoid_rewrite IH. done.
Qed.

Lemma goes_mono t0 {A} (p : prog A) (Q Q' : A -> World R -> Prop) : forall w,
  (forall a w', Q a w' -> Q' a w') -> goes t0 p Q w -> goes t0 p Q' w.
Proof.
  induction p as [a|X c k IH]; intros w HQ; simpl; [auto|]. intros Hw t Ht Hle Hy. eauto.
Qed.

Lemma goes_ok t0 {A B} (p : prog (result error A)) (f : A -> prog (result error B)) Q w :
  goes t0 p (fun r w' => match r with Ok a => goes t0 (f a) Q w' | Err e => Q (Err e) w' end) w ->
  goes t0 (bind_ok p f) Q w.
Proof. intros Hp. apply goes_bind. eapply goes_mono; [|exact Hp]. by intros [a|e]. Qed.

Lemma goes_pure_ok t0 {A B} a (f : A -> prog (result error B)) Q w r :
  r = Ok a -> goes t0 (f a) Q w -> goes t0 (bind_ok (Ret r) f) Q w.
Proof. by intros ->. Qed.

Lemma goes_Errorf t0 {A} prefix (p : prog (result error A)) Q w :
  goes t0 p (fun r w' => Q (wrap_err prefix r) w') w -> goes t0 (Errorf prefix p) Q w.
Proof. intros. by apply goes_bind. Qed.

(** Such a program terminates: some number of ticks is enough. *)
Lemma goes_run t0 {A} (p : prog A) Q t : forall w,
  fate t = NoFault -> (t0 <= at_ t)%Z -> in_years (at_ t) = true -> goes t0 p Q w ->
  exists n a w', run p (replicate n t) w = (Some a, w') /\ Q a w'.
Proof.
  unfold run, run_env. induction p as [a|X c k IH]; intros w Ht Hle Hy Hg; simpl in *.
  - by exists 0%nat, a, w.
  - destruct (IH _ _ Ht Hle Hy (Hg t Ht Hle Hy)) as (n & a & w' & Hr & HQ).
    exists (S n), a, w'. simpl. destruct (step_call t c w) as [b w1]. by split.
Qed.

(** And whenever it has come to its end, [Q] holds. *)
Lemma goes_outcome t0 {A} (p : prog A) Q t n a w' : forall w,
  fate t = NoFault -> (t0 <= at_ t)%Z -> in_years (at_ t) = true -> goes t0 p Q w ->
  run p (replicate n t) w = (Some a, w') -> Q a w'.
Proof.
  unfold run, run_env. revert n. induction p as [b|X c k IH]; intros n w Ht Hle Hy Hg Hr; simpl in *.
  - by injection Hr as -> ->.
  - destruct n as [|n]; simpl in Hr; [done|]. pose proof (Hg t Ht Hle Hy) as Hk.
    destruct (step_call t c w) as [b w1]. by apply (IH b n w1).
Qed.

End semantics.

(** Taking the calls of a program one by one, for [only]. *)
Ltac only_calls :=
  repeat (simpl; intros;
    match goal with
    | |- only _ (Ret _) => exact I
    | |- True => exact I
    | |- only _ (free_bind _ _) => apply only_bind
    | |- only _ (bind_ok _ _) => apply only_ok
    | |- only _ (Errorf _ _) => apply only_Errorf
    | |- only _ (call _) => apply only_call; try done
    | |- only _ (pgExec _) => apply only_pgExec; try done
    | |- only _ (rdb _) => apply only_rdb; try done
    | |- only _ time_Now => apply only_now; try done
    | |- only _ (match ?x with _ => _ end) => destruct x
    | _ => solve [eauto with only]
    end).
Create HintDb only discriminated.

(** Fates of a call, for case analysis. *)
Lemma fate_cases {R A} (f : fault) (w : World R) (done : result error A * World R)
    (P : result error A * World R -> Prop) :
  P done -> (forall o, P (Err (outage_error o), w)) -> (forall o, P (Err (outage_error o), done.2)) ->
  P (with_fate f w done).
Proof. destruct f; simpl; auto. Qed.

(** Transport failures are never the "no rows" and "nil" answers. *)
Lemma outage_not_sentinel o s :
  s ∈ [ErrNoRows; ErrRedisNil] -> errors_Is (Some (outage_error o)) s = false.
Proof. rewrite !elem_of_cons, elem_of_nil. intros [-> | [-> | []]]; by destruct o. Qed.
