(* ===== verification/Rely.v ===== *)
(** * Rely: what the rest of the system can do to the database

    However many processes run, what one of them sees of Postgres between two of
    its own calls is a sequence of statements that the code sends ([evolves]).
    This file proves what survives such a sequence, and that every call of a
    program is itself such a sequence, so the relation is at once the rely and
    the guarantee of every program of the development. *)

From S2P Require Import Prelude Errors Rfc3339 Job Database Rows Redis Effects.
Local Open Scope Z_scope.

(** ** Evolution of the database *)

Definition sent (x : Time * sql) : Prop := stmt_ok (projT2 x.2).

Definition evolves (db db' : DB) : Prop := exists tr, Forall sent tr /\ db' = run_sql tr db.

Lemma run_sql_app tr1 tr2 db : run_sql (tr1 ++ tr2) db = run_sql tr2 (run_sql tr1 db).
Proof. revert db. induction tr1; simpl; auto. Qed.

#[export] Instance evolves_preorder : PreOrder evolves.
Proof.
  split.
  - intros db. by exists [].
  - intros a b c (t1 & H1 & ->) (t2 & H2 & ->). exists (t1 ++ t2).
    split; [by apply Forall_app|by rewrite run_sql_app].
Qed.

Lemma evolves_step {A} now (s : stmt A) db : stmt_ok s -> evolves db (exec_stmt now s db).2.
Proof. intros. exists [(now, sql_of s)]. split; [by repeat constructor|done]. Qed.

(** Anything every statement keeps is kept. *)
Lemma evolves_ind (I : DB -> Prop) db db' :
  (forall A now (s : stmt A) db, stmt_ok s -> I db -> I (exec_stmt now s db).2) ->
  evolves db db' -> I db -> I db'.
Proof.
  intros Hstep (tr & Htr & ->). revert db. induction Htr as [|[now [A s]] tr Hs _ IH]; simpl; [done|].
  intros db HI. apply IH. by apply Hstep.
Qed.

Lemma evolves_wf db db' : evolves db db' -> db_wf db -> db_wf db'.
Proof.
  apply (evolves_ind db_wf). intros A now s db0 Hok [Hrows Hkeys Hatt Hev]. constructor.
  - intros id r' Hr'. destruct (exec_stmt_row_origin now s db0 id r' Hok Hr')
      as [(r & Hr & Hs)|(j & p & -> & -> & Hj & _)].
    + destruct (Hrows _ _ Hr). split; [by eapply row_wf_step|]. by rewrite (row_step_def _ _ Hs).
    + split; [by apply row_wf_inserted|done].
  - by apply exec_stmt_keys_unique.
  - intros id n a Ha. apply exec_stmt_present.
    apply exec_stmt_attempts in Ha as [[a' Ha]|Ha]; eauto.
  - intros ev Hin. apply exec_stmt_present. apply exec_stmt_events in Hin as [?|?]; eauto.
Qed.

Lemma evolves_settled id e db db' : evolves db db' -> settled id e db -> settled id e db'.
Proof.
  apply (evolves_ind (settled id e)). intros A now s db0 _.
  apply (settled_exec id e (now, sql_of s)).
Qed.

(** The claim with epoch [e] of job [id] was handed out. *)
Definition handed_out (id : string) (e : Z) (db : DB) : Prop :=
  exists r, jobs db !! id = Some r /\ e <= r_lease_epoch r.

Lemma handed_out_exec {A} id e now (s : stmt A) db :
  handed_out id e db -> handed_out id e (exec_stmt now s db).2.
Proof.
  intros (r & Hr & He). pose proof (exec_stmt_slots now s db id) as H. rewrite Hr in H.
  apply slot_from_Some in H as (r' & Hr' & Hs). exists r'. split; [done|].
  apply row_step_epoch in Hs as [? _]. lia.
Qed.

Lemma handed_out_run id e tr : forall db, handed_out id e db -> handed_out id e (run_sql tr db).
Proof.
  induction tr as [|[t [A s]] tr IH]; simpl; [auto|]. intros db H. by apply IH, handed_out_exec.
Qed.

Lemma evolves_handed_out id e db db' : evolves db db' -> handed_out id e db -> handed_out id e db'.
Proof. intros (tr & _ & ->). apply handed_out_run. Qed.

Lemma settled_handed_out id e db : settled id e db -> handed_out id e db.
Proof. intros (r & Hr & H). exists r. split; [done|]. destruct H as [|[]]; lia. Qed.

(** A row keeps its identity columns. *)
Definition defined_as (id : string) (d : JobDef) (db : DB) : Prop :=
  exists r, jobs db !! id = Some r /\ r_def r = d.

Lemma evolves_defined_as id d db db' : evolves db db' -> defined_as id d db -> defined_as id d db'.
Proof.
  apply (evolves_ind (defined_as id d)). intros A now s db0 _ (r & Hr & <-).
  pose proof (exec_stmt_slots now s db0 id) as H. rewrite Hr in H.
  apply slot_from_Some in H as (r' & Hr' & Hs). exists r'. split; [done|].
  by apply row_step_def in Hs.
Qed.
#[export] Hint Resolve evolves_wf evolves_settled evolves_handed_out evolves_defined_as
  settled_handed_out : rows.

(** A fenced write that was answered tells the truth about its claim: hit or
    miss, the claim is settled afterwards. *)
Lemma fenced_answer_settles id e s now db :
  handed_out id e db -> fenced_write id e s -> (forall ttl, s <> UpdateLease id e ttl) ->
  settled id e (exec_stmt now s db).2.
Proof.
  intros (r & Hr & He) Hw Hnl. destruct (fence e r) eqn:Hf.
  - destruct (proj1 (fence_spec e r) Hf) as [Hep Hrun].
    destruct Hw; [by destruct (Hnl ttl)|..]; simpl; unfold update_where; rewrite Hr, Hf; simpl;
      eexists; (split; [apply lookup_insert_eq|]); right; simpl; (split; [done|discriminate]).
  - rewrite (fenced_miss id e s now db Hw) by naive_solver. simpl.
    exists r. split; [done|]. apply not_true_iff_false in Hf. rewrite fence_spec in Hf.
    destruct (decide (r_lease_epoch r = e)); [right|left; lia]. split; [done|]. tauto.
Qed.

(** ** The retry budget *)

(** No job is ever run more often than its budget allows. *)
Definition row_budget (r : JobRow) : Prop :=
  r_attempt_count r <= r_max_attempts r /\
  (claimable r = true -> r_attempt_count r < r_max_attempts r).
Definition db_budget (db : DB) : Prop := forall id r, jobs db !! id = Some r -> row_budget r.

(** The run with epoch [e], if it is still going, is not the last one allowed. *)
Definition budget_left (id : string) (e : Z) (db : DB) : Prop :=
  exists r, jobs db !! id = Some r /\ e <= r_lease_epoch r /\
    (fence e r = true -> r_attempt_count r < r_max_attempts r).

(** What the code must know before it sends a statement: a retry is only
    scheduled for a run that has budget left. *)
Definition stmt_budget {A} (s : stmt A) (db : DB) : Prop :=
  match s with UpdateRetry id e _ _ => budget_left id e db | _ => True end.

Lemma exec_stmt_budget_left {A} now (s : stmt A) id e db :
  budget_left id e db -> budget_left id e (exec_stmt now s db).2.
Proof.
  intros (r & Hr & He & Hb). pose proof (exec_stmt_slots now s db id) as H. rewrite Hr in H.
  apply slot_from_Some in H as (r' & Hr' & Hs). exists r'. split; [done|].
  pose proof (row_step_def _ _ Hs) as Hd.
  apply row_step_epoch in Hs as [Hle Hsame]. split; [lia|]. intros [He' Hrun]%fence_spec.
  destruct (Hsame ltac:(lia)) as [Hatt Hrun']. unfold r_max_attempts in *. rewrite Hd, Hatt.
  apply Hb, fence_spec. split; [lia|auto].
Qed.

Lemma evolves_budget_left id e db db' : evolves db db' -> budget_left id e db -> budget_left id e db'.
Proof.
  apply (evolves_ind (budget_left id e)). intros. by apply exec_stmt_budget_left.
Qed.
#[export] Hint Resolve evolves_budget_left : rows.

Lemma update_where_budget id p f db :
  (forall r, jobs db !! id = Some r -> p r = true -> row_budget r -> row_budget (f r)) ->
  db_budget db -> db_budget (update_where id p f db).2.
Proof.
  intros Hf Hb. unfold update_where. destruct (jobs db !! id) as [r|] eqn:Hr; [|done].
  destruct (p r) eqn:Hp; [|done]. intros id' r' Hr'. simpl in Hr'.
  apply lookup_insert_Some in Hr' as [[<- <-]|[_ Hr']]; [|by eapply Hb].
  apply Hf; [done|done|by eapply Hb].
Qed.

Lemma row_budget_not_claimable r r' :
  r_attempt_count r' = r_attempt_count r -> r_def r' = r_def r -> claimable r' = false ->
  row_budget r -> row_budget r'.
Proof.
  intros Ha Hd Hc [Hb _]. unfold row_budget, r_max_attempts in *. rewrite Ha, Hd, Hc. done.
Qed.

Ltac budget_row :=
  let Hb := fresh in
  intros ? ? ? Hb;
  first [ refine (row_budget_not_claimable _ _ _ _ _ Hb); reflexivity
        | exact Hb
        | idtac ].

(** Every statement sent within its budget keeps every row within its budget. *)
Lemma exec_stmt_db_budget {A} now (s : stmt A) db :
  stmt_ok s -> stmt_budget s db -> db_wf db -> db_budget db -> db_budget (exec_stmt now s db).2.
Proof.
  intros Hok Hsb Hwf Hb.
  assert (Hupd : forall id p f, (forall r, jobs db !! id = Some r -> p r = true -> row_budget r -> row_budget (f r)) ->
    db_budget (update_where id p f db).2) by (intros; by apply update_where_budget).
  destruct s; simpl in *; try exact Hb;
    try (match goal with |- context [update_where ?i ?p ?f db] =>
           specialize (Hupd i p f); destruct (update_where i p f db); simpl in *; apply Hupd end;
         clear Hupd; budget_row).
  - (* insert *)
    intros id r Hr. destruct (insert_job_cases now j payload db) as [E|(_ & E & _)]; rewrite E in Hr;
      [by eapply Hb|]. simpl in Hr.
    apply lookup_insert_Some in Hr as [[<- <-]|[_ Hr]]; [|by eapply Hb].
    destruct Hok as [_ _ _ _ _ Hm _ _]. split; unfold r_max_attempts; simpl; intros; lia.
  - (* claim *)
    match goal with H : claimable ?r = true, H2 : row_budget ?r |- _ => destruct H2 as [_ Hlt]; specialize (Hlt H) end.
    split; unfold r_max_attempts in *; simpl; [lia|done].
  - (* retry *)
    destruct Hsb as (r0 & Hr0 & _ & Hlt).
    match goal with H1 : jobs db !! id = Some ?r, H2 : fence epoch ?r = true |- _ =>
      rewrite H1 in Hr0; injection Hr0 as <-; specialize (Hlt H2) end.
    split; unfold r_max_attempts in *; simpl; lia.
  - by destruct (insert_attempt_row _ _ _ _) eqn:Ha; simpl; [|exact Hb];
      intros id r; rewrite (insert_attempt_row_jobs _ _ _ _ _ Ha); apply Hb.
  - by destruct (jobs db !! jobID).
  - (* reap *)
    match goal with H : row_budget ?r |- _ => destruct H as [Hle _]; destruct (exhausted r) eqn:Hex end;
      unfold row_reaped, exhausted in *; rewrite Hex; reflect_bools;
      (split; unfold r_max_attempts in *; simpl; [lia|intros; try done; lia]).
  - (* promote *)
    intros id r Hr. simpl in Hr. rewrite map_lookup_imap in Hr.
    destruct (jobs db !! id) as [r0|] eqn:Hr0; [|done]. simpl in Hr. injection Hr as <-.
    pose proof (Hb _ _ Hr0) as [Hle Hlt]. unfold promoted_hit.
    destruct (bool_decide _ && status_is StatusRetrying r0) eqn:Hp; [|by split].
    reflect_bools. spec_bools. assert (claimable r0 = true) by (apply claimable_spec; auto).
    split; unfold r_max_attempts in *; simpl; [lia|auto].
  - (* requeue *)
    match goal with H : jobs db !! id = Some ?r |- _ => destruct (wf_rows _ Hwf _ _ H) as [[] _] end.
    split; unfold r_max_attempts in *; simpl; lia.
  - unfold upsert_worker. by destruct (bool_decide _).
  - (* batch completions *)
    intros id r Hr. simpl in Hr. rewrite map_lookup_imap in Hr.
    destruct (jobs db !! id) as [r0|] eqn:Hr0; [|done]. simpl in Hr. injection Hr as <-.
    destruct (batch_match vs id r0); [|by eapply Hb].
    refine (row_budget_not_claimable _ _ _ _ _ (Hb _ _ Hr0)); reflexivity.
  - destruct (insert_attempts xs db) eqn:Ha; simpl; [|exact Hb].
    intros id r. rewrite (insert_attempts_jobs _ _ _ Ha). apply Hb.
  - by destruct (forallb _ es).
Qed.

(** ** Evolution of the world *)

Section world.
Context {R : Type} `{!RedisServer R}.
Implicit Types w : World R.

Definition world_evolves w w' : Prop := evolves (w_db w) (w_db w').

#[global] Instance world_evolves_preorder : PreOrder world_evolves.
Proof.
  split; unfold world_evolves.
  - intros w. reflexivity.
  - intros a b c ??. by etrans.
Qed.

Fixpoint tx_ok {A} (t : free stmt A) : Prop :=
  match t with Ret _ => True | Vis s k => stmt_ok s /\ forall b, tx_ok (k b) end.

(** Every job a call inserts was admitted by [job.New]. *)
Definition cmd_ok {A} (c : cmd A) : Prop :=
  match c with Sql s => stmt_ok s | Tx t => tx_ok t | _ => True end.

Lemma tx_ok_bind {A B} (t : free stmt A) (f : A -> free stmt B) :
  tx_ok t -> (forall a, tx_ok (f a)) -> tx_ok (free_bind t f).
Proof.
  induction t as [a|X s k IH]; simpl; [auto|]. intros [Hs Hk] Hf. split; [done|]. eauto.
Qed.

Lemma exec_tx_evolves {A} now (t : free stmt A) : forall db a db',
  tx_ok t -> exec_tx now t db = Ok (a, db') -> evolves db db'.
Proof.
  induction t as [a0|B s k IH]; simpl; intros db a db'; [intros _ [= <- <-]; reflexivity|].
  intros [Hs Hk]. pose proof (evolves_step now s db Hs) as He.
  destruct (exec_stmt now s db) as [[b|msg] db1]; [|done]. simpl in He.
  intros Ht. etrans; [exact He|]. by eapply IH.
Qed.

(** Every call is an evolution. *)
Lemma step_call_evolves {A} (t : tick) (c : cmd A) w :
  cmd_ok c -> world_evolves w (step_call t c w).2.
Proof.
  intros Hok. unfold world_evolves.
  destruct c; simpl in *; try reflexivity; try (apply fate_cases; simpl; intros; try reflexivity).
  all: try (by destruct (exec_redis _ _ _)); try (by destruct (exec_script _ _ _)).
  all: try (pose proof (evolves_step (at_ t) s (w_db w) Hok);
            by destruct (exec_stmt (at_ t) s (w_db w))).
  all: destruct (exec_tx (at_ t) t0 (w_db w)) as [[a db']|e] eqn:Ht; simpl; try reflexivity;
    by eapply exec_tx_evolves.
Qed.

(** ** The discipline of the code *)

Fixpoint tx_budget {A} (t : free stmt A) (db : DB) : Prop :=
  match t with Ret _ => True | Vis s k => stmt_budget s db /\ forall b, tx_budget (k b) db end.

Definition call_budget {A} (c : cmd A) (db : DB) : Prop :=
  match c with Sql s => stmt_budget s db | Tx t => tx_budget t db | _ => True end.

(** What every program of the development keeps to, at every call. *)
Definition disciplined : forall B, cmd B -> World R -> Prop :=
  fun _ c w => cmd_ok c /\ call_budget c (w_db w).

(** Calls that keep to it in every state. *)
Definition plain : forall B, cmd B -> Prop := fun _ c => cmd_ok c /\ forall db, call_budget c db.

Lemma wp_plain {A} (p : prog A) w :
  only plain p -> wp world_evolves disciplined p (fun _ w' => world_evolves w w') w.
Proof.
  intros Hp. refine (wp_only _ _ plain p (world_evolves w) w Hp _ _ _).
  - intros w1 w2 H12 H1. by etrans.
  - intros B c t w1 H1 [Hok Hb]. split; [by split|]. etrans; [exact H1|]. by apply step_call_evolves.
  - reflexivity.
Qed.

(** A plain program and what follows it. *)
Lemma wp_plain_bind {A B} (p : prog A) (f : A -> prog B) Q w :
  only plain p -> (forall a w', world_evolves w w' -> wp world_evolves disciplined (f a) Q w') ->
  wp world_evolves disciplined (free_bind p f) Q w.
Proof. intros Hp Hf. apply wp_bind. eapply wp_mono; [|by apply wp_plain]. auto. Qed.

(** What they keep true together. *)
Definition db_inv (db : DB) : Prop := db_wf db /\ db_budget db.

Lemma exec_stmt_inv {A} now (s : stmt A) db :
  stmt_ok s -> stmt_budget s db -> db_inv db -> db_inv (exec_stmt now s db).2.
Proof.
  intros Hok Hsb [Hwf Hb]. split; [|by apply exec_stmt_db_budget].
  eapply evolves_wf; [by apply evolves_step|done].
Qed.

Lemma tx_budget_evolves {A} (t : free stmt A) db db' : evolves db db' -> tx_budget t db -> tx_budget t db'.
Proof.
  intros He. induction t as [a|X s k IH]; simpl; [done|]. intros [Hs Hk]. split; [|eauto].
  destruct s; try done. by eapply evolves_budget_left.
Qed.

Lemma exec_tx_inv {A} now (t : free stmt A) : forall db a db',
  tx_ok t -> tx_budget t db -> db_inv db -> exec_tx now t db = Ok (a, db') -> db_inv db'.
Proof.
  induction t as [a0|B s k IH]; simpl; intros db a db' ; [intros _ _ Hi [= <- <-]; done|].
  intros [Hs Hk] [Hsb Hkb] Hi. pose proof (evolves_step now s db Hs) as He.
  pose proof (exec_stmt_inv now s db Hs Hsb Hi) as Hi'.
  destruct (exec_stmt now s db) as [[b|msg] db1]; [|done]. simpl in *. intros Ht.
  eapply (IH b db1); eauto. by eapply tx_budget_evolves.
Qed.

(** A disciplined call keeps the invariant, whatever its fate. *)
Lemma step_call_inv {A} (t : tick) (c : cmd A) w :
  disciplined _ c w -> db_inv (w_db w) -> db_inv (w_db (step_call t c w).2).
Proof.
  intros [Hok Hbud] Hi.
  destruct c; simpl in *; try exact Hi; try (apply fate_cases; simpl; intros; try exact Hi).
  all: try (by destruct (exec_redis _ _ _)); try (by destruct (exec_script _ _ _)).
  all: try (pose proof (exec_stmt_inv (at_ t) s (w_db w) Hok Hbud Hi);
            by destruct (exec_stmt (at_ t) s (w_db w))).
  all: destruct (exec_tx (at_ t) t0 (w_db w)) as [[a db']|e] eqn:Ht; simpl; try exact Hi;
    by eapply exec_tx_inv.
Qed.

(** ** Rules for one call *)

Context (pre : forall B, cmd B -> World R -> Prop).

(** A statement: it was refused, or it ran and its answer arrived or not. *)
Lemma wp_sql {A} (s : stmt A) (Q : result error A -> World R -> Prop) w :
  (forall w1, world_evolves w w1 ->
     pre _ (Sql s) w1 /\
     forall now, (forall o, Q (Err (outage_error o)) w1) /\
     (forall o, Q (Err (outage_error o)) (with_db (exec_stmt now s (w_db w1)).2 w1)) /\
     Q (sql_error (exec_stmt now s (w_db w1)).1) (with_db (exec_stmt now s (w_db w1)).2 w1)) ->
  wp world_evolves pre (pgExec s) Q w.
Proof.
  intros H w1 t Hw. destruct (H w1 Hw) as [Hp Hq]. split; [exact Hp|].
  destruct (Hq (at_ t)) as (Q1 & Q2 & Q3). simpl.
  destruct (exec_stmt (at_ t) s (w_db w1)); simpl in *. destruct (fate t); simpl; auto.
Qed.

(** A Redis command, when only the database matters. *)
Lemma wp_rdb {A} (c : redis_cmd A) (Q : result error A -> World R -> Prop) w :
  (forall w1, world_evolves w w1 ->
     pre _ (Rdb c) w1 /\
     forall r w2, w_db w2 = w_db w1 -> Q r w2) ->
  wp world_evolves pre (rdb c) Q w.
Proof.
  intros H w1 t Hw. destruct (H w1 Hw) as [Hp Hq]. split; [exact Hp|].
  simpl. destruct (exec_redis _ _ _); simpl. destruct (fate t); simpl; by apply Hq.
Qed.

Lemma wp_script {A} (p : free redis_cmd A) (Q : result error A -> World R -> Prop) w :
  (forall w1, world_evolves w w1 ->
     pre _ (Script p) w1 /\
     forall r w2, w_db w2 = w_db w1 -> Q r w2) ->
  wp world_evolves pre (call (Script p)) Q w.
Proof.
  intros H w1 t Hw. destruct (H w1 Hw) as [Hp Hq]. split; [exact Hp|].
  simpl. destruct (exec_script _ _ _); simpl. destruct (fate t); simpl; by apply Hq.
Qed.

(** A transaction: it committed, or nothing happened. *)
Lemma wp_tx {A} (x : free stmt A) (Q : result error A -> World R -> Prop) w :
  (forall w1, world_evolves w w1 ->
     pre _ (Tx x) w1 /\
     forall now, (forall e, Q (Err e) w1) /\
     (forall a db', exec_tx now x (w_db w1) = Ok (a, db') ->
        Q (Ok a) (with_db db' w1) /\ forall e, Q (Err e) (with_db db' w1))) ->
  wp world_evolves pre (call (Tx x)) Q w.
Proof.
  intros H w1 t Hw. destruct (H w1 Hw) as [Hp Hq]. split; [exact Hp|].
  destruct (Hq (at_ t)) as [Q1 Q2]. simpl.
  destruct (exec_tx (at_ t) x (w_db w1)) as [[a db']|e] eqn:Hx; simpl.
  - destruct (Q2 a db' eq_refl). destruct (fate t); simpl; auto.
  - destruct (fate t); simpl; auto.
Qed.

Lemma wp_now (Q : Time -> World R -> Prop) w :
  (forall w1 t, world_evolves w w1 -> pre _ Now w1 /\ Q t w1) ->
  wp world_evolves pre time_Now Q w.
Proof. intros H w1 t Hw. simpl. by apply H. Qed.

Lemma wp_rand (Q : Z -> World R -> Prop) w :
  (forall w1 u, world_evolves w w1 -> pre _ RandFloat w1 /\ Q u w1) ->
  wp world_evolves pre (call RandFloat) Q w.
Proof. intros H w1 t Hw. simpl. by apply H. Qed.

Lemma wp_notify o (Q : unit -> World R -> Prop) w :
  (forall w1, world_evolves w w1 ->
     pre _ (Notify o) w1 /\ Q tt (notify_obs o w1)) ->
  wp world_evolves pre (call (Notify o)) Q w.
Proof. intros H w1 t Hw. simpl. by apply H. Qed.
End world.

(** ** The same calls in a run that goes through *)

Section goes.
Context {R : Type} `{!RedisServer R} (t0 : Time).
Implicit Types w : World R.

Lemma goes_sql {A} (s : stmt A) (Q : result error A -> World R -> Prop) w :
  (forall now, t0 <= now ->
     Q (sql_error (exec_stmt now s (w_db w)).1) (with_db (exec_stmt now s (w_db w)).2 w)) ->
  goes t0 (pgExec s) Q w.
Proof.
  intros HQ t Ht Hle _. specialize (HQ (at_ t) Hle). simpl.
  destruct (exec_stmt (at_ t) s (w_db w)). by rewrite Ht.
Qed.

Lemma goes_rdb {A} (c : redis_cmd A) (Q : result error A -> World R -> Prop) w :
  (forall now, t0 <= now ->
     Q (exec_redis now c (w_redis w)).1 (with_redis (exec_redis now c (w_redis w)).2 w)) ->
  goes t0 (rdb c) Q w.
Proof.
  intros HQ t Ht Hle _. specialize (HQ (at_ t) Hle). simpl.
  destruct (exec_redis (at_ t) c (w_redis w)). by rewrite Ht.
Qed.

Lemma goes_script {A} (p : free redis_cmd A) (Q : result error A -> World R -> Prop) w :
  (forall now, t0 <= now ->
     Q (exec_script now p (w_redis w)).1 (with_redis (exec_script now p (w_redis w)).2 w)) ->
  goes t0 (call (Script p)) Q w.
Proof.
  intros HQ t Ht Hle _. specialize (HQ (at_ t) Hle). simpl.
  destruct (exec_script (at_ t) p (w_redis w)). by rewrite Ht.
Qed.

Lemma goes_now (Q : Time -> World R -> Prop) w :
  (forall now, t0 <= now -> in_years now = true -> Q now w) -> goes t0 time_Now Q w.
Proof. intros HQ t Ht Hle Hy. by apply HQ. Qed.

Lemma goes_rand (Q : Z -> World R -> Prop) w : (forall u, Q u w) -> goes t0 (call RandFloat) Q w.
Proof. intros HQ t Ht Hle _. apply HQ. Qed.

Lemma goes_notify o (Q : unit -> World R -> Prop) w :
  Q tt (notify_obs o w) -> goes t0 (call (Notify o)) Q w.
Proof. by intros HQ t Ht Hle _. Qed.
End goes.

(** From here on a call is taken apart by its rule. *)
#[global] Opaque call pgExec rdb time_Now.
