(* ===== verification/Threads.v ===== *)
(** * Threads: any number of processes, interleaved, crashing

    A generic rely-guarantee theorem.  A system is a world and a pool of
    programs; a step starts a program, lets one program make its next call with
    any fate, or kills one.  If every program that may be started meets its calls'
    preconditions under the rely, and every call that meets its precondition
    keeps the invariant and stays within the rely, then every reachable state
    satisfies the invariant. *)

From S2P Require Import Prelude Errors Database Redis Effects Rely.
Local Open Scope Z_scope.

Section threads.
Context {R : Type} `{!RedisServer R}.

Record system := { sys_world : World R; sys_threads : list (prog unit) }.

Context (allowed : World R -> prog unit -> Prop).

Inductive sys_step : system -> system -> Prop :=
| step_start w ps p :
    allowed w p ->
    sys_step {| sys_world := w; sys_threads := ps |} {| sys_world := w; sys_threads := ps ++ [p] |}
| step_call_of w ps i {B} (c : cmd B) k (t : tick) :
    ps !! i = Some (Vis c k) ->
    sys_step {| sys_world := w; sys_threads := ps |}
      {| sys_world := (step_call t c w).2; sys_threads := <[i := k (step_call t c w).1]> ps |}
| step_crash w ps i :
    sys_step {| sys_world := w; sys_threads := ps |} {| sys_world := w; sys_threads := delete i ps |}.

Definition reachable (w : World R) (s : system) : Prop :=
  rtc sys_step {| sys_world := w; sys_threads := [] |} s.

(** Running one program alone is a way the system can go. *)
Lemma thread_run {A} (f : A -> prog unit) (p : prog A) : forall ts w,
  exists p', rtc sys_step {| sys_world := w; sys_threads := [free_bind p f] |}
    {| sys_world := (run p ts w).2; sys_threads := [p'] |}.
Proof.
  unfold run, run_env. induction p as [a|B c k IH]; intros ts w; simpl.
  - exists (f a). by destruct ts.
  - destruct ts as [|t ts]; simpl; [by eexists|].
    destruct (step_call t c w) as [b w'] eqn:Hc.
    destruct (IH b ts w') as (p' & Hr). exists p'.
    eapply rtc_l; [|exact Hr].
    pose proof (step_call_of w [Vis c (fun b => free_bind (k b) f)] 0 c _ t eq_refl) as Hs.
    by rewrite Hc in Hs.
Qed.

Lemma reachable_run {A} (p : prog A) ts w : allowed w (free_bind p (fun _ => Ret tt)) ->
  exists p', reachable w {| sys_world := (run p ts w).2; sys_threads := [p'] |}.
Proof.
  intros Ha. destruct (thread_run (fun _ : A => Ret tt) p ts w) as (p' & Hr). exists p'.
  eapply rtc_l; [by apply (step_start w [] _ Ha)|exact Hr].
Qed.

Section soundness.
Context (rely : World R -> World R -> Prop) `{!PreOrder rely}.
Context (pre : forall B, cmd B -> World R -> Prop) (Inv : World R -> Prop).
Context (Hcall : forall B (c : cmd B) t w, Inv w -> pre B c w ->
  Inv (step_call t c w).2 /\ rely w (step_call t c w).2).
Context (Hstart : forall w p, Inv w -> allowed w p -> wp rely pre p (fun _ _ => True) w).

Definition sys_ok (w0 : World R) (s : system) : Prop :=
  Inv (sys_world s) /\ rely w0 (sys_world s) /\
  Forall (fun p => wp rely pre p (fun _ _ => True) (sys_world s)) (sys_threads s).

Lemma sys_step_ok w0 s s' : sys_step s s' -> sys_ok w0 s -> sys_ok w0 s'.
Proof.
  intros Hs (HI & Hr & Hps). destruct Hs as [w ps p Ha|w ps i B c k t Hi|w ps i]; simpl in *.
  - split_and!; simpl; [done|done|]. apply Forall_app. split; [done|]. repeat constructor. eauto.
  - pose proof (Forall_lookup_1 _ _ _ _ Hps Hi) as Hw. simpl in Hw.
    destruct (Hw w t) as [Hp Hk]; [reflexivity|]. destruct (Hcall _ c t w HI Hp) as [HI' Hr'].
    split_and!; simpl; [done|by etrans|]. apply Forall_insert; [|done].
    eapply Forall_impl; [exact Hps|]. intros p Hw'. eapply wp_later; [apply _|done|exact Hr'|done].
  - split_and!; simpl; [done|done|]. by apply Forall_delete.
Qed.

Lemma rtc_sys_ok w0 s s' : rtc sys_step s s' -> sys_ok w0 s -> sys_ok w0 s'.
Proof. induction 1; [done|]. eauto using sys_step_ok. Qed.

Lemma reachable_sys_ok w s : Inv w -> reachable w s -> sys_ok w s.
Proof.
  intros HI Hr. eapply rtc_sys_ok; [exact Hr|]. split_and!; [done|reflexivity|constructor].
Qed.

Lemma reachable_ok w s : Inv w -> reachable w s -> Inv (sys_world s) /\ rely w (sys_world s).
Proof. intros HI Hr. by destruct (reachable_sys_ok w s HI Hr) as (? & ? & _). Qed.

(** From one reachable state to a later one. *)
Lemma reachable_later w s s' :
  Inv w -> reachable w s -> rtc sys_step s s' -> rely (sys_world s) (sys_world s').
Proof.
  intros HI Hr Hs. destruct (reachable_sys_ok w s HI Hr) as (HI' & _ & Hps).
  by destruct (rtc_sys_ok (sys_world s) s s' Hs) as (_ & ? & _); [split_and!|].
Qed.
End soundness.
End threads.
Arguments system R : clear implicits.
