(* ===== verification/Store.v ===== *)
(** * Store: the Postgres layer

    The methods of [internal/store/store.go], one program per method.  The
    statements they send are those of [Database.v]. *)

From S2P Require Import Prelude Errors Job Database Rows Redis Effects Rely.
Local Open Scope Z_scope.
Local Open Scope string_scope.
Local Open Scope prog_scope.

(** [QueryRow(...).Scan(...)]: no row is the error [pgx.ErrNoRows]. *)
Definition scan_row {A} (r : result error (option A)) : result error A :=
  match r with
  | Ok (Some a) => Ok a
  | Ok None => Err (ESentinel ErrNoRows)
  | Err e => Err e
  end.
Definition QueryRow {A} (s : stmt (option A)) : prog (result error A) :=
  r <- pgExec s ;; Ret (scan_row r).

Definition is_no_rows (e : error) : bool := errors_Is (Some e) ErrNoRows.

(** ** Events *)

(** Best effort: the error is dropped. *)
Definition addEvent (jobID event : string) (detail : option event_detail)
    : prog unit :=
  _ <- pgExec (InsertEvent jobID event detail) ;; Ret tt.
Definition AddEvent (jobID event : string) (detail : option event_detail)
    : prog unit := addEvent jobID event detail.

(** ** Reads *)

Definition scanJob (r : JobRow) : Job :=
  {| ID := d_id (r_def r); Type_ := d_type (r_def r); Queue := d_queue (r_def r);
     Status_ := r_status r; Priority_ := d_priority (r_def r);
     Payload := if bool_decide (d_payload (r_def r) = "null") then EmptyString
                else d_payload (r_def r);
     Result := match r_result r with
               | Some res => if (0 <? slen res)%Z && negb (bool_decide (res = "null"))
                             then res else EmptyString
               | None => EmptyString
               end;
     Error_ := coalesce (r_error r); IdempotencyKey := coalesce (d_idempotency_key (r_def r));
     AttemptCount := r_attempt_count r; MaxAttempts := r_max_attempts r;
     LeaseEpoch := r_lease_epoch r; LeaseExpiresAt := r_lease_expires_at r;
     WorkerID := coalesce (r_worker_id r);
     CreatedAt := d_created_at (r_def r); ScheduledAt := r_scheduled_at r;
     StartedAt := r_started_at r; CompletedAt := r_completed_at r |}.

(** [getJobBy], for the two WHERE clauses it is called with. *)
Definition getJobBy (s : stmt (option JobRow)) : prog (result error Job) :=
  r <- QueryRow s ;;
  match r with
  | Ok row => Ret (Ok (scanJob row))
  | Err e => if is_no_rows e then Ret (Err (ESentinel ErrNotFound)) else Ret (Err e)
  end.
Definition GetJob (id : string) : prog (result error Job) := getJobBy (SelectJob id).

(** ** Submission *)

Record CreateResult := { cr_Job : Job; cr_Created : bool }.

Definition json_or_null (raw : string) : string := if (0 <? slen raw)%Z then raw else "null".

Definition CreateJob (j : Job) : prog (result error CreateResult) :=
  r <- QueryRow (InsertJob j (json_or_null (Payload j))) ;;
  match r with
  | Ok _ =>
      addEvent (ID j) "submitted"
        (Some (JsonObject [("queue", EvText (Queue j)); ("priority", EvText (Priority_ j))])) ;;;
      Ret (Ok {| cr_Job := j; cr_Created := true |})
  | Err e =>
      if is_no_rows e && negb (bool_decide (IdempotencyKey j = EmptyString)) then
        g <- getJobBy (SelectJobByKey (Type_ j) (IdempotencyKey j)) ;;
        match g with
        | Err gerr => Ret (Err (EWrap "store: idempotent lookup after conflict: " gerr))
        | Ok existing => Ret (Ok {| cr_Job := existing; cr_Created := false |})
        end
      else Ret (Err (EWrap "store: creating job: " e))
  end.

Definition SetEnqueued (id streamID : string) : prog (result error unit) :=
  Errorf "store: marking enqueued: " (pgExec (UpdateEnqueued id streamID)).

(** ** Dispatch *)

Record Claim := {
  cl_Epoch : Z; cl_Attempt : Z; cl_MaxAttempts : Z; cl_StartedAt : Time
}.

(** The columns of the RETURNING clause; [now()] is the row's [updated_at]. *)
Definition claim_of (r : JobRow) : Claim :=
  {| cl_Epoch := r_lease_epoch r; cl_Attempt := r_attempt_count r;
     cl_MaxAttempts := r_max_attempts r; cl_StartedAt := r_updated_at r |}.

(** [None] is [ok = false]. *)
Definition ClaimJob (id workerID : string) (leaseTTL : Duration)
    : prog (result error (option Claim)) :=
  r <- QueryRow (UpdateClaim id workerID leaseTTL) ;;
  match r with
  | Ok row => Ret (Ok (Some (claim_of row)))
  | Err e => if is_no_rows e then Ret (Ok None)
             else Ret (Err (EWrap "store: claiming job: " e))
  end.

Definition one_row (n : Z) : bool := (n =? 1)%Z.

Definition ExtendLease (id : string) (epoch : Z) (ttl : Duration) : prog (result error bool) :=
  n <-? Errorf "store: extending lease: " (pgExec (UpdateLease id epoch ttl)) ;; Ret (Ok (one_row n)).

(** ** Terminal writes, fenced on (id, epoch, RUNNING) *)

Definition CompleteJob (id : string) (epoch : Z) (res : string) : prog (result error bool) :=
  n <-? Errorf "store: completing job: " (pgExec (UpdateComplete id epoch (json_or_null res))) ;;
  Ret (Ok (one_row n)).

Definition FailJob (id : string) (epoch : Z) (errMsg : string) : prog (result error bool) :=
  n <-? Errorf "store: failing job: " (pgExec (UpdateFail id epoch errMsg)) ;; Ret (Ok (one_row n)).

(** The shape of the other three: an event when the row was hit. *)
Definition with_event (id ev : string) (detail : option event_detail) (n : Z)
    : prog (result error bool) :=
  if one_row n then addEvent id ev detail ;;; Ret (Ok true) else Ret (Ok false).

Definition dead_detail (errMsg : string) := Some (JsonObject [("error", EvText errMsg)]).
Definition retry_detail (errMsg : string) (nextAt : Time) :=
  Some (JsonObject [("nextAt", EvTime nextAt); ("error", EvText errMsg)]).

Definition DeadLetterJob (id : string) (epoch : Z) (errMsg : string) : prog (result error bool) :=
  n <-? Errorf "store: dead-lettering job: " (pgExec (UpdateDeadLetter id epoch errMsg)) ;;
  with_event id "dead_lettered" (dead_detail errMsg) n.

Definition CancelRunning (id : string) (epoch : Z) : prog (result error bool) :=
  n <-? Errorf "store: cancelling running job: " (pgExec (UpdateCancelRunning id epoch)) ;;
  with_event id "cancelled" None n.

Definition ScheduleRetry (id : string) (epoch : Z) (errMsg : string) (nextAt : Time)
    : prog (result error bool) :=
  n <-? Errorf "store: scheduling retry: " (pgExec (UpdateRetry id epoch errMsg nextAt)) ;;
  with_event id "retry_scheduled" (retry_detail errMsg nextAt) n.

(** ** Attempts *)

Definition RecordAttempt (a : Attempt) : prog (result error unit) :=
  Errorf "store: recording attempt: " (pgExec (InsertAttempt a)).

Definition scanAttempt (jobID : string) (x : Z * AttemptRow) : Attempt :=
  {| att_JobID := jobID; att_Attempt := x.1; att_WorkerID := coalesce (a_worker_id x.2);
     att_StartedAt := a_started_at x.2;
     att_FinishedAt := default (a_started_at x.2) (a_finished_at x.2);
     att_Outcome := a_outcome x.2; att_Error := coalesce (a_error x.2) |}.
Definition ListAttempts (jobID : string) : prog (result error (list Attempt)) :=
  rows <-? Errorf "store: listing attempts: " (pgExec (SelectAttempts jobID)) ;;
  Ret (Ok (map (scanAttempt jobID) rows)).

(** ** Cancel *)

Definition CancelJob (id : string) : prog (result error bool) :=
  n <-? Errorf "store: cancelling job: " (pgExec (UpdateCancel id)) ;;
  with_event id "cancelled" None n.

(** ** Recovery *)

Record ReapResult := {
  Reaped : bool; NewStatus : Status; rr_Attempt : Z; rr_MaxAttempts : Z; PrevWorker : string
}.
Definition not_reaped : ReapResult :=
  {| Reaped := false; NewStatus := EmptyString; rr_Attempt := 0; rr_MaxAttempts := 0;
     PrevWorker := EmptyString |}.

Definition reap_result (r : JobRow) (prev : option string) : ReapResult :=
  {| Reaped := true; NewStatus := r_status r; rr_Attempt := r_attempt_count r;
     rr_MaxAttempts := r_max_attempts r; PrevWorker := coalesce prev |}.

Definition ReapJob (id : string) (retryDelay grace : Duration) : prog (result error ReapResult) :=
  r <- QueryRow (UpdateReap id retryDelay grace) ;;
  match r with
  | Ok (row, prev) =>
      addEvent id "lease_expired"
        (Some (JsonObject [("prevWorker", EvText (coalesce prev)); ("newStatus", EvText (r_status row))])) ;;;
      Ret (Ok (reap_result row prev))
  | Err e => if is_no_rows e then Ret (Ok not_reaped)
             else Ret (Err (EWrap "store: reaping job: " e))
  end.

Record Requeueable := {
  rq_ID : string; rq_Type : string; rq_Queue : string; rq_Priority : Priority;
  rq_Payload : string; rq_Attempt : Z
}.
Definition scanRequeueable (r : JobRow) : Requeueable :=
  {| rq_ID := d_id (r_def r); rq_Type := d_type (r_def r); rq_Queue := d_queue (r_def r);
     rq_Priority := d_priority (r_def r);
     rq_Payload := if bool_decide (d_payload (r_def r) = "null") then EmptyString
                   else d_payload (r_def r);
     rq_Attempt := r_attempt_count r |}.
Definition list_requeueables (prefix : string) (s : stmt (list JobRow))
    : prog (result error (list Requeueable)) :=
  rows <-? Errorf prefix (pgExec s) ;; Ret (Ok (map scanRequeueable rows)).

Definition ListExpiredRunning (grace : Duration) (limit : Z) :=
  list_requeueables "store: listing expired running: " (SelectExpiredRunning grace limit).
Definition ListUnenqueued (olderThan : Duration) (limit : Z) :=
  list_requeueables "store: listing unenqueued: " (SelectUnenqueued olderThan limit).
Definition ListStuckRetrying (olderThan : Duration) (limit : Z) :=
  list_requeueables "store: listing stuck retrying: " (SelectStuckRetrying olderThan limit).

Definition MarkPromoted (ids : list string) : prog (result error Z) :=
  match ids with
  | [] => Ret (Ok 0%Z)
  | _ => Errorf "store: marking promoted: " (pgExec (UpdatePromoted ids))
  end.

(** ** Dead letters *)

Definition ListDeadLetters (limit offset : Z) : prog (result error (list Job)) :=
  rows <-? Errorf "store: listing dead letters: " (pgExec (SelectDeadLetters limit offset)) ;;
  Ret (Ok (map scanJob rows)).

Definition RequeueDeadLetter (id : string) : prog (result error (option Requeueable)) :=
  r <- QueryRow (UpdateRequeue id) ;;
  match r with
  | Ok row => addEvent id "requeued" None ;;; Ret (Ok (Some (scanRequeueable row)))
  | Err e => if is_no_rows e then Ret (Ok None)
             else Ret (Err (EWrap "store: requeueing dead letter: " e))
  end.

(** ** Workers *)

Definition UpsertWorker (w : WorkerInfo) : prog (result error unit) :=
  Errorf "store: upserting worker: " (pgExec (UpsertWorkerRow w)).

Definition scanWorker (x : string * WorkerRow) : WorkerInfo :=
  {| wi_ID := x.1; wi_Hostname := coalesce (w_hostname x.2); wi_PID := default 0%Z (w_pid x.2);
     wi_Concurrency := w_concurrency x.2; wi_TargetConcurrency := w_target_concurrency x.2;
     wi_ActiveJobs := w_active_jobs x.2; wi_Processed := w_processed x.2;
     wi_State := w_state x.2; wi_StartedAt := w_started_at x.2;
     wi_LastHeartbeatAt := w_last_heartbeat_at x.2 |}.
Definition ListWorkers : prog (result error (list WorkerInfo)) :=
  rows <-? Errorf "store: listing workers: " (pgExec SelectWorkers) ;;
  Ret (Ok (map scanWorker rows)).

Definition MarkDeadWorkers (cutoff : Duration) : prog (result error Z) :=
  Errorf "store: marking dead workers: " (pgExec (UpdateWorkersGone cutoff)).

(** ** Summary *)

(** Percentiles of durations, in hundredths of a nanosecond (the code scans
    [double precision] seconds). *)
Record LatencyPercentiles := { P50 : Z; P95 : Z; P99 : Z }.
Record Summary := {
  sm_Since : Time; sm_Counts : gmap Status Z; sm_Total : Z; sm_RetriedJobs : Z;
  sm_TotalAttempts : Z; sm_E2ESeconds : LatencyPercentiles; sm_ExecSeconds : LatencyPercentiles
}.
Definition three (l : list Z) : LatencyPercentiles :=
  match l with [a; b; c] => {| P50 := a; P95 := b; P99 := c |} | _ => {| P50 := 0; P95 := 0; P99 := 0 |} end.

(** [Store.Summary]. *)
Definition ReadSummary (since : Time) : prog (result error Summary) :=
  rows <-? Errorf "store: summary counts: " (pgExec (SelectStatusCounts since)) ;;
  sums <-? Errorf "store: summary attempts: " (pgExec (SelectAttemptSums since)) ;;
  ps <-? Errorf "store: summary percentiles: " (pgExec (SelectPercentiles since)) ;;
  Ret (Ok {| sm_Since := since; sm_Counts := foldl (fun m x => <[x.1 := x.2]> m) ∅ rows;
             sm_Total := foldl (fun n x => n + x.2)%Z 0%Z rows;
             sm_RetriedJobs := sums.1; sm_TotalAttempts := sums.2;
             sm_E2ESeconds := three ps.1; sm_ExecSeconds := three ps.2 |}).

(** ** Rules for the store's programs *)

Section rules.
Context {R : Type} `{!RedisServer R}.
Context (pre : forall B, cmd B -> World R -> Prop).
Implicit Types w : World R.

Lemma wp_QueryRow {A} (s : stmt (option A)) (Q : result error A -> World R -> Prop) w :
  (forall w1, world_evolves w w1 ->
     pre _ (Sql s) w1 /\
     forall now, (forall o, Q (Err (outage_error o)) w1) /\
     (forall o, Q (Err (outage_error o)) (with_db (exec_stmt now s (w_db w1)).2 w1)) /\
     Q (scan_row (sql_error (exec_stmt now s (w_db w1)).1))
       (with_db (exec_stmt now s (w_db w1)).2 w1)) ->
  wp world_evolves pre (QueryRow s) Q w.
Proof.
  intros H. unfold QueryRow. apply wp_bind, wp_sql. intros w1 Hw.
  destruct (H w1 Hw) as [Hp Hq]. split; [exact Hp|]. intros now. apply Hq.
Qed.

(** An event never fails its caller, and changes no row of [jobs]. *)
Lemma wp_addEvent id ev detail (Q : unit -> World R -> Prop) w :
  (forall w1, world_evolves w w1 -> pre _ (Sql (InsertEvent id ev detail)) w1) ->
  (forall w1, world_evolves w w1 -> Q tt w1) ->
  wp world_evolves pre (addEvent id ev detail) Q w.
Proof.
  intros Hp HQ. unfold addEvent. apply wp_bind, wp_sql. intros w1 Hw. split; [auto|].
  intros now. assert (world_evolves w (with_db (exec_stmt now (InsertEvent id ev detail)
    (w_db w1)).2 w1)).
  { unfold world_evolves in *. simpl in *. etrans; [exact Hw|].
    by apply (evolves_step now (InsertEvent id ev detail)). }
  simpl in *. split_and!; intros; by apply HQ.
Qed.

(** A fenced terminal write: when it is answered, the claim is settled. *)
Lemma wp_fenced {A} id e s prefix (k : Z -> prog (result error A))
    (Q : result error A -> World R -> Prop) w :
  handed_out id e (w_db w) -> fenced_write id e s -> (forall ttl, s <> UpdateLease id e ttl) ->
  (forall w1, world_evolves w w1 -> pre _ (Sql s) w1) ->
  (forall n w1, world_evolves w w1 -> settled id e (w_db w1) ->
     wp world_evolves pre (k n) Q w1) ->
  (forall err w1, world_evolves w w1 -> Q (Err err) w1) ->
  wp world_evolves pre (bind_ok (Errorf prefix (pgExec s)) k) Q w.
Proof.
  intros Hh Hf Hnl Hp Hk He. apply wp_ok, wp_Errorf, wp_sql. intros w1 Hw.
  split; [auto|]. intros now.
  assert (Hok : stmt_ok s) by (by destruct Hf).
  assert (Hw2 : world_evolves w (with_db (exec_stmt now s (w_db w1)).2 w1)).
  { unfold world_evolves in *. simpl. etrans; [exact Hw|]. by apply evolves_step. }
  assert (Hs : settled id e (exec_stmt now s (w_db w1)).2)
    by (eapply fenced_answer_settles; eauto with rows).
  split_and!; [intros; by apply He..|].
  destruct (exec_fenced id e s now (w_db w1) Hf) as [f Hx].
  destruct (exec_stmt now s (w_db w1)) as [[n|msg] db2]; simpl in *; [by apply Hk|by apply He].
Qed.

Lemma wp_with_event id ev detail n (Q : result error bool -> World R -> Prop) w :
  (forall w1, world_evolves w w1 -> pre _ (Sql (InsertEvent id ev detail)) w1) ->
  (forall b w1, world_evolves w w1 -> Q (Ok b) w1) ->
  wp world_evolves pre (with_event id ev detail n) Q w.
Proof.
  intros Hp HQ. unfold with_event. destruct (one_row n).
  - apply wp_bind, wp_addEvent; [done|]. intros w1 Hw. simpl. auto.
  - apply HQ. reflexivity.
Qed.
End rules.

(** ** The discipline of the store's programs *)

Lemma plain_QueryRow {A} (s : stmt (option A)) :
  stmt_ok s -> (forall db, stmt_budget s db) -> only plain (QueryRow s).
Proof. intros. unfold QueryRow. only_calls. Qed.
#[export] Hint Extern 1 (only plain (QueryRow _)) => apply plain_QueryRow; done : only.

Lemma plain_addEvent id ev d : only plain (addEvent id ev d).
Proof. unfold addEvent. only_calls. Qed.
#[export] Hint Resolve plain_addEvent : only.

Lemma plain_AddEvent id ev d : only plain (AddEvent id ev d).
Proof. apply plain_addEvent. Qed.

Lemma plain_with_event id ev d n : only plain (with_event id ev d n).
Proof. unfold with_event. only_calls. Qed.
#[export] Hint Resolve plain_AddEvent plain_with_event : only.

Lemma plain_GetJob id : only plain (GetJob id).
Proof. unfold GetJob, getJobBy. only_calls. Qed.
Lemma plain_CreateJob j : admitted j -> only plain (CreateJob j).
Proof. intros Hj. unfold CreateJob, getJobBy. only_calls. Qed.
Lemma plain_SetEnqueued id sid : only plain (SetEnqueued id sid).
Proof. unfold SetEnqueued. only_calls. Qed.
Lemma plain_ClaimJob id w ttl : only plain (ClaimJob id w ttl).
Proof. unfold ClaimJob. only_calls. Qed.
Lemma plain_ExtendLease id e ttl : only plain (ExtendLease id e ttl).
Proof. unfold ExtendLease. only_calls. Qed.
Lemma plain_CompleteJob id e res : only plain (CompleteJob id e res).
Proof. unfold CompleteJob. only_calls. Qed.
Lemma plain_FailJob id e msg : only plain (FailJob id e msg).
Proof. unfold FailJob. only_calls. Qed.
Lemma plain_DeadLetterJob id e msg : only plain (DeadLetterJob id e msg).
Proof. unfold DeadLetterJob. only_calls. Qed.
Lemma plain_CancelRunning id e : only plain (CancelRunning id e).
Proof. unfold CancelRunning. only_calls. Qed.
Lemma plain_RecordAttempt a : only plain (RecordAttempt a).
Proof. unfold RecordAttempt. only_calls. Qed.
Lemma plain_ListAttempts id : only plain (ListAttempts id).
Proof. unfold ListAttempts. only_calls. Qed.
Lemma plain_CancelJob id : only plain (CancelJob id).
Proof. unfold CancelJob. only_calls. Qed.
Lemma plain_ReapJob id d g : only plain (ReapJob id d g).
Proof. unfold ReapJob. only_calls. Qed.
Lemma plain_MarkPromoted ids : only plain (MarkPromoted ids).
Proof. unfold MarkPromoted. only_calls. Qed.
Lemma plain_RequeueDeadLetter id : only plain (RequeueDeadLetter id).
Proof. unfold RequeueDeadLetter. only_calls. Qed.
Lemma plain_UpsertWorker w : only plain (UpsertWorker w).
Proof. unfold UpsertWorker. only_calls. Qed.
Lemma plain_MarkDeadWorkers c : only plain (MarkDeadWorkers c).
Proof. unfold MarkDeadWorkers. only_calls. Qed.
Lemma plain_ReadSummary t : only plain (ReadSummary t).
Proof. unfold ReadSummary. only_calls. Qed.
Lemma plain_list_requeueables p s :
  stmt_ok s -> (forall db, stmt_budget s db) -> only plain (list_requeueables p s).
Proof. intros. unfold list_requeueables. only_calls. Qed.
#[export] Hint Resolve plain_GetJob plain_CreateJob plain_SetEnqueued plain_ClaimJob plain_ExtendLease
  plain_CompleteJob plain_FailJob plain_DeadLetterJob plain_CancelRunning plain_RecordAttempt
  plain_ListAttempts plain_CancelJob plain_ReapJob plain_MarkPromoted plain_RequeueDeadLetter
  plain_UpsertWorker plain_MarkDeadWorkers plain_ReadSummary : only.
#[export] Hint Extern 1 (only plain (list_requeueables _ _)) => apply plain_list_requeueables; done : only.

(** ** Theorems *)

Section theorems.
Context {R : Type} `{!RedisServer R}.

(** What a submission leaves behind. *)
Lemma wp_CreateJob (j : Job) (w : World R) :
  admitted j -> db_wf (w_db w) ->
  wp world_evolves no_pre (CreateJob j)
    (fun r w' => match r with
       | Err _ => True
       | Ok cr =>
           db_wf (w_db w') /\
           exists id row, jobs (w_db w') !! id = Some row /\ ID (cr_Job cr) = id /\
             Type_ (cr_Job cr) = Type_ j /\ IdempotencyKey (cr_Job cr) = IdempotencyKey j /\
             d_type (r_def row) = Type_ j /\
             d_idempotency_key (r_def row) = nullif (IdempotencyKey j) /\
             (cr_Created cr = true -> cr_Job cr = j /\ d_payload (r_def row) = json_or_null (Payload j) /\
               d_priority (r_def row) = Priority_ j) /\
             (cr_Created cr = false -> IdempotencyKey j <> EmptyString)
       end) w.
Proof.
  intros Hadm Hwf. unfold CreateJob. apply wp_bind, wp_QueryRow. intros w1 Hw1.
  split; [done|]. intros now. split; [|split].
  1-2: intros o; simpl; unfold is_no_rows; rewrite outage_not_sentinel by set_solver; done.
  set (s := InsertJob j (json_or_null (Payload j))).
  assert (Hev : evolves (w_db w) (exec_stmt now s (w_db w1)).2)
    by (etrans; [exact Hw1|by apply evolves_step]).
  assert (Hst : StatusValid (Status_ j) && PriorityValid (Priority_ j) = true).
  { destruct Hadm as [-> _ _ Hpr _ _ _ _]. apply andb_true_iff.
    split; [done|by apply PriorityValid_elem_of]. }
  simpl. unfold s in *. simpl in *. unfold insert_job in *. rewrite Hst in *. simpl in *.
  destruct (nullif (IdempotencyKey j) ≫= _) as [r|] eqn:Hk; simpl in *.
  - (* conflict on the key *)
    destruct (nullif (IdempotencyKey j)) as [k|] eqn:Hnk; [|done]. simpl in Hk.
    unfold nullif in Hnk. case_bool_decide as Hne; [done|]. injection Hnk as <-.
    unfold is_no_rows. simpl.
    apply wp_bind. unfold getJobBy. apply wp_bind, wp_QueryRow. intros w2 Hw2. split; [done|].
    intros now2. split; [|split].
    1-2: intros o; simpl; unfold is_no_rows; rewrite outage_not_sentinel by set_solver; done.
    simpl. destruct (find_by_key (Type_ j) (IdempotencyKey j) (w_db w2)) as [row|] eqn:Hf;
      simpl; [|done].
    assert (Hwf2 : db_wf (w_db w2)) by (eapply evolves_wf; [|exact Hwf]; by etrans).
    split; [exact Hwf2|].
    apply find_by_key_Some in Hf as (id & Hrow & Hty & Hkey). exists id, row.
    split; [done|]. destruct (wf_rows _ Hwf2 id row Hrow) as [_ Hid].
    simpl. rewrite Hkey. split_and!; auto; done.
  - (* inserted, unless the id is taken *)
    destruct (jobs (w_db w1) !! ID j) eqn:Hj; simpl in *; [done|].
    apply wp_bind, wp_addEvent; [done|]. intros w2 Hw2. simpl.
    unfold world_evolves in Hw2. simpl in Hw2.
    split; [eapply evolves_wf; [exact Hw2|]; by eapply evolves_wf|].
    assert (Hdef : defined_as (ID j)
      (r_def (row_inserted now j (json_or_null (Payload j)))) (w_db w2)).
    { eapply evolves_defined_as; [exact Hw2|]. eexists. split; [apply lookup_insert_eq|done]. }
    destruct Hdef as (row & Hrow & Hd). exists (ID j), row. rewrite Hd. simpl.
    split_and!; try done.
Qed.

(** C14. Idempotent submission. Under concurrent use by other processes and any
    transport failure, [CreateJob] answers without error only in two ways: it
    created the job it was given, whose row is then in the table, or the job
    carried an idempotency key and the answer is the stored job of that (type,
    key). Since the (type, key) pairs stay unique, two successful submissions
    of one key name the same row: there is one job per key, however often it
    is submitted. *)
Theorem CreateJob_idempotent (j : Job) (w : World R) :
  admitted j -> db_wf (w_db w) ->
  wp world_evolves no_pre (CreateJob j)
    (fun r w' => match r with
       | Err _ => True
       | Ok cr =>
           db_wf (w_db w') /\
           exists id row, jobs (w_db w') !! id = Some row /\ ID (cr_Job cr) = id /\
             Type_ (cr_Job cr) = Type_ j /\ IdempotencyKey (cr_Job cr) = IdempotencyKey j /\
             d_type (r_def row) = Type_ j /\
             d_idempotency_key (r_def row) = nullif (IdempotencyKey j) /\
             (cr_Created cr = true -> cr_Job cr = j /\ d_payload (r_def row) = json_or_null (Payload j) /\
               d_priority (r_def row) = Priority_ j) /\
             (cr_Created cr = false -> IdempotencyKey j <> EmptyString)
       end) w.
Proof. apply wp_CreateJob. Qed.

(** Claim arbitration. A successful [ClaimJob] hands out an epoch that is
    strictly above every epoch the row ever had, with the attempt counted, and
    the row is [RUNNING] under the new owner at that instant; and as long as
    some earlier claim of the job is not settled (its run is still [RUNNING]
    at its epoch), no other claim succeeds. So at most one worker holds a job
    at any time, whatever deliveries exist. *)
Theorem ClaimJob_exclusive (id worker : string) (ttl now : Z) (db : DB) (row : JobRow) :
  (exec_stmt now (UpdateClaim id worker ttl) db).1 = Ok (Some row) ->
  (forall e, handed_out id e db -> settled id e db /\ e < cl_Epoch (claim_of row)) /\
  cl_Attempt (claim_of row) = default 0%Z (r_attempt_count <$> jobs db !! id) + 1 /\
  jobs (exec_stmt now (UpdateClaim id worker ttl) db).2 !! id = Some row /\
  r_status row = StatusRunning /\ r_worker_id row = Some worker /\
  r_lease_expires_at row = Some (now + ttl) /\ cl_StartedAt (claim_of row) = now /\
  (forall tr now' w' ttl',
     let db' := run_sql tr (exec_stmt now (UpdateClaim id worker ttl) db).2 in
     ~ settled id (cl_Epoch (claim_of row)) db' ->
     exec_stmt now' (UpdateClaim id w' ttl') db' = (Ok None, db')).
Proof.
  simpl. destruct (update_where id claimable _ db) as [o db1] eqn:Hu. simpl. intros [= ->].
  pose proof (update_where_hit id claimable (row_claimed now worker ttl) db row) as Hhit.
  rewrite Hu in Hhit. destruct (Hhit eq_refl) as (r & Hr & Hcl & -> & Hj). simpl in Hj.
  split_and!.
  - intros e (r0 & Hr0 & He). rewrite Hr in Hr0. injection Hr0 as <-. simpl.
    split; [|lia]. exists r. split; [done|].
    apply claimable_spec in Hcl.
    destruct (decide (r_lease_epoch r = e)); [right|left; lia].
    split; [done|]. intros Hrun. rewrite Hrun in Hcl. by destruct Hcl.
  - by rewrite Hr.
  - by rewrite Hj, lookup_insert_eq.
  - done.
  - done.
  - done.
  - done.
  - intros tr now' w' ttl' Hns.
    assert (Hh : handed_out id (r_lease_epoch r + 1) (run_sql tr db1)).
    { apply handed_out_run. eexists. rewrite Hj, lookup_insert_eq. split; [done|simpl; lia]. }
    destruct Hh as (r' & Hr' & He'). unfold update_where. rewrite Hr'.
    destruct (claimable r') eqn:Hc; [|done]. exfalso. apply Hns. exists r'. split; [done|].
    simpl. apply claimable_spec in Hc.
    destruct (decide (r_lease_epoch r' = r_lease_epoch r + 1)); [right|left; lia].
    split; [done|]. intros Hrun. rewrite Hrun in Hc. by destruct Hc.
Qed.
End theorems.

Lemma coalesce_nullif s : coalesce (nullif s) = s.
Proof. unfold coalesce, nullif. by case_bool_decide. Qed.

Section runs.
Context {R : Type} `{!RedisServer R}.
#[local] Transparent call pgExec rdb time_Now.

(** Submission round trip. A job built by [job.New] and created under a
    fresh id and an unused key is read back by [GetJob] exactly as it was
    built (a JSON [null] payload, which reads back as no payload, is the one
    exception), and the creation is reported as such. *)
Theorem GetJob_CreateJob (uuid ty p : string) (o : Options) (now t1 t2 t3 : Time) (j : Job)
    (w : World R) :
  New uuid ty p o now = Ok j -> jobs (w_db w) !! uuid = None -> p <> "null" ->
  (forall k, nullif (IdempotencyKey j) = Some k -> find_by_key ty k (w_db w) = None) ->
  exists w',
    run (c <-? CreateJob j ;; x <-? GetJob (ID j) ;; Ret (Ok (cr_Created c, x)))
      [fine t1; fine t2; fine t3] w = (Some (Ok (true, j)), w') /\
    jobs (w_db w') = <[uuid := row_inserted t1 j (json_or_null p)]> (jobs (w_db w)).
Proof.
  intros Hnew Hid Hp Hkey. destruct (New_shape _ _ _ _ _ _ Hnew) as (Hadm & HID & Hty & HP & Hz).
  assert (Hins : insert_job t1 j (json_or_null (Payload j)) (w_db w) =
    (Ok (Some uuid), set_jobs (<[uuid := row_inserted t1 j (json_or_null p)]> (jobs (w_db w))) (w_db w))).
  { unfold insert_job. destruct Hadm as [-> _ _ ->%PriorityValid_elem_of _ _ _ _].
    rewrite HID, HP, Hid, Hty. simpl.
    destruct (nullif (IdempotencyKey j)) as [k|]; simpl; [|done]. by rewrite Hkey. }
  eexists. unfold run, run_env. cbn -[insert_job insert lookup]. rewrite Hins. cbn -[insert lookup].
  rewrite HID, lookup_insert_eq. cbn -[insert lookup]. rewrite lookup_insert_eq.
  cbn -[insert lookup].
  split; [apply f_equal2; [|reflexivity]|reflexivity]. do 3 f_equal. clear Hins Hkey Hadm. subst uuid ty p.
  destruct j; simpl in *. destruct Hz as (-> & -> & -> & -> & -> & -> & -> & ->).
  unfold scanJob. simpl. rewrite coalesce_nullif. unfold json_or_null. f_equal.
  - destruct (0 <? slen Payload)%Z eqn:E; reflect_bools.
    + by rewrite bool_decide_false.
    + rewrite bool_decide_true by done. destruct (decide (Payload = EmptyString)) as [->|Hne]; [done|].
      apply slen_pos_iff in Hne. lia.
Qed.
End runs.

(** ** Witnesses *)

Definition demo_world (db : DB) : World redis := Build_World db empty_redis [].

Lemma CreateJob_idempotent_witness :
  exists w', run (CreateJob demo_job) [fine 1; fine 2] (demo_world empty_db)
    = (Some (Ok {| cr_Job := demo_job; cr_Created := true |}), w') /\ db_wf (w_db w').
Proof.
  pose proof (wp_run world_evolves no_pre (CreateJob demo_job) _ _
    (demo_world empty_db) [fine 1; fine 2]
    (CreateJob_idempotent demo_job (demo_world empty_db) demo_job_admitted empty_db_wf)) as H.
  eexists. split; [vm_compute; reflexivity|]. vm_compute run in H. exact (proj1 H).
Defined.

Lemma ClaimJob_exclusive_witness :
  exists row, (exec_stmt 1 (UpdateClaim "j1" "w1" 10) demo_inserted).1 = Ok (Some row) /\
    cl_Epoch (claim_of row) = 1%Z /\ r_status row = StatusRunning /\
    exec_stmt 3 (UpdateClaim "j1" "w2" 10) demo_claimed = (Ok None, demo_claimed).
Proof.
  destruct (jobs demo_claimed !! "j1") as [row|] eqn:Hrow; [|vm_compute in Hrow; discriminate].
  assert (H : (exec_stmt 1 (UpdateClaim "j1" "w1" 10) demo_inserted).1 = Ok (Some row)).
  { vm_compute in Hrow. injection Hrow as <-. reflexivity. }
  destruct (ClaimJob_exclusive "j1" "w1" 10 1 demo_inserted row H) as (_ & _ & _ & Hs & _ & _ & _ & Hex).
  exists row. split; [exact H|]. vm_compute in Hrow. injection Hrow as <-.
  split; [reflexivity|]. split; [exact Hs|].
  apply (Hex [] 3 "w2" 10). intros (r & Hr & Hset). vm_compute in Hr. injection Hr as <-.
  vm_compute in Hset. destruct Hset as [Hset|[_ Hset]]; [discriminate|by apply Hset].
Defined.

Lemma GetJob_CreateJob_witness :
  exists j w', New "u1" "bench.sleep" "{}" no_options 7 = Ok j /\
    run (c <-? CreateJob j ;; x <-? GetJob (ID j) ;; Ret (Ok (cr_Created c, x)))
      [fine 7; fine 8; fine 9] (demo_world demo_inserted) = (Some (Ok (true, j)), w').
Proof.
  eexists. destruct (GetJob_CreateJob "u1" "bench.sleep" "{}" no_options 7 7 8 9 _
    (demo_world demo_inserted) eq_refl) as (w' & H & _).
  - reflexivity.
  - discriminate.
  - intros k Hk. vm_compute in Hk. discriminate.
  - exists w'. split; [reflexivity|exact H].
Defined.
