(* ===== verification/Migrate.v ===== *)
(** * Migrate: the schema migrations, by any number of processes at once

    Models [internal/store/migrate.go].  Every server migrates when it boots, so
    several do it at a time.  A migrator is a state machine over one transaction:
    its statements see what is committed when they run, and its own writes; a
    statement may fail, the answer of the commit may get lost, the process may die
    - the transaction is then rolled back, and its advisory lock released.  The
    files are known by name; what their SQL does is not looked at. *)

From stdpp Require Import sorting relations.
From S2P Require Import Prelude Errors.
Local Open Scope string_scope.
Local Open Scope list_scope.

(** ** State *)

(** What is committed: the rows of schema_migrations when the table exists, and the
    files whose SQL is in effect, in the order they ran. *)
Record catalog := { c_versions : option (list string); c_files : list string }.
(** The writes of an open transaction. *)
Record txn := { x_ensured : bool; x_files : list string; x_rows : list string }.
Definition no_writes : txn := {| x_ensured := false; x_files := []; x_rows := [] |}.

(** Where [Migrate] stands; [applied] is its map, [todo] the names it has not
    looked at. *)
Inductive phase :=
| Starting | Locking | Ensuring | Reading
| Applying (applied : gset string) (todo : list string)
| Recording (applied : gset string) (name : string) (todo : list string)
| Committing
| Returned (r : result error unit)
| Crashed.

Record migrator := { m_names : list string; m_phase : phase; m_tx : option txn }.
Record deployment := { d_catalog : catalog; d_lock : option nat; d_migrators : list migrator }.

(** [sort.Strings]. *)
Definition sorted (names : list string) : list string := merge_sort String.le names.

(** ** Steps *)

Definition boot (names : list string) : migrator := {| m_names := names; m_phase := Starting; m_tx := None |}.
Definition at_phase (m : migrator) (p : phase) (x : option txn) : migrator :=
  {| m_names := m_names m; m_phase := p; m_tx := x |}.

(** The rows a statement of the transaction sees. *)
Definition visible (db : catalog) (x : txn) : list string := default [] (c_versions db) ++ x_rows x.

(** The next statement under the lock goes through; a version is a primary key. *)
Definition statement (db : catalog) (m : migrator) : option migrator :=
  match m_phase m, m_tx m with
  | Ensuring, Some x => Some (at_phase m Reading (Some {| x_ensured := true; x_files := x_files x; x_rows := x_rows x |}))
  | Reading, Some x => Some (at_phase m (Applying (list_to_set (visible db x)) (sorted (m_names m))) (Some x))
  | Applying applied [], Some x => Some (at_phase m Committing (Some x))
  | Applying applied (n :: todo), Some x =>
      if bool_decide (n ∈ applied) then Some (at_phase m (Applying applied todo) (Some x))
      else Some (at_phase m (Recording applied n todo)
             (Some {| x_ensured := x_ensured x; x_files := x_files x ++ [n]; x_rows := x_rows x |}))
  | Recording applied n todo, Some x =>
      if bool_decide (n ∈ visible db x) then None
      else Some (at_phase m (Applying applied todo)
             (Some {| x_ensured := x_ensured x; x_files := x_files x; x_rows := x_rows x ++ [n] |}))
  | _, _ => None
  end.

Definition commit (db : catalog) (x : txn) : catalog :=
  {| c_versions := if x_ensured x then Some (visible db x) else c_versions db; c_files := c_files db ++ x_files x |}.

(** The end of a transaction releases the lock it holds. *)
Definition release (i : nat) (lock : option nat) : option nat := if bool_decide (lock = Some i) then None else lock.

Definition running (p : phase) : bool := match p with Returned _ | Crashed => false | _ => true end.

Inductive mig_step : deployment -> deployment -> Prop :=
| mig_boot db lock ms names :
    NoDup names ->
    mig_step {| d_catalog := db; d_lock := lock; d_migrators := ms |}
             {| d_catalog := db; d_lock := lock; d_migrators := ms ++ [boot names] |}
| mig_begin db lock ms i m :
    ms !! i = Some m -> m_phase m = Starting ->
    mig_step {| d_catalog := db; d_lock := lock; d_migrators := ms |}
             {| d_catalog := db; d_lock := lock; d_migrators := <[i := at_phase m Locking (Some no_writes)]> ms |}
| mig_lock db ms i m :
    ms !! i = Some m -> m_phase m = Locking ->
    mig_step {| d_catalog := db; d_lock := None; d_migrators := ms |}
             {| d_catalog := db; d_lock := Some i; d_migrators := <[i := at_phase m Ensuring (m_tx m)]> ms |}
| mig_statement db lock ms i m m' :
    ms !! i = Some m -> statement db m = Some m' ->
    mig_step {| d_catalog := db; d_lock := lock; d_migrators := ms |}
             {| d_catalog := db; d_lock := lock; d_migrators := <[i := m']> ms |}
| mig_commit db lock ms i m x (answer : result error unit) :
    ms !! i = Some m -> m_phase m = Committing -> m_tx m = Some x ->
    mig_step {| d_catalog := db; d_lock := lock; d_migrators := ms |}
             {| d_catalog := commit db x; d_lock := release i lock;
                d_migrators := <[i := at_phase m (Returned answer) None]> ms |}
| mig_fail db lock ms i m e :
    ms !! i = Some m -> running (m_phase m) = true ->
    mig_step {| d_catalog := db; d_lock := lock; d_migrators := ms |}
             {| d_catalog := db; d_lock := release i lock;
                d_migrators := <[i := at_phase m (Returned (Err e)) None]> ms |}
| mig_crash db lock ms i m :
    ms !! i = Some m -> running (m_phase m) = true ->
    mig_step {| d_catalog := db; d_lock := lock; d_migrators := ms |}
             {| d_catalog := db; d_lock := release i lock;
                d_migrators := <[i := at_phase m Crashed None]> ms |}.

(** ** The invariant *)

(** Under the lock. *)
Definition inside (p : phase) : bool :=
  match p with Ensuring | Reading | Applying _ _ | Recording _ _ _ | Committing => true | _ => false end.

(** The names that [files] does not have, in lexical order. *)
Definition missing (files names : list string) : list string := filter (fun n => n ∉ files) (sorted names).

Definition writes (ensured : bool) (l k : list string) : option txn :=
  Some {| x_ensured := ensured; x_files := l; x_rows := k |}.

(** What a migrator has done so far, when [files] are in effect. *)
Definition progress (files : list string) (m : migrator) : Prop :=
  match m_phase m with
  | Starting | Crashed | Returned (Err _) => True
  | Locking | Ensuring => m_tx m = Some no_writes
  | Reading => m_tx m = writes true [] []
  | Applying applied todo => exists seen, sorted (m_names m) = seen ++ todo /\ applied = list_to_set files /\
      m_tx m = writes true (filter (fun n => n ∉ files) seen) (filter (fun n => n ∉ files) seen)
  | Recording applied n todo => exists seen, sorted (m_names m) = seen ++ n :: todo /\ applied = list_to_set files /\
      (n ∉ files) /\ m_tx m = writes true (filter (fun n => n ∉ files) seen ++ [n]) (filter (fun n => n ∉ files) seen)
  | Committing => m_tx m = writes true (missing files (m_names m)) (missing files (m_names m))
  | Returned (Ok _) => forall n, n ∈ m_names m -> n ∈ files
  end.

Record mig_inv (d : deployment) : Prop := {
  mi_rows : default [] (c_versions (d_catalog d)) = c_files (d_catalog d);
  mi_once : NoDup (c_files (d_catalog d));
  mi_lock : forall i m, d_migrators d !! i = Some m -> inside (m_phase m) = true -> d_lock d = Some i;
  mi_held : forall i, d_lock d = Some i -> exists m, d_migrators d !! i = Some m /\ inside (m_phase m) = true;
  mi_names : forall i m, d_migrators d !! i = Some m -> NoDup (m_names m);
  mi_progress : forall i m, d_migrators d !! i = Some m -> progress (c_files (d_catalog d)) m
}.

Lemma sorted_perm names : sorted names ≡ₚ names.
Proof. apply merge_sort_Permutation. Qed.

Lemma missing_nodup files names : NoDup names -> NoDup (missing files names).
Proof. intros Hn. apply NoDup_filter. by rewrite sorted_perm. Qed.

Lemma elem_of_missing files names n : n ∈ missing files names <-> (n ∉ files) /\ n ∈ names.
Proof. unfold missing. by rewrite list_elem_of_filter, sorted_perm. Qed.

(** A migrator that is not under the lock does not depend on the files, except
    that none of its names goes away. *)
Lemma progress_grows files more m :
  inside (m_phase m) = false -> progress files m -> progress (files ++ more) m.
Proof. unfold progress. destruct (m_phase m) as [| | | | | | |[]|]; try done. set_solver. Qed.

Lemma statement_names db m m' : statement db m = Some m' -> m_names m' = m_names m.
Proof. unfold statement. repeat case_match; intros; by simplify_eq. Qed.

Lemma statement_inside db m m' : statement db m = Some m' -> inside (m_phase m) = true /\ inside (m_phase m') = true.
Proof. unfold statement. repeat case_match; intros; by simplify_eq. Qed.

Lemma statement_progress db m m' :
  default [] (c_versions db) = c_files db -> progress (c_files db) m -> statement db m = Some m' -> progress (c_files db) m'.
Proof.
  intros Hrows Hp. unfold statement. unfold progress in Hp. destruct (m_phase m) as [| | | |applied [|n todo]|applied n todo| | |];
    try done.
  - rewrite Hp. intros [= <-]. done.
  - rewrite Hp. intros [= <-]. unfold progress, visible. cbn [at_phase m_phase m_tx m_names x_rows].
    exists []. by rewrite Hrows, app_nil_r.
  - destruct Hp as (seen & Hs & -> & ->). intros [= <-]. unfold progress. cbn [at_phase m_phase m_tx m_names].
    unfold missing. by rewrite Hs, app_nil_r.
  - destruct Hp as (seen & Hs & -> & ->). unfold writes. case_bool_decide as Hin; intros [= <-]; unfold progress; cbn [at_phase m_phase m_tx m_names].
    + exists (seen ++ [n]). rewrite <-app_assoc. split_and!; [done|done|]. rewrite elem_of_list_to_set in Hin.
      unfold writes. by rewrite filter_app, filter_cons_False, app_nil_r by (by intros ?).
    + rewrite elem_of_list_to_set in Hin. by exists seen.
  - destruct Hp as (seen & Hs & -> & Hn & ->). unfold writes. case_bool_decide; intros [= <-].
    unfold progress. cbn [at_phase m_phase m_tx m_names]. exists (seen ++ [n]). rewrite <-app_assoc.
    split_and!; [done|done|]. unfold writes. by rewrite filter_app, filter_cons_True.
Qed.

(** The primary key never objects. *)
Lemma statement_goes_on db m :
  default [] (c_versions db) = c_files db -> NoDup (m_names m) -> progress (c_files db) m ->
  inside (m_phase m) = true -> m_phase m = Committing \/ is_Some (statement db m).
Proof.
  intros Hrows Hnd Hp Hi. unfold statement. unfold progress in Hp.
  destruct (m_phase m) as [| | | |applied [|n todo]|applied n todo| | |]; try done; try (by left); right.
  - rewrite Hp. by eexists.
  - rewrite Hp. by eexists.
  - destruct Hp as (? & _ & _ & ->). by eexists.
  - destruct Hp as (? & _ & _ & ->). unfold writes. case_bool_decide; by eexists.
  - destruct Hp as (seen & Hs & -> & Hn & ->). unfold writes, visible. cbn [x_rows]. rewrite Hrows.
    rewrite bool_decide_false; [by eexists|]. intros [?|Hin]%elem_of_app; [done|].
    apply list_elem_of_filter in Hin as [_ Hin]. rewrite <-(sorted_perm (m_names m)), Hs in Hnd.
    apply NoDup_app in Hnd as (_ & Hd & _). apply (Hd n Hin). by left.
Qed.

Ltac open_step H i' j :=
  apply list_lookup_insert_Some in H as [(<- & <- & _)|[? H]].

(** The lock stays with a migrator that is under it: whoever leaves gives it up. *)
Lemma held_by_other (ms : list migrator) i m' lock :
  (forall j, lock = Some j -> exists m, ms !! j = Some m /\ inside (m_phase m) = true) ->
  inside (m_phase m') = true \/ lock <> Some i ->
  forall j, lock = Some j -> exists m, <[i := m']> ms !! j = Some m /\ inside (m_phase m) = true.
Proof.
  intros Hh Hor j Hj. destruct (Hh j Hj) as (m & Hm & Hin). destruct (decide (i = j)) as [->|Hne].
  - exists m'. rewrite list_lookup_insert_eq by (by eapply lookup_lt_Some). by destruct Hor.
  - exists m. by rewrite list_lookup_insert_ne.
Qed.

Lemma release_not_held i lock : release i lock <> Some i.
Proof. unfold release. case_bool_decide; congruence. Qed.

Lemma release_from i j lock : release i lock = Some j -> lock = Some j.
Proof. unfold release. by case_bool_decide. Qed.

Lemma mig_step_held d d' : mig_step d d' -> mig_inv d ->
  forall i, d_lock d' = Some i -> exists m, d_migrators d' !! i = Some m /\ inside (m_phase m) = true.
Proof.
  intros Hs Hinv. pose proof (mi_held _ Hinv) as Hh. pose proof (mi_lock _ Hinv) as Hl.
  assert (Hrel : forall (ms : list migrator) i m' lock, (forall j, lock = Some j -> exists m, ms !! j = Some m /\ inside (m_phase m) = true) ->
    forall j, release i lock = Some j -> exists m, <[i := m']> ms !! j = Some m /\ inside (m_phase m) = true).
  { intros ms i m' lock H. apply held_by_other; [|right; apply release_not_held].
    intros j Hj. apply H. by eapply release_from. }
  destruct Hs as [db lock ms names Hnd|db lock ms i m Hi Hm|db ms i m Hi Hm|db lock ms i m m' Hi Hm
    |db lock ms i m x answer Hi Hm Hx|db lock ms i m e Hi Hm|db lock ms i m Hi Hm];
    cbn [d_lock d_migrators] in *.
  - intros j Hj. destruct (Hh j Hj) as (m & Hm & Hin). exists m. split; [|done]. by apply lookup_app_l_Some.
  - apply held_by_other; [done|right]. intros ->. destruct (Hh i eq_refl) as (m1 & Hm1 & Hin). simplify_eq. by rewrite Hm in Hin.
  - intros j [= <-]. exists (at_phase m Ensuring (m_tx m)). rewrite list_lookup_insert_eq by (by eapply lookup_lt_Some). done.
  - apply held_by_other; [done|left]. by apply (statement_inside _ _ _ Hm).
  - by apply Hrel.
  - by apply Hrel.
  - by apply Hrel.
Qed.

Lemma mig_step_inv d d' : mig_step d d' -> mig_inv d -> mig_inv d'.
Proof.
  intros Hs Hinv. pose proof (mig_step_held _ _ Hs Hinv) as Hheld. destruct Hinv as [Hrows Honce Hlock _ Hnames Hprog].
  destruct Hs as [db lock ms names Hnd|db lock ms i m Hi Hm|db ms i m Hi Hm|db lock ms i m m' Hi Hm
    |db lock ms i m x answer Hi Hm Hx|db lock ms i m e Hi Hm|db lock ms i m Hi Hm];
    cbn [d_catalog d_lock d_migrators] in *.
  - assert (Hcase : forall j m, (ms ++ [boot names]) !! j = Some m -> ms !! j = Some m \/ m = boot names).
    { intros j m Hj. apply lookup_app_Some in Hj as [?|[_ Hj]]; [by left|right].
      apply list_lookup_singleton_Some in Hj as [_ ->]. done. }
    constructor; cbn [d_catalog d_lock d_migrators]; try exact Hheld; try done;
      intros j m [Hj| ->]%Hcase; eauto; done.
  - constructor; cbn [d_catalog d_lock d_migrators]; try exact Hheld; try done; intros j mj Hj; open_step Hj i j; first [done|by eauto|exact (Hnames _ _ Hi)|idtac].
  - constructor; cbn [d_catalog d_lock d_migrators]; try exact Hheld; try done; intros j mj Hj; open_step Hj i j; first [done|by eauto|exact (Hnames _ _ Hi)|idtac].
    + intros Hin. specialize (Hlock _ _ Hj Hin). done.
    + specialize (Hprog _ _ Hi). unfold progress in *. rewrite Hm in Hprog. exact Hprog.
  - pose proof (statement_inside _ _ _ Hm) as [Hi1 Hi2].
    constructor; cbn [d_catalog d_lock d_migrators]; try exact Hheld; try done; intros j mj Hj; open_step Hj i j; eauto.
    + rewrite (statement_names _ _ _ Hm). eauto.
    + eapply statement_progress; eauto.
  - assert (Hp := Hprog _ _ Hi). unfold progress in Hp. rewrite Hm in Hp. rewrite Hx in Hp. injection Hp as ->.
    assert (Hl : lock = Some i) by (apply (Hlock i m); [done|by rewrite Hm]). subst lock.
    assert (Hout : forall j mj, ms !! j = Some mj -> i <> j -> inside (m_phase mj) = false).
    { intros j mj Hj Hne. destruct (inside (m_phase mj)) eqn:E; [|done]. specialize (Hlock _ _ Hj E). congruence. }
    constructor; cbn [d_catalog d_lock d_migrators commit c_versions c_files x_ensured x_files x_rows]; try exact Hheld.
    + unfold visible. cbn [default from_option x_rows]. simpl. f_equal. exact Hrows.
    + apply NoDup_app. split_and!; [done| |by apply missing_nodup, (Hnames i)].
      intros n Hn [? _]%elem_of_missing. done.
    + intros j mj Hj. open_step Hj i j; [done|]. intros Hin. by rewrite (Hout _ _ Hj) in Hin by done.
    + intros j mj Hj. open_step Hj i j; [exact (Hnames _ _ Hi)|by eauto].
    + intros j mj Hj. open_step Hj i j; [|by apply progress_grows; eauto].
      unfold progress. cbn [at_phase m_phase m_names]. destruct answer; [|done]. intros n Hn.
      apply elem_of_app. destruct (decide (n ∈ c_files db)); [by left|right]. by apply elem_of_missing.
  - assert (Hrel : forall j mj, ms !! j = Some mj -> i <> j -> inside (m_phase mj) = true -> release i lock = Some j).
    { intros j mj Hj Hne Hin. specialize (Hlock _ _ Hj Hin). subst lock. unfold release. by rewrite bool_decide_false by congruence. }
    constructor; cbn [d_catalog d_lock d_migrators]; try exact Hheld; try done; intros j mj Hj; open_step Hj i j; first [done|by eauto|exact (Hnames _ _ Hi)|idtac].
  - assert (Hrel : forall j mj, ms !! j = Some mj -> i <> j -> inside (m_phase mj) = true -> release i lock = Some j).
    { intros j mj Hj Hne Hin. specialize (Hlock _ _ Hj Hin). subst lock. unfold release. by rewrite bool_decide_false by congruence. }
    constructor; cbn [d_catalog d_lock d_migrators]; try exact Hheld; try done; intros j mj Hj; open_step Hj i j; first [done|by eauto|exact (Hnames _ _ Hi)|idtac].
Qed.

Lemma mig_reaches_inv d d' : rtc mig_step d d' -> mig_inv d -> mig_inv d'.
Proof. induction 1 as [|d1 d2 d3 Hs Hr IH]; [done|]. intros Hi. apply IH. by eapply mig_step_inv. Qed.

(** A database whose record of migrations is true, and nobody there yet. *)
Definition idle (db : catalog) : deployment := {| d_catalog := db; d_lock := None; d_migrators := [] |}.
Definition recorded (db : catalog) : Prop := default [] (c_versions db) = c_files db /\ NoDup (c_files db).

Lemma idle_inv db : recorded db -> mig_inv (idle db).
Proof. intros [Hr Hn]. constructor; cbn [idle d_catalog d_lock d_migrators]; try done; intros i m Hi; by rewrite lookup_nil in Hi. Qed.

(** ** A migrator finishes *)

(** Statements left, at most. *)
Definition left_to_do (m : migrator) : nat :=
  match m_phase m with
  | Ensuring => 2 * length (m_names m) + 3
  | Reading => 2 * length (m_names m) + 2
  | Applying _ todo => 2 * length todo + 1
  | Recording _ _ todo => 2 * length todo + 2
  | _ => 0
  end.

Lemma statement_less db m m' : statement db m = Some m' -> (left_to_do m' < left_to_do m)%nat.
Proof.
  unfold statement, left_to_do. destruct (m_phase m) as [| | | |applied [|n todo]|applied n todo| | |]; try done;
    destruct (m_tx m); try done; try case_bool_decide; intros; simplify_eq; cbn [at_phase m_phase m_names length]; try lia.
  rewrite (Permutation_length (sorted_perm (m_names m))). lia.
Qed.

(** Under the lock, when every statement goes through, the transaction is ready to
    commit. *)
Lemma under_lock db lock i : default [] (c_versions db) = c_files db -> forall ms m,
  ms !! i = Some m -> NoDup (m_names m) -> progress (c_files db) m -> inside (m_phase m) = true ->
  exists m', rtc mig_step {| d_catalog := db; d_lock := lock; d_migrators := ms |}
      {| d_catalog := db; d_lock := lock; d_migrators := <[i := m']> ms |} /\
    m_phase m' = Committing /\ m_names m' = m_names m /\ progress (c_files db) m'.
Proof.
  intros Hrows ms m. remember (left_to_do m) as n eqn:Hn. revert ms m Hn.
  induction (lt_wf n) as [n _ IH]; intros ms m -> Hi Hnd Hp Hin.
  destruct (statement_goes_on db m Hrows Hnd Hp Hin) as [Hc|[m1 Hm1]].
  { exists m. by rewrite list_insert_id. }
  pose proof (statement_names _ _ _ Hm1) as Hnames. pose proof (statement_progress _ _ _ Hrows Hp Hm1) as Hp1.
  destruct (IH (left_to_do m1) (statement_less _ _ _ Hm1) (<[i := m1]> ms) m1) as (m' & Hr & Hc & Hn' & Hp');
    [done|rewrite list_lookup_insert_eq; [done|by eapply lookup_lt_Some]|by rewrite Hnames|done|by apply (statement_inside _ _ _ Hm1)|].
  exists m'. rewrite list_insert_insert_eq in Hr. split_and!; [|done|congruence|done].
  eapply rtc_l; [by eapply mig_statement|exact Hr].
Qed.

(** Who is under the lock can finish: commit, and give the lock up. *)
Lemma inside_finishes d i m : mig_inv d -> d_migrators d !! i = Some m -> inside (m_phase m) = true ->
  exists d' m', rtc mig_step d d' /\ d_lock d' = None /\ d_migrators d' = <[i := m']> (d_migrators d) /\
    m_phase m' = Returned (Ok tt) /\ m_names m' = m_names m /\
    c_files (d_catalog d') = c_files (d_catalog d) ++ missing (c_files (d_catalog d)) (m_names m).
Proof.
  intros Hinv Hi Hin. pose proof (mi_lock _ Hinv i m Hi Hin) as Hl. destruct d as [db lock ms].
  cbn [d_catalog d_lock d_migrators] in *. subst lock.
  destruct (under_lock db (Some i) i (mi_rows _ Hinv) ms m Hi (mi_names _ Hinv i m Hi) (mi_progress _ Hinv i m Hi) Hin)
    as (m' & Hr & Hc & Hn & Hp).
  assert (Hlt : (i < length ms)%nat) by (by eapply lookup_lt_Some).
  unfold progress in Hp. rewrite Hc, Hn in Hp. eexists _, _. split_and!.
  - eapply rtc_r; [exact Hr|]. eapply (mig_commit _ _ _ i m' _ (Ok tt)); [by rewrite list_lookup_insert_eq|done|exact Hp].
  - cbn [d_lock release]. unfold release. by rewrite bool_decide_true.
  - cbn [d_migrators]. by rewrite list_insert_insert_eq.
  - done.
  - exact Hn.
  - done.
Qed.

(** Who waits for a free lock gets it and finishes. *)
Lemma locking_finishes d i m : mig_inv d -> d_migrators d !! i = Some m -> m_phase m = Locking -> d_lock d = None ->
  exists d' m', rtc mig_step d d' /\ d_migrators d' !! i = Some m' /\ m_phase m' = Returned (Ok tt) /\
    c_files (d_catalog d') = c_files (d_catalog d) ++ missing (c_files (d_catalog d)) (m_names m).
Proof.
  intros Hinv Hi Hm Hl. assert (Hlt : (i < length (d_migrators d))%nat) by (by eapply lookup_lt_Some).
  set (d1 := {| d_catalog := d_catalog d; d_lock := Some i; d_migrators := <[i := at_phase m Ensuring (m_tx m)]> (d_migrators d) |}).
  assert (Hs : mig_step d d1).
  { destruct d as [db lock ms]. cbn [d_lock d_migrators] in *. subst lock. by apply mig_lock. }
  destruct (inside_finishes d1 i (at_phase m Ensuring (m_tx m))) as (d' & m' & Hr & _ & Hms & Hp & _ & Hf);
    [by eapply mig_step_inv|by apply list_lookup_insert_eq|done|].
  exists d', m'. split; [by eapply rtc_l|]. split; [|by split].
  rewrite Hms. apply list_lookup_insert_eq. cbn [d1 d_migrators]. by rewrite length_insert.
Qed.

(** Whoever has the lock can give it up. *)
Lemma lock_comes_free d i m : mig_inv d -> d_migrators d !! i = Some m -> inside (m_phase m) = false ->
  exists d', rtc mig_step d d' /\ d_lock d' = None /\ d_migrators d' !! i = Some m.
Proof.
  intros Hinv Hi Hin. destruct (d_lock d) as [j|] eqn:Hl; [|by exists d].
  destruct (mi_held _ Hinv j Hl) as (mj & Hj & Hinj).
  destruct (inside_finishes d j mj Hinv Hj Hinj) as (d' & mj' & Hr & Hl' & Hms & _).
  exists d'. split; [done|]. split; [done|]. rewrite Hms, list_lookup_insert_ne; [done|]. intros ->. simplify_eq. congruence.
Qed.

(** So every migrator that runs can return without an error. *)
Lemma running_finishes d i m : mig_inv d -> d_migrators d !! i = Some m -> running (m_phase m) = true ->
  exists d' m', rtc mig_step d d' /\ d_migrators d' !! i = Some m' /\ m_phase m' = Returned (Ok tt) /\
    forall n, n ∈ m_names m -> n ∈ c_files (d_catalog d').
Proof.
  intros Hinv Hi Hrun.
  assert (Hmiss : forall fs fs', fs' = fs ++ missing fs (m_names m) -> forall n, n ∈ m_names m -> n ∈ fs').
  { intros fs fs' -> n Hn. apply elem_of_app. destruct (decide (n ∈ fs)); [by left|right]. by apply elem_of_missing. }
  assert (Hlock : forall d1 m1, rtc mig_step d d1 -> mig_inv d1 -> d_migrators d1 !! i = Some m1 -> m_phase m1 = Locking ->
    m_names m1 = m_names m -> exists d' m', rtc mig_step d d' /\ d_migrators d' !! i = Some m' /\
      m_phase m' = Returned (Ok tt) /\ forall n, n ∈ m_names m -> n ∈ c_files (d_catalog d')).
  { intros d1 m1 Hr1 Hi1 Hm1 Hp1 Hn1. destruct (lock_comes_free d1 i m1 Hi1 Hm1) as (d2 & Hr2 & Hl2 & Hm2); [by rewrite Hp1|].
    destruct (locking_finishes d2 i m1) as (d3 & m3 & Hr3 & Hm3 & Hp3 & Hf3); [by eapply mig_reaches_inv|done|done|done|].
    exists d3, m3. split; [by rewrite Hr1, Hr2|]. split; [done|]. split; [done|]. rewrite Hn1 in Hf3. by eapply Hmiss. }
  destruct (inside (m_phase m)) eqn:Hin.
  - destruct (inside_finishes d i m Hinv Hi Hin) as (d' & m' & Hr & _ & Hms & Hp & _ & Hf). exists d', m'.
    split; [done|]. split; [rewrite Hms; apply list_lookup_insert_eq; by eapply lookup_lt_Some|]. split; [done|]. by eapply Hmiss.
  - destruct (m_phase m) eqn:Hp; try done.
    + assert (Hs : mig_step d {| d_catalog := d_catalog d; d_lock := d_lock d;
        d_migrators := <[i := at_phase m Locking (Some no_writes)]> (d_migrators d) |}).
      { destruct d. by apply mig_begin. }
      eapply (Hlock _ (at_phase m Locking (Some no_writes))); [by apply rtc_once|by eapply mig_step_inv| |done|done].
      apply list_lookup_insert_eq. by eapply lookup_lt_Some.
    + by eapply (Hlock d m).
Qed.

(** What a commit adds. *)
Lemma mig_step_files d d' : mig_step d d' -> mig_inv d ->
  c_files (d_catalog d') = c_files (d_catalog d) \/
  exists i m, d_migrators d !! i = Some m /\ m_phase m = Committing /\
    c_files (d_catalog d') = c_files (d_catalog d) ++ missing (c_files (d_catalog d)) (m_names m).
Proof.
  intros Hs Hinv. destruct Hs as [| | | |db lock ms i m x answer Hi Hm Hx| |]; try (by left). right. exists i, m.
  split_and!; [done|done|]. pose proof (mi_progress _ Hinv i m Hi) as Hp. unfold progress in Hp. rewrite Hm, Hx in Hp.
  cbn in Hp. by injection Hp as ->.
Qed.

(** Every migrator brings the same files. *)
Definition uniform (ns : list string) (d : deployment) : Prop :=
  forall n, n ∈ map m_names (d_migrators d) -> sorted n = sorted ns.

Lemma names_insert ms i m m' : ms !! i = Some m -> m_names m' = m_names m -> map m_names (<[i := m']> ms) = map m_names ms.
Proof. intros Hi Hn. change map with (@list_fmap). rewrite list_fmap_insert, Hn. apply list_insert_id. by rewrite list_lookup_fmap, Hi. Qed.

Lemma mig_step_names d d' : mig_step d d' -> exists more, map m_names (d_migrators d') = map m_names (d_migrators d) ++ more.
Proof.
  destruct 1; cbn [d_migrators]; [by rewrite map_app; eexists|..]; exists []; rewrite app_nil_r;
    (eapply names_insert; [done|]); try done. by eapply statement_names.
Qed.

Lemma uniform_before ns d d' : mig_step d d' -> uniform ns d' -> uniform ns d.
Proof. intros [more Hm]%mig_step_names Hu n Hn. apply Hu. rewrite Hm. apply elem_of_app. by left. Qed.

Lemma uniform_files ns d0 d : rtc mig_step d0 d -> mig_inv d0 -> c_files (d_catalog d0) = [] -> uniform ns d ->
  c_files (d_catalog d) = [] \/ c_files (d_catalog d) = sorted ns.
Proof.
  intros Hr0 Hi0 H0. revert d Hr0. apply (rtc_ind_r (fun d => uniform ns d -> c_files (d_catalog d) = [] \/ c_files (d_catalog d) = sorted ns)); [by left|].
  intros d d' Hr Hs IH Hu.
  pose proof (mig_reaches_inv _ _ Hr Hi0) as Hinv. specialize (IH (uniform_before _ _ _ Hs Hu)).
  destruct (mig_step_files d d' Hs Hinv) as [-> |(i & m & Hi & _ & ->)]; [done|]. right.
  assert (Hm : sorted (m_names m) = sorted ns).
  { apply (uniform_before _ _ _ Hs Hu). apply (list_elem_of_fmap_2 m_names). by eapply list_elem_of_lookup_2. }
  unfold missing. rewrite Hm. destruct IH as [-> | ->].
  - simpl. clear. induction (sorted ns) as [|n l IH]; [done|]. by rewrite filter_cons_True, IH by apply not_elem_of_nil.
  - assert (Hz : filter (fun n => n ∉ sorted ns) (sorted ns) = []).
    { destruct (filter _ _) as [|n l] eqn:E; [done|]. assert (Hin : n ∈ n :: l) by (by left). rewrite <-E in Hin.
      by apply list_elem_of_filter in Hin as [? ?]. }
    by rewrite Hz, app_nil_r.
Qed.

(** C22. Migrations run once, in order, all or nothing, however many servers boot at
    the same time, fail or die on the way.  From a database whose record is true:
    at every reachable point each file is in effect at most once and
    schema_migrations lists exactly the files in effect; at most one migrator is
    under the lock; a step leaves the files as they are or adds, in lexical
    order, all that one migrator knows and the database has not; where every
    server brings the same files, a fresh database has none of them or all, in
    order; a migrator that returned without an error finds all of its files in
    effect. Nobody waits for a lock that is not released: while the lock is
    taken, the one that took it is under way in its transaction - whoever
    failed, died or returned has given it up - and from every reachable point
    every migrator that runs, whether it waits, holds the lock or has not asked
    for it, can come to its end without an error and with all of its files in
    effect; if the lock is free at once, by adding just what is missing. *)
Theorem migrations_once (db : catalog) (d : deployment) :
  recorded db -> rtc mig_step (idle db) d ->
  recorded (d_catalog d) /\
  (forall i j mi mj, d_migrators d !! i = Some mi -> d_migrators d !! j = Some mj ->
     inside (m_phase mi) = true -> inside (m_phase mj) = true -> i = j) /\
  (forall d', mig_step d d' -> c_files (d_catalog d') = c_files (d_catalog d) \/
     exists i m, d_migrators d !! i = Some m /\
       c_files (d_catalog d') = c_files (d_catalog d) ++ missing (c_files (d_catalog d)) (m_names m)) /\
  (forall ns, c_files db = [] -> uniform ns d -> c_files (d_catalog d) = [] \/ c_files (d_catalog d) = sorted ns) /\
  (forall i m, d_migrators d !! i = Some m -> m_phase m = Returned (Ok tt) ->
     forall n, n ∈ m_names m -> n ∈ c_files (d_catalog d)) /\
  (forall i, d_lock d = Some i -> exists m, d_migrators d !! i = Some m /\ inside (m_phase m) = true) /\
  (forall i m, d_migrators d !! i = Some m -> running (m_phase m) = true ->
     exists d' m', rtc mig_step d d' /\ d_migrators d' !! i = Some m' /\ m_phase m' = Returned (Ok tt) /\
       forall n, n ∈ m_names m -> n ∈ c_files (d_catalog d')) /\
  (forall i m, d_migrators d !! i = Some m -> m_phase m = Locking -> d_lock d = None ->
     exists d' m', rtc mig_step d d' /\ d_migrators d' !! i = Some m' /\ m_phase m' = Returned (Ok tt) /\
       c_files (d_catalog d') = c_files (d_catalog d) ++ missing (c_files (d_catalog d)) (m_names m)).
Proof.
  intros Hrec Hr. pose proof (mig_reaches_inv _ _ Hr (idle_inv db Hrec)) as Hinv. split_and!.
  - split; apply Hinv.
  - intros i j mi mj Hi Hj Hmi Hmj. pose proof (mi_lock _ Hinv i mi Hi Hmi). pose proof (mi_lock _ Hinv j mj Hj Hmj). congruence.
  - intros d' Hs. destruct (mig_step_files d d' Hs Hinv) as [?|(i & m & ? & _ & ?)]; eauto.
  - intros ns H0. by apply (uniform_files ns (idle db) d Hr (idle_inv db Hrec)).
  - intros i m Hi Hm. pose proof (mi_progress _ Hinv i m Hi) as Hp. unfold progress in Hp. by rewrite Hm in Hp.
  - apply (mi_held _ Hinv).
  - intros i m. by apply running_finishes.
  - intros i m. by apply locking_finishes.
Qed.

(** ** Witness *)

(** The embedded directory. *)
Definition migrationFS : list string := ["0001_init.sql"].
Definition fresh : catalog := {| c_versions := None; c_files := [] |}.

Lemma migrations_once_witness :
  exists d, rtc mig_step (idle fresh) d /\ c_files (d_catalog d) = migrationFS /\ recorded (d_catalog d).
Proof.
  assert (Hrec : recorded fresh) by (split; [reflexivity|apply NoDup_nil_2]).
  assert (Hr : rtc mig_step (idle fresh)
    {| d_catalog := fresh; d_lock := None; d_migrators := [at_phase (boot migrationFS) Locking (Some no_writes)] |}).
  { eapply rtc_l; [apply mig_boot; apply (bool_decide_unpack (NoDup migrationFS)); vm_compute; exact I|].
    apply rtc_once. apply (mig_begin fresh None [boot migrationFS] 0 (boot migrationFS)); reflexivity. }
  destruct (migrations_once fresh _ Hrec Hr) as (_ & _ & _ & _ & _ & _ & _ & Hend).
  destruct (Hend 0%nat _ eq_refl eq_refl eq_refl) as (d' & m' & Hr' & _ & _ & Hf).
  assert (Hall : rtc mig_step (idle fresh) d') by (etransitivity; [exact Hr|exact Hr']).
  exists d'. split; [exact Hall|]. split; [exact Hf|]. exact (proj1 (migrations_once fresh d' Hrec Hall)).
Defined.
