(* ===== verification/Summary.v ===== *)
(** * Summary: the one-call view of a run

    [Store.Summary] of [internal/store/store.go] adds up three queries.  What it
    shows is consistent: the counts add up to the total, and the percentiles
    are those of the durations of the completed jobs, in order. *)

From stdpp Require Import sorting.
From S2P Require Import Prelude Errors Job Database Rows Redis Effects Rely Store.
Local Open Scope list_scope.
Local Open Scope Z_scope.
Local Open Scope prog_scope.

(** ** Percentiles *)

Lemma sorted_nth (vs : list Z) d i j :
  StronglySorted Z.le vs -> (i <= j < length vs)%nat -> nth i vs d <= nth j vs d.
Proof.
  intros Hs. revert i j. induction Hs as [|x vs Hs IH Hx]; intros i j [Hij Hj]; simpl in *; [lia|].
  destruct i as [|i], j as [|j]; simpl; try lia.
  - rewrite Forall_forall in Hx. apply Hx. apply list_elem_of_In, nth_In. lia.
  - apply IH. lia.
Qed.

Section percentile.
Context (vs : list Z) (Hs : StronglySorted Z.le vs) (Hne : vs <> []).
Abbreviation m := (Z.of_nat (length vs - 1)).
Abbreviation at_ i := (nth (Z.to_nat i) vs 0).

Lemma length_m : Z.of_nat (length vs) = m + 1.
Proof. destruct vs; [done|simpl; lia]. Qed.

Lemma at_mono i j : 0 <= i <= j -> j <= m -> at_ i <= at_ j.
Proof. pose proof length_m. intros. apply sorted_nth; [done|]. lia. Qed.

(** Between the two neighbours. *)
Lemma percentile_between k : 0 <= k <= 100 ->
  let i := k * m / 100 in
  let r := k * m mod 100 in
  0 <= i <= m /\ (i < m \/ r = 0) /\
  percentile vs k = 100 * at_ i + r * (at_ (Z.min (i + 1) m) - at_ i).
Proof.
  intros Hk i r. pose proof length_m as Hlm. assert (Hp : 0 <= k * m <= 100 * m) by nia.
  assert (Hi : 0 <= i <= m).
  { split; [apply Z.div_pos; lia|]. apply Z.div_le_upper_bound; lia. }
  assert (Hr : 0 <= r < 100) by (apply Z.mod_pos_bound; lia).
  assert (Hdm : k * m = 100 * i + r) by (apply Z.div_mod; lia).
  assert (Him : i < m \/ r = 0) by (destruct (decide (i = m)); [right; lia|left; lia]).
  split_and!; [lia|lia|done|]. unfold percentile. fold i r.
  destruct Him as [Him| ->]; [|lia]. rewrite Z.min_l by lia.
  rewrite (nth_indep vs (at_ i) 0) by lia.
  replace (Z.to_nat (i + 1)) with (S (Z.to_nat i)) by lia. done.
Qed.

Lemma percentile_mono k k' : 0 <= k <= k' -> k' <= 100 -> percentile vs k <= percentile vs k'.
Proof.
  intros Hk Hk'. destruct (percentile_between k ltac:(lia)) as (Hi & Him & ->).
  destruct (percentile_between k' ltac:(lia)) as (Hi' & Him' & ->).
  set (i := k * m / 100) in *. set (r := k * m mod 100) in *.
  set (i' := k' * m / 100) in *. set (r' := k' * m mod 100) in *.
  assert (Hr : 0 <= r < 100) by (apply Z.mod_pos_bound; lia).
  assert (Hr' : 0 <= r' < 100) by (apply Z.mod_pos_bound; lia).
  assert (Hdm : k * m = 100 * i + r) by (apply Z.div_mod; lia).
  assert (Hdm' : k' * m = 100 * i' + r') by (apply Z.div_mod; lia).
  assert (Hle : k * m <= k' * m) by nia.
  assert (Hup : at_ i <= at_ (Z.min (i + 1) m)) by (apply at_mono; lia).
  assert (Hup' : at_ i' <= at_ (Z.min (i' + 1) m)) by (apply at_mono; lia).
  destruct (decide (i = i')) as [E|Hne'].
  - rewrite <-E in *. assert (r <= r') by lia. nia.
  - assert (Hlt : i < i') by lia.
    assert (at_ (Z.min (i + 1) m) <= at_ i') by (apply at_mono; lia). nia.
Qed.

Lemma percentile_range k lo hi :
  0 <= k <= 100 -> (forall v, v ∈ vs -> lo <= v <= hi) -> 100 * lo <= percentile vs k <= 100 * hi.
Proof.
  intros Hk Hv. pose proof length_m as Hlm. destruct (percentile_between k Hk) as (Hi & Him & ->).
  set (i := k * m / 100) in *. set (r := k * m mod 100) in *.
  assert (Hr : 0 <= r < 100) by (apply Z.mod_pos_bound; lia).
  assert (Hin : forall j, 0 <= j <= m -> lo <= at_ j <= hi).
  { intros j Hj. apply Hv, list_elem_of_In, nth_In. lia. }
  pose proof (Hin i ltac:(lia)). pose proof (Hin (Z.min (i + 1) m) ltac:(lia)). nia.
Qed.
End percentile.

(** ** What a percentile is

    Said without sorting: [v] is the value at place [i] (from 0) in the order of
    [vs] when at most [i] values are below it and more than [i] are not above. *)
Definition order_statistic (vs : list Z) (i v : Z) : Prop :=
  v ∈ vs /\ Z.of_nat (length (filter (fun u => u < v) vs)) <= i < Z.of_nat (length (filter (fun u => u <= v) vs)).

(** [percentile_cont(k / 100)], times 100: the place [k (n - 1) / 100] falls on
    or between the places [i] and [i + 1], and the value is that much of the way
    from the one to the other. *)
Definition interpolated (vs : list Z) (k x : Z) : Prop :=
  let place := k * Z.of_nat (length vs - 1) in
  exists i v v', 100 * i <= place < 100 * (i + 1) /\ order_statistic vs i v /\
    (place = 100 * i \/ order_statistic vs (i + 1) v') /\
    x = (100 * (i + 1) - place) * v + (place - 100 * i) * v'.

Lemma order_statistic_unique vs i v v' : order_statistic vs i v -> order_statistic vs i v' -> v = v'.
Proof.
  assert (Hle : forall v v', v < v' ->
    Z.of_nat (length (filter (fun u => u <= v) vs)) <= Z.of_nat (length (filter (fun u => u < v') vs))).
  { intros u u' Hlt. induction vs as [|x xs IH]; simpl; [lia|]. rewrite !filter_cons.
    repeat case_decide; simpl; lia. }
  intros [_ H] [_ H']. destruct (Z.lt_trichotomy v v') as [Hlt|[->|Hlt]]; [|done|]; specialize (Hle _ _ Hlt); lia.
Qed.

(** So the percentile of some values is one number. *)
Lemma interpolated_unique vs k x x' : interpolated vs k x -> interpolated vs k x' -> x = x'.
Proof.
  intros (i & v & w & Hi & Hv & Hw & ->) (i' & v' & w' & Hi' & Hv' & Hw' & ->).
  assert (i' = i) as -> by lia. rewrite (order_statistic_unique _ _ _ _ Hv' Hv).
  destruct Hw as [Hw|Hw]; [rewrite Hw; lia|]. destruct Hw' as [Hw'|Hw']; [rewrite Hw'; lia|].
  by rewrite (order_statistic_unique _ _ _ _ Hw' Hw).
Qed.

Lemma order_statistic_perm vs vs' i v : vs ≡ₚ vs' -> order_statistic vs i v -> order_statistic vs' i v.
Proof.
  intros Hp [Hin Hc]. unfold order_statistic. split; [by rewrite <-Hp|].
  by rewrite <-(Permutation_length (filter_Permutation (fun u => u < v) _ _ Hp)),
    <-(Permutation_length (filter_Permutation (fun u => u <= v) _ _ Hp)).
Qed.

Lemma filter_length_all {A} (P : A -> Prop) `{!forall x, Decision (P x)} l : Forall P l -> length (filter P l) = length l.
Proof. induction 1; [done|]. rewrite filter_cons_True by done. simpl. by f_equal. Qed.
Lemma filter_length_none {A} (P : A -> Prop) `{!forall x, Decision (P x)} l : Forall (fun x => ~ P x) l -> length (filter P l) = 0%nat.
Proof. induction 1; [done|]. by rewrite filter_cons_False. Qed.

(** In a sorted list the places are the positions. *)
Lemma sorted_order_statistic vs (i : nat) :
  StronglySorted Z.le vs -> (i < length vs)%nat -> order_statistic vs (Z.of_nat i) (nth i vs 0).
Proof.
  intros Hs Hi. set (v := nth i vs 0). split; [by apply list_elem_of_In, nth_In|].
  assert (Hlt : Forall (fun u => ~ u < v) (drop i vs)).
  { apply Forall_forall. intros u (k & Hk)%list_elem_of_lookup. rewrite lookup_drop in Hk.
    pose proof (lookup_lt_Some _ _ _ Hk) as Hb. pose proof (sorted_nth vs 0 i (i + k) Hs ltac:(lia)) as Hm.
    rewrite (nth_lookup_Some _ (i + k) 0 u Hk) in Hm. fold v in Hm. lia. }
  assert (Hle : Forall (fun u => u <= v) (take (S i) vs)).
  { apply Forall_forall. intros u (k & Hk)%list_elem_of_lookup. apply lookup_take_Some in Hk as [Hk Hki].
    pose proof (sorted_nth vs 0 k i Hs ltac:(lia)) as Hm. rewrite (nth_lookup_Some _ k 0 u Hk) in Hm. exact Hm. }
  split.
  - rewrite <-(take_drop i vs), filter_app, length_app, (filter_length_none _ _ Hlt).
    pose proof (length_filter (fun u => u < v) (take i vs)) as Hf. rewrite length_take in Hf. lia.
  - rewrite <-(take_drop (S i) vs), filter_app, length_app, (filter_length_all _ _ Hle), length_take. lia.
Qed.

Lemma percentile_interpolated vs k :
  StronglySorted Z.le vs -> vs <> [] -> 0 <= k <= 100 -> interpolated vs k (percentile vs k).
Proof.
  intros Hs Hne Hk. destruct (percentile_between vs Hs Hne k Hk) as (Hi & Him & ->).
  set (m := Z.of_nat (length vs - 1)) in *. pose proof (length_m vs Hs Hne) as Hlm. fold m in Hlm.
  set (i := k * m / 100) in *. set (r := k * m mod 100) in *.
  assert (Hr : 0 <= r < 100) by (apply Z.mod_pos_bound; lia).
  assert (Hdm : k * m = 100 * i + r) by (apply Z.div_mod; lia).
  pose proof (sorted_order_statistic vs (Z.to_nat i) Hs ltac:(lia)) as Hv. rewrite Z2Nat.id in Hv by lia.
  exists i, (nth (Z.to_nat i) vs 0), (nth (Z.to_nat (Z.min (i + 1) m)) vs 0). fold m. rewrite Hdm.
  split; [lia|]. split; [exact Hv|]. split; [|ring].
  destruct Him as [Him| ->]; [right|left; lia]. rewrite Z.min_l by lia.
  pose proof (sorted_order_statistic vs (Z.to_nat (i + 1)) Hs ltac:(lia)) as Hv'. by rewrite Z2Nat.id in Hv' by lia.
Qed.

Lemma interpolated_perm vs vs' k x : vs ≡ₚ vs' -> interpolated vs k x -> interpolated vs' k x.
Proof.
  intros Hp (i & v & w & Hi & Hv & Hw & ->). exists i, v, w. rewrite <-(Permutation_length Hp).
  split; [done|]. split; [by eapply order_statistic_perm|]. split; [|done].
  destruct Hw as [?|?]; [by left|right]. by eapply order_statistic_perm.
Qed.

(** The three of some durations: zeros when none is known; otherwise the
    interpolated order statistics at 50, 95 and 99 per cent, which are in order and
    within the bounds of the values. *)
Definition percentiles_of (vs : list (option Z)) (p : LatencyPercentiles) : Prop :=
  let xs := omap (fun v => v) vs in
  (xs = [] -> P50 p = 0 /\ P95 p = 0 /\ P99 p = 0) /\
  (xs <> [] -> interpolated xs 50 (P50 p) /\ interpolated xs 95 (P95 p) /\ interpolated xs 99 (P99 p)) /\
  P50 p <= P95 p <= P99 p /\
  forall lo hi, xs <> [] -> (forall v, Some v ∈ vs -> lo <= v <= hi) ->
    100 * lo <= P50 p /\ P99 p <= 100 * hi.

Lemma percentiles_three vs : percentiles_of vs (three (percentiles vs)).
Proof.
  unfold percentiles, percentiles_of. set (xs := omap (fun v => v) vs).
  assert (Hx : forall v, v ∈ xs -> Some v ∈ vs).
  { intros v (o & Ho & ->)%list_elem_of_omap. done. }
  assert (Hsplit : xs = [] \/ exists x xs', xs = x :: xs') by (destruct xs; eauto).
  destruct Hsplit as [E|(x & xs' & E)].
  { rewrite E. simpl. split_and!; try done; lia. }
  rewrite E. set (ys := merge_sort Z.le (x :: xs')).
  assert (Hs : StronglySorted Z.le ys) by (apply StronglySorted_merge_sort; apply _).
  assert (Hp : ys ≡ₚ x :: xs') by apply merge_sort_Permutation.
  assert (Hne : ys <> []) by (intros Hn; rewrite Hn in Hp; by apply Permutation_nil_l in Hp).
  cbn [map three P50 P95 P99]. split; [done|]. split.
  { intros _. split_and!; (eapply interpolated_perm; [exact Hp|]); by apply percentile_interpolated. }
  split; [split; apply percentile_mono; done || lia|].
  intros lo hi _ Hv. assert (Hys : forall v, v ∈ ys -> lo <= v <= hi).
  { intros v Hin. apply Hv, Hx. rewrite E. by rewrite <-Hp. }
  split; [apply (percentile_range ys Hs Hne 50 lo hi); [lia|done]|].
  by apply (percentile_range ys Hs Hne 99 lo hi).
Qed.

(** ** Counts *)

Lemma counts_lookup (f : Status -> Z) ds st : forall m : gmap Status Z,
  foldl (fun m x => <[x.1 := x.2]> m) m (map (fun st => (st, f st)) ds) !! st =
    if bool_decide (st ∈ ds) then Some (f st) else m !! st.
Proof.
  induction ds as [|d ds IH]; intros m; simpl; [done|]. rewrite IH.
  destruct (decide (st ∈ ds)).
  - rewrite !bool_decide_eq_true_2 by (try done; by right). done.
  - rewrite (bool_decide_eq_false_2 (st ∈ ds)) by done. destruct (decide (d = st)) as [->|Hne].
    + rewrite bool_decide_eq_true_2 by (by left). by rewrite lookup_insert_eq.
    + rewrite bool_decide_eq_false_2 by (intros [?|?]%elem_of_cons; congruence).
      by rewrite lookup_insert_ne.
Qed.

Lemma counts_total (f : Status -> Z) ds : forall n,
  foldl (fun n x => n + x.2) n (map (fun st => (st, f st)) ds) = n + foldr Z.add 0 (map f ds).
Proof. induction ds as [|d ds IH]; intros n; simpl; [lia|]. rewrite IH. lia. Qed.

(** Every row is counted, once. *)
Lemma counts_add_up (rs : list JobRow) ds :
  NoDup ds -> (forall r, r ∈ rs -> r_status r ∈ ds) ->
  foldr Z.add 0 (map (fun st => count_status st rs) ds) = Z.of_nat (length rs).
Proof.
  intros Hnd. induction rs as [|r rs IH]; intros Hin; simpl.
  { clear. induction ds as [|d ds IH]; simpl; [done|]. rewrite IH. unfold count_status. simpl. lia. }
  assert (Hone : foldr Z.add 0 (map (fun st => count_status st (r :: rs)) ds) =
    foldr Z.add 0 (map (fun st => count_status st rs) ds) + (if bool_decide (r_status r ∈ ds) then 1 else 0)).
  { clear IH Hin. induction Hnd as [|d ds Hd Hnd IH]; simpl; [done|]. rewrite IH.
    assert (Hc : count_status d (r :: rs) = count_status d rs + (if bool_decide (r_status r = d) then 1 else 0)).
    { unfold count_status. destruct (decide (r_status r = d)) as [E|E].
      - rewrite filter_cons_True, bool_decide_eq_true_2 by done. simpl. lia.
      - rewrite filter_cons_False, bool_decide_eq_false_2 by done. lia. }
    rewrite Hc. destruct (decide (r_status r = d)) as [E|E].
    - rewrite (bool_decide_eq_true_2 (r_status r = d)), (bool_decide_eq_false_2 (_ ∈ ds)) by congruence.
      rewrite bool_decide_eq_true_2 by (rewrite E; by left). lia.
    - rewrite (bool_decide_eq_false_2 (r_status r = d)) by done.
      rewrite (bool_decide_ext (r_status r ∈ d :: ds) (r_status r ∈ ds)); [lia|].
      rewrite elem_of_cons. tauto. }
  rewrite Hone, IH by (intros; apply Hin; by right). rewrite bool_decide_eq_true_2 by (apply Hin; by left). lia.
Qed.

Section summary.
Context {R : Type} `{!RedisServer R} (t0 : Time).

(** C27. The summary adds up. Alone and with every query going through, [Summary]
    ends with a view of the jobs created since the given time: a status is
    listed exactly when some of them has it, with their number; the counts add
    up to their total; the retried ones are those with more than one attempt,
    and the attempts are all of theirs; the percentiles are, of the known
    durations of the completed jobs - from creation, and from the start of the
    last run - the interpolated order statistics at 50, 95 and 99 per cent, so
    in order and between any bounds of these durations, or zeros if there are
    none. *)
Theorem Summary_adds_up (since : Time) (w : World R) :
  let rs := select_rows (created_since since) (w_db w) in
  let done_ := select_rows (finished_since since) (w_db w) in
  goes t0 (ReadSummary since) (fun x w' => w_db w' = w_db w /\ exists s, x = Ok s /\
    (forall st, sm_Counts s !! st =
       if bool_decide (0 < count_status st rs) then Some (count_status st rs) else None) /\
    sm_Total s = Z.of_nat (length rs) /\
    sm_RetriedJobs s = Z.of_nat (length (filter (fun r => 1 < r_attempt_count r) rs)) /\
    sm_RetriedJobs s <= sm_Total s /\
    sm_TotalAttempts s = foldr Z.add 0 (map r_attempt_count rs) /\
    percentiles_of (map (fun r => elapsed (Some (d_created_at (r_def r))) (r_completed_at r)) done_)
      (sm_E2ESeconds s) /\
    percentiles_of (map (fun r => elapsed (r_started_at r) (r_completed_at r)) done_) (sm_ExecSeconds s)) w.
Proof.
  intros rs done_. unfold ReadSummary. apply goes_ok, goes_Errorf, goes_sql. intros n1 _. simpl.
  apply goes_ok, goes_Errorf, goes_sql. intros n2 _. simpl.
  apply goes_ok, goes_Errorf, goes_sql. intros n3 _. simpl. split; [done|]. eexists. split; [done|].
  cbn [sm_Counts sm_Total sm_RetriedJobs sm_TotalAttempts sm_E2ESeconds sm_ExecSeconds]. fold rs. fold done_.
  assert (Hin : forall st, st ∈ remove_dups (map r_status rs) <-> 0 < count_status st rs).
  { intros st. rewrite elem_of_remove_dups. unfold count_status. split.
    - intros (r & -> & Hr)%list_elem_of_fmap. destruct (filter _ rs) eqn:E; [|simpl; lia].
      exfalso. apply (not_elem_of_nil r). rewrite <-E. by apply list_elem_of_filter.
    - destruct (filter _ rs) as [|r l] eqn:E; [simpl; lia|]. intros _.
      assert (Hr : r ∈ filter (fun r => r_status r = st) rs) by (rewrite E; by left).
      apply list_elem_of_filter in Hr as [<- Hr]. by apply list_elem_of_fmap_2. }
  assert (Htot : foldl (fun n x => n + x.2) 0 (status_counts rs) = Z.of_nat (length rs)).
  { unfold status_counts. rewrite (counts_total (fun st => count_status st rs)).
    rewrite counts_add_up; [lia|apply NoDup_remove_dups|].
    intros r Hr. apply elem_of_remove_dups. by apply list_elem_of_fmap_2. }
  split_and!.
  - intros st. unfold status_counts. rewrite (counts_lookup (fun st => count_status st rs)).
    rewrite lookup_empty. by apply bool_decide_if_ext.
  - done.
  - done.
  - rewrite Htot. pose proof (sublist_length _ _ (sublist_filter (fun r => 1 < r_attempt_count r) rs)). lia.
  - clear. induction rs as [|r rs IH]; simpl; [done|by rewrite IH].
  - apply percentiles_three.
  - apply percentiles_three.
Qed.
End summary.
