(* ===== verification/Batch.v ===== *)
(** * Batch: recording outcomes, one by one or in batches

    Models [internal/store/batch.go]: the [Recorder] interface, the
    [SyncRecorder], and the [Batcher] (the transaction of one flush, its retry,
    and the flush loop). *)

From S2P Require Import Prelude Errors Job Database Rows Redis Effects Rely Store.
Local Open Scope Z_scope.
Local Open Scope string_scope.
Local Open Scope list_scope.
Local Open Scope prog_scope.

(** ** The interface *)

Class Recorder := {
  rec_Complete : string -> Z -> string -> Attempt -> prog (result error bool);
  rec_Fail : string -> Z -> string -> Attempt -> prog (result error bool);
  rec_Retry : string -> Z -> string -> Time -> Attempt -> prog (result error bool);
  rec_DeadLetter : string -> Z -> string -> Attempt -> prog (result error bool);
  rec_Cancelled : string -> Z -> Attempt -> prog (result error bool)
}.

(** A call of the recorder for the claim ([id], [e]). *)
Inductive rec_call `{Recorder} (id : string) (e : Z) : prog (result error bool) -> Prop :=
| rc_complete res att : rec_call id e (rec_Complete id e res att)
| rc_fail msg att : rec_call id e (rec_Fail id e msg att)
| rc_retry msg t att : rec_call id e (rec_Retry id e msg t att)
| rc_dead msg att : rec_call id e (rec_DeadLetter id e msg att)
| rc_cancelled att : rec_call id e (rec_Cancelled id e att).

(** A call that goes to Postgres. *)
Definition is_db {A} (c : cmd A) : bool :=
  match c with Sql _ | Tx _ => true | _ => false end.

(** The contract the runner relies on ("when the call returns without error the
    record is durable"): an answer, [applied] or not, means the claim is
    settled in the database, under any interference and any failure; and a
    recorder only ever talks to Postgres. *)
Class RecorderLaw (R : Type) `{!RedisServer R} (rec : Recorder) := {
  rec_settles (pre : forall B, cmd B -> World R -> Prop) id e p w :
    (forall B (c : cmd B) w1, is_db c = true -> pre B c w1) ->
    rec_call id e p -> handed_out id e (w_db w) ->
    wp world_evolves pre p
      (fun r w' => world_evolves w w' /\ (is_Ok r = true -> settled id e (w_db w'))) w
}.

(** ** SyncRecorder *)

(** The attempt row is best effort. *)
Definition sync_record (att : Attempt) : prog unit := _ <- RecordAttempt att ;; Ret tt.

Definition sync_after (p : prog (result error bool)) (att : Attempt) : prog (result error bool) :=
  ok <-? p ;; sync_record att ;;; Ret (Ok ok).

#[export] Instance SyncRecorder : Recorder := {
  rec_Complete id epoch res att := sync_after (CompleteJob id epoch res) att;
  rec_Fail id epoch errMsg att := sync_after (FailJob id epoch errMsg) att;
  rec_Retry id epoch errMsg nextAt att := sync_after (ScheduleRetry id epoch errMsg nextAt) att;
  rec_DeadLetter id epoch errMsg att := sync_after (DeadLetterJob id epoch errMsg) att;
  rec_Cancelled id epoch att := sync_after (CancelRunning id epoch) att
}.

(** ** Batcher operations *)

Inductive opKind := opComplete | opFail | opRetry | opDead | opCancel.
#[export] Instance opKind_eq_dec : EqDecision opKind.
Proof. solve_decision. Defined.

Record op := {
  op_kind : opKind; op_id : string; op_epoch : Z;
  op_result : string; op_errMsg : string; op_nextAt : Time; op_att : Attempt
}.

Definition op_key (o : op) : string * Z := (op_id o, op_epoch o).

(** The statement of one operation: what the loop over the rarer kinds sends,
    and what a completion would send on its own. *)
Definition op_stmt (o : op) : stmt Z :=
  match op_kind o with
  | opComplete => UpdateComplete (op_id o) (op_epoch o) (op_result o)
  | opFail => UpdateFail (op_id o) (op_epoch o) (op_errMsg o)
  | opRetry => UpdateRetry (op_id o) (op_epoch o) (op_errMsg o) (op_nextAt o)
  | opDead => UpdateDeadLetter (op_id o) (op_epoch o) (op_errMsg o)
  | opCancel => UpdateCancelRunning (op_id o) (op_epoch o)
  end.

Definition is_complete (o : op) : bool := bool_decide (op_kind o = opComplete).

(** The columns of one attempt in the batch; [int32(o.att.Attempt)]. *)
Definition batch_attempt (a : Attempt) : Attempt :=
  {| att_JobID := att_JobID a; att_Attempt := int32 (att_Attempt a);
     att_WorkerID := att_WorkerID a; att_StartedAt := att_StartedAt a;
     att_FinishedAt := att_FinishedAt a; att_Outcome := att_Outcome a; att_Error := att_Error a |}.

Definition op_event (o : op) : option (string * string * option event_detail) :=
  match op_kind o with
  | opRetry => Some (op_id o, "retry_scheduled", retry_detail (op_errMsg o) (op_nextAt o))
  | opDead => Some (op_id o, "dead_lettered", dead_detail (op_errMsg o))
  | opCancel => Some (op_id o, "cancelled", Some JsonNull)
  | _ => None
  end.

(** ** One flush *)

Definition stm {A} (s : stmt A) : free stmt A := Vis s Ret.

(** The multi-row UPDATE of the completions; [okIDs] is keyed by id alone. *)
Definition flush_completes (ops : list op) : free stmt (list string) :=
  match filter (fun o => is_complete o = true) ops with
  | [] => Ret []
  | cs => stm (BatchComplete (map (fun o => (op_key o, op_result o)) cs))
  end.

(** The other kinds one by one; [applied] in the order of [ops]. *)
Fixpoint flush_each (okIDs : list string) (ops : list op) : free stmt (list bool) :=
  match ops with
  | [] => Ret []
  | o :: ops' =>
      if is_complete o then
        rest <- flush_each okIDs ops' ;; Ret (bool_decide (op_id o ∈ okIDs) :: rest)
      else
        n <- stm (op_stmt o) ;;
        rest <- flush_each okIDs ops' ;; Ret (one_row n :: rest)
  end.

(** The events of the applied operations. *)
Fixpoint flush_events (applied : list bool) (ops : list op)
    : list (string * string * option event_detail) :=
  match ops, applied with
  | o :: ops', true :: applied' =>
      match op_event o with
      | Some e => e :: flush_events applied' ops'
      | None => flush_events applied' ops'
      end
  | _ :: ops', false :: applied' => flush_events applied' ops'
  | _, _ => []
  end.

Definition flush_tx (ops : list op) : free stmt (list bool) :=
  okIDs <- flush_completes ops ;;
  applied <- flush_each okIDs ops ;;
  stm (BatchInsertAttempts (map (fun o => batch_attempt (op_att o)) ops)) ;;;
  match flush_events applied ops with
  | [] => Ret applied
  | es => stm (BatchInsertEvents es) ;;; Ret applied
  end.

Definition flushOnce (ops : list op) : prog (result error (list bool)) := call (Tx (flush_tx ops)).

(** [flush]: one retry, then every operation fails with the error.  The answer
    has one [opResult] per operation. *)
Definition flush (ops : list op) : prog (list (result error bool)) :=
  r <- flushOnce ops ;;
  match r with
  | Ok applied => Ret (map Ok applied)
  | Err _ =>
      r2 <- flushOnce ops ;;
      match r2 with
      | Ok applied => Ret (map Ok applied)
      | Err e => Ret (map (fun _ => Err e) ops)
      end
  end.

(** ** The flush loop

    The state of the loop goroutine: the channel [in] (capacity [2 * maxSize]),
    the [pending] slice, whether [stop] is closed, whether the loop has seen that
    and empties the channel, and whether it has returned.  A step may flush one
    batch; the submitters go on at any time. *)
Record Batcher := {
  b_in : list op; b_pending : list op; b_stopped : bool; b_draining : bool; b_exited : bool
}.
Definition NewBatcher : Batcher :=
  {| b_in := []; b_pending := []; b_stopped := false; b_draining := false; b_exited := false |}.

(** A submitter's send, the three cases of the [select] ([stop] is closed by
    [CloseStop] and seen by [StopSeen]), and the two of the drain. *)
Inductive batcher_event :=
| SubmitOp (o : op) | ReceiveOp | Tick | CloseStop | StopSeen | DrainReceive | DrainEnd.

(** [flush()] of the loop body: nothing when nothing is pending. *)
Definition loop_flush (pending : list op) : list (list op) :=
  match pending with [] => [] | _ => [pending] end.

(** One step, with the batches it flushes; [None] when it cannot happen. *)
Definition batcher_step (maxSize : nat) (b : Batcher) (ev : batcher_event)
    : option (Batcher * list (list op)) :=
  match ev with
  | SubmitOp o =>
      if bool_decide (length (b_in b) < 2 * maxSize)%nat
      then Some ({| b_in := b_in b ++ [o]; b_pending := b_pending b; b_stopped := b_stopped b;
                    b_draining := b_draining b; b_exited := b_exited b |}, [])
      else None
  | ReceiveOp =>
      match b_draining b, b_in b with
      | false, o :: rest =>
          let pending := b_pending b ++ [o] in
          let full := bool_decide (maxSize <= length pending)%nat in
          Some ({| b_in := rest; b_pending := if full then [] else pending;
                   b_stopped := b_stopped b; b_draining := false; b_exited := b_exited b |},
                if full then loop_flush pending else [])
      | _, _ => None
      end
  | Tick =>
      if b_draining b then None
      else Some ({| b_in := b_in b; b_pending := []; b_stopped := b_stopped b;
                    b_draining := false; b_exited := b_exited b |}, loop_flush (b_pending b))
  | CloseStop =>
      if b_stopped b then None
      else Some ({| b_in := b_in b; b_pending := b_pending b; b_stopped := true;
                    b_draining := b_draining b; b_exited := b_exited b |}, [])
  | StopSeen =>
      if b_stopped b && negb (b_draining b)
      then Some ({| b_in := b_in b; b_pending := b_pending b; b_stopped := true;
                    b_draining := true; b_exited := b_exited b |}, [])
      else None
  | DrainReceive =>
      match b_draining b && negb (b_exited b), b_in b with
      | true, o :: rest =>
          Some ({| b_in := rest; b_pending := b_pending b ++ [o]; b_stopped := b_stopped b;
                   b_draining := true; b_exited := false |}, [])
      | _, _ => None
      end
  | DrainEnd =>
      match b_draining b && negb (b_exited b), b_in b with
      | true, [] =>
          Some ({| b_in := []; b_pending := []; b_stopped := b_stopped b;
                   b_draining := true; b_exited := true |}, loop_flush (b_pending b))
      | _, _ => None
      end
  end.

Fixpoint batcher_run (maxSize : nat) (b : Batcher) (evs : list batcher_event)
    : option (Batcher * list (list op)) :=
  match evs with
  | [] => Some (b, [])
  | ev :: evs' =>
      match batcher_step maxSize b ev with
      | None => None
      | Some (b1, fs) =>
          match batcher_run maxSize b1 evs' with
          | None => None
          | Some (b2, fs') => Some (b2, fs ++ fs')
          end
      end
  end.

(** The operations submitted, in order. *)
Definition submitted (evs : list batcher_event) : list op :=
  omap (fun ev => match ev with SubmitOp o => Some o | _ => None end) evs.

(** ** Rules for the recorders *)

Section sync.
Context {R : Type} `{!RedisServer R}.
Context (pre : forall B, cmd B -> World R -> Prop).
Context (Hdb : forall B (c : cmd B) w1, is_db c = true -> pre B c w1).

Lemma wp_sync_after (p : prog (result error bool)) att id e w :
  wp world_evolves pre p
    (fun r w' => world_evolves w w' /\ (is_Ok r = true -> settled id e (w_db w'))) w ->
  wp world_evolves pre (sync_after p att)
    (fun r w' => world_evolves w w' /\ (is_Ok r = true -> settled id e (w_db w'))) w.
Proof.
  intros Hp. unfold sync_after. apply wp_ok. eapply wp_mono; [|exact Hp].
  intros [b|err] w1 [Hw1 Hs]; [|done]. specialize (Hs eq_refl).
  apply wp_bind. unfold sync_record. apply wp_bind, wp_Errorf, wp_sql.
  intros w2 Hw2. split; [by apply Hdb|]. intros now.
  assert (Hev : world_evolves w1 (with_db (exec_stmt now (InsertAttempt att) (w_db w2)).2 w2)).
  { unfold world_evolves in *. simpl. etrans; [exact Hw2|].
    by apply (evolves_step now (InsertAttempt att)). }
  assert (Hgoal : forall w', world_evolves w1 w' -> world_evolves w w' /\ settled id e (w_db w')).
  { intros w' H. split; [by etrans|]. by eapply evolves_settled. }
  split_and!; intros; simpl; (destruct (Hgoal _ Hev), (Hgoal _ Hw2); auto).
Qed.

(** The five methods: an answered fenced write, then an event or not. *)
Lemma wp_store_terminal id e s prefix (k : Z -> prog (result error bool)) w :
  handed_out id e (w_db w) -> fenced_write id e s -> (forall ttl, s <> UpdateLease id e ttl) ->
  (forall n, (exists ev d, k n = with_event id ev d n) \/ k n = Ret (Ok (one_row n))) ->
  wp world_evolves pre (bind_ok (Errorf prefix (pgExec s)) k)
    (fun r w' => world_evolves w w' /\ (is_Ok r = true -> settled id e (w_db w'))) w.
Proof.
  intros Hh Hf Hnl Hk. eapply wp_fenced; eauto.
  - intros n w1 Hw1 Hs. destruct (Hk n) as [(ev & d & ->)| ->]; [|by simpl].
    apply wp_with_event; [intros; by apply Hdb|].
    intros b w2 Hw2. split; [by etrans|]. intros _. by eapply evolves_settled.
  - intros err w1 Hw1. by split.
Qed.
End sync.

#[export] Instance SyncRecorder_law (R : Type) `{!RedisServer R} : RecorderLaw R SyncRecorder.
Proof.
  constructor. intros pre id e p w Hdb Hp Hh.
  destruct Hp; simpl; apply wp_sync_after; try done;
    (eapply wp_store_terminal;
     [exact Hdb | exact Hh | constructor | done | intros n; eauto]).
Qed.

(** What [submit] amounts to when the receipt is awaited: the operation is
    flushed in some batch, between whatever other callers put around it, and its
    own result comes back.  (A caller that stops waiting gets its context's
    error, and the flush is then an action of another process.) *)
Definition submit (before after : list op) (o : op) : prog (result error bool) :=
  rs <- flush (before ++ [o] ++ after) ;;
  Ret (nth (length before) rs (Err (EMsg "store: batcher stopped"))).

Definition BatchRecorder (before after : list op) : Recorder := {|
  rec_Complete id epoch res att := submit before after
    {| op_kind := opComplete; op_id := id; op_epoch := epoch; op_result := json_or_null res;
       op_errMsg := EmptyString; op_nextAt := zero_time; op_att := att |};
  rec_Fail id epoch errMsg att := submit before after
    {| op_kind := opFail; op_id := id; op_epoch := epoch; op_result := EmptyString;
       op_errMsg := errMsg; op_nextAt := zero_time; op_att := att |};
  rec_Retry id epoch errMsg nextAt att := submit before after
    {| op_kind := opRetry; op_id := id; op_epoch := epoch; op_result := EmptyString;
       op_errMsg := errMsg; op_nextAt := nextAt; op_att := att |};
  rec_DeadLetter id epoch errMsg att := submit before after
    {| op_kind := opDead; op_id := id; op_epoch := epoch; op_result := EmptyString;
       op_errMsg := errMsg; op_nextAt := zero_time; op_att := att |};
  rec_Cancelled id epoch att := submit before after
    {| op_kind := opCancel; op_id := id; op_epoch := epoch; op_result := EmptyString;
       op_errMsg := EmptyString; op_nextAt := zero_time; op_att := att |}
|}.

(** ** What a batch does to the tables *)

(** The row after the operation landed. *)
Definition op_effect (now : Time) (o : op) (r : JobRow) : JobRow :=
  match op_kind o with
  | opComplete => row_completed now (op_result o) r
  | opFail => row_failed now StatusFailed (op_errMsg o) r
  | opRetry => row_retry now (op_errMsg o) (op_nextAt o) r
  | opDead => row_failed now StatusDeadLetter (op_errMsg o) r
  | opCancel => row_cancelled_running now r
  end.

(** The specification: the operations one after the other, each as its own
    fenced statement. *)
Fixpoint exec_ops (now : Time) (ops : list op) (db : DB) : list bool * DB :=
  match ops with
  | [] => ([], db)
  | o :: ops' =>
      let '(n, db1) := exec_stmt now (op_stmt o) db in
      let '(rest, db2) := exec_ops now ops' db1 in
      (match n with Ok n => one_row n | Err _ => false end :: rest, db2)
  end.

Definition applies (db : DB) (o : op) : bool :=
  match jobs db !! op_id o with Some r => fence (op_epoch o) r | None => false end.

(** The operation a row is waiting for, and the row after a list of them. *)
Definition op_hit (ops : list op) (id : string) (r : JobRow) : option op :=
  head (filter (fun o => op_key o = (id, r_lease_epoch r)) ops).
Definition ops_row (now : Time) (ops : list op) (id : string) (r : JobRow) : JobRow :=
  if status_is StatusRunning r
  then match op_hit ops id r with Some o => op_effect now o r | None => r end
  else r.

Lemma op_effect_epoch now o r : r_lease_epoch (op_effect now o r) = r_lease_epoch r.
Proof. unfold op_effect. by destruct (op_kind o). Qed.
Lemma op_effect_done now o r : status_is StatusRunning (op_effect now o r) = false.
Proof. unfold op_effect. by destruct (op_kind o). Qed.

Lemma op_stmt_exec now o db :
  exec_stmt now (op_stmt o) db =
    (let '(r, db') := update_where (op_id o) (fence (op_epoch o)) (op_effect now o) db in
     (Ok (RowsAffected r), db')).
Proof. unfold op_stmt, op_effect. by destruct (op_kind o). Qed.

Lemma op_stmt_row now o db id :
  jobs (exec_stmt now (op_stmt o) db).2 !! id = ops_row now [o] id <$> jobs db !! id.
Proof.
  rewrite op_stmt_exec. unfold update_where, ops_row, op_hit.
  destruct (jobs db !! op_id o) as [r0|] eqn:Hr0; [destruct (fence (op_epoch o) r0) eqn:Hf|]; simpl.
  - apply fence_spec in Hf as [He Hrun].
    destruct (decide (op_id o = id)) as [<-|Hne].
    + rewrite lookup_insert_eq, Hr0. simpl. unfold status_is. rewrite bool_decide_true by done.
      rewrite filter_cons_True; [done|]. unfold op_key. by rewrite He.
    + rewrite lookup_insert_ne by done. destruct (jobs db !! id) as [r|]; simpl; [|done].
      rewrite filter_cons_False; [by destruct (status_is _ _)|]. unfold op_key. congruence.
  - destruct (jobs db !! id) as [r|] eqn:Hr; simpl; [|done]. f_equal.
    destruct (status_is StatusRunning r) eqn:Hs; [|done].
    rewrite filter_cons_False; [done|]. unfold op_key. intros [= <- He]. simplify_eq.
    apply not_true_iff_false in Hf. apply Hf, fence_spec. split; [done|].
    by apply bool_decide_eq_true in Hs.
  - destruct (jobs db !! id) as [r|] eqn:Hr; simpl; [|done].
    rewrite filter_cons_False; [by destruct (status_is _ _)|]. unfold op_key. congruence.
Qed.

(** Two lists one after the other: the first match wins. *)
Lemma ops_row_app now a b id r : ops_row now b id (ops_row now a id r) = ops_row now (a ++ b) id r.
Proof.
  unfold ops_row, op_hit. destruct (status_is StatusRunning r) eqn:Hs; [|by rewrite Hs].
  rewrite filter_app.
  destruct (filter _ a) as [|o l]; simpl; [by rewrite Hs|]. by rewrite op_effect_done.
Qed.

Lemma exec_ops_jobs now ops : forall db id,
  jobs (exec_ops now ops db).2 !! id = ops_row now ops id <$> jobs db !! id.
Proof.
  induction ops as [|o ops IH]; intros db id; simpl.
  - unfold ops_row, op_hit. simpl. destruct (jobs db !! id) as [r|]; simpl; [|done].
    by destruct (status_is _ _).
  - pose proof (op_stmt_row now o db id) as Ho. specialize (IH (exec_stmt now (op_stmt o) db).2 id).
    destruct (exec_stmt now (op_stmt o) db) as [n db1]. simpl in *.
    destruct (exec_ops now ops db1) as [rest db2]. simpl in *.
    rewrite IH, Ho, <-option_fmap_compose. destruct (jobs db !! id) as [r|]; simpl; [|done].
    f_equal. by rewrite (ops_row_app now [o] ops).
Qed.

Lemma exec_ops_length now ops : forall db, length (exec_ops now ops db).1 = length ops.
Proof.
  induction ops as [|o ops IH]; intros db; simpl; [done|].
  destruct (exec_stmt now (op_stmt o) db) as [n db1]. specialize (IH db1).
  destruct (exec_ops now ops db1). simpl in *. by f_equal.
Qed.

Lemma applies_other now o o' db :
  op_key o <> op_key o' -> applies (exec_stmt now (op_stmt o) db).2 o' = applies db o'.
Proof.
  intros Hk. unfold applies. rewrite op_stmt_row.
  destruct (jobs db !! op_id o') as [r|]; simpl; [|done].
  unfold ops_row, op_hit. destruct (status_is StatusRunning r) eqn:Hs; [|done].
  destruct (decide (op_key o = (op_id o', r_lease_epoch r))) as [E|E].
  - rewrite filter_cons_True by done. simpl. unfold fence. rewrite op_effect_epoch, op_effect_done, Hs.
    rewrite andb_false_r, andb_true_r. symmetry. apply bool_decide_eq_false.
    intros He. apply Hk. rewrite E. unfold op_key. by rewrite He.
  - by rewrite filter_cons_False.
Qed.

Lemma op_stmt_answer now o db :
  (exec_stmt now (op_stmt o) db).1 = Ok (if applies db o then 1 else 0).
Proof.
  rewrite op_stmt_exec. unfold update_where, applies.
  destruct (jobs db !! op_id o) as [r|]; [|done]. by destruct (fence (op_epoch o) r).
Qed.

Lemma exec_ops_applied now ops : forall db,
  NoDup (op_key <$> ops) -> (exec_ops now ops db).1 = map (applies db) ops.
Proof.
  induction ops as [|o ops IH]; intros db Hnd; simpl; [done|].
  apply NoDup_cons in Hnd as [Hnin Hnd].
  pose proof (op_stmt_answer now o db) as Ha. pose proof (applies_other now o) as Hoth.
  specialize (IH (exec_stmt now (op_stmt o) db).2 Hnd). specialize (fun o' => Hoth o' db).
  destruct (exec_stmt now (op_stmt o) db) as [n db1]. simpl in *. subst n.
  destruct (exec_ops now ops db1) as [rest db2]. simpl in *. subst rest.
  f_equal; [by destruct (applies db o)|].
  apply map_ext_in. intros o' Hin%list_elem_of_In. apply Hoth.
  intros E. apply Hnin. rewrite E. by apply list_elem_of_fmap_2.
Qed.

(** ** The transaction *)

Lemma exec_tx_bind {A B} now (t : free stmt A) (f : A -> free stmt B) : forall db,
  exec_tx now (free_bind t f) db =
    match exec_tx now t db with Ok (a, db') => exec_tx now (f a) db' | Err e => Err e end.
Proof.
  induction t as [a|X s k IH]; intros db; simpl; [done|].
  destruct (exec_stmt now s db) as [[b|msg] db1]; [apply IH|done].
Qed.

Abbreviation completes ops := (filter (fun o => is_complete o = true) ops).
Abbreviation others ops := (filter (fun o => is_complete o <> true) ops).
Definition batch_vs (cs : list op) := map (fun o => (op_key o, op_result o)) cs.

(** The multi-row UPDATE does to each row what its first completion would do. *)
Lemma batch_match_hit cs id r :
  batch_match (batch_vs cs) id r =
    if status_is StatusRunning r then op_result <$> op_hit cs id r else None.
Proof.
  unfold batch_match, op_hit, batch_vs. destruct (status_is StatusRunning r); [|done].
  induction cs as [|o cs IH]; simpl; [done|].
  destruct (decide (op_key o = (id, r_lease_epoch r))) as [E|E].
  - rewrite !filter_cons_True by done. done.
  - rewrite !filter_cons_False by done. exact IH.
Qed.

Lemma op_hit_In ops id r o : op_hit ops id r = Some o -> o ∈ ops /\ op_key o = (id, r_lease_epoch r).
Proof.
  unfold op_hit. destruct (filter _ ops) as [|x l] eqn:Hf; simpl; [done|]. intros [= ->].
  assert (Hin : o ∈ o :: l) by apply list_elem_of_here.
  rewrite <-Hf in Hin. apply list_elem_of_filter in Hin. tauto.
Qed.

Lemma op_hit_completes ops id r o : op_hit (completes ops) id r = Some o -> is_complete o = true.
Proof. intros [Hin%list_elem_of_filter _]%op_hit_In. tauto. Qed.

Lemma completes_row now ops id r :
  match batch_match (batch_vs (completes ops)) id r with
  | Some res => row_completed now res r | None => r
  end = ops_row now (completes ops) id r.
Proof.
  rewrite batch_match_hit. unfold ops_row. destruct (status_is StatusRunning r); [|done].
  destruct (op_hit (completes ops) id r) as [o|] eqn:Ho; simpl; [|done].
  apply op_hit_completes, bool_decide_eq_true in Ho. unfold op_effect. by rewrite Ho.
Qed.

(** The ids a flush takes as completed. *)
Definition ok_ids (ops : list op) (db : DB) : list string :=
  match completes ops with
  | [] => []
  | cs => omap (fun x => (fun _ => x.1) <$> batch_match (batch_vs cs) x.1 x.2) (map_to_list (jobs db))
  end.

Lemma flush_completes_exec now ops db :
  exists db1, exec_tx now (flush_completes ops) db = Ok (ok_ids ops db, db1) /\
    (forall id, jobs db1 !! id = ops_row now (completes ops) id <$> jobs db !! id) /\
    job_attempts db1 = job_attempts db /\ job_events db1 = job_events db /\ workers db1 = workers db.
Proof.
  unfold flush_completes, ok_ids. destruct (completes ops) as [|c cs] eqn:Hc.
  - exists db. simpl. split; [done|]. split; [|done]. intros id. unfold ops_row, op_hit. simpl.
    destruct (jobs db !! id) as [r|]; simpl; [|done]. by destruct (status_is _ _).
  - rewrite <-Hc. eexists. split; [reflexivity|]. split; [|done]. intros id. simpl.
    rewrite map_lookup_imap. destruct (jobs db !! id) as [r|]; simpl; [|done].
    f_equal. apply completes_row.
Qed.

Lemma ok_ids_spec ops db id :
  id ∈ ok_ids ops db <->
  exists o r, o ∈ completes ops /\ op_id o = id /\ jobs db !! id = Some r /\ fence (op_epoch o) r = true.
Proof.
  unfold ok_ids. destruct (completes ops) as [|c cs] eqn:Hc.
  { split; [by intros ?%not_elem_of_nil|]. intros (o & r & Hin & _). by apply not_elem_of_nil in Hin. }
  rewrite <-Hc. rewrite list_elem_of_omap. split.
  - intros ([i r] & Hin & Hm). apply elem_of_map_to_list in Hin. simpl in Hm.
    rewrite batch_match_hit in Hm. destruct (status_is StatusRunning r) eqn:Hs; [|done].
    destruct (op_hit (completes ops) i r) as [o|] eqn:Ho; [|done]. simpl in Hm. injection Hm as <-.
    apply op_hit_In in Ho as [Ho Hk]. injection Hk as <- He. exists o, r.
    split_and!; try done. apply fence_spec. by apply bool_decide_eq_true in Hs.
  - intros (o & r & Ho & <- & Hr & [He Hs]%fence_spec). exists (op_id o, r).
    split; [by apply elem_of_map_to_list|]. simpl. rewrite batch_match_hit.
    unfold status_is. rewrite bool_decide_true by done. unfold op_hit.
    destruct (filter _ (completes ops)) as [|x l] eqn:Hf; [|done]. exfalso.
    apply (not_elem_of_nil o). rewrite <-Hf. apply list_elem_of_filter.
    split; [|done]. unfold op_key. by rewrite He.
Qed.

(** The loop over the other kinds. *)
Fixpoint each_applied (okIDs : list string) (ops : list op) (rest : list bool) : list bool :=
  match ops with
  | [] => []
  | o :: ops' =>
      if is_complete o then bool_decide (op_id o ∈ okIDs) :: each_applied okIDs ops' rest
      else match rest with
           | b :: rest' => b :: each_applied okIDs ops' rest'
           | [] => []
           end
  end.

Lemma flush_each_exec now okIDs ops : forall db,
  exec_tx now (flush_each okIDs ops) db =
    Ok (each_applied okIDs ops (exec_ops now (others ops) db).1, (exec_ops now (others ops) db).2).
Proof.
  induction ops as [|o ops IH]; intros db; simpl; [done|].
  destruct (is_complete o) eqn:Hc.
  - rewrite exec_tx_bind, IH. rewrite filter_cons_False by (intros Hn; by apply Hn). done.
  - rewrite filter_cons_True by (by rewrite Hc). simpl.
    pose proof (op_stmt_answer now o db) as Ha.
    destruct (exec_stmt now (op_stmt o) db) as [n db1]. simpl in Ha. subst n. simpl.
    rewrite exec_tx_bind, IH. simpl. destruct (exec_ops now (others ops) db1); simpl. done.
Qed.

Lemma each_applied_map (f : op -> bool) okIDs ops :
  each_applied okIDs ops (map f (others ops)) =
  map (fun o => if is_complete o then bool_decide (op_id o ∈ okIDs) else f o) ops.
Proof.
  induction ops as [|o ops IH]; simpl; [done|]. destruct (is_complete o) eqn:Hc.
  - rewrite filter_cons_False by (intros Hn; by apply Hn). by rewrite IH.
  - rewrite filter_cons_True by (by rewrite Hc). simpl. by rewrite IH.
Qed.

(** Reordering completions to the front changes nothing, when no claim reports
    twice in a batch. *)
Lemma split_perm ops : completes ops ++ others ops ≡ₚ ops.
Proof.
  induction ops as [|o ops IH]; simpl; [done|]. destruct (decide (is_complete o = true)) as [H|H].
  - rewrite filter_cons_True by done. rewrite filter_cons_False by (intros Hn; by apply Hn).
    simpl. by rewrite IH.
  - rewrite filter_cons_False by done. rewrite filter_cons_True by done.
    rewrite <-Permutation_middle. by rewrite IH.
Qed.

Lemma op_hit_perm a b id r : NoDup (op_key <$> a) -> a ≡ₚ b -> op_hit a id r = op_hit b id r.
Proof.
  intros Hnd Hp. unfold op_hit.
  assert (Hk : forall l, NoDup (op_key <$> l) ->
    (length (filter (fun o => op_key o = (id, r_lease_epoch r)) l) <= 1)%nat).
  { intros l Hl. destruct (filter _ l) as [|x [|y l']] eqn:Hf; simpl; [lia|lia|]. exfalso.
    assert (Hs : sublist (op_key <$> [x; y]) (op_key <$> l)).
    { apply sublist_map. etrans; [|apply (sublist_filter (fun o => op_key o = (id, r_lease_epoch r)))].
      rewrite Hf. do 2 constructor. apply sublist_nil_l. }
    assert (Hxy : forall z, z ∈ x :: y :: l' -> op_key z = (id, r_lease_epoch r)).
    { intros z Hz. rewrite <-Hf in Hz. apply list_elem_of_filter in Hz. tauto. }
    pose proof (sublist_NoDup _ _ Hl Hs) as Hnd2. simpl in Hnd2.
    rewrite !Hxy in Hnd2 by set_solver. apply NoDup_cons in Hnd2 as [Hn _]. set_solver. }
  assert (Hfp : filter (fun o => op_key o = (id, r_lease_epoch r)) a ≡ₚ
                filter (fun o => op_key o = (id, r_lease_epoch r)) b) by (by rewrite Hp).
  pose proof (Hk a Hnd) as Ha.
  destruct (filter _ a) as [|x [|? ?]]; simpl in *; [|..|lia].
  - apply Permutation_nil_l in Hfp. by rewrite <-Hfp.
  - symmetry in Hfp. apply Permutation_singleton_r in Hfp. by rewrite Hfp.
Qed.

Definition batch_applied (ops : list op) (db : DB) : list bool :=
  map (fun o => if is_complete o then bool_decide (op_id o ∈ ok_ids ops db) else applies db o) ops.

(** The part of [flush_tx] that follows the updates of [jobs]. *)
Lemma insert_attempts_rest xs : forall db db',
  insert_attempts xs db = Ok db' -> jobs db' = jobs db /\ job_events db' = job_events db.
Proof.
  induction xs as [|a xs IH]; simpl; intros db db'; [by intros [= ->]|].
  intros (db1 & H1 & H2)%result_bind_Ok. destruct (IH _ _ H2) as [-> ->].
  unfold insert_attempt_row in H1. repeat case_match; by simplify_eq/=.
Qed.

Lemma insert_attempts_total xs : forall db,
  Forall (fun a => is_Some (jobs db !! att_JobID a)) xs -> is_Ok (insert_attempts xs db) = true.
Proof.
  induction xs as [|a xs IH]; simpl; intros db; [done|]. intros [[r Hr] Hxs]%Forall_cons.
  unfold insert_attempt_row. destruct (job_attempts db !! _); simpl; [by apply IH|].
  rewrite Hr. simpl. by apply IH.
Qed.

Lemma NoDup_fmap_inj_on {A B} (f : A -> B) (l : list A) x y :
  NoDup (f <$> l) -> x ∈ l -> y ∈ l -> f x = f y -> x = y.
Proof.
  induction l as [|a l IH]; simpl; [by intros _ ?%not_elem_of_nil|].
  intros [Hn Hnd]%NoDup_cons Hx Hy E.
  apply elem_of_cons in Hx as [->|Hx], Hy as [->|Hy]; auto.
  - exfalso. apply Hn. rewrite E. by apply list_elem_of_fmap_2.
  - exfalso. apply Hn. rewrite <-E. by apply list_elem_of_fmap_2.
Qed.

(** What a committed flush did, in full: the rows, and the answers. *)
Lemma flush_tx_spec now ops db applied db' :
  exec_tx now (flush_tx ops) db = Ok (applied, db') ->
  (forall id, jobs db' !! id = ops_row now (completes ops ++ others ops) id <$> jobs db !! id) /\
  (NoDup (op_key <$> ops) -> applied = batch_applied ops db) /\
  length applied = length ops.
Proof.
  unfold flush_tx. rewrite exec_tx_bind.
  destruct (flush_completes_exec now ops db) as (db1 & -> & Hj1 & _).
  rewrite exec_tx_bind, flush_each_exec. set (ap := each_applied _ _ _).
  rewrite exec_tx_bind. simpl.
  pose proof (fun id => exec_ops_jobs now (others ops) db1 id) as Hj2.
  destruct (insert_attempts _ _) as [db3|] eqn:Hatt; [|done].
  apply insert_attempts_rest in Hatt as [Hj3 _].
  intros Htx. assert (Hfin : applied = ap /\ jobs db' = jobs db3).
  { destruct (flush_events ap ops) as [|e es]; simpl in Htx; [by simplify_eq|].
    destruct (_ && _) in Htx; by simplify_eq/=. }
  destruct Hfin as [-> Hj4]. split_and!.
  - intros id. rewrite Hj4, Hj3, Hj2, Hj1, <-option_fmap_compose.
    destruct (jobs db !! id) as [r|]; simpl; [|done]. f_equal. apply ops_row_app.
  - intros Hnd. unfold ap, batch_applied. rewrite exec_ops_applied.
    + rewrite <-each_applied_map. f_equal. apply map_ext_in.
      intros o Hin%list_elem_of_In. apply list_elem_of_filter in Hin as [Hnc Hin].
      unfold applies. rewrite Hj1. destruct (jobs db !! op_id o) as [r|]; simpl; [|done].
      unfold ops_row. destruct (status_is StatusRunning r) eqn:Hs; [|done].
      destruct (op_hit (completes ops) (op_id o) r) as [o'|] eqn:Ho'; [|done].
      unfold fence. rewrite op_effect_epoch, op_effect_done, Hs, andb_false_r, andb_true_r.
      symmetry. apply bool_decide_eq_false. intros He.
      pose proof (op_hit_completes _ _ _ _ Ho') as Hc. apply op_hit_In in Ho' as [Hin' Hk'].
      apply list_elem_of_filter in Hin' as [_ Hin'].
      assert (o = o') as ->; [|done]. eapply (NoDup_fmap_inj_on op_key ops); try done.
      unfold op_key at 1. by rewrite Hk', He.
    + eapply sublist_NoDup; [exact Hnd|]. apply sublist_map, sublist_filter.
  - unfold ap. pose proof (exec_ops_length now (others ops) db1) as Hlen. revert Hlen.
    generalize (exec_ops now (others ops) db1).1, (ok_ids ops db). clear. intros l ids.
    revert l. induction ops as [|o ops IH]; intros l Hl; simpl; [done|].
    destruct (is_complete o) eqn:Hc.
    + rewrite filter_cons_False in Hl by (intros Hn; by apply Hn). simpl. f_equal. by apply IH.
    + rewrite filter_cons_True in Hl by (by rewrite Hc). destruct l as [|b l]; simpl in *; [done|].
      f_equal. apply IH. lia.
Qed.

(** A flush of claims whose jobs exist always commits. *)
Lemma flush_tx_total now ops db :
  Forall (fun o => is_Some (jobs db !! op_id o) /\ att_JobID (op_att o) = op_id o) ops ->
  is_Ok (exec_tx now (flush_tx ops) db) = true.
Proof.
  intros Hops. unfold flush_tx. rewrite exec_tx_bind.
  destruct (flush_completes_exec now ops db) as (db1 & -> & Hj1 & _).
  rewrite exec_tx_bind, flush_each_exec.
  generalize (each_applied (ok_ids ops db) ops (exec_ops now (others ops) db1).1). intros ap.
  rewrite exec_tx_bind. simpl.
  pose proof (fun id => exec_ops_jobs now (others ops) db1 id) as Hj2.
  set (db2 := (exec_ops now (others ops) db1).2) in *. clearbody db2.
  assert (Hpres : forall o, o ∈ ops -> is_Some (jobs db2 !! op_id o)).
  { intros o Ho. rewrite Forall_forall in Hops. destruct (Hops o Ho) as [[r Hr] _].
    rewrite Hj2, Hj1, Hr. by eexists. }
  assert (Hatt : is_Ok (insert_attempts (map (fun o => batch_attempt (op_att o)) ops) db2) = true).
  { apply insert_attempts_total, Forall_forall. intros a Ha%list_elem_of_In%in_map_iff.
    destruct Ha as (o & <- & Ho%list_elem_of_In). simpl.
    rewrite Forall_forall in Hops. destruct (Hops o Ho) as [_ ->]. by apply Hpres. }
  destruct (insert_attempts _ _) as [db3|] eqn:Ha; [|done]. simpl.
  apply insert_attempts_rest in Ha as [Hj3 _].
  assert (Hev : forall x, x ∈ flush_events ap ops -> is_Some (jobs db3 !! x.1.1)).
  { rewrite Hj3. clear -Hpres. revert ops Hpres.
    induction ap as [|b ap IH]; intros [|o ops] Hpres x; simpl;
      try (by intros ?%not_elem_of_nil); try (destruct b; by intros ?%not_elem_of_nil).
    assert (Hrest : x ∈ flush_events ap ops -> is_Some (jobs db2 !! x.1.1)).
    { apply IH. intros. apply Hpres. by constructor. }
    assert (Ho : is_Some (jobs db2 !! op_id o)) by (apply Hpres; constructor).
    destruct b; [|done]. unfold op_event.
    destruct (op_kind o); try done; intros [->|Hx]%elem_of_cons; auto. }
  destruct (flush_events ap ops) as [|e es]; simpl; [done|].
  assert (Hall : forallb (fun '(id, _, _) => bool_decide (is_Some (jobs db3 !! id))) (e :: es) = true).
  { apply forallb_forall. intros [[i n] d] Hin%list_elem_of_In.
    apply bool_decide_eq_true. apply (Hev (i, n, d)). done. }
  simpl in Hall. by rewrite Hall.
Qed.

Lemma bool_decide_ext_bool (P : Prop) `{Decision P} (b : bool) :
  (P <-> b = true) -> bool_decide P = b.
Proof. intros HP. destruct b; case_bool_decide; naive_solver. Qed.

(** After a commit no operation of the batch matches any row. *)
Lemma flush_settles_all now ops db applied db1 o :
  exec_tx now (flush_tx ops) db = Ok (applied, db1) -> o ∈ ops -> applies db1 o = false.
Proof.
  intros Htx Ho. destruct (flush_tx_spec _ _ _ _ _ Htx) as (Hj & _ & _).
  unfold applies. rewrite Hj. destruct (jobs db !! op_id o) as [r|] eqn:Hr; simpl; [|done].
  unfold ops_row. destruct (status_is StatusRunning r) eqn:Hs.
  - destruct (op_hit (completes ops ++ others ops) (op_id o) r) as [o'|] eqn:Hh.
    + unfold fence. by rewrite op_effect_done, andb_false_r.
    + unfold fence. rewrite Hs, andb_true_r. apply bool_decide_eq_false. intros He.
      unfold op_hit in Hh. destruct (filter _ (_ ++ _)) as [|x l] eqn:Hf; [|done].
      apply (not_elem_of_nil o). rewrite <-Hf. apply list_elem_of_filter.
      split; [unfold op_key; by rewrite He|]. by rewrite split_perm.
  - unfold fence. by rewrite Hs, andb_false_r.
Qed.

Lemma exec_ops_noop now ops db :
  (forall o, o ∈ ops -> applies db o = false) -> exec_ops now ops db = (map (fun _ => false) ops, db).
Proof.
  induction ops as [|o ops IH]; intros Hno; simpl; [done|].
  pose proof (Hno o ltac:(constructor)) as Ho. rewrite op_stmt_exec. unfold update_where, applies in *.
  destruct (jobs db !! op_id o) as [r|]; [rewrite Ho|];
    (rewrite IH; [done|intros; apply Hno; by constructor]).
Qed.

Lemma flush_completes_noop now ops db :
  ok_ids ops db = [] -> exec_tx now (flush_completes ops) db = Ok ([], db).
Proof.
  intros Hok. destruct (flush_completes_exec now ops db) as (db1 & -> & Hj & Ha & He & Hw).
  rewrite Hok. do 2 f_equal. destruct db as [js xs es ws], db1 as [js1 xs1 es1 ws1]. simpl in *. subst.
  f_equal. apply map_eq. intros id. rewrite Hj. destruct (js !! id) as [r|] eqn:Hr; simpl; [|done].
  f_equal. unfold ops_row. destruct (status_is StatusRunning r) eqn:Hs; [|done].
  destruct (op_hit (completes ops) id r) as [o|] eqn:Ho; [|done]. exfalso.
  apply op_hit_In in Ho as [Hin Hk]. injection Hk as <- Hep.
  apply (not_elem_of_nil (op_id o)). rewrite <-Hok. apply ok_ids_spec.
  exists o, r. split_and!; try done. apply fence_spec. by apply bool_decide_eq_true in Hs.
Qed.

Lemma each_applied_none ops :
  each_applied [] ops (map (fun _ => false) (others ops)) = map (fun _ => false) ops.
Proof.
  rewrite (each_applied_map (fun _ => false)). apply map_ext. intros o.
  destruct (is_complete o); [|done]. apply bool_decide_eq_false, not_elem_of_nil.
Qed.

Lemma flush_events_none ops : flush_events (map (fun _ => false) ops) ops = [].
Proof. by induction ops. Qed.

Lemma insert_attempt_row_keep id n row db db' k :
  insert_attempt_row id n row db = Ok db' ->
  is_Some (job_attempts db !! k) \/ k = (id, n) -> is_Some (job_attempts db' !! k).
Proof.
  unfold insert_attempt_row. destruct (job_attempts db !! (id, n)) eqn:Ha.
  - intros [= <-] [?| ->]; eauto.
  - destruct (jobs db !! id); [|done]. intros [= <-]. simpl.
    destruct (decide ((id, n) = k)) as [<-|Hne]; [rewrite lookup_insert_eq; eauto|].
    rewrite lookup_insert_ne by done. intros [?|Hk]; [done|congruence].
Qed.

Lemma insert_attempts_keep xs : forall db db' k,
  insert_attempts xs db = Ok db' ->
  is_Some (job_attempts db !! k) \/ k ∈ map (fun a => (att_JobID a, att_Attempt a)) xs ->
  is_Some (job_attempts db' !! k).
Proof.
  induction xs as [|a xs IH]; simpl; intros db db' k.
  - intros [= <-] [?|?%not_elem_of_nil]; done.
  - intros (db1 & H1 & H2)%result_bind_Ok Hk. eapply IH; [done|].
    rewrite elem_of_cons in Hk.
    destruct (decide (k ∈ map (fun a => (att_JobID a, att_Attempt a)) xs)); [by right|left].
    eapply insert_attempt_row_keep; [done|]. naive_solver.
Qed.

Lemma insert_attempts_present xs db :
  (forall k, k ∈ map (fun a => (att_JobID a, att_Attempt a)) xs -> is_Some (job_attempts db !! k)) ->
  insert_attempts xs db = Ok db.
Proof.
  induction xs as [|a xs IH]; simpl; intros Hk; [done|].
  unfold insert_attempt_row. destruct (Hk (att_JobID a, att_Attempt a)) as [row ->]; [constructor|].
  simpl. apply IH. intros. apply Hk. by constructor.
Qed.

Lemma flush_attempts_again now ops db applied db1 :
  exec_tx now (flush_tx ops) db = Ok (applied, db1) ->
  insert_attempts (map (fun o => batch_attempt (op_att o)) ops) db1 = Ok db1.
Proof.
  unfold flush_tx. rewrite exec_tx_bind.
  destruct (flush_completes_exec now ops db) as (dbc & -> & _).
  rewrite exec_tx_bind, flush_each_exec, exec_tx_bind. simpl.
  destruct (insert_attempts _ _) as [db3|] eqn:Hatt; [|done]. intros Htx.
  assert (E : job_attempts db1 = job_attempts db3).
  { destruct (flush_events _ ops) as [|e es]; simpl in Htx; [by simplify_eq|].
    destruct (_ && _) in Htx; by simplify_eq/=. }
  apply insert_attempts_present. intros k Hk. rewrite E. eapply insert_attempts_keep; eauto.
Qed.

(** ** Theorems *)

(** C12. A batched flush is the sequential recording. For a batch in which no
    claim reports twice and whose jobs exist, the one transaction of
    [flushOnce] commits and leaves the [jobs] table exactly as if every
    operation had been sent as its own fenced UPDATE in order; and when no job
    appears twice in the batch, each operation is told [applied] exactly when
    its own UPDATE would have affected its row. *)
Theorem flush_is_sequential (now : Time) (ops : list op) (db : DB) :
  Forall (fun o => is_Some (jobs db !! op_id o) /\ att_JobID (op_att o) = op_id o) ops ->
  NoDup (op_key <$> ops) ->
  exists applied db', exec_tx now (flush_tx ops) db = Ok (applied, db') /\
    jobs db' = jobs (exec_ops now ops db).2 /\
    (NoDup (op_id <$> ops) -> applied = (exec_ops now ops db).1).
Proof.
  intros Hpres Hnd. pose proof (flush_tx_total now ops db Hpres) as Hok.
  destruct (exec_tx now (flush_tx ops) db) as [[applied db']|] eqn:Htx; [|done].
  destruct (flush_tx_spec _ _ _ _ _ Htx) as (Hj & Hap & _).
  exists applied, db'. split; [done|]. split.
  - apply map_eq. intros id. rewrite Hj, exec_ops_jobs.
    destruct (jobs db !! id) as [r|]; simpl; [|done]. f_equal. unfold ops_row.
    rewrite (op_hit_perm (completes ops ++ others ops) ops); [done| |apply split_perm].
    by rewrite split_perm.
  - intros Hids. rewrite (Hap Hnd), exec_ops_applied by done.
    apply map_ext_in. intros o Ho%list_elem_of_In. destruct (is_complete o) eqn:Hc; [|done].
    unfold applies. apply bool_decide_ext_bool. rewrite ok_ids_spec. split.
    + intros (o' & r & Ho' & E & -> & Hf). apply list_elem_of_filter in Ho' as [_ Ho'].
      by rewrite (NoDup_fmap_inj_on op_id ops o o').
    + destruct (jobs db !! op_id o) as [r|] eqn:Hr; [|done]. intros Hf.
      exists o, r. split_and!; try done. by apply list_elem_of_filter.
Qed.

(** The retry of a flush is safe. If a flush committed but its confirmation
    was lost, flushing the same batch again, at any later time, commits too,
    reports [applied = false] for every operation, and leaves the whole database
    unchanged: no second outcome, no second attempt row, no second event. *)
Theorem flush_again_is_noop (now now' : Time) (ops : list op) (db db1 : DB) (applied : list bool) :
  exec_tx now (flush_tx ops) db = Ok (applied, db1) ->
  exec_tx now' (flush_tx ops) db1 = Ok (map (fun _ => false) ops, db1).
Proof.
  intros Htx. pose proof (flush_tx_spec _ _ _ _ _ Htx) as (Hj & _ & _).
  assert (Hno : forall o, o ∈ ops -> applies db1 o = false) by (intros o Ho; by eapply flush_settles_all).
  assert (Hok : ok_ids ops db1 = []).
  { apply elem_of_nil_inv. intros id (o & r & Ho & <- & Hr & Hf)%ok_ids_spec.
    apply list_elem_of_filter in Ho as [_ Ho]. specialize (Hno o Ho). unfold applies in Hno.
    by rewrite Hr, Hf in Hno. }
  unfold flush_tx. rewrite exec_tx_bind, (flush_completes_noop now' ops db1 Hok).
  rewrite exec_tx_bind, flush_each_exec.
  rewrite (exec_ops_noop now' (others ops) db1) by
    (intros o Ho%list_elem_of_filter; apply Hno; tauto). simpl.
  rewrite each_applied_none. simpl.
  rewrite (flush_attempts_again _ _ _ _ _ Htx). simpl.
  by rewrite flush_events_none.
Qed.

Definition demo_attempt (n : Z) (outcome : Outcome) : Attempt :=
  {| att_JobID := "j1"; att_Attempt := n; att_WorkerID := "w1"; att_StartedAt := 1;
     att_FinishedAt := 2; att_Outcome := outcome; att_Error := EmptyString |}.
Definition demo_op (kind : opKind) (e : Z) : op :=
  {| op_kind := kind; op_id := "j1"; op_epoch := e; op_result := "42"; op_errMsg := "boom";
     op_nextAt := 9; op_att := demo_attempt e OutcomeCompleted |}.

Lemma flush_is_sequential_witness :
  exists applied db', exec_tx 2 (flush_tx [demo_op opComplete 1]) demo_claimed = Ok (applied, db') /\
    jobs db' = jobs (exec_ops 2 [demo_op opComplete 1] demo_claimed).2 /\ applied = [true].
Proof.
  destruct (flush_is_sequential 2 [demo_op opComplete 1] demo_claimed) as (ap & db' & H1 & H2 & H3).
  - constructor; [|constructor]. split; [|reflexivity]. vm_compute. eexists. reflexivity.
  - apply NoDup_singleton.
  - exists ap, db'. split; [exact H1|]. split; [exact H2|]. rewrite H3; [reflexivity|].
    apply NoDup_singleton.
Defined.

Lemma flush_again_is_noop_witness :
  exists db1, exec_tx 2 (flush_tx [demo_op opRetry 1]) demo_claimed = Ok ([true], db1) /\
    exec_tx 5 (flush_tx [demo_op opRetry 1]) db1 = Ok ([false], db1).
Proof.
  destruct (exec_tx 2 (flush_tx [demo_op opRetry 1]) demo_claimed) as [[ap db1]|] eqn:H;
    [|vm_compute in H; discriminate].
  exists db1. split; [vm_compute in H; injection H as <- <-; reflexivity|].
  exact (flush_again_is_noop 2 5 [demo_op opRetry 1] demo_claimed db1 ap H).
Defined.

(** The exception to "applied is false when the fence rejected the write":
    [okIDs] is keyed by job id, so when a stale and the current completion of one
    job meet in a batch, the stale one is told [applied = true] too, although
    its result was discarded. *)
Lemma stale_completion_reported_applied :
  let stale := {| op_kind := opComplete; op_id := "j1"; op_epoch := 0; op_result := "stale";
                  op_errMsg := EmptyString; op_nextAt := 0; op_att := demo_attempt 1 OutcomeCompleted |} in
  exists db', exec_tx 2 (flush_tx [stale; demo_op opComplete 1]) demo_claimed = Ok ([true; true], db') /\
    applies demo_claimed stale = false /\
    (jobs db' !! "j1") ≫= r_result = Some "42".
Proof. eexists. split; [vm_compute; reflexivity|]. split; reflexivity. Qed.

(** ** The flush loop *)

Lemma submitted_app e1 e2 : submitted (e1 ++ e2) = submitted e1 ++ submitted e2.
Proof. apply omap_app. Qed.

(** A batch that the size or the ticker flushed. *)
Abbreviation regular maxSize := (fun l : list op => (length l <= maxSize)%nat) (only parsing).

(** What the events [evs] and the flushed [batches] have made of the loop. *)
Record batcher_inv (maxSize : nat) (b : Batcher) (evs : list batcher_event) (batches : list (list op)) : Prop := {
  bi_all : concat batches ++ b_pending b ++ b_in b = submitted evs;
  bi_pending : b_draining b = false -> (length (b_pending b) < maxSize)%nat;
  bi_in : (length (b_in b) <= 2 * maxSize)%nat;
  bi_nonempty : Forall (fun l => l <> []) batches;
  bi_stop : b_draining b = true -> b_stopped b = true;
  bi_loop : b_exited b = false -> Forall (regular maxSize) batches;
  bi_exited : b_exited b = true -> b_draining b = true /\ b_pending b = [] /\
    (exists full rest, batches = full ++ loop_flush rest /\ Forall (regular maxSize) full) /\
    exists e1 e2, evs = e1 ++ DrainEnd :: e2 /\ concat batches = submitted e1
}.

Lemma concat_loop_flush l : concat (loop_flush l) = l.
Proof. destruct l; simpl; [done|]. by rewrite app_nil_r. Qed.

Lemma Forall_loop_flush (P : list op -> Prop) l :
  (l <> [] -> P l) -> Forall P (loop_flush l).
Proof. intros HP. destruct l; simpl; repeat constructor. by apply HP. Qed.

(** A step that flushes [fs] and leaves the loop running. *)
Lemma batcher_inv_running maxSize b b' evs ev batches fs :
  batcher_inv maxSize b evs batches -> b_exited b = false -> b_exited b' = false ->
  concat fs ++ b_pending b' ++ b_in b' = b_pending b ++ b_in b ++ submitted [ev] ->
  (b_draining b' = false -> (length (b_pending b') < maxSize)%nat) -> (length (b_in b') <= 2 * maxSize)%nat ->
  (b_draining b' = true -> b_stopped b' = true) -> Forall (fun l => l <> []) fs -> Forall (regular maxSize) fs ->
  batcher_inv maxSize b' (evs ++ [ev]) (batches ++ fs).
Proof.
  intros [] Hex Hex' Hall Hp Hi Hst Hne Hreg. constructor; try done.
  - rewrite submitted_app, <-bi_all0, concat_app, <-!app_assoc. by rewrite Hall.
  - by apply Forall_app.
  - intros _. apply Forall_app. auto.
  - by rewrite Hex'.
Qed.

(** After the loop's return only the channel and the flag [stop] move. *)
Lemma batcher_inv_exited maxSize b b' evs ev batches :
  batcher_inv maxSize b evs batches -> b_exited b = true -> b_exited b' = true -> b_draining b' = b_draining b ->
  b_pending b' = b_pending b -> b_in b' = b_in b ++ submitted [ev] -> b_stopped b' = b_stopped b ->
  (length (b_in b') <= 2 * maxSize)%nat -> batcher_inv maxSize b' (evs ++ [ev]) (batches ++ []).
Proof.
  intros [] Hex Hex' Hd Hp Hin Hst Hi. destruct (bi_exited0 Hex) as (Hd0 & Hp0 & Hb & e1 & e2 & -> & Hc).
  rewrite app_nil_r. constructor; rewrite ?Hp, ?Hd, ?Hst; try done.
  - by rewrite submitted_app, <-bi_all0, Hin, <-!app_assoc.
  - by rewrite Hex'.
  - intros _. split_and!; try done. exists e1, (e2 ++ [ev]). split; [|done]. by rewrite <-app_assoc.
Qed.

Lemma batcher_step_inv maxSize b ev b' fs evs batches :
  batcher_step maxSize b ev = Some (b', fs) ->
  batcher_inv maxSize b evs batches -> batcher_inv maxSize b' (evs ++ [ev]) (batches ++ fs).
Proof.
  intros Hs Hinv. pose proof Hinv as [_ Hp Hi _ Hst _ Hx]. destruct (b_exited b) eqn:Hex.
  { destruct (Hx eq_refl) as (Hd & Hpe & _). destruct b as [i p st dr ex]; simpl in *; subst.
    specialize (Hst eq_refl). subst st. destruct ev; simpl in Hs; try done.
    case_bool_decide; simplify_eq/=. eapply batcher_inv_exited; try done. simpl. rewrite length_app. simpl. lia. }
  destruct b as [i p st dr ex]; simpl in *; subst. clear Hx.
  assert (Hone : forall o, length (p ++ [o]) = S (length p)) by (intros; rewrite length_app; simpl; lia).
  destruct ev; simpl in Hs.
  - case_bool_decide; simplify_eq/=. eapply batcher_inv_running; try done; simpl.
    rewrite length_app. simpl. lia.
  - destruct dr, i as [|o i]; simplify_eq/=. specialize (Hp eq_refl).
    eapply batcher_inv_running; try done; simpl; rewrite ?app_nil_r; try lia.
    + case_bool_decide; simpl; rewrite ?concat_loop_flush; by rewrite <- ?app_assoc.
    + intros _. case_bool_decide; simpl; lia.
    + case_bool_decide; [|constructor]. by apply Forall_loop_flush.
    + case_bool_decide; [|constructor]. apply Forall_loop_flush. rewrite Hone. lia.
  - destruct dr; simplify_eq/=. specialize (Hp eq_refl).
    eapply batcher_inv_running; try done; simpl; rewrite ?app_nil_r; try lia.
    + by rewrite concat_loop_flush.
    + by apply Forall_loop_flush.
    + apply Forall_loop_flush. lia.
  - destruct st; simplify_eq/=. eapply batcher_inv_running; try done; simpl; by rewrite ?app_nil_r.
  - destruct st, dr; simplify_eq/=. eapply batcher_inv_running; try done; simpl; by rewrite ?app_nil_r.
  - destruct dr, i as [|o i]; simplify_eq/=.
    eapply batcher_inv_running; try done; simpl; rewrite ?app_nil_r, <- ?app_assoc; [done|lia].
  - destruct dr, i as [|o i]; simplify_eq/=. destruct Hinv as [Hall _ _ Hne _ Hreg _]. simpl in *.
    rewrite app_nil_r in Hall. constructor; simpl; try done; try lia.
    + by rewrite concat_app, concat_loop_flush, !app_nil_r, submitted_app, <-Hall, app_nil_r.
    + apply Forall_app. split; [done|]. by apply Forall_loop_flush.
    + intros _. split_and!; try done; [by eexists _, _; split; [|by apply Hreg]|].
      exists evs, []. split; [done|]. by rewrite concat_app, concat_loop_flush.
Qed.

Lemma batcher_run_inv maxSize evs : forall b b' fs evs0 batches,
  batcher_run maxSize b evs = Some (b', fs) ->
  batcher_inv maxSize b evs0 batches -> batcher_inv maxSize b' (evs0 ++ evs) (batches ++ fs).
Proof.
  induction evs as [|ev evs IH]; simpl; intros b b' fs evs0 batches Hr Hinv.
  - simplify_eq. by rewrite !app_nil_r.
  - destruct (batcher_step maxSize b ev) as [[b1 fs1]|] eqn:Hs; [|done].
    destruct (batcher_run maxSize b1 evs) as [[b2 fs2]|] eqn:Hr2; simplify_eq.
    pose proof (batcher_step_inv _ _ _ _ _ _ _ Hs Hinv) as H1.
    pose proof (IH _ _ _ _ _ Hr2 H1) as H2. by rewrite <-!app_assoc in H2.
Qed.

(** The channel's capacity, whatever the size. *)
Lemma batcher_run_room maxSize evs : forall b b' fs,
  batcher_run maxSize b evs = Some (b', fs) ->
  (length (b_in b) <= 2 * maxSize)%nat -> (length (b_in b') <= 2 * maxSize)%nat.
Proof.
  induction evs as [|ev evs IH]; simpl; intros b b' fs Hr Hb; [by simplify_eq|].
  destruct (batcher_step maxSize b ev) as [[b1 fs1]|] eqn:Hs; [|done].
  destruct (batcher_run maxSize b1 evs) as [[b2 fs2]|] eqn:Hr2; simplify_eq. apply (IH _ _ _ Hr2).
  destruct ev; simpl in Hs; repeat case_match; simplify_eq/=; reflect_bools; rewrite ?length_app; simpl; try lia.
Qed.

Lemma NewBatcher_inv maxSize : (1 <= maxSize)%nat -> batcher_inv maxSize NewBatcher [] [].
Proof. intros. constructor; simpl; try done; lia. Qed.

Lemma batcher_run_app maxSize e1 e2 : forall b b1 b2 f1 f2,
  batcher_run maxSize b e1 = Some (b1, f1) -> batcher_run maxSize b1 e2 = Some (b2, f2) ->
  batcher_run maxSize b (e1 ++ e2) = Some (b2, f1 ++ f2).
Proof.
  induction e1 as [|ev e1 IH]; simpl; intros b b1 b2 f1 f2 H1 H2; [by simplify_eq|].
  destruct (batcher_step maxSize b ev) as [[b' fs]|]; [|done].
  destruct (batcher_run maxSize b' e1) as [[b'' fs']|] eqn:Hr; [|done]. injection H1 as <- <-.
  rewrite (IH _ _ _ _ _ Hr H2). by rewrite app_assoc.
Qed.

(** With no more submissions the drain empties the channel and ends. *)
Lemma batcher_drains maxSize b : b_draining b = true -> b_exited b = false ->
  exists b' fs, batcher_run maxSize b (replicate (length (b_in b)) DrainReceive ++ [DrainEnd]) = Some (b', fs) /\
    b_exited b' = true /\ b_stopped b' = b_stopped b /\ concat fs = b_pending b ++ b_in b.
Proof.
  destruct b as [i p st dr ex]. simpl. revert p. induction i as [|o i IH]; simpl; intros p -> ->.
  - eexists _, _. split; [done|]. simpl. by rewrite !app_nil_r, concat_loop_flush.
  - destruct (IH (p ++ [o]) eq_refl eq_refl) as (b' & fs & Hr & Hex & Hst & Hc). exists b', fs.
    simpl. rewrite Hr. split; [done|]. split_and!; [done|done|]. by rewrite Hc, <-app_assoc.
Qed.

(** C23. The flush loop loses, duplicates and reorders nothing. Whatever the
    interleaving of submissions (before, during and after the shutdown),
    receives, interval ticks, the closing of [stop] and the single receives of
    the drain: the batches flushed so far, then what is pending, then what waits
    in the channel, are exactly the operations submitted, in order; no batch is
    empty; until the loop returns no batch has more than [BatchMaxSize]
    operations, and until the drain fewer are pending; the channel never holds
    more than twice as many. Once the loop has returned nothing is pending, only
    the last batch may have been larger, and the batches are exactly the
    operations that were submitted before it returned. Told to stop, and with no
    further submission, the loop ends after one receive for each operation in
    the channel, with everything in batches. *)
Theorem Batcher_loop (maxSize : nat) (evs : list batcher_event) (b : Batcher)
    (batches : list (list op)) :
  (1 <= maxSize)%nat -> batcher_run maxSize NewBatcher evs = Some (b, batches) ->
  concat batches ++ b_pending b ++ b_in b = submitted evs /\
  Forall (fun l => l <> []) batches /\
  (b_exited b = false -> Forall (fun l => length l <= maxSize)%nat batches) /\
  (b_draining b = false -> (length (b_pending b) < maxSize)%nat) /\ (length (b_in b) <= 2 * maxSize)%nat /\
  (b_exited b = true -> b_pending b = [] /\
     (exists full rest, batches = full ++ loop_flush rest /\ Forall (fun l => length l <= maxSize)%nat full) /\
     exists before after, evs = before ++ DrainEnd :: after /\ concat batches = submitted before) /\
  (b_stopped b = true -> b_exited b = false -> exists b' fs,
     batcher_run maxSize b ((if b_draining b then [] else [StopSeen]) ++
       replicate (length (b_in b)) DrainReceive ++ [DrainEnd]) = Some (b', fs) /\
     b_exited b' = true /\ concat (batches ++ fs) = submitted evs).
Proof.
  intros Hm Hr. apply (batcher_run_inv _ _ _ _ _ [] []) in Hr; [|by apply NewBatcher_inv].
  destruct Hr as [Hall Hp Hi Hne Hst Hreg Hx]. simpl in *. split_and!; try done.
  - intros Hex. by destruct (Hx Hex) as (_ & ? & ? & ?).
  - intros Hs Hex.
    assert (Hd : exists b1, batcher_run maxSize b (if b_draining b then [] else [StopSeen]) = Some (b1, []) /\
      b_draining b1 = true /\ b_exited b1 = false /\ b_in b1 = b_in b /\ b_pending b1 = b_pending b).
    { destruct (b_draining b) eqn:E; simpl; [by exists b|]. rewrite Hs, E. simpl. by eexists. }
    destruct Hd as (b1 & Hr1 & Hd1 & Hx1 & Hin1 & Hp1).
    destruct (batcher_drains maxSize b1 Hd1 Hx1) as (b' & fs & Hr2 & Hx2 & _ & Hc). rewrite Hin1 in Hr2.
    exists b', fs. rewrite (batcher_run_app _ _ _ _ _ _ _ _ Hr1 Hr2). split_and!; [done|done|].
    by rewrite concat_app, Hc, Hin1, Hp1.
Qed.

(** The drain takes an operation submitted while it runs. *)
Definition demo_drain : list batcher_event :=
  let o := demo_op opComplete 1 in
  [SubmitOp o; SubmitOp o; ReceiveOp; CloseStop; StopSeen; DrainReceive; SubmitOp o; DrainReceive; DrainEnd].

Lemma Batcher_loop_witness :
  let o := demo_op opComplete 1 in
  exists b, batcher_run 1 NewBatcher demo_drain = Some (b, [[o]; [o; o]]) /\ b_exited b = true /\
    concat [[o]; [o; o]] ++ b_pending b ++ b_in b = submitted demo_drain.
Proof.
  eexists. split; [reflexivity|]. split; [reflexivity|].
  apply (Batcher_loop 1 demo_drain); [lia|reflexivity].
Defined.

(** ** The Batcher keeps the recorder's contract *)

Lemma flush_tx_ok ops : tx_ok (flush_tx ops).
Proof.
  unfold flush_tx. apply tx_ok_bind.
  { unfold flush_completes. by destruct (completes ops). }
  intros ids. apply tx_ok_bind.
  { induction ops as [|o ops IH]; simpl; [done|]. destruct (is_complete o).
    - by apply tx_ok_bind.
    - split; [unfold op_stmt; by destruct (op_kind o)|]. intros n. by apply tx_ok_bind. }
  intros ap. simpl. split; [done|]. intros _. by destruct (flush_events ap ops).
Qed.

Section batch_law.
Context {R : Type} `{!RedisServer R}.
Context (pre : forall B, cmd B -> World R -> Prop).
Context (Hdb : forall B (c : cmd B) w1, is_db c = true -> pre B c w1).

Lemma applies_settled o db :
  handed_out (op_id o) (op_epoch o) db -> applies db o = false -> settled (op_id o) (op_epoch o) db.
Proof.
  intros (r & Hr & He) Ha. unfold applies in Ha. rewrite Hr in Ha.
  exists r. split; [done|]. apply not_true_iff_false in Ha. rewrite fence_spec in Ha.
  destruct (decide (r_lease_epoch r = op_epoch o)); [right|left; lia]. split; [done|]. tauto.
Qed.

(** One attempt at the flush: an error tells nothing, an answer settles every
    claim of the batch. *)
Lemma wp_flushOnce ops w :
  wp world_evolves pre (flushOnce ops)
    (fun r w' => world_evolves w w' /\
       (is_Ok r = true -> forall o, o ∈ ops -> handed_out (op_id o) (op_epoch o) (w_db w) ->
          settled (op_id o) (op_epoch o) (w_db w'))) w.
Proof.
  apply wp_tx. intros w1 Hw1. split; [by apply Hdb|]. intros now. split; [done|].
  intros applied db' Htx.
  assert (Hev : world_evolves w (with_db db' w1)).
  { unfold world_evolves in *. simpl. etrans; [exact Hw1|].
    eapply exec_tx_evolves; [apply flush_tx_ok|exact Htx]. }
  split; [|done]. split; [done|]. intros _ o Ho Hh.
  apply applies_settled; [by eapply evolves_handed_out|]. simpl. by eapply flush_settles_all.
Qed.

Lemma wp_submit before after o w :
  handed_out (op_id o) (op_epoch o) (w_db w) ->
  wp world_evolves pre (submit before after o)
    (fun r w' => world_evolves w w' /\ (is_Ok r = true -> settled (op_id o) (op_epoch o) (w_db w'))) w.
Proof.
  intros Hh. unfold submit, flush. set (ops := before ++ [o] ++ after).
  assert (Ho : o ∈ ops) by (unfold ops; set_solver).
  apply wp_bind, wp_bind. eapply wp_mono; [|apply wp_flushOnce].
  intros [ap|e] w1 [Hw1 Hs1]; simpl.
  - split; [done|]. intros _. by apply Hs1.
  - apply wp_bind. eapply wp_mono; [|apply wp_flushOnce].
    intros [ap|e2] w2 [Hw2 Hs2]; simpl; (split; [by etrans|]).
    + intros _. apply Hs2; [done|done|]. by eapply evolves_handed_out.
    + intros Hok. exfalso. revert Hok. unfold ops.
      rewrite map_app, app_nth2; rewrite length_map; [|lia]. by rewrite Nat.sub_diag.
Qed.
End batch_law.

#[export] Instance BatchRecorder_law (R : Type) `{!RedisServer R} before after :
  RecorderLaw R (BatchRecorder before after).
Proof.
  constructor. intros pre id e p w Hdb Hp Hh.
  destruct Hp; simpl; by apply (wp_submit pre Hdb before after (Build_op _ id e _ _ _ _) w).
Qed.

(** ** The discipline of the recorders *)

(** What a retry in a batch was submitted with: budget left for its claim. *)
Definition op_budgeted (db : DB) (o : op) : Prop :=
  op_kind o = opRetry -> budget_left (op_id o) (op_epoch o) db.

Lemma tx_budget_bind {A B} (t : free stmt A) (f : A -> free stmt B) db :
  tx_budget t db -> (forall a, tx_budget (f a) db) -> tx_budget (free_bind t f) db.
Proof.
  induction t as [a|X s k IH]; simpl; [auto|]. intros [Hs Hk] Hf. split; [done|]. eauto.
Qed.

Lemma flush_tx_budget ops db : Forall (op_budgeted db) ops -> tx_budget (flush_tx ops) db.
Proof.
  intros Hops. unfold flush_tx. apply tx_budget_bind.
  { unfold flush_completes. by destruct (filter _ ops). }
  intros ids. apply tx_budget_bind.
  { induction Hops as [|o ops Ho _ IH]; simpl; [done|]. destruct (is_complete o).
    - by apply tx_budget_bind.
    - split; [|intros n; by apply tx_budget_bind].
      unfold op_stmt, op_budgeted in *. destruct (op_kind o); simpl; auto. }
  intros ap. simpl. split; [done|]. intros _. by destruct (flush_events ap ops).
Qed.

(** A call of the recorder that keeps to the retry budget. *)
Inductive budget_call `{Recorder} (db : DB) (id : string) (e : Z) : prog (result error bool) -> Prop :=
| bc_complete res att : budget_call db id e (rec_Complete id e res att)
| bc_fail msg att : budget_call db id e (rec_Fail id e msg att)
| bc_retry msg t att : budget_left id e db -> budget_call db id e (rec_Retry id e msg t att)
| bc_dead msg att : budget_call db id e (rec_DeadLetter id e msg att)
| bc_cancelled att : budget_call db id e (rec_Cancelled id e att).

(** What the system needs of a recorder from the world [w0] on: it keeps to the
    discipline, if a retry is only recorded for a claim with budget left. *)
Class RecorderKeeps (R : Type) `{!RedisServer R} (rec : Recorder) (w0 : World R) := {
  rec_keeps id e p w :
    world_evolves w0 w -> budget_call (w_db w) id e p ->
    wp world_evolves disciplined p (fun _ w' => world_evolves w w') w
}.

Section keeps.
Context {R : Type} `{!RedisServer R}.
Implicit Types w : World R.

Lemma wp_flush_disciplined ops w :
  Forall (op_budgeted (w_db w)) ops ->
  wp world_evolves disciplined (flush ops) (fun _ w' => world_evolves w w') w.
Proof.
  intros Hops. assert (Hone : forall w0, world_evolves w w0 ->
    wp world_evolves disciplined (flushOnce ops) (fun _ w' => world_evolves w0 w') w0).
  { intros w0 H0. apply wp_tx. intros w1 H1. split.
    - split; [apply flush_tx_ok|]. apply flush_tx_budget. eapply Forall_impl; [exact Hops|].
      intros o Ho Hk. eapply evolves_budget_left; [|by apply Ho]. by etrans.
    - intros now. split; [done|]. intros ap db' Htx.
      assert (world_evolves w0 (with_db db' w1)); [|done].
      etrans; [exact H1|]. eapply exec_tx_evolves; [apply flush_tx_ok|exact Htx]. }
  unfold flush. apply wp_bind. eapply wp_mono; [|apply Hone; reflexivity].
  intros [ap|e] w1 H1; simpl in *; [done|]. apply wp_bind. eapply wp_mono; [|by apply Hone].
  intros [ap|e2] w2 H2; simpl in *; by etrans.
Qed.

#[export] Instance SyncRecorder_keeps (w0 : World R) : RecorderKeeps R SyncRecorder w0.
Proof.
  constructor. intros id e p w _ Hp.
  assert (Hplain : forall p att, only plain p -> only plain (sync_after p att)).
  { intros p0 att Hp0. unfold sync_after, sync_record. only_calls. }
  destruct Hp as [| |msg t att Hb| |]; simpl in *; try solve [apply wp_plain, Hplain; eauto with only].
  unfold sync_after, ScheduleRetry. apply wp_ok, wp_ok, wp_Errorf, wp_sql.
  intros w1 H1. split; [split; [done|]; by eapply evolves_budget_left|]. intros now.
  assert (H2 : world_evolves w (with_db (exec_stmt now (UpdateRetry id e msg t) (w_db w1)).2 w1)).
  { etrans; [exact H1|]. by apply (evolves_step now (UpdateRetry id e msg t)). }
  split_and!; [done|done|].
  destruct (exec_stmt now (UpdateRetry id e msg t) (w_db w1)) as [[n|m] db2]; simpl in *; [|done].
  eapply wp_mono; [|apply wp_plain, plain_with_event]. intros [b|err] w3 H3; simpl in *; [|by etrans].
  eapply wp_mono; [|apply wp_plain; unfold sync_record; only_calls]. intros u w4 H4. simpl in *.
  by do 2 (etrans; [eassumption|]).
Qed.

#[export] Instance BatchRecorder_keeps before after (w0 : World R) :
  TCForall (op_budgeted (w_db w0)) (before ++ after) ->
  RecorderKeeps R (BatchRecorder before after) w0.
Proof.
  intros Hops%TCForall_Forall%Forall_app. constructor. intros id e p w Hw Hp.
  assert (Hold : forall o, op_budgeted (w_db w0) o -> op_budgeted (w_db w) o).
  { intros o Ho Hk. eapply evolves_budget_left; [exact Hw|by apply Ho]. }
  assert (Hsub : forall o, op_budgeted (w_db w) o ->
    wp world_evolves disciplined (submit before after o) (fun _ w' => world_evolves w w') w).
  { intros o Ho. unfold submit. apply wp_bind. eapply wp_mono; [|apply wp_flush_disciplined]; [done|].
    destruct Hops as [H1 H2]. rewrite !Forall_app. split_and!;
      [eapply Forall_impl; [exact H1|done]|by repeat constructor|eapply Forall_impl; [exact H2|done]]. }
  destruct Hp; simpl in *; apply Hsub; intros Hk; done.
Qed.
End keeps.

(** The caller's side of a batch when the flush is left to the goroutine of the
    batcher: it waits for some answer. *)
Definition AwaitRecorder (answer : result error bool) : Recorder := {|
  rec_Complete _ _ _ _ := Ret answer; rec_Fail _ _ _ _ := Ret answer;
  rec_Retry _ _ _ _ _ := Ret answer; rec_DeadLetter _ _ _ _ := Ret answer;
  rec_Cancelled _ _ _ := Ret answer
|}.

#[export] Instance AwaitRecorder_keeps {R : Type} `{!RedisServer R} answer (w0 : World R) :
  RecorderKeeps R (AwaitRecorder answer) w0.
Proof. constructor. intros id e p w _ Hp. destruct Hp; simpl; reflexivity. Qed.

(** C13. Durability of the record. For the synchronous recorder, and for the
    batcher whatever else is in the batch: if a recording call for a claim that
    was handed out returns without error - applied or not - then the claim is
    settled in Postgres, whatever other processes did meanwhile and whichever
    statements or commits failed or lost their answer on the way. *)
Theorem recorders_durable {R : Type} `{!RedisServer R} (rec : Recorder) (id : string) (e : Z)
    (p : prog (result error bool)) (w : World R) :
  (rec = SyncRecorder \/ exists before after, rec = BatchRecorder before after) ->
  @rec_call rec id e p -> handed_out id e (w_db w) ->
  wp world_evolves no_pre p (fun r w' => is_Ok r = true -> settled id e (w_db w')) w.
Proof.
  intros Hrec Hp Hh.
  assert (Hlaw : RecorderLaw R rec) by (destruct Hrec as [->|(? & ? & ->)]; apply _).
  eapply wp_mono; [|by eapply (rec_settles no_pre)]. simpl. tauto.
Qed.

Lemma recorders_durable_witness :
  exists w', run (rec_Complete "j1" 1 "42" (demo_attempt 1 OutcomeCompleted)) [fine 2; fine 2]
    (demo_world demo_claimed) = (Some (Ok true), w') /\ settled "j1" 1 (w_db w').
Proof.
  assert (Hh : handed_out "j1" 1 (w_db (demo_world demo_claimed))).
  { eexists. split; [vm_compute; reflexivity|]. vm_compute. discriminate. }
  pose proof (wp_run world_evolves no_pre _ _ _ (demo_world demo_claimed) [fine 2; fine 2]
    (recorders_durable SyncRecorder "j1" 1
       (rec_Complete "j1" 1 "42" (demo_attempt 1 OutcomeCompleted)) (demo_world demo_claimed)
       (or_introl eq_refl) (rc_complete "j1" 1 _ _) Hh)) as H.
  eexists. split; [vm_compute; reflexivity|]. vm_compute run in H. exact (H eq_refl).
Defined.
