(* ===== verification/Queue.v ===== *)
(** * Queue: the Redis layer

    Models [internal/queue/queue.go]: key names, enqueue, fetch, ack, heartbeat,
    the delayed set and its promotion script, the reaper's XAUTOCLAIM, cancel
    flags, depths, and the leader lock.  Programs over the commands of
    [Redis.v]; the wire codec is the interface [EnvelopeJSON]. *)

From S2P Require Import Prelude Errors Rfc3339 Job Database Redis Effects Rely.
Local Open Scope string_scope.
Local Open Scope list_scope.
Local Open Scope Z_scope.
Local Open Scope prog_scope.
#[local] Arguments Z.mul : simpl never.
#[local] Arguments Z.max : simpl never.

(** ** Keys *)

Record queue := { prefix : string; queue_name : string }.

(** The defaults [New] fills in. *)
Definition queue_New (cfg_Prefix cfg_Queue : string) : queue :=
  {| prefix := if bool_decide (cfg_Prefix = EmptyString) then "calligraphy" else cfg_Prefix;
     queue_name := if bool_decide (cfg_Queue = EmptyString) then DefaultQueue else cfg_Queue |}.

Definition QueueName (q : queue) : string := queue_name q.

Definition streamKey (q : queue) (p : Priority) : string :=
  prefix q +:+ ":stream:" +:+ queue_name q +:+ ":" +:+ p.
Definition delayedKey (q : queue) (p : Priority) : string :=
  prefix q +:+ ":delayed:" +:+ queue_name q +:+ ":" +:+ p.
Definition dlqKey (q : queue) : string := prefix q +:+ ":dlq:" +:+ queue_name q.
Definition cancelKey (q : queue) (id : string) : string := prefix q +:+ ":cancel:" +:+ id.
Definition leaderKey (q : queue) (role : string) : string := prefix q +:+ ":leader:" +:+ role.

Definition ReaperConsumer : string := "calligraphy-reaper".
Definition dlqMaxLen : Z := 10000.

(** [errors.Is(err, redis.Nil)]. *)
Definition is_nil (e : error) : bool := errors_Is (Some e) ErrRedisNil.

(** [m.Values[name].(string)]: the zero value when the field is missing. *)
Definition field (name : string) (m : entry) : string :=
  default EmptyString (snd <$> last (filter (fun f => f.1 = name) m.2)).

Record Delivery := { del_Env : Envelope; del_EntryID : string; del_Priority : Priority }.

Section queue_ops.
Context `{EnvelopeJSON} (q : queue).

(** ** Enqueue *)

Definition add_delayed (prefix : string) (p : Priority) (encoded : string) (at_time : Time)
    : prog (result error unit) :=
  Errorf prefix (rdb (ZADD (delayedKey q p) (UnixMilli at_time) encoded)).

Definition Enqueue (env : Envelope) (at_time : Time) : prog (result error string) :=
  encoded <-? Ret (Encode env) ;;
  now <- time_Now ;;
  if now <? at_time then
    _ <-? add_delayed "queue: delayed enqueue: " (env_Priority env) encoded at_time ;; Ret (Ok "delayed")
  else
    Errorf "queue: enqueue: " (rdb (XADD (streamKey q (env_Priority env)) [("j", encoded)])).

(** ** Ack *)

(** A pipeline of both commands; the first error is reported. *)
Definition Ack (p : Priority) (entryID : string) : prog (result error unit) :=
  r1 <- rdb (XACK (streamKey q p) entryID) ;;
  r2 <- rdb (XDEL (streamKey q p) entryID) ;;
  Ret (wrap_err ("queue: ack " +:+ entryID +:+ ": ")
         (match r1 with Err e => Err e | Ok _ => r2 end)).

(** ** Fetch *)

Definition decodeMessage (m : entry) (p : Priority) : prog (option Delivery) :=
  match DecodeEnvelope (field "j" m) with
  | Err _ => Ack p m.1 ;;; Ret None
  | Ok env => Ret (Some {| del_Env := env; del_EntryID := m.1; del_Priority := p |})
  end.

Fixpoint appendDeliveries (out : list Delivery) (msgs : list entry) (p : Priority)
    : prog (list Delivery) :=
  match msgs with
  | [] => Ret out
  | m :: ms =>
      d <- decodeMessage m p ;;
      appendDeliveries (match d with Some d => out ++ [d] | None => out end) ms p
  end.

Definition priorityOfStream (stream : string) : Priority :=
  default PriorityDefault (head (filter (fun p => streamKey q p = stream) PriorityOrder)).

(** The non-blocking pass over the priorities; the flag says that [Fetch]
    returned from inside the loop. *)
Fixpoint fetch_pass (consumer : string) (max : Z) (ps : list Priority) (out : list Delivery)
    : prog (bool * (list Delivery * option error)) :=
  match ps with
  | [] => Ret (false, (out, None))
  | p :: ps' =>
      if max <=? Z.of_nat (length out) then Ret (true, (out, None)) else
      r <- rdb (XREADGROUP consumer (streamKey q p) (max - Z.of_nat (length out))) ;;
      match r with
      | Err e =>
          if is_nil e then fetch_pass consumer max ps' out
          else Ret (true, (out, Some (EWrap ("queue: fetch " +:+ p +:+ ": ") e)))
      | Ok msgs =>
          out' <- appendDeliveries out msgs p ;; fetch_pass consumer max ps' out'
      end
  end.

(** The streams of a blocking answer, one after the other. *)
Fixpoint append_streams (out : list Delivery) (streams : list (string * list entry))
    : prog (list Delivery) :=
  match streams with
  | [] => Ret out
  | s :: ss =>
      out' <- appendDeliveries out s.2 (priorityOfStream s.1) ;; append_streams out' ss
  end.

Definition Fetch (consumer : string) (max : Z) (block : Duration)
    : prog (list Delivery * option error) :=
  pass <- fetch_pass consumer max PriorityOrder [] ;;
  let out := pass.2.1 in
  if pass.1 : bool then Ret pass.2
  else if (0 <? Z.of_nat (length out)) || (block <=? 0) then Ret (out, None)
  else
    r <- rdb (XREADGROUP_BLOCK consumer (map (streamKey q) PriorityOrder) max) ;;
    match r with
    | Err e =>
        if is_nil e then Ret (out, None)
        else Ret (out, Some (EWrap "queue: blocking fetch: " e))
    | Ok streams => out' <- append_streams out streams ;; Ret (out', None)
    end.

(** ** Heartbeat *)

Definition Heartbeat (consumer : string) (p : Priority) (entryID : string) : prog (result error unit) :=
  r <- rdb (XCLAIM_JUSTID consumer (streamKey q p) entryID) ;;
  match r with
  | Err e => if is_nil e then Ret (Ok tt)
             else Ret (Err (EWrap ("queue: heartbeat " +:+ entryID +:+ ": ") e))
  | Ok _ => Ret (Ok tt)
  end.

(** ** Retry, dead letters *)

Definition ScheduleRetry (env : Envelope) (at_time : Time) : prog (result error unit) :=
  encoded <-? Ret (Encode env) ;;
  add_delayed "queue: scheduling retry: " (env_Priority env) encoded at_time.

Definition DeadLetter (env : Envelope) (errMsg : string) : prog (result error unit) :=
  encoded <-? Ret (Encode env) ;;
  now <- time_Now ;;
  _ <-? Errorf "queue: dead-lettering: "
    (rdb (XADD_MAXLEN (dlqKey q) dlqMaxLen
       [("j", encoded); ("error", errMsg); ("at", FormatRFC3339 now)])) ;;
  Ret (Ok tt).

Record DLQEntry := { dlq_EntryID : string; dlq_Env : Envelope; dlq_Error : string; dlq_At : string }.

Definition dlq_entry (m : entry) : option DLQEntry :=
  match DecodeEnvelope (field "j" m) with
  | Err _ => None
  | Ok env => Some {| dlq_EntryID := m.1; dlq_Env := env; dlq_Error := field "error" m;
                      dlq_At := field "at" m |}
  end.

Definition ListDLQ (limit : Z) : prog (result error (list DLQEntry)) :=
  msgs <-? Errorf "queue: listing dlq: " (rdb (XREVRANGE (dlqKey q) limit)) ;;
  Ret (Ok (omap dlq_entry msgs)).

(** ** Promote *)

(** The Lua script: read the due members, XADD and ZREM each. *)
Fixpoint promote_each (streamKey delayedKey : string) (due : list string) : free redis_cmd unit :=
  match due with
  | [] => Ret tt
  | member :: due' =>
      Vis (XADD streamKey [("j", member)]) (fun _ =>
      Vis (ZREM delayedKey member) (fun _ => promote_each streamKey delayedKey due'))
  end.
Definition promoteScript (delayedKey streamKey : string) (now batch : Z)
    : free redis_cmd (list string) :=
  Vis (ZRANGEBYSCORE delayedKey now batch) (fun due =>
  promote_each streamKey delayedKey due ;;; Ret due).

Definition decode_members (ms : list string) : list Envelope :=
  omap (fun s => match DecodeEnvelope s with Ok env => Some env | Err _ => None end) ms.

Fixpoint promote_pass (now batch : Z) (ps : list Priority) (promoted : list Envelope)
    : prog (list Envelope * option error) :=
  match ps with
  | [] => Ret (promoted, None)
  | p :: ps' =>
      r <- call (Script (promoteScript (delayedKey q p) (streamKey q p) now batch)) ;;
      match r with
      | Err e => Ret (promoted, Some (EWrap ("queue: promoting " +:+ p +:+ ": ") e))
      | Ok members => promote_pass now batch ps' (promoted ++ decode_members members)
      end
  end.

Definition PromoteDue (batch : Z) : prog (list Envelope * option error) :=
  now <- time_Now ;; promote_pass (UnixMilli now) batch PriorityOrder [].

(** ** Reap *)

Fixpoint reap_pass (minIdle : Duration) (batch : Z) (ps : list Priority) (out : list Delivery)
    : prog (list Delivery * option error) :=
  match ps with
  | [] => Ret (out, None)
  | p :: ps' =>
      r <- rdb (XAUTOCLAIM ReaperConsumer (streamKey q p) minIdle batch) ;;
      match r with
      | Err e =>
          if is_nil e then reap_pass minIdle batch ps' out
          else Ret (out, Some (EWrap ("queue: autoclaim " +:+ p +:+ ": ") e))
      | Ok msgs => out' <- appendDeliveries out msgs p ;; reap_pass minIdle batch ps' out'
      end
  end.
Definition ReapAbandoned (minIdle : Duration) (batch : Z) : prog (list Delivery * option error) :=
  reap_pass minIdle batch PriorityOrder [].

(** ** Cancel *)

Definition RequestCancel (jobID : string) (ttl : Duration) : prog (result error unit) :=
  Errorf "queue: requesting cancel: " (rdb (SET (cancelKey q jobID) "1" ttl)).

Definition IsCancelRequested (jobID : string) : prog (result error bool) :=
  n <-? Errorf "queue: checking cancel: " (rdb (EXISTS (cancelKey q jobID))) ;;
  Ret (Ok (n =? 1)).

(** ** Depths *)

Record Depths := {
  Ready : list (Priority * Z); Delayed : list (Priority * Z); InFlight : Z; DLQ : Z
}.

Definition TotalReady (d : Depths) : Z := foldr (fun x n => x.2 + n) 0 (Ready d).

(** The replies of the pipeline for one priority: XLEN, ZCARD, XPENDING. *)
Fixpoint read_depths (ps : list Priority) : prog (result error (list (Priority * (Z * Z * Z)))) :=
  match ps with
  | [] => Ret (Ok [])
  | p :: ps' =>
      x <-? rdb (XLEN (streamKey q p)) ;;
      z <-? rdb (ZCARD (delayedKey q p)) ;;
      n <-? rdb (XPENDING (streamKey q p)) ;;
      rest <-? read_depths ps' ;;
      Ret (Ok ((p, (x, z, n)) :: rest))
  end.

Definition depths_of (replies : list (Priority * (Z * Z * Z))) (dlq : Z) : Depths :=
  {| Ready := map (fun '(p, (x, _, n)) => (p, if x - n <? 0 then 0 else x - n)) replies;
     Delayed := map (fun '(p, (_, z, _)) => (p, z)) replies;
     InFlight := foldr (fun '(_, (_, _, n)) acc => n + acc) 0 replies;
     DLQ := dlq |}.

Definition ReadDepths : prog (result error Depths) :=
  replies <-? Errorf "queue: reading depths: " (read_depths PriorityOrder) ;;
  dlq <-? Errorf "queue: reading depths: " (rdb (XLEN (dlqKey q))) ;;
  Ret (Ok (depths_of replies dlq)).

(** ** Leader lock *)

Definition releaseScript (key id : string) : free redis_cmd Z :=
  Vis (GET key) (fun v =>
  if bool_decide (v = Some id) then Vis (DEL key) (fun _ => Ret 1) else Ret 0).
Definition renewScript (key id : string) (ttl : Duration) : free redis_cmd Z :=
  Vis (GET key) (fun v =>
  if bool_decide (v = Some id) then Vis (PEXPIRE key ttl) Ret else Ret 0).

Definition AcquireLeader (role id : string) (ttl : Duration) : prog (result error bool) :=
  Errorf "queue: acquiring leadership: " (rdb (SETNX (leaderKey q role) id ttl)).

(** [ttl.Milliseconds()] truncates. *)
Definition whole_millis (ttl : Duration) : Duration := Z.quot ttl Millisecond * Millisecond.
Definition RenewLeader (role id : string) (ttl : Duration) : prog (result error bool) :=
  n <-? Errorf "queue: renewing leadership: "
    (call (Script (renewScript (leaderKey q role) id (whole_millis ttl)))) ;;
  Ret (Ok (n =? 1)).

Definition ReleaseLeader (role id : string) : prog (result error unit) :=
  r <- call (Script (releaseScript (leaderKey q role) id)) ;;
  match r with
  | Ok _ => Ret (Ok tt)
  | Err e => if is_nil e then Ret (Ok tt) else Ret (Err (EWrap "queue: releasing leadership: " e))
  end.
End queue_ops.

(** ** The queue never touches Postgres *)

Section plain.
Context `{EnvelopeJSON} (q : queue).

Lemma plain_add_delayed pre p text t : only plain (add_delayed q pre p text t).
Proof. unfold add_delayed. only_calls. Qed.
#[local] Hint Resolve plain_add_delayed : only.
Lemma plain_Enqueue env t : only plain (Enqueue q env t).
Proof. unfold Enqueue. only_calls. Qed.
Lemma plain_Ack p id : only plain (Ack q p id).
Proof. unfold Ack. only_calls. Qed.
#[local] Hint Resolve plain_Ack : only.
Lemma plain_appendDeliveries msgs p : forall out, only plain (appendDeliveries q out msgs p).
Proof.
  induction msgs as [|m ms IH]; intros out; simpl; [done|]. unfold decodeMessage. only_calls.
Qed.
#[local] Hint Resolve plain_appendDeliveries : only.
Lemma plain_fetch_pass c max ps : forall out, only plain (fetch_pass q c max ps out).
Proof. induction ps as [|p ps IH]; intros out; only_calls. Qed.
#[local] Hint Resolve plain_fetch_pass : only.
Lemma plain_append_streams ss : forall out, only plain (append_streams q out ss).
Proof. induction ss as [|s ss IH]; intros out; only_calls. Qed.
#[local] Hint Resolve plain_append_streams : only.
Lemma plain_Fetch c max b : only plain (Fetch q c max b).
Proof. unfold Fetch. only_calls. Qed.
Lemma plain_Heartbeat c p id : only plain (Heartbeat q c p id).
Proof. unfold Heartbeat. only_calls. Qed.
Lemma plain_ScheduleRetry env t : only plain (ScheduleRetry q env t).
Proof. unfold ScheduleRetry. only_calls. Qed.
Lemma plain_DeadLetter env msg : only plain (DeadLetter q env msg).
Proof. unfold DeadLetter. only_calls. Qed.
Lemma plain_promote_pass now b ps : forall out, only plain (promote_pass q now b ps out).
Proof. induction ps as [|p ps IH]; intros out; only_calls. Qed.
Lemma plain_PromoteDue b : only plain (PromoteDue q b).
Proof. pose proof plain_promote_pass. unfold PromoteDue. only_calls. Qed.
Lemma plain_reap_pass mi b ps : forall out, only plain (reap_pass q mi b ps out).
Proof. induction ps as [|p ps IH]; intros out; only_calls. Qed.
Lemma plain_ReapAbandoned mi b : only plain (ReapAbandoned q mi b).
Proof. apply plain_reap_pass. Qed.
Lemma plain_RequestCancel id ttl : only plain (RequestCancel q id ttl).
Proof. unfold RequestCancel. only_calls. Qed.
Lemma plain_IsCancelRequested id : only plain (IsCancelRequested q id).
Proof. unfold IsCancelRequested. only_calls. Qed.
Lemma plain_ReadDepths : only plain (ReadDepths q).
Proof.
  unfold ReadDepths. assert (forall ps, only plain (read_depths q ps)) by
    (intros ps; induction ps; only_calls). only_calls.
Qed.
Lemma plain_AcquireLeader role id ttl : only plain (AcquireLeader q role id ttl).
Proof. unfold AcquireLeader. only_calls. Qed.
Lemma plain_RenewLeader role id ttl : only plain (RenewLeader q role id ttl).
Proof. unfold RenewLeader. only_calls. Qed.
Lemma plain_ReleaseLeader role id : only plain (ReleaseLeader q role id).
Proof. unfold ReleaseLeader. only_calls. Qed.
End plain.
#[export] Hint Resolve plain_Enqueue plain_Ack plain_Fetch plain_Heartbeat plain_ScheduleRetry
  plain_DeadLetter plain_PromoteDue plain_ReapAbandoned plain_RequestCancel plain_IsCancelRequested
  plain_ReadDepths plain_AcquireLeader plain_RenewLeader plain_ReleaseLeader : only.

(** ** Keys are distinct *)

Lemma streamKey_inj q p p' : streamKey q p = streamKey q p' -> p = p'.
Proof. unfold streamKey. intros E. by repeat apply (inj _) in E. Qed.
Lemma delayedKey_inj q p p' : delayedKey q p = delayedKey q p' -> p = p'.
Proof. unfold delayedKey. intros E. by repeat apply (inj _) in E. Qed.
Lemma cancelKey_inj q i i' : cancelKey q i = cancelKey q i' -> i = i'.
Proof. unfold cancelKey. intros E. by repeat apply (inj _) in E. Qed.

Lemma priorityOfStream_spec q p : p ∈ PriorityOrder -> priorityOfStream q (streamKey q p) = p.
Proof.
  intros Hp. unfold priorityOfStream.
  destruct (filter (fun p' => streamKey q p' = streamKey q p) PriorityOrder) as [|x l] eqn:Hf.
  - exfalso. apply (not_elem_of_nil p). rewrite <-Hf. by apply list_elem_of_filter.
  - simpl. assert (Hx : x ∈ x :: l) by constructor. rewrite <-Hf in Hx.
    apply list_elem_of_filter in Hx as [Hx _]. by apply streamKey_inj in Hx.
Qed.

Section queue_facts.
Context {R : Type} `{!RedisServer R} `{EnvelopeJSON} (q : queue).
Implicit Types w : World R.
#[local] Transparent call pgExec rdb time_Now.

(** ** Decoding *)

(** The entry carries an envelope, and the delivery it becomes. *)
Definition decodable (m : entry) : Prop := is_Ok (DecodeEnvelope (field "j" m)) = true.
Definition deliver (p : Priority) (m : entry) : list Delivery :=
  match DecodeEnvelope (field "j" m) with
  | Ok env => [{| del_Env := env; del_EntryID := m.1; del_Priority := p |}]
  | Err _ => []
  end.

Lemma appendDeliveries_ok p ms : forall out,
  Forall decodable ms -> appendDeliveries q out ms p = Ret (out ++ (ms ≫= deliver p)).
Proof.
  induction ms as [|m ms IH]; intros out Hms; simpl; [by rewrite app_nil_r|].
  apply Forall_cons in Hms as [Hm Hms]. unfold decodeMessage, decodable, deliver in *.
  destruct (DecodeEnvelope (field "j" m)) as [env|]; [|done]. simpl. rewrite IH by done.
  by rewrite <-app_assoc.
Qed.

Lemma deliver_length p ms : Forall decodable ms -> length (ms ≫= deliver p) = length ms.
Proof.
  induction 1 as [|m ms Hm _ IH]; [done|]. rewrite bind_cons, length_app, IH.
  unfold deliver, decodable in *. by destruct (DecodeEnvelope (field "j" m)).
Qed.

Lemma deliver_take p n ms : Forall decodable ms -> take n ms ≫= deliver p = take n (ms ≫= deliver p).
Proof.
  intros Hms. revert n. induction Hms as [|m ms Hm _ IH]; intros [|n]; try done.
  rewrite firstn_cons, !bind_cons, IH. unfold deliver at 1 3. unfold decodable in Hm.
  by destruct (DecodeEnvelope (field "j" m)).
Qed.

(** ** Fetch *)

(** What waits for a consumer, in the order of the priorities. *)
Definition backlog (ps : list Priority) (s : R) : list Delivery :=
  ps ≫= fun p => unread (streamKey q p) s ≫= deliver p.

Definition fine_ticks (ts : list ((World R -> World R) * tick)) : Prop :=
  Forall (fun x => exists t, x = alone (fine t)) ts.

Lemma fetch_pass_run consumer max ps : NoDup ps ->
  forall out ts w, fine_ticks ts -> (length ps <= length ts)%nat -> Z.of_nat (length out) <= max ->
  (forall p, p ∈ ps -> Forall decodable (unread (streamKey q p) (w_redis w))) ->
  exists early ts' w',
    steps (fetch_pass q consumer max ps out) ts w =
      (Some ((early, (take (Z.to_nat max) (out ++ backlog ps (w_redis w)), None)), ts'), w') /\
    fine_ticks ts' /\ (length ts <= length ts' + length ps)%nat.
Proof.
  induction 1 as [|p ps Hp Hnd IH]; intros out ts w Hts Hlen Hout Hdec; simpl.
  { exists false, ts, w. rewrite app_nil_r, take_ge by lia. split_and!; [done..|lia]. }
  destruct (max <=? Z.of_nat (length out)) eqn:Hfull; reflect_bools.
  { exists true, ts, w. rewrite take_app_le, take_ge by lia. split_and!; [done..|lia]. }
  destruct ts as [|x ts]; simpl in *; [lia|].
  apply Forall_cons in Hts as [[t ->] Hts]. simpl.
  pose proof (xreadgroup_take t consumer (streamKey q p) (max - Z.of_nat (length out)) (w_redis w)) as Htake.
  assert (Hother : forall p', p' ∈ ps ->
    unread (streamKey q p') (xreadgroup t consumer (streamKey q p) (max - Z.of_nat (length out))
      (w_redis w)).2 = unread (streamKey q p') (w_redis w)).
  { intros p' Hp'. apply xreadgroup_unread_other. intros E%streamKey_inj. by subst. }
  destruct (xreadgroup t consumer (streamKey q p) (max - Z.of_nat (length out)) (w_redis w))
    as [es s'] eqn:Hx. simpl in *.
  set (w1 := with_redis s' w).
  assert (Hdec' : forall p', p' ∈ ps -> Forall decodable (unread (streamKey q p') (w_redis w1))).
  { intros p' Hp'. simpl. rewrite Hother by done. apply Hdec. by constructor. }
  assert (Hback : backlog ps (w_redis w1) = backlog ps (w_redis w)).
  { unfold backlog. apply list_bind_ext_elem. intros p' Hp'. simpl. by rewrite Hother. }
  pose proof (Hdec p ltac:(constructor)) as Hdp.
  set (u := unread (streamKey q p) (w_redis w)) in *.
  assert (Hes : Forall decodable es) by (rewrite Htake; by apply Forall_take).
  assert (Hd : es ≫= deliver p = take (Z.to_nat max - length out) (u ≫= deliver p)).
  { rewrite Htake, deliver_take by done. f_equal. lia. }
  assert (Hgo : exists early ts' w',
    steps (fetch_pass q consumer max ps (out ++ (es ≫= deliver p))) ts w1 =
      (Some ((early, (take (Z.to_nat max) (out ++ backlog (p :: ps) (w_redis w)), None)), ts'), w') /\
    fine_ticks ts' /\ (length ts <= length ts' + length ps)%nat).
  { destruct (IH (out ++ (es ≫= deliver p)) ts w1 Hts) as (early & ts' & w' & Hs & ? & ?);
      [lia| |done|].
    - rewrite length_app, Hd, length_take. lia.
    - exists early, ts', w'. split; [|done]. rewrite Hs, Hback, Hd. do 4 f_equal.
      apply (f_equal (fun x => (x, None))).
      unfold backlog at 2. rewrite bind_cons. fold u. apply take_app_take_app. lia. }
  destruct Hgo as (early & ts' & w' & Hs & Hf & Hl). exists early, ts', w'.
  split; [|split; [done|lia]].
  destruct es as [|e es'].
  - simpl in *. rewrite app_nil_r in Hs. exact Hs.
  - cbn -[appendDeliveries fetch_pass]. rewrite appendDeliveries_ok by done. exact Hs.
Qed.

(** C18. [Fetch] is strictly priority-ordered. When all entries decode and nothing
    fails, [Fetch] with room for [max] returns exactly the first [max] deliveries
    of: all unread high entries, then default, then low, each stream in arrival
    order, whenever the call does not block (nothing to wait for, or something
    ready). *)
Theorem Fetch_strict_priority (consumer : string) (max block t1 t2 t3 : Z) w :
  1 <= max ->
  (forall p, p ∈ PriorityOrder -> Forall decodable (unread (streamKey q p) (w_redis w))) ->
  block <= 0 \/ backlog PriorityOrder (w_redis w) <> [] ->
  exists w', run (Fetch q consumer max block) [fine t1; fine t2; fine t3] w =
    (Some (take (Z.to_nat max) (backlog PriorityOrder (w_redis w)), None), w').
Proof.
  intros Hmax Hdec Hb.
  assert (Hnd : NoDup PriorityOrder) by (apply (bool_decide_unpack _); vm_compute; done).
  destruct (fetch_pass_run consumer max PriorityOrder Hnd [] (map alone [fine t1; fine t2; fine t3]) w)
    as (early & ts' & w' & Hs & _ & _); [|unfold PriorityOrder; simpl; lia|simpl; lia|done|].
  { repeat constructor; eexists; reflexivity. }
  exists w'. unfold run, run_env, Fetch. rewrite steps_bind, Hs.
  generalize dependent (backlog PriorityOrder (w_redis w)). intros bl Hb _. simpl.
  destruct early; [done|].
  destruct ((0 <? _) || _) eqn:Hgo; [done|].
  apply orb_false_iff in Hgo as [H0 H1]. reflect_bools. exfalso.
  destruct Hb as [Hb|Hb]; [lia|]. apply Hb.
  destruct bl as [|d l]; [done|].
  destruct (Z.to_nat max) eqn:E; [lia|]. simpl in H0. lia.
Qed.

(** ** Bounds, under any interference and failure *)

Lemma appendDeliveries_bound p ms : forall out w,
  wp any_rely no_pre (appendDeliveries q out ms p)
    (fun out' _ => (length out' <= length out + length ms)%nat) w.
Proof.
  induction ms as [|m ms IH]; intros out w; simpl; [lia|].
  apply wp_bind. unfold decodeMessage.
  destruct (DecodeEnvelope (field "j" m)) as [env|e]; simpl.
  - eapply wp_mono; [|apply IH]. intros out' w'. simpl. rewrite length_app. simpl. lia.
  - intros w1 t1 _. split; [done|]. intros w2 t2 _. split; [done|].
    eapply wp_mono; [|apply IH]. simpl. lia.
Qed.

Lemma append_streams_bound ss : forall out w,
  wp any_rely no_pre (append_streams q out ss)
    (fun out' _ => (length out' <= length out + length (concat (map snd ss)))%nat) w.
Proof.
  induction ss as [|s ss IH]; intros out w; simpl; [lia|].
  apply wp_bind. eapply wp_mono; [|apply appendDeliveries_bound]. intros out1 w1 H1. simpl in H1.
  eapply wp_mono; [|apply IH]. intros out2 w2 H2. simpl in *. rewrite length_app. lia.
Qed.

Lemma read_streams_bound now consumer keys n : forall s : R,
  Z.of_nat (length (concat (map snd (read_streams now consumer keys n s).1)))
    <= Z.max 0 n * Z.of_nat (length keys).
Proof.
  induction keys as [|k ks IH]; intros s; simpl; [lia|].
  pose proof (xreadgroup_take now consumer k n s) as Ht.
  destruct (xreadgroup now consumer k n s) as [es s1]. simpl in Ht.
  specialize (IH s1). destruct (read_streams now consumer ks n s1) as [rest s2]. simpl in *.
  assert (Z.of_nat (length es) <= Z.max 0 n) by (rewrite Ht, length_take; lia).
  destruct es; simpl in *; rewrite ?length_app; simpl; lia.
Qed.

Lemma fetch_pass_bound consumer max ps : forall out w,
  Z.of_nat (length out) <= Z.max 0 max ->
  wp any_rely no_pre (fetch_pass q consumer max ps out)
    (fun r _ => Z.of_nat (length r.2.1) <= Z.max 0 max) w.
Proof.
  induction ps as [|p ps IH]; intros out w Hout; simpl; [done|].
  destruct (max <=? Z.of_nat (length out)) eqn:Hfull; [done|]. reflect_bools.
  intros w1 t _. split; [done|]. simpl.
  pose proof (xreadgroup_take (at_ t) consumer (streamKey q p) (max - Z.of_nat (length out)) (w_redis w1)) as Ht.
  destruct (xreadgroup (at_ t) consumer _ _ (w_redis w1)) as [es s']. simpl in *.
  assert (Hl : Z.of_nat (length es) <= max - Z.of_nat (length out)) by (rewrite Ht, length_take; lia).
  destruct (fate t) as [|o|o]; simpl; try (destruct (is_nil (outage_error o)); [by apply IH|exact Hout]).
  destruct es as [|e es]; simpl; [by apply IH|]. apply wp_bind.
  eapply wp_mono; [|apply (appendDeliveries_bound p (e :: es))].
  intros out' w' Ho. apply IH. simpl in *. lia.
Qed.

(** The size of a fetch. Whatever other clients and failures do, a fetch that
    is not allowed to block returns at most [max] deliveries; one that blocks
    returns at most three times [max], since COUNT limits each of the three
    streams of the blocking read separately. *)
Theorem Fetch_bound (consumer : string) (max block : Z) w :
  wp any_rely no_pre (Fetch q consumer max block)
    (fun r _ => Z.of_nat (length r.1) <= (if block <=? 0 then 1 else 3) * Z.max 0 max) w.
Proof.
  unfold Fetch. apply wp_bind.
  eapply wp_mono; [|apply (fetch_pass_bound consumer max PriorityOrder [])]; [|simpl; lia].
  assert (Hk : length (map (streamKey q) PriorityOrder) = 3%nat) by done.
  generalize dependent (map (streamKey q) PriorityOrder). intros keys Hk.
  intros [early [out err]] w1 Hout. simpl in *.
  destruct early; simpl; [destruct (block <=? 0); lia|].
  destruct (0 <? Z.of_nat (length out)) eqn:Ho; simpl; [destruct (block <=? 0); lia|].
  destruct (block <=? 0) eqn:Hb; simpl; [lia|]. reflect_bools.
  intros w2 t _. split; [done|]. simpl.
  pose proof (read_streams_bound (at_ t) consumer keys max (w_redis w2)) as Hr. rewrite Hk in Hr.
  destruct (read_streams (at_ t) consumer _ max (w_redis w2)) as [ss s']. simpl in *.
  destruct (fate t) as [|o|o]; simpl; try (destruct (is_nil (outage_error o)); simpl; lia).
  destruct ss as [|s ss]; simpl; [lia|]. apply wp_bind.
  eapply wp_mono; [|apply (append_streams_bound (s :: ss))].
  intros out' w' Ho'. simpl in *. lia.
Qed.

(** ** Enqueue *)

Lemma field_one name v id : field name (id, [(name, v)]) = v.
Proof. unfold field. simpl. by rewrite filter_cons_True. Qed.

Lemma DecodeEnvelope_Encode env :
  sendable env -> env_ID env <> EmptyString -> env_Type env <> EmptyString ->
  exists text, Encode env = Ok text /\ DecodeEnvelope text = Ok env.
Proof.
  intros Hs Hi Ht. destruct (Unmarshal_Marshal env Hs) as (text & HM & HU). exists text.
  unfold DecodeEnvelope, Encode. rewrite HM, HU. by rewrite !bool_decide_false.
Qed.

Lemma Enqueue_due env text t t' at_ts w rest :
  Encode env = Ok text -> at_ts <= t ->
  steps (Enqueue q env at_ts) (alone (fine t) :: alone (fine t') :: rest) w =
    (let '(id, s') := xadd (streamKey q (env_Priority env)) [("j", text)] (w_redis w) in
     (Some (Ok id, rest), with_redis s' w)).
Proof.
  intros He Hat. unfold Enqueue. rewrite He. simpl. rewrite (proj2 (Z.ltb_ge t at_ts)) by lia. simpl.
  by destruct (xadd _ _ _).
Qed.

(** C19. Transport round trip. An envelope that is due, enqueued by one process and
    then fetched by another while nothing else waits, is delivered: exactly
    once, equal to what was sent, at its own priority, with the entry id that
    [Enqueue] reported (the id [SetEnqueued] records and [Ack] needs). *)
Theorem Enqueue_Fetch (env : Envelope) (consumer : string) (max at_ts t t' t1 t2 t3 : Z) w :
  sendable env -> env_ID env <> EmptyString -> env_Type env <> EmptyString ->
  env_Priority env ∈ PriorityOrder -> 1 <= max -> at_ts <= t ->
  (forall p, p ∈ PriorityOrder -> unread (streamKey q p) (w_redis w) = []) ->
  exists id w',
    run (sid <-? Enqueue q env at_ts ;; got <- Fetch q consumer max 0 ;; Ret (Ok (sid, got)))
      [fine t; fine t'; fine t1; fine t2; fine t3] w =
      (Some (Ok (id, ([{| del_Env := env; del_EntryID := id; del_Priority := env_Priority env |}], None))), w').
Proof.
  intros Hs Hi Ht Hp Hmax Hat Hnone. unfold run, run_env, bind_ok. rewrite steps_bind.
  change (map alone [fine t; fine t'; fine t1; fine t2; fine t3])
    with (alone (R := R) (fine t) :: alone (fine t') :: map alone [fine t1; fine t2; fine t3]).
  destruct (DecodeEnvelope_Encode env Hs Hi Ht) as (text & He & Hdec).
  rewrite (Enqueue_due _ text) by done. destruct (xadd _ _ (w_redis w)) as [id s'] eqn:Hx.
  set (m := (id, [("j", text)])).
  assert (Hun : forall p, p ∈ PriorityOrder ->
    unread (streamKey q p) s' = if decide (p = env_Priority env) then [m] else []).
  { intros p Hp'. destruct (decide (p = env_Priority env)) as [->|Hne].
    - pose proof (xadd_unread (streamKey q (env_Priority env)) [("j", text)] (w_redis w)) as Hu.
      rewrite Hx in Hu. simpl in Hu. rewrite Hu, Hnone by done. done.
    - pose proof (xadd_unread_other (streamKey q (env_Priority env)) (streamKey q p)
        [("j", text)] (w_redis w)) as Hu. rewrite Hx in Hu. simpl in Hu.
      rewrite Hu, Hnone; [done|done|]. intros E%streamKey_inj. congruence. }
  assert (Hm : DecodeEnvelope (field "j" m) = Ok env).
  { unfold m. by rewrite field_one. }
  destruct (Fetch_strict_priority consumer max 0 t1 t2 t3 (with_redis s' w)) as (w' & Hf); [lia| |lia|].
  { intros p Hp'. simpl. rewrite Hun by done. destruct (decide _); repeat constructor.
    unfold decodable. by rewrite Hm. }
  assert (Hb : backlog PriorityOrder s' =
    [{| del_Env := env; del_EntryID := id; del_Priority := env_Priority env |}]).
  { unfold backlog.
    rewrite (list_bind_ext_elem _ (fun p => if decide (p = env_Priority env) then
      [{| del_Env := env; del_EntryID := id; del_Priority := env_Priority env |}] else [])).
    - apply list_elem_of_In in Hp. repeat destruct Hp as [<-|Hp]; done.
    - intros p Hp'. rewrite Hun by done. destruct (decide (p = env_Priority env)) as [->|]; [|done].
      rewrite bind_cons. unfold deliver. by rewrite Hm. }
  change (w_redis (with_redis s' w)) with s' in Hf. rewrite Hb in Hf.
  exists id, w'. rewrite steps_bind. unfold run, run_env in Hf.
  destruct (steps (Fetch q consumer max 0) _ _) as [[[a ts']|] w2]; simpl in *; [|done].
  injection Hf as -> ->. destruct (Z.to_nat max) eqn:E; [lia|].
  simpl. by rewrite take_nil.
Qed.

(** ** Promotion *)

Lemma promote_each_spec now sk dk due : forall s : R,
  exists s' ids,
    exec_script now (promote_each sk dk due) s = (Ok tt, s') /\
    length ids = length due /\
    entries sk s' = entries sk s ++ zip ids (map (fun m => [("j", m)]) due) /\
    (forall m, members dk s' !! m = if bool_decide (m ∈ due) then None else members dk s !! m) /\
    (forall k, k <> sk -> entries k s' = entries k s) /\
    (forall k, k <> dk -> members k s' = members k s) /\
    (forall k, pending k s' = pending k s) /\
    (unread sk s' = unread sk s ++ zip ids (map (fun m => [("j", m)]) due) /\
     (forall k, k <> sk -> unread k s' = unread k s) /\ (forall n k, get n k s' = get n k s)).
Proof.
  induction due as [|m due IH]; intros s; simpl.
  { exists s, []. simpl. rewrite !app_nil_r. split_and!; done. }
  destruct (xadd sk [("j", m)] s) as [id s1] eqn:Hx.
  destruct (IH (zrem dk m s1)) as (s' & ids & Hs & Hl & He & Hm & Hk & Hd & Hp & Hu & Hu' & Hg).
  exists s', (id :: ids). pose proof (xadd_entries sk [("j", m)] s) as H1. rewrite Hx in H1. simpl in H1.
  split_and!; simpl.
  - exact Hs.
  - by rewrite Hl.
  - rewrite He, zrem_entries, H1, <-app_assoc. done.
  - intros m'. rewrite Hm, zrem_members.
    pose proof (xadd_members sk dk [("j", m)] s) as H2. rewrite Hx in H2. simpl in H2. rewrite H2.
    destruct (decide (m = m')) as [<-|Hne].
    + rewrite lookup_delete_eq. rewrite (bool_decide_true (m ∈ m :: due)) by constructor.
      by case_bool_decide.
    + rewrite lookup_delete_ne by done. apply bool_decide_if_ext. set_solver.
  - intros k Hne. rewrite Hk, zrem_entries by done.
    pose proof (xadd_other sk k [("j", m)] s) as H2. rewrite Hx in H2. by apply H2.
  - intros k Hne. rewrite Hd, zrem_other by done.
    pose proof (xadd_members sk k [("j", m)] s) as H2. by rewrite Hx in H2.
  - intros k. rewrite Hp, zrem_pending.
    pose proof (xadd_pending sk k [("j", m)] s) as H2. by rewrite Hx in H2.
  - pose proof (xadd_unread sk [("j", m)] s) as H2. rewrite Hx in H2. simpl in H2.
    rewrite Hu, zrem_unread, H2, <-app_assoc. done.
  - intros k Hne. rewrite Hu', zrem_unread by done.
    pose proof (xadd_unread_other sk k [("j", m)] s) as H2. rewrite Hx in H2. by apply H2.
  - intros n k. rewrite Hg, zrem_get. pose proof (xadd_get n sk k [("j", m)] s) as H2. by rewrite Hx in H2.
Qed.

(** Promotion moves, it neither loses nor duplicates. One run of the promotion
    script at time [now] takes the members it reports out of the delayed set,
    each of them due, and appends exactly one stream entry per member, in that
    order; nothing else in Redis changes; and when it reports fewer than [batch]
    members, no due member is left behind. *)
Theorem promoteScript_moves (now_server now batch : Z) (sk dk : string) (s : R) :
  exists due s' ids,
    exec_script now_server (promoteScript dk sk now batch) s = (Ok due, s') /\
    NoDup due /\ length ids = length due /\
    entries sk s' = entries sk s ++ zip ids (map (fun m => [("j", m)]) due) /\
    (forall m, m ∈ due -> exists sc, members dk s !! m = Some sc /\ sc <= now) /\
    (forall m, members dk s' !! m = if bool_decide (m ∈ due) then None else members dk s !! m) /\
    (Z.of_nat (length due) < batch ->
       forall m sc, members dk s' !! m = Some sc -> now < sc) /\
    (forall k, k <> sk -> entries k s' = entries k s) /\
    (forall k, k <> dk -> members k s' = members k s) /\
    (forall k, pending k s' = pending k s) /\
    (unread sk s' = unread sk s ++ zip ids (map (fun m => [("j", m)]) due) /\
     (forall k, k <> sk -> unread k s' = unread k s) /\ (forall n k, get n k s' = get n k s)).
Proof.
  set (due := zrangebyscore dk now batch s).
  destruct (promote_each_spec now_server sk dk due s) as (s' & ids & Hs & Hl & He & Hm & Hk & Hd & Hp).
  exists due, s', ids. split.
  { unfold promoteScript. simpl. fold due. rewrite exec_script_bind, Hs. done. }
  split; [apply zrange_nodup|]. split; [done|]. split; [done|].
  split; [intros m; apply zrange_due|]. split; [done|]. split; [|done].
  intros Hlt m sc. rewrite Hm. case_bool_decide as Hin; [done|]. intros Hsc.
  destruct (decide (now < sc)); [done|]. exfalso. apply Hin.
  eapply zrange_all; [exact Hlt|exact Hsc|lia].
Qed.

(** ** Ack *)

(** [Ack] disposes of exactly one entry: when it reports success, the entry
    is in neither the stream nor the pending list, and everything else - other
    entries, other streams, the delayed sets - is as it was. *)
Theorem Ack_removes (p : Priority) (id : string) (t1 t2 : Time) w :
  exists w', run (Ack q p id) [fine t1; fine t2] w = (Some (Ok tt), w') /\
    w_db w' = w_db w /\
    entries (streamKey q p) (w_redis w') =
      filter (fun e => e.1 <> id) (entries (streamKey q p) (w_redis w)) /\
    pending (streamKey q p) (w_redis w') = delete id (pending (streamKey q p) (w_redis w)) /\
    (forall k, k <> streamKey q p -> entries k (w_redis w') = entries k (w_redis w) /\
       pending k (w_redis w') = pending k (w_redis w)) /\
    (forall k, members k (w_redis w') = members k (w_redis w)).
Proof.
  eexists. split; [reflexivity|]. simpl. split; [done|]. split_and!.
  - by rewrite xdel_entries, xack_entries.
  - by rewrite xdel_pending, xack_pending.
  - intros k Hk. rewrite xdel_other, xack_entries, xdel_pending, xack_other by done. done.
  - intros k. by rewrite xdel_members, xack_members.
Qed.

(** ** The leader lock *)

(** C21. Leadership is exclusive and survives rivals. From the moment one process
    acquires the lock until its time to live runs out, every other process is
    refused by [AcquireLeader] and [RenewLeader], and its [ReleaseLeader] does
    not release it; the holder's own renewal succeeds and extends the lock, and
    after its release the lock is free. *)
Theorem leader_lock (role me other : string) (t t' ttl ttl' : Z) (w : World R) :
  me <> other -> get t (leaderKey q role) (w_redis w) = None -> t' < t + ttl ->
  exists w1, run (AcquireLeader q role me ttl) [fine t] w = (Some (Ok true), w1) /\
    run (AcquireLeader q role other ttl') [fine t'] w1 = (Some (Ok false), w1) /\
    run (RenewLeader q role other ttl') [fine t'] w1 = (Some (Ok false), w1) /\
    run (ReleaseLeader q role other) [fine t'] w1 = (Some (Ok tt), w1) /\
    (exists w2, run (RenewLeader q role me ttl') [fine t'] w1 = (Some (Ok true), w2) /\
       forall t2, get t2 (leaderKey q role) (w_redis w2) =
         if t2 <? t' + whole_millis ttl' then Some me else None) /\
    (exists w2, run (ReleaseLeader q role me) [fine t'] w1 = (Some (Ok tt), w2) /\
       get t' (leaderKey q role) (w_redis w2) = None).
Proof.
  intros Hne Hfree Ht. set (key := leaderKey q role) in *.
  set (s1 := set t key me ttl (w_redis w)).
  assert (Hheld : get t' key s1 = Some me).
  { unfold s1. rewrite set_get. by rewrite (proj2 (Z.ltb_lt _ _)). }
  assert (Hid : forall w : World R, with_redis (w_redis w) w = w) by (by intros []).
  exists (with_redis s1 w). unfold run, run_env. cbn -[bool_decide]. fold key. rewrite Hfree.
  cbn -[bool_decide]. fold s1. rewrite Hheld. cbn -[bool_decide].
  rewrite bool_decide_false by congruence. rewrite bool_decide_true by done. cbn -[bool_decide].
  rewrite Hheld. cbn. split_and!; try done; eexists; (split; [reflexivity|]); simpl.
  - intros t2. by apply pexpire_get.
  - apply del_get.
Qed.
End queue_facts.

(** ** Witnesses *)

Section witnesses.
#[local] Existing Instance DemoJSON.
#[local] Transparent call pgExec rdb time_Now.

Definition demo_queue : queue := queue_New EmptyString EmptyString.
Definition redis_world (s : redis) : World redis := Build_World empty_db s [].

(** Two entries, one high and one low. *)
Definition demo_backlog : redis :=
  (xadd (streamKey demo_queue PriorityHigh) [("j", "b")]
    (xadd (streamKey demo_queue PriorityLow) [("j", "a")] empty_redis).2).2.

Lemma Fetch_strict_priority_witness :
  exists w', run (Fetch demo_queue "w1" 1 0) [fine 1; fine 2; fine 3] (redis_world demo_backlog) =
    (Some (take 1 (backlog demo_queue PriorityOrder demo_backlog), None), w') /\
    map (fun d => env_ID (del_Env d)) (take 1 (backlog demo_queue PriorityOrder demo_backlog)) = ["b"].
Proof.
  destruct (Fetch_strict_priority demo_queue "w1" 1 0 1 2 3 (redis_world demo_backlog))
    as (w' & H); [lia| |left; lia|].
  - intros p Hp%list_elem_of_In. repeat destruct Hp as [<-|Hp]; try done;
      vm_compute; repeat (constructor; try reflexivity).
  - exists w'. split; [exact H|reflexivity].
Defined.

(** Three submitters reach the three streams between the polling pass and the
    blocking read. *)
Definition three_arrivals (w : World redis) : World redis :=
  with_redis (foldr (fun p s => (xadd (streamKey demo_queue p) [("j", "x")] s).2) (w_redis w) PriorityOrder) w.

(** ... and a worker with one free slot is handed three jobs. *)
Example blocking_fetch_overshoots :
  option_map (fun r => length (fst r))
    (run_env (Fetch demo_queue "w1" 1 1000)
       [alone (fine 1); alone (fine 2); alone (fine 3); (three_arrivals, fine 4)]
       (redis_world empty_redis)).1 = Some 3%nat.
Proof. vm_compute. reflexivity. Qed.

Lemma Enqueue_Fetch_witness :
  exists id w',
    run (sid <-? Enqueue demo_queue (demo_env "j1") 0 ;; got <- Fetch demo_queue "w1" 5 0 ;; Ret (Ok (sid, got)))
      [fine 1; fine 2; fine 3; fine 4; fine 5] (redis_world empty_redis) =
      (Some (Ok (id, ([{| del_Env := demo_env "j1"; del_EntryID := id;
                          del_Priority := PriorityDefault |}], None))), w').
Proof.
  apply (Enqueue_Fetch demo_queue (demo_env "j1") "w1" 5 0 1 2 3 4 5 (redis_world empty_redis));
    try done.
  apply PriorityValid_elem_of. reflexivity.
Defined.

Lemma leader_lock_witness :
  exists w1, run (AcquireLeader demo_queue "recovery" "a" 10) [fine 1] (redis_world empty_redis)
      = (Some (Ok true), w1) /\
    run (AcquireLeader demo_queue "recovery" "b" 10) [fine 5] w1 = (Some (Ok false), w1).
Proof.
  destruct (leader_lock demo_queue "recovery" "a" "b" 1 5 10 10 (redis_world empty_redis))
    as (w1 & H1 & H2 & _); [done|reflexivity|lia|]. eauto.
Defined.
End witnesses.
