(* ===== verification/Handler.v ===== *)
(** * Handler: the registry

    Models [internal/handler/handler.go].  A handler is the one thing the engine
    does not know; what it can do to the engine is what [Handle] returns - a
    result and an error - or a panic. *)

From S2P Require Import Prelude Errors Job.
Local Open Scope Z_scope.

(** What a handler sees of its context when it returns: the cancellation cause,
    whether the deadline passed, and the timeout it was given. *)
Record ctx := { ctx_cause : option error; ctx_deadline : bool; ctx_timeout : Duration }.

Inductive handler_return :=
| Returned (res : string) (err : option error)
| Panicked (msg : string).

Abbreviation Handler := (ctx -> Job -> handler_return) (only parsing).

(** [handler.Func] is the identity on functions. *)
Definition Func (f : Handler) : Handler := f.

Record HandlerOptions := { ho_LeaseTTL : Duration; ho_ExecTimeout : Duration; ho_MaxAttempts : Z }.

Record Registration := {
  reg_Type : string; reg_Handler : option Handler; reg_Options : HandlerOptions
}.

Abbreviation Registry := (gmap string Registration) (only parsing).
Definition NewRegistry : Registry := ∅.

Inductive RegisterError :=
| InvalidTypeName (t : string) | NilHandler (t : string) | DuplicateRegistration (t : string).

Local Open Scope go_scope.

Definition Register (r : Registry) (reg : Registration) : result RegisterError Registry :=
  guard ValidName (reg_Type reg) else InvalidTypeName (reg_Type reg) in
  guard (if reg_Handler reg is Some _ then true else false) else NilHandler (reg_Type reg) in
  guard negb (bool_decide (is_Some (r !! reg_Type reg))) else DuplicateRegistration (reg_Type reg) in
  Ok (<[reg_Type reg := reg]> r).

(** [None] is the panic. *)
Definition MustRegister (r : Registry) (reg : Registration) : option Registry :=
  match Register r reg with Ok r' => Some r' | Err _ => None end.

Definition Get (r : Registry) (jobType : string) : option Registration := r !! jobType.

(** In no particular order. *)
Definition Types (r : Registry) : list string := (map_to_list r).*1.

(** The registries that registration at startup can build. *)
Inductive registered : Registry -> Prop :=
| reg_empty : registered NewRegistry
| reg_more r reg r' : registered r -> Register r reg = Ok r' -> registered r'.

(** The registry is sound. However it was built, every registered type has a
    valid name, a handler and its own registration, so the runner never calls a
    nil handler; [Types] lists exactly the types [Get] knows, once each; and a
    registration never changes or removes an earlier one. *)
Theorem registry_sound (r : Registry) :
  registered r ->
  (forall t reg, Get r t = Some reg ->
     reg_Type reg = t /\ ValidName t = true /\ is_Some (reg_Handler reg)) /\
  NoDup (Types r) /\ (forall t, t ∈ Types r <-> is_Some (Get r t)) /\
  (forall reg r', Register r reg = Ok r' ->
     Get r' (reg_Type reg) = Some reg /\
     forall t old, Get r t = Some old -> Get r' t = Some old).
Proof.
  intros Hreg. split_and!.
  - induction Hreg as [|r reg r' _ IH H]; intros t x Hx; [done|].
    unfold Register in H. destruct (ValidName (reg_Type reg)) eqn:Hn; [|done].
    destruct (reg_Handler reg) as [h|] eqn:Hh; simpl in H; [|done].
    destruct (negb _); [|done]. injection H as <-. unfold Get in *.
    apply lookup_insert_Some in Hx as [[<- <-]|[_ Hx]]; [|by apply IH].
    rewrite Hh. split_and!; [done|done|by eexists].
  - apply NoDup_fst_map_to_list.
  - intros t. unfold Types, Get. rewrite list_elem_of_fmap. split.
    + intros ([k v] & -> & Hin%elem_of_map_to_list). by eexists.
    + intros [v Hv]. exists (t, v). split; [done|]. by apply elem_of_map_to_list.
  - intros reg r' H. unfold Register in H. destruct (ValidName (reg_Type reg)); [|done].
    destruct (reg_Handler reg) as [h|]; simpl in H; [|done].
    destruct (bool_decide _) eqn:Hd in H; [done|]. injection H as <-. reflect_bools.
    unfold Get. split; [by rewrite lookup_insert_eq|]. intros t old Ht.
    rewrite lookup_insert_ne; [done|]. intros <-. apply Hd. by eexists.
Qed.

Definition demo_registration : Registration :=
  {| reg_Type := "bench.sleep"; reg_Handler := Some (fun _ _ => Returned "42" None);
     reg_Options := {| ho_LeaseTTL := 0; ho_ExecTimeout := 0; ho_MaxAttempts := 0 |} |}.
Definition demo_registry : Registry := <["bench.sleep" := demo_registration]> ∅.

Lemma demo_registered : registered demo_registry.
Proof. eapply (reg_more NewRegistry demo_registration); [constructor|reflexivity]. Qed.

Lemma registry_sound_witness :
  registered demo_registry /\ NoDup (Types demo_registry) /\
  Types demo_registry = ["bench.sleep"%string].
Proof.
  split; [exact demo_registered|].
  split; [apply (registry_sound demo_registry demo_registered)|reflexivity].
Defined.
