(* ===== verification/Runner.v ===== *)
(** * Runner: one delivery, from claim to ack

    Models [internal/worker/runner.go].  What happens around a handler while it
    runs (heartbeat ticks, the cancellation of the parent context, the moment
    the handler returns) is a schedule, an argument of [Run]; the theorems hold
    for every schedule and every handler. *)

From S2P Require Import Prelude Errors Job Retry Database Rows Redis Effects Rely Store.
From S2P Require Import Batch Queue Handler.
Local Open Scope string_scope.
Local Open Scope list_scope.
Local Open Scope Z_scope.
Local Open Scope prog_scope.

Definition errLeaseLost : error := ESentinel ErrLeaseLost.

(** The configuration of a runner; the recorder, the queue and the registry are
    arguments of the operations. *)
Record Runner := {
  run_Backoff : Policy; run_WorkerID : string; run_LeaseTTL : Duration;
  run_ExecTimeout : Duration; run_HasObs : bool
}.

(** What happens while the handler runs: a heartbeat tick, or the cancellation of
    the job context with a cause. *)
Inductive exec_event := Beat | ParentCancelled (cause : error).

(** The events up to the handler's return, whether its deadline had passed, and
    whether a heartbeat was still in progress when the cause was read. *)
Record schedule := { sch_events : list exec_event; sch_deadline : bool; sch_straggler : bool }.

Record exec_state := { ex_cause : option error; ex_beating : bool }.

(** The first cancellation of a context wins. *)
Definition cancel_with (e : error) (st : option error) : option error :=
  match st with Some e0 => Some e0 | None => Some e end.

Definition safeHandle (r : handler_return) : string * option error :=
  match r with
  | Returned res err => (res, err)
  | Panicked msg => (EmptyString, Some (EPanic (EMsg ("worker: handler panicked: " +:+ msg))))
  end.

Section runner.
Context `{EnvelopeJSON} (rec : Recorder) (q : queue) (reg : Registry) (r : Runner).
#[local] Existing Instance rec.

Definition observe (o : obs_event) : prog unit :=
  if run_HasObs r then call (Notify o) else Ret tt.

(** The ack is best effort. *)
Definition ack (d : Delivery) : prog unit :=
  _ <- Ack q (del_Priority d) (del_EntryID d) ;; Ret tt.

(** ** Heartbeat *)

(** One tick; [Some] is the cause it cancels the execution with, which ends the
    loop. *)
Definition beat (d : Delivery) (claim : Claim) (leaseTTL : Duration) : prog (option error) :=
  _ <- Heartbeat q (run_WorkerID r) (del_Priority d) (del_EntryID d) ;;
  stillOurs <- ExtendLease (env_ID (del_Env d)) (cl_Epoch claim) leaseTTL ;;
  match stillOurs with
  | Ok false => Ret (Some errLeaseLost)
  | _ =>
      cancelled <- IsCancelRequested q (env_ID (del_Env d)) ;;
      match cancelled with
      | Ok true => Ret (Some (ESentinel ErrCancelRequested))
      | _ => Ret None
      end
  end.

Fixpoint exec_events (d : Delivery) (claim : Claim) (leaseTTL : Duration)
    (evs : list exec_event) (st : exec_state) : prog exec_state :=
  match evs with
  | [] => Ret st
  | ParentCancelled e :: evs' =>
      exec_events d claim leaseTTL evs'
        {| ex_cause := cancel_with e (ex_cause st); ex_beating := ex_beating st |}
  | Beat :: evs' =>
      if ex_beating st then
        c <- beat d claim leaseTTL ;;
        exec_events d claim leaseTTL evs'
          (match c with
           | Some e => {| ex_cause := cancel_with e (ex_cause st); ex_beating := false |}
           | None => st
           end)
      else exec_events d claim leaseTTL evs' st
  end.

(** ** Finish *)

Definition finish_outcome (handlerErr cause : option error) : Outcome :=
  let outcome := ClassifyError handlerErr cause in
  let outcome := if bool_decide (outcome = OutcomeRetryable) && isPanic handlerErr
                 then OutcomePanicked else outcome in
  if bool_decide (handlerErr <> None) && errors_Is cause ErrLeaseLost
  then OutcomeLeaseExpired else outcome.

(** The end of [finish]: no ack when the record failed. *)
Definition settle (d : Delivery) (applied : result error bool) (notify : option obs_event) : prog unit :=
  match applied with
  | Err _ => Ret tt
  | Ok b =>
      (if b then Ret tt else observe WriteFenced) ;;;
      ack d ;;;
      match notify with Some o => observe o | None => Ret tt end
  end.

Definition finish (d : Delivery) (claim : Claim) (res : string) (handlerErr cause : option error)
    (startedAt : Time) : prog unit :=
  let outcome := finish_outcome handlerErr cause in
  let id := env_ID (del_Env d) in
  let ty := env_Type (del_Env d) in
  let errMsg := AttemptError handlerErr in
  now <- time_Now ;;
  let att := {| att_JobID := id; att_Attempt := cl_Attempt claim; att_WorkerID := run_WorkerID r;
                att_StartedAt := startedAt; att_FinishedAt := now;
                att_Outcome := outcome; att_Error := errMsg |} in
  if bool_decide (outcome = OutcomeCompleted) then
    applied <- rec_Complete id (cl_Epoch claim) res att ;; settle d applied (Some (JobCompleted ty (now - startedAt) (now - env_EnqueuedAt (del_Env d))))
  else if bool_decide (outcome = OutcomeFailed) then
    applied <- rec_Fail id (cl_Epoch claim) errMsg att ;; settle d applied (Some (JobFailed ty))
  else if bool_decide (outcome = OutcomeCancelled) then
    applied <- rec_Cancelled id (cl_Epoch claim) att ;; settle d applied (Some (JobCancelled ty))
  else if bool_decide (outcome = OutcomeLeaseExpired) then
    _ <- RecordAttempt att ;; Ret tt
  else if bool_decide (outcome ∈ [OutcomeInterrupted; OutcomeRetryable; OutcomePanicked]) then
    if cl_MaxAttempts claim <=? cl_Attempt claim then
      applied <- rec_DeadLetter id (cl_Epoch claim) errMsg att ;;
      match applied with
      | Ok true => _ <- Queue.DeadLetter q (del_Env d) errMsg ;; Ret tt
      | _ => Ret tt
      end ;;;
      settle d applied (Some (JobDeadLettered ty))
    else
      delay <- (if bool_decide (outcome = OutcomeInterrupted) then Ret 0
                else u <- call RandFloat ;; Ret (Delay (run_Backoff r) u (cl_Attempt claim))) ;;
      let nextAt := now + delay in
      applied <- rec_Retry id (cl_Epoch claim) errMsg nextAt att ;;
      match applied with
      | Ok true =>
          let e := del_Env d in
          let next := {| env_ID := env_ID e; env_Type := env_Type e; env_Queue := env_Queue e;
                         env_Priority := env_Priority e; env_Attempt := cl_Attempt claim + 1;
                         env_Payload := env_Payload e; env_EnqueuedAt := env_EnqueuedAt e |} in
          _ <- Queue.ScheduleRetry q next nextAt ;; Ret tt
      | _ => Ret tt
      end ;;;
      settle d applied (Some (JobRetried ty))
  else settle d (Ok false) None.

(** The cancellation a draining worker gives its jobs, [context.Canceled], is an
    ordinary failure to [finish]: not the [interrupted] outcome, which only an
    error marked by [Interrupted] has. *)
Example drain_cancellation_is_retryable :
  let cause := Some (ESentinel ErrCanceled) in
  finish_outcome cause cause = OutcomeRetryable /\
  finish_outcome (Interrupted cause) cause = OutcomeInterrupted.
Proof. done. Qed.

(** ** Run *)

Definition effective_leaseTTL (ty : string) : Duration :=
  match Get reg ty with
  | Some x => if 0 <? ho_LeaseTTL (reg_Options x) then ho_LeaseTTL (reg_Options x) else run_LeaseTTL r
  | None => run_LeaseTTL r
  end.
Definition effective_timeout (ty : string) : Duration :=
  match Get reg ty with
  | Some x => if 0 <? ho_ExecTimeout (reg_Options x) then ho_ExecTimeout (reg_Options x)
              else run_ExecTimeout r
  | None => run_ExecTimeout r
  end.

(** The job the handler is given. *)
Definition handler_job (d : Delivery) (claim : Claim) : Job :=
  let e := del_Env d in
  {| ID := env_ID e; Type_ := env_Type e; Queue := env_Queue e; Status_ := StatusRunning;
     Priority_ := env_Priority e; Payload := env_Payload e; Result := EmptyString;
     Error_ := EmptyString; IdempotencyKey := EmptyString; AttemptCount := cl_Attempt claim;
     MaxAttempts := cl_MaxAttempts claim; LeaseEpoch := 0; LeaseExpiresAt := None;
     WorkerID := EmptyString; CreatedAt := zero_time; ScheduledAt := zero_time;
     StartedAt := None; CompletedAt := None |}.

(** Execution under heartbeats; a handler that is nil would panic. *)
Definition execute (d : Delivery) (claim : Claim) (x : Registration) (sch : schedule)
    : prog (string * option error * option error) :=
  let ttl := effective_leaseTTL (env_Type (del_Env d)) in
  st <- exec_events d claim ttl (sch_events sch) {| ex_cause := None; ex_beating := true |} ;;
  let c := {| ctx_cause := ex_cause st; ctx_deadline := sch_deadline sch;
              ctx_timeout := effective_timeout (env_Type (del_Env d)) |} in
  let ret := match reg_Handler x with
             | Some h => h c (handler_job d claim)
             | None => Panicked "nil handler"
             end in
  (if sch_straggler sch && ex_beating st then _ <- beat d claim ttl ;; Ret tt else Ret tt) ;;;
  Ret (safeHandle ret, ex_cause st).

(** What follows the answer of [ClaimJob]. *)
Definition after_claim (d : Delivery) (sch : schedule) (c : result error (option Claim)) : prog unit :=
  match c with
  | Err _ => Ret tt
  | Ok None => observe ClaimSkipped ;;; ack d
  | Ok (Some claim) =>
      observe (JobStarted (env_Type (del_Env d))) ;;;
      match Get reg (env_Type (del_Env d)) with
      | None => finish d claim EmptyString ErrNoHandler None (cl_StartedAt claim)
      | Some x =>
          ret <- execute d claim x sch ;;
          finish d claim ret.1.1 ret.1.2 ret.2 (cl_StartedAt claim)
      end
  end.

Definition Run (d : Delivery) (sch : schedule) : prog unit :=
  c <- ClaimJob (env_ID (del_Env d)) (run_WorkerID r) (effective_leaseTTL (env_Type (del_Env d))) ;;
  after_claim d sch c.
End runner.

(** ** Record first, ack second *)

(** The command acknowledges or deletes the entry [id] of stream [key]. *)
Definition disposes (key id : string) {B} (c : cmd B) : bool :=
  match c with
  | Rdb rc =>
      match rc with
      | XACK k i => bool_decide (k = key) && bool_decide (i = id)
      | XDEL k i => bool_decide (k = key) && bool_decide (i = id)
      | _ => false
      end
  | _ => false
  end.

(** An entry may be disposed of only when [P] holds of the database. *)
Definition ack_rule (key id : string) (P : DB -> Prop) {R} : forall B, cmd B -> World R -> Prop :=
  fun _ c w => disposes key id c = true -> P (w_db w).

(** The job was already taken out of its initial state: claimed, finished or
    cancelled by someone. *)
Definition taken (id : string) (db : DB) : Prop :=
  exists r, jobs db !! id = Some r /\ 0 < r_lease_epoch r.

Lemma evolves_taken id db db' : evolves db db' -> taken id db -> taken id db'.
Proof.
  intros He (r & Hr & Ht).
  assert (Hh : handed_out id 1 db') by (eapply evolves_handed_out; [done|]; exists r; split; [done|lia]).
  destruct Hh as (r' & Hr' & ?). exists r'. split; [done|lia].
Qed.

Section run_rules.
Context {R : Type} `{!RedisServer R} `{EnvelopeJSON}.
Context (rec : Recorder) `{Hlaw : !RecorderLaw R rec} (q : queue) (reg : Registry) (r : Runner).
Context (d : Delivery) (P : DB -> Prop).
Context (HP : forall db db', evolves db db' -> P db -> P db').
Implicit Types w : World R.
Abbreviation key := (streamKey q (del_Priority d)).
Abbreviation rule := (ack_rule key (del_EntryID d) P).
Abbreviation quiet p w := (wp world_evolves rule p (fun _ w' => world_evolves w w') w).

Lemma rule_db {B} (c : cmd B) w : is_db c = true -> rule B c w.
Proof. intros Hc Hd. by destruct c. Qed.

Lemma rdb_evolves w w1 w2 : world_evolves w w1 -> w_db w2 = w_db w1 -> world_evolves w w2.
Proof. unfold world_evolves. by intros ? ->. Qed.

Lemma wp_observe o w : quiet (observe r o) w.
Proof.
  unfold observe. destruct (run_HasObs r); [|simpl; reflexivity].
  apply wp_notify. intros w1 Hw. split; [done|]. exact Hw.
Qed.

Lemma wp_ack w : P (w_db w) -> quiet (ack q d) w.
Proof.
  intros Hp. unfold ack, Ack. apply wp_bind, wp_bind, wp_rdb. intros w1 H1.
  split; [intros _; by eapply HP|]. intros r1 w2 E2.
  assert (H2 : world_evolves w w2) by (by eapply rdb_evolves).
  apply wp_bind, wp_rdb. intros w3 H3. assert (H13 : world_evolves w w3) by (by etrans).
  split; [intros _; by eapply HP|]. intros r2 w4 E4. simpl. by eapply rdb_evolves.
Qed.

Lemma wp_ExtendLease id e ttl w : quiet (ExtendLease id e ttl) w.
Proof.
  unfold ExtendLease. apply wp_ok, wp_Errorf, wp_sql. intros w1 H1. split; [done|]. intros now.
  assert (H2 : world_evolves w (with_db (exec_stmt now (UpdateLease id e ttl) (w_db w1)).2 w1)).
  { etrans; [exact H1|]. by apply (evolves_step now (UpdateLease id e ttl)). }
  destruct (exec_stmt now (UpdateLease id e ttl) (w_db w1)) as [[n|msg] db'];
    split_and!; intros; done.
Qed.

Lemma wp_beat claim ttl w : quiet (beat q r d claim ttl) w.
Proof.
  unfold beat. apply wp_bind. unfold Heartbeat. apply wp_bind, wp_rdb. intros w1 H1. split; [done|].
  intros r1 w2 E2. assert (H2 : world_evolves w w2) by (by eapply rdb_evolves).
  assert (Hnext : wp world_evolves rule
    (stillOurs <- ExtendLease (env_ID (del_Env d)) (cl_Epoch claim) ttl ;;
     match stillOurs with
     | Ok false => Ret (Some errLeaseLost)
     | _ => cancelled <- IsCancelRequested q (env_ID (del_Env d)) ;;
            match cancelled with
            | Ok true => Ret (Some (ESentinel ErrCancelRequested)) | _ => Ret None end
     end) (fun _ w' => world_evolves w w') w2).
  { apply wp_bind. eapply wp_mono; [|apply wp_ExtendLease]. intros s w3 H3.
    assert (H3' : world_evolves w w3) by (by etrans).
    assert (Hc : wp world_evolves rule
      (cancelled <- IsCancelRequested q (env_ID (del_Env d)) ;;
       match cancelled with
       | Ok true => Ret (Some (ESentinel ErrCancelRequested)) | _ => Ret None end)
      (fun _ w' => world_evolves w w') w3).
    { apply wp_bind. unfold IsCancelRequested. apply wp_ok, wp_Errorf, wp_rdb. intros w4 H4.
      split; [done|]. intros n w5 E5.
      assert (H5 : world_evolves w w5) by (eapply rdb_evolves; [|done]; by etrans).
      destruct n as [n|e]; simpl; [destruct (n =? 1); exact H5|exact H5]. }
    destruct s as [[]|e]; try exact Hc. exact H3'. }
  destruct r1 as [[]|e]; simpl; [exact Hnext|]. destruct (is_nil e); exact Hnext.
Qed.

Lemma wp_exec_events claim ttl evs : forall st w, quiet (exec_events q r d claim ttl evs st) w.
Proof.
  induction evs as [|[|e] evs IH]; intros st w; simpl; [reflexivity| |apply IH].
  destruct (ex_beating st); [|apply IH]. apply wp_bind.
  eapply wp_mono; [|apply wp_beat]. intros c w1 H1.
  eapply wp_mono; [|apply IH]. intros st' w2 H2. simpl in *. by etrans.
Qed.

Lemma wp_execute claim x sch w : quiet (execute q reg r d claim x sch) w.
Proof.
  unfold execute. apply wp_bind. eapply wp_mono; [|apply wp_exec_events]. intros st w1 H1. simpl.
  apply wp_bind. destruct (sch_straggler sch && ex_beating st); simpl; [|exact H1].
  apply wp_bind. eapply wp_mono; [|apply wp_beat]. intros c w2 H2. simpl in *. by etrans.
Qed.

Lemma wp_settle applied o w :
  (is_Ok applied = true -> P (w_db w)) ->
  wp world_evolves rule (settle q r d applied o) (fun _ _ => True) w.
Proof.
  intros Hp. destruct applied as [b|e]; simpl; [|done]. specialize (Hp eq_refl).
  apply wp_bind. eapply (wp_mono _ _ _ (fun _ w' => P (w_db w'))).
  { intros u w1 Hp1. apply wp_bind. eapply wp_mono; [|by apply wp_ack]. intros u2 w2 H2.
    destruct o as [o|]; [|done]. eapply wp_mono; [|apply wp_observe]. done. }
  destruct b; [done|]. eapply wp_mono; [|apply wp_observe]. intros u w1 H1. simpl in *. by eapply HP.
Qed.

(** A recording call and what follows it. *)
Lemma wp_recorded id e p (k : result error bool -> prog unit) w :
  rec_call id e p -> handed_out id e (w_db w) ->
  (forall a w1, world_evolves w w1 -> (is_Ok a = true -> settled id e (w_db w1)) ->
     wp world_evolves rule (k a) (fun _ _ => True) w1) ->
  wp world_evolves rule (a <- p ;; k a) (fun _ _ => True) w.
Proof.
  intros Hp Hh Hk. apply wp_bind. eapply wp_mono; [|eapply (rec_settles (R:=R) rule); eauto].
  - intros a w1 [H1 Hs]. by apply Hk.
  - intros. by apply rule_db.
Qed.
End run_rules.

(** [finish] knows every outcome that can arise. *)
Lemma finish_outcome_cases err cause :
  finish_outcome err cause ∈ [OutcomeCompleted; OutcomeFailed; OutcomeCancelled;
    OutcomeLeaseExpired; OutcomeInterrupted; OutcomeRetryable; OutcomePanicked].
Proof.
  unfold finish_outcome. destruct (_ && errors_Is cause ErrLeaseLost); [set_solver|].
  destruct (_ && isPanic err); [set_solver|]. unfold ClassifyError.
  repeat case_match; set_solver.
Qed.

Section run_theorem.
Context {R : Type} `{!RedisServer R} `{EnvelopeJSON}.
Context (rec : Recorder) `{Hlaw : !RecorderLaw R rec} (q : queue) (reg : Registry) (r : Runner).
Context (d : Delivery) (P : DB -> Prop).
Context (HP : forall db db', evolves db db' -> P db -> P db').
Implicit Types w : World R.
#[local] Arguments settle : simpl never.
Abbreviation jobID := (env_ID (del_Env d)).
Abbreviation rule := (ack_rule (streamKey q (del_Priority d)) (del_EntryID d) P).

(** A recording call, a best-effort handoff to Redis, then [settle]. *)
Lemma wp_record_handoff e p (handoff : prog (result error unit)) o w :
  rec_call jobID e p -> handed_out jobID e (w_db w) ->
  (forall db, settled jobID e db -> P db) ->
  (forall w1, wp world_evolves rule handoff (fun _ w2 => world_evolves w1 w2) w1) ->
  wp world_evolves rule
    (a <- p ;;
     match a with Ok true => _ <- handoff ;; Ret tt | _ => Ret tt end ;;;
     settle q r d a o) (fun _ _ => True) w.
Proof.
  intros Hp Hh HsP Hoff. eapply wp_recorded; [exact Hlaw|exact Hp|exact Hh|].
  intros a w1 H1 Hs. apply wp_bind.
  destruct a as [[]|e']; simpl; try done; try (apply wp_settle; [exact HP|by auto]).
  apply wp_bind. eapply wp_mono; [|apply Hoff]. intros u w2 H2. simpl in *.
  apply wp_settle; [exact HP|]. intros _. eapply HP; [exact H2|auto].
Qed.

Lemma wp_DeadLetter env msg w :
  wp world_evolves rule (Queue.DeadLetter q env msg) (fun _ w' => world_evolves w w') w.
Proof.
  unfold Queue.DeadLetter. apply wp_pure_ok; [intros text _|done]. apply wp_bind, wp_now. intros w1 t1 H1. split; [done|].
  apply wp_ok, wp_Errorf, wp_rdb. intros w2 H2. split; [done|]. intros x w3 E3.
  assert (world_evolves w w3) by (eapply rdb_evolves; [|done]; by etrans). by destruct x.
Qed.

Lemma wp_ScheduleRetry env t w :
  wp world_evolves rule (Queue.ScheduleRetry q env t) (fun _ w' => world_evolves w w') w.
Proof.
  unfold Queue.ScheduleRetry, add_delayed. apply wp_pure_ok; [intros text _|done]. apply wp_Errorf, wp_rdb. intros w1 H1. split; [done|].
  intros x w2 E2. by eapply rdb_evolves.
Qed.

Lemma wp_finish claim res err cause t w :
  (forall db, settled jobID (cl_Epoch claim) db -> P db) ->
  handed_out jobID (cl_Epoch claim) (w_db w) ->
  wp world_evolves rule (finish rec q r d claim res err cause t) (fun _ _ => True) w.
Proof.
  intros HsP Hh. unfold finish. apply wp_bind, wp_now. intros w1 now H1. split; [done|].
  assert (Hh1 : handed_out jobID (cl_Epoch claim) (w_db w1)) by (by eapply evolves_handed_out).
  assert (Hset : forall p o, rec_call jobID (cl_Epoch claim) p ->
    wp world_evolves rule (a <- p ;; settle q r d a o) (fun _ _ => True) w1).
  { intros p o Hp. eapply wp_recorded; [exact Hlaw|exact Hp|exact Hh1|].
    intros a w2 H2 Hs. apply wp_settle; [exact HP|auto]. }
  pose proof (finish_outcome_cases err cause) as Hcases. set (oc := finish_outcome err cause) in *.
  destruct (bool_decide (oc = OutcomeCompleted)) eqn:E1; [apply Hset; constructor|].
  destruct (bool_decide (oc = OutcomeFailed)) eqn:E2; [apply Hset; constructor|].
  destruct (bool_decide (oc = OutcomeCancelled)) eqn:E3; [apply Hset; constructor|].
  destruct (bool_decide (oc = OutcomeLeaseExpired)) eqn:E4.
  { apply wp_bind. unfold RecordAttempt. apply wp_Errorf, wp_sql. intros w2 H2. by split. }
  destruct (bool_decide (oc ∈ _)) eqn:E5.
  2: { exfalso. reflect_bools. apply E5. set_solver. }
  destruct (cl_MaxAttempts claim <=? cl_Attempt claim).
  - apply wp_record_handoff with (e := cl_Epoch claim); [constructor|done|done|].
    intros w2. apply wp_DeadLetter.
  - apply wp_bind. apply (wp_mono _ _ _ (fun _ w2 => world_evolves w1 w2)).
    + intros delay w2 H2. apply wp_record_handoff with (e := cl_Epoch claim);
        [constructor|by eapply evolves_handed_out|done|]. intros w3. apply wp_ScheduleRetry.
    + destruct (bool_decide (oc = OutcomeInterrupted)); [simpl; reflexivity|]. apply wp_bind, wp_rand. intros w2 u H2. by split.
Qed.
End run_theorem.

(** C5. Record first, ack second. Consider any delivery of an existing job, any
    handler and schedule of heartbeats, either recorder, any interference by
    other processes and any failure or crash along the way. If the claim call
    failed, the runner never disposes of the entry. If the claim was refused, it
    disposes of the entry only when the job was already taken by someone (or no
    row exists). If it was granted, it disposes of the entry only once the claim
    is settled in Postgres: its outcome is recorded, or a later owner has
    fenced it off. So a crash can lose an ack, never a job. *)
Theorem Run_records_before_ack {R : Type} `{!RedisServer R} `{EnvelopeJSON} (rec : Recorder)
    (q : queue) (reg : Registry) (r : Runner) (d : Delivery) (sch : schedule) (w : World R) :
  rec = SyncRecorder \/ (exists before after, rec = BatchRecorder before after) ->
  db_wf (w_db w) -> is_Some (jobs (w_db w) !! env_ID (del_Env d)) ->
  Run rec q reg r d sch =
    (c <- ClaimJob (env_ID (del_Env d)) (run_WorkerID r)
            (effective_leaseTTL reg r (env_Type (del_Env d))) ;;
     after_claim rec q reg r d sch c) /\
  wp world_evolves no_pre
    (ClaimJob (env_ID (del_Env d)) (run_WorkerID r)
       (effective_leaseTTL reg r (env_Type (del_Env d))))
    (fun c w1 =>
       wp world_evolves
         (ack_rule (streamKey q (del_Priority d)) (del_EntryID d)
            (match c with
             | Err _ => fun _ => False
             | Ok None => taken (env_ID (del_Env d))
             | Ok (Some claim) => settled (env_ID (del_Env d)) (cl_Epoch claim)
             end))
         (after_claim rec q reg r d sch c) (fun _ _ => True) w1) w.
Proof.
  intros Hrec Hwf Hex. split; [done|].
  assert (Hlaw : RecorderLaw R rec) by (destruct Hrec as [->|(? & ? & ->)]; apply _).
  set (id := env_ID (del_Env d)) in *. unfold ClaimJob. apply wp_bind, wp_QueryRow.
  intros w1 H1. split; [done|]. intros now.
  split; [|split].
  1-2: intros o; simpl; unfold is_no_rows; rewrite outage_not_sentinel by set_solver; done.
  simpl. destruct (update_where id claimable _ (w_db w1)) as [o db2] eqn:Hu. simpl.
  assert (Hwf1 : db_wf (w_db w1)) by (by eapply evolves_wf).
  assert (Hex1 : handed_out id 0 (w_db w1)).
  { destruct Hex as [row Hrow]. eapply evolves_handed_out; [exact H1|].
    exists row. split; [done|]. destruct (wf_rows _ Hwf id row Hrow) as [[] _]. lia. }
  destruct o as [row|]; simpl.
  - (* granted *)
    pose proof (update_where_hit id claimable
      (row_claimed now (run_WorkerID r) (effective_leaseTTL reg r (env_Type (del_Env d)))) (w_db w1) row) as Hhit.
    rewrite Hu in Hhit. destruct (Hhit eq_refl) as (r0 & Hr0 & _ & -> & Hj). simpl in Hj.
    set (claim := claim_of _).
    assert (HP : forall db db', evolves db db' -> settled id (cl_Epoch claim) db ->
      settled id (cl_Epoch claim) db') by (intros; by eapply evolves_settled).
    assert (Hh : handed_out id (cl_Epoch claim) db2).
    { eexists. rewrite Hj, lookup_insert_eq. split; [done|]. simpl. lia. }
    apply wp_bind. eapply wp_mono; [|apply wp_observe]. intros u w2 H2.
    assert (Hh2 : handed_out id (cl_Epoch claim) (w_db w2)) by (eapply evolves_handed_out; [exact H2|exact Hh]).
    destruct (Get reg (env_Type (del_Env d))) as [x|].
    + apply wp_bind. eapply wp_mono; [|apply wp_execute]. intros ret w3 H3.
      eapply (wp_finish rec); [exact HP|done|]. eapply evolves_handed_out; [exact H3|exact Hh2].
    + eapply (wp_finish rec); [exact HP|done|exact Hh2].
  - (* refused *)
    unfold is_no_rows. simpl. apply wp_bind. eapply wp_mono; [|apply wp_observe]. intros u w2 H2.
    eapply wp_mono; [|apply wp_ack]; [done|intros ? ? ?; by apply evolves_taken|].
    eapply evolves_taken; [exact H2|]. simpl.
    pose proof (update_where_miss id claimable
      (row_claimed now (run_WorkerID r) (effective_leaseTTL reg r (env_Type (del_Env d)))) (w_db w1)) as Hmiss.
    rewrite Hu in Hmiss. destruct (Hmiss ltac:(done)) as [E Hno]. simpl in E. subst db2.
    destruct Hex1 as (row & Hrow & _). exists row. split; [done|].
    apply (wf_touched _ (proj1 (wf_rows _ Hwf1 id row Hrow))).
    intros Hp. specialize (Hno row Hrow). unfold claimable, status_is in Hno.
    by rewrite Hp in Hno.
Qed.

(** ** The retry budget *)

Section discipline.
Context {R : Type} `{!RedisServer R} `{EnvelopeJSON}.
Context (rec : Recorder) (q : queue) (reg : Registry) (r : Runner) (d : Delivery).
Implicit Types w : World R.
Abbreviation jobID := (env_ID (del_Env d)).

Lemma plain_observe o : only plain (observe r o).
Proof. unfold observe. only_calls. Qed.
Lemma plain_ack : only plain (ack q d).
Proof. unfold ack. only_calls. Qed.
#[local] Hint Resolve plain_observe plain_ack : only.
Lemma plain_beat claim ttl : only plain (beat q r d claim ttl).
Proof. unfold beat. only_calls. Qed.
#[local] Hint Resolve plain_beat : only.
Lemma plain_exec_events claim ttl evs : forall st, only plain (exec_events q r d claim ttl evs st).
Proof. induction evs as [|[|e] evs IH]; intros st; only_calls. Qed.
#[local] Hint Resolve plain_exec_events : only.
Lemma plain_execute claim x sch : only plain (execute q reg r d claim x sch).
Proof. unfold execute. only_calls. Qed.
Lemma plain_settle a o : only plain (settle q r d a o).
Proof. unfold settle. only_calls. Qed.
#[local] Hint Resolve plain_execute plain_settle : only.

(** A recording call within the budget, then plain calls. *)
Lemma wp_recorded_keeps w0 e p {A} (k : result error bool -> prog A) w :
  RecorderKeeps R rec w0 -> world_evolves w0 w -> budget_call (w_db w) jobID e p ->
  (forall a, only plain (k a)) ->
  wp world_evolves disciplined (a <- p ;; k a) (fun _ _ => True) w.
Proof.
  intros Hk Hw Hp Hplain. apply wp_bind. eapply wp_mono; [|by eapply (rec_keeps (w0:=w0))].
  intros a w1 _. eapply wp_mono; [|by apply wp_plain]. done.
Qed.

Lemma wp_finish_disciplined w0 claim res err cause t w :
  RecorderKeeps R rec w0 -> world_evolves w0 w ->
  (cl_Attempt claim < cl_MaxAttempts claim -> budget_left jobID (cl_Epoch claim) (w_db w)) ->
  wp world_evolves disciplined (finish rec q r d claim res err cause t) (fun _ _ => True) w.
Proof.
  intros Hk Hw Hb. unfold finish. apply wp_bind, wp_now. intros w1 now H1. split; [done|].
  assert (H01 : world_evolves w0 w1) by (by etrans).
  set (oc := finish_outcome err cause).
  destruct (bool_decide (oc = OutcomeCompleted));
    [apply (wp_recorded_keeps w0 (cl_Epoch claim)); [done|done|constructor|only_calls]|].
  destruct (bool_decide (oc = OutcomeFailed));
    [apply (wp_recorded_keeps w0 (cl_Epoch claim)); [done|done|constructor|only_calls]|].
  destruct (bool_decide (oc = OutcomeCancelled));
    [apply (wp_recorded_keeps w0 (cl_Epoch claim)); [done|done|constructor|only_calls]|].
  destruct (bool_decide (oc = OutcomeLeaseExpired)).
  { eapply wp_mono; [|apply wp_plain; only_calls]. done. }
  destruct (bool_decide (oc ∈ _)); [|eapply wp_mono; [|apply wp_plain; only_calls]; done].
  destruct (cl_MaxAttempts claim <=? cl_Attempt claim) eqn:Hle.
  { apply (wp_recorded_keeps w0 (cl_Epoch claim)); [done|done|constructor|only_calls]. }
  apply wp_plain_bind; [only_calls|]. intros delay w2 H2.
  apply (wp_recorded_keeps w0 (cl_Epoch claim)); [done|by etrans| |only_calls].
  constructor. eapply evolves_budget_left; [etrans; [exact H1|exact H2]|]. apply Hb. lia.
Qed.

(** A granted claim below the maximum leaves budget for its run. *)
Lemma claim_budget now id worker ttl db row :
  (exec_stmt now (UpdateClaim id worker ttl) db).1 = Ok (Some row) ->
  cl_Attempt (claim_of row) < cl_MaxAttempts (claim_of row) ->
  budget_left id (cl_Epoch (claim_of row)) (exec_stmt now (UpdateClaim id worker ttl) db).2.
Proof.
  simpl. destruct (update_where id claimable _ db) as [o db1] eqn:Hu. simpl. intros [= ->] Hlt.
  pose proof (update_where_hit id claimable (row_claimed now worker ttl) db row) as Hhit.
  rewrite Hu in Hhit. destruct (Hhit eq_refl) as (r0 & _ & _ & _ & Hj). simpl in Hj.
  exists row. rewrite Hj, lookup_insert_eq. split; [done|]. simpl. split; [lia|]. intros _. exact Hlt.
Qed.

(** A run keeps to the discipline: it only schedules a retry for a job that has
    an attempt left. *)
Lemma wp_Run_disciplined sch w :
  RecorderKeeps R rec w ->
  wp world_evolves disciplined (Run rec q reg r d sch) (fun _ _ => True) w.
Proof.
  intros Hk. unfold Run, ClaimJob. apply wp_bind, wp_bind, wp_QueryRow. intros w1 H1.
  split; [by split|]. intros now.
  assert (Herr : forall c w2, (forall claim, c <> Ok (Some claim)) ->
    wp world_evolves disciplined (after_claim rec q reg r d sch c) (fun _ _ => True) w2).
  { intros c w2 Hc. eapply wp_mono; [|apply wp_plain]; [done|].
    destruct c as [[claim|]|e]; [by destruct (Hc claim)|simpl; only_calls|done]. }
  split; [|split].
  1-2: intros o; simpl; unfold is_no_rows; rewrite outage_not_sentinel by set_solver; by apply Herr.
  pose proof (claim_budget now jobID (run_WorkerID r) (effective_leaseTTL reg r (env_Type (del_Env d)))
    (w_db w1)) as Hcl.
  assert (Hev : evolves (w_db w1) (exec_stmt now (UpdateClaim jobID (run_WorkerID r)
    (effective_leaseTTL reg r (env_Type (del_Env d)))) (w_db w1)).2) by (by apply evolves_step).
  destruct (exec_stmt now (UpdateClaim jobID (run_WorkerID r)
    (effective_leaseTTL reg r (env_Type (del_Env d)))) (w_db w1)) as [[[row|]|msg] db2]; simpl in *;
    [|by apply (Herr (Ok None))|done].
  specialize (Hcl row eq_refl). apply wp_plain_bind; [only_calls|]. intros u w2 H2.
  assert (Hw2 : world_evolves w w2) 
    by (unfold world_evolves in *; simpl in H2; by do 2 (etrans; [eassumption|])).
  destruct (Get reg (env_Type (del_Env d))) as [x|].
  - apply wp_plain_bind; [only_calls|]. intros ret w3 H3.
    apply (wp_finish_disciplined w); [done|by etrans|]. intros Hlt.
    eapply evolves_budget_left; [etrans; [exact H2|exact H3]|by apply Hcl].
  - apply (wp_finish_disciplined w); [done|done|]. intros Hlt.
    eapply evolves_budget_left; [exact H2|by apply Hcl].
Qed.
End discipline.

Definition demo_runner : Runner :=
  {| run_Backoff := {| base := Second; cap := 5 * Minute |}; run_WorkerID := "w1";
     run_LeaseTTL := 30; run_ExecTimeout := 60; run_HasObs := true |}.
Definition demo_delivery : Delivery :=
  {| del_Env := demo_env "j1"; del_EntryID := "1-0"; del_Priority := PriorityDefault |}.
Definition demo_schedule : schedule :=
  {| sch_events := [Beat]; sch_deadline := false; sch_straggler := false |}.

Lemma Run_records_before_ack_witness :
  let P := Run (H:=DemoJSON) SyncRecorder demo_queue demo_registry demo_runner demo_delivery demo_schedule in
  wp world_evolves no_pre
    (ClaimJob "j1" "w1" 30)
    (fun c w1 =>
       wp world_evolves
         (ack_rule (streamKey demo_queue PriorityDefault) "1-0"
            (match c with
             | Err _ => fun _ => False
             | Ok None => taken "j1"
             | Ok (Some claim) => settled "j1" (cl_Epoch claim)
             end))
         (after_claim (H:=DemoJSON) SyncRecorder demo_queue demo_registry demo_runner demo_delivery
            demo_schedule c) (fun _ _ => True) w1) (demo_world demo_inserted) /\
  (run P (replicate 12 (fine 5)) (demo_world demo_inserted)).1 = Some tt /\
  w_obs (run P (replicate 12 (fine 5)) (demo_world demo_inserted)).2
    = [JobStarted "bench.sleep"; JobCompleted "bench.sleep" 0 5] /\
  (r_status <$> jobs (w_db (run P (replicate 12 (fine 5)) (demo_world demo_inserted)).2) !! "j1")
    = Some StatusCompleted.
Proof.
  intros P. split; [|split_and!; vm_compute; reflexivity].
  apply (Run_records_before_ack (H:=DemoJSON) SyncRecorder demo_queue demo_registry demo_runner
    demo_delivery demo_schedule (demo_world demo_inserted)).
  - by left.
  - apply (evolves_wf empty_db); [|apply empty_db_wf].
    eapply (evolves_step 0 (InsertJob demo_job "{}")). exact demo_job_admitted.
  - vm_compute. eauto.
Defined.
