(* ===== verification/Execution.v ===== *)
(** * Execution: what one undisturbed run of a delivery does

    [Runner.v] bounds what a run can do under interference and failures.  Here
    the other half: alone, with every call going through, a run of
    [internal/worker/runner.go] takes the job from claim to its outcome - the
    row, the attempt, the queue entry, the retry or the dead letter - exactly as
    the outcome of the handler demands. *)

From S2P Require Import Prelude Errors Rfc3339 Job Retry Database Rows Redis Effects Rely Store.
From S2P Require Import Batch Queue Handler Runner.
Local Open Scope string_scope.
Local Open Scope list_scope.
Local Open Scope Z_scope.
Local Open Scope prog_scope.

(** ** The store, statement by statement *)

Section store.
Context {R : Type} `{!RedisServer R} (t0 : Time).
Implicit Types w : World R.

Lemma goes_QueryRow {A} (s : stmt (option A)) (Q : result error A -> World R -> Prop) w :
  (forall now, t0 <= now ->
     Q (match (exec_stmt now s (w_db w)).1 with
        | Ok (Some a) => Ok a
        | Ok None => Err (ESentinel ErrNoRows)
        | Err m => Err (EMsg m) end) (with_db (exec_stmt now s (w_db w)).2 w)) ->
  goes t0 (QueryRow s) Q w.
Proof.
  intros HQ. unfold QueryRow. apply goes_bind, goes_sql. intros now Hle. specialize (HQ now Hle).
  by destruct (exec_stmt now s (w_db w)) as [[[a|]|m] db'].
Qed.

Lemma goes_addEvent id ev detail (Q : unit -> World R -> Prop) w :
  (forall es, Q tt (with_db (add_events es (w_db w)) w)) -> goes t0 (addEvent id ev detail) Q w.
Proof.
  intros HQ. unfold addEvent. apply goes_bind, goes_sql. intros now _. simpl.
  destruct (jobs (w_db w) !! id); [apply HQ|]. specialize (HQ []). simpl in *.
  unfold add_events in HQ. rewrite app_nil_r in HQ. by destruct w as [[]].
Qed.

(** A fenced write by the owner. *)
Lemma goes_fenced id e (s : stmt Z) f prefix {B} (k : Z -> prog (result error B)) Q w rc :
  (forall now db, exec_stmt now s db =
     let '(r, db') := update_where id (fence e) (f now) db in (Ok (RowsAffected r), db')) ->
  jobs (w_db w) !! id = Some rc -> fence e rc = true ->
  (forall now, t0 <= now ->
     goes t0 (k 1) Q (with_db (set_jobs (<[id := f now rc]> (jobs (w_db w))) (w_db w)) w)) ->
  goes t0 (bind_ok (Errorf prefix (pgExec s)) k) Q w.
Proof.
  intros Hs Hrow Hf HQ. apply goes_ok, goes_Errorf, goes_sql. intros now Hle.
  rewrite Hs. unfold update_where. rewrite Hrow, Hf. simpl. by apply HQ.
Qed.
End store.

(** ** Verdicts *)

(** The status an outcome ends in; [last]: no attempt is left. *)
Definition verdict (oc : Outcome) (last : bool) : Status :=
  if bool_decide (oc = OutcomeCompleted) then StatusCompleted
  else if bool_decide (oc = OutcomeFailed) then StatusFailed
  else if bool_decide (oc = OutcomeCancelled) then StatusCancelled
  else if last then StatusDeadLetter else StatusRetrying.

Section execution.
Context {R : Type} `{!RedisServer R} `{EnvelopeJSON} (t0 : Time).
Context (q : queue) (reg : Registry) (r : Runner) (d : Delivery).
Context (row : JobRow) (w0 : World R).
Implicit Types w : World R.
Abbreviation jobID := (env_ID (del_Env d)).
Abbreviation attempt := (r_attempt_count row + 1).
Abbreviation epoch := (r_lease_epoch row + 1).

(** *** While the handler runs *)

Record held w : Prop := {
  he_row : exists rc, jobs (w_db w) !! jobID = Some rc /\ r_def rc = r_def row /\
    fence epoch rc = true /\ r_attempt_count rc = attempt;
  he_others : forall i, i <> jobID -> jobs (w_db w) !! i = jobs (w_db w0) !! i;
  he_attempts : job_attempts (w_db w) = job_attempts (w_db w0);
  he_entries : forall k, entries k (w_redis w) = entries k (w_redis w0);
  he_members : forall k, members k (w_redis w) = members k (w_redis w0);
  he_unread : forall k, unread k (w_redis w) = unread k (w_redis w0);
  he_cancel : forall now, get now (cancelKey q jobID) (w_redis w) = None
}.

Lemma held_obs w obs : held w -> held (Build_World (w_db w) (w_redis w) obs).
Proof. by intros []. Qed.

Lemma goes_observe o (Q : unit -> World R -> Prop) w :
  (forall obs, Q tt (Build_World (w_db w) (w_redis w) obs)) -> goes t0 (observe r o) Q w.
Proof.
  intros HQ. unfold observe. destruct (run_HasObs r).
  - apply goes_notify. unfold notify_obs. apply HQ.
  - simpl. specialize (HQ (w_obs w)). by destruct w.
Qed.

Definition my_claim (now : Time) : Claim :=
  {| cl_Epoch := epoch; cl_Attempt := attempt; cl_MaxAttempts := r_max_attempts row; cl_StartedAt := now |}.

(** A tick of the heartbeat: the lease is extended, and nobody asked to stop. *)
Lemma goes_beat now ttl w :
  held w -> goes t0 (beat q r d (my_claim now) ttl) (fun c w' => c = None /\ held w') w.
Proof.
  intros [(rc & Hrc & Hdef & Hf & Hatt) Ho Ha He Hm Hu Hc]. unfold beat, Heartbeat.
  apply goes_bind, goes_bind, goes_rdb. intros n1 _. simpl. apply goes_bind. unfold ExtendLease.
  eapply goes_fenced; [by intros|exact Hrc|exact Hf|]. intros n2 _. simpl.
  apply goes_bind. unfold IsCancelRequested. apply goes_ok, goes_Errorf, goes_rdb. intros n3 _. simpl.
  rewrite xclaim_get, Hc. simpl. split; [done|]. constructor; simpl.
  - eexists. rewrite lookup_insert_eq. split_and!; [done|done| |done].
    unfold fence, status_is in *. by simpl.
  - intros i Hi. rewrite lookup_insert_ne by done. by apply Ho.
  - done.
  - intros k. by rewrite xclaim_entries.
  - intros k. by rewrite xclaim_members.
  - intros k. by rewrite xclaim_unread.
  - intros n. by rewrite xclaim_get.
Qed.

Lemma goes_exec_events now ttl evs : forall w,
  Forall (fun ev => ev = Beat) evs -> held w ->
  goes t0 (exec_events q r d (my_claim now) ttl evs {| ex_cause := None; ex_beating := true |})
    (fun st w' => st = {| ex_cause := None; ex_beating := true |} /\ held w') w.
Proof.
  induction evs as [|ev evs IH]; intros w Hevs Hw; simpl; [done|].
  apply Forall_cons in Hevs as [-> Hevs]. simpl. apply goes_bind.
  eapply goes_mono; [|by apply goes_beat]. intros c w1 [-> Hw1]. by apply IH.
Qed.

(** What the handler is called with, and what it makes of it. *)
Definition handler_ctx (sch : schedule) : ctx :=
  {| ctx_cause := None; ctx_deadline := sch_deadline sch;
     ctx_timeout := effective_timeout reg r (env_Type (del_Env d)) |}.

Definition returned (x : Registration) (c : ctx) (j : Job) : handler_return :=
  match reg_Handler x with Some h => h c j | None => Panicked "nil handler" end.

Lemma goes_execute now x sch w :
  Forall (fun ev => ev = Beat) (sch_events sch) -> held w ->
  goes t0 (execute q reg r d (my_claim now) x sch)
    (fun ret w' => ret = (safeHandle (returned x (handler_ctx sch) (handler_job d (my_claim now))), None) /\ held w') w.
Proof.
  intros Hevs Hw. unfold execute. apply goes_bind. eapply goes_mono; [|by apply goes_exec_events].
  intros st w1 [-> Hw1]. simpl. apply goes_bind.
  destruct (sch_straggler sch); simpl; [|done]. apply goes_bind.
  eapply goes_mono; [|by apply goes_beat]. intros c w2 [_ Hw2]. done.
Qed.

(** *** The outcome *)

Definition last_attempt : bool := r_max_attempts row <=? attempt.

(** The row afterwards. *)
Record settled_row (oc : Outcome) (res msg : string) (row' : JobRow) : Prop := {
  sr_def : r_def row' = r_def row;
  sr_status : r_status row' = verdict oc last_attempt;
  sr_attempts : r_attempt_count row' = attempt;
  sr_epoch : r_lease_epoch row' = epoch;
  sr_lease : r_lease_expires_at row' = None;
  sr_result : r_status row' = StatusCompleted -> r_result row' = Some (json_or_null res) /\ r_error row' = None;
  sr_error : r_status row' ∈ [StatusFailed; StatusDeadLetter; StatusRetrying] -> r_error row' = Some msg;
  sr_when : r_status row' = StatusRetrying -> exists now u, t0 <= now /\
    r_scheduled_at row' = now + (if bool_decide (oc = OutcomeInterrupted) then 0
                                 else Delay (run_Backoff r) u attempt)
}.

(** The next delivery of a job that is to be retried. *)
Definition next_envelope : Envelope :=
  {| env_ID := jobID; env_Type := env_Type (del_Env d); env_Queue := env_Queue (del_Env d);
     env_Priority := env_Priority (del_Env d); env_Attempt := attempt + 1;
     env_Payload := env_Payload (del_Env d); env_EnqueuedAt := env_EnqueuedAt (del_Env d) |}.

(** What is in Redis for the verdict, which had the delayed sets of [s0]. *)
Definition handed_off (st : Status) (msg : string) (row' : JobRow) (s0 s : R) : Prop :=
  if bool_decide (st = StatusRetrying) then
    exists text, Encode next_envelope = Ok text /\
      forall k, members k s = if bool_decide (k = delayedKey q (env_Priority (del_Env d)))
        then <[text := UnixMilli (r_scheduled_at row')]> (members k s0) else members k s0
  else (forall k, members k s = members k s0) /\
    if bool_decide (st = StatusDeadLetter) then
      exists id text at_, Encode (del_Env d) = Ok text /\
        last (entries (dlqKey q) s) = Some (id, [("j", text); ("error", msg); ("at", FormatRFC3339 at_)])
    else True.

Lemma handed_off_same st msg row' s0 s s0' s' :
  (forall k, members k s0' = members k s0) -> (forall k, members k s' = members k s) ->
  entries (dlqKey q) s' = entries (dlqKey q) s ->
  handed_off st msg row' s0 s -> handed_off st msg row' s0' s'.
Proof.
  intros H0 Hm He. unfold handed_off. rewrite He. destruct (bool_decide (st = StatusRetrying)).
  - intros (text & Ht & Hk). exists text. split; [done|]. intros k. by rewrite Hm, Hk, H0.
  - intros [Hk Hd]. split; [|done]. intros k. by rewrite Hm, Hk, H0.
Qed.

(** What a hand-off leaves alone. *)
Definition elsewhere (s s' : R) : Prop :=
  (forall p, entries (streamKey q p) s' = entries (streamKey q p) s) /\
  (forall p, unread (streamKey q p) s' = unread (streamKey q p) s) /\
  (forall now, get now (cancelKey q jobID) s' = get now (cancelKey q jobID) s).

(** The attempt that is on record. *)
Definition my_attempt (oc : Outcome) (msg : string) (started finished : Time) : Attempt :=
  {| att_JobID := jobID; att_Attempt := attempt; att_WorkerID := run_WorkerID r;
     att_StartedAt := started; att_FinishedAt := finished; att_Outcome := oc; att_Error := msg |}.

(** The end: everything in its place. *)
Record concluded (oc : Outcome) (res msg : string) (started : Time) w : Prop := {
  co_row : exists row', jobs (w_db w) !! jobID = Some row' /\ settled_row oc res msg row' /\
    handed_off (r_status row') msg row' (w_redis w0) (w_redis w);
  co_others : forall i, i <> jobID -> jobs (w_db w) !! i = jobs (w_db w0) !! i;
  co_attempt : exists finished, job_attempts (w_db w) =
    <[(jobID, attempt) := attempt_row true (my_attempt oc msg started finished)]> (job_attempts (w_db w0));
  co_entries : forall p, entries (streamKey q p) (w_redis w) =
    if bool_decide (p = del_Priority d)
    then filter (fun e => e.1 <> del_EntryID d) (entries (streamKey q p) (w_redis w0))
    else entries (streamKey q p) (w_redis w0);
  co_unread : forall p, unread (streamKey q p) (w_redis w) =
    if bool_decide (p = del_Priority d)
    then filter (fun e => e.1 <> del_EntryID d) (unread (streamKey q p) (w_redis w0))
    else unread (streamKey q p) (w_redis w0);
  co_cancel : forall now, get now (cancelKey q jobID) (w_redis w) = None
}.

(** *** Recording it *)

Record written (f : Time -> JobRow -> JobRow) (att : Attempt) w w' : Prop := {
  wr_jobs : exists now rc, t0 <= now /\ jobs (w_db w) !! jobID = Some rc /\
    jobs (w_db w') = <[jobID := f now rc]> (jobs (w_db w));
  wr_attempts : job_attempts (w_db w') =
    <[(jobID, att_Attempt att) := attempt_row true att]> (job_attempts (w_db w));
  wr_redis : w_redis w' = w_redis w
}.

(** A continuation that answers that the row was hit, after an event or none. *)
Definition answers_hit (k : Z -> prog (result error bool)) : Prop :=
  forall (Q : result error bool -> World R -> Prop) w,
    (forall es, Q (Ok true) (with_db (add_events es (w_db w)) w)) -> goes t0 (k 1) Q w.

Lemma hit_plain : answers_hit (fun n => Ret (Ok (one_row n))).
Proof.
  intros Q w HQ. simpl. specialize (HQ []). unfold add_events in HQ. rewrite app_nil_r in HQ.
  by destruct w as [[]].
Qed.
Lemma hit_event ev detail : answers_hit (with_event jobID ev detail).
Proof.
  intros Q w HQ. unfold with_event. simpl. apply goes_bind, goes_addEvent. intros es. simpl. apply HQ.
Qed.

Lemma goes_sync (s : stmt Z) f prefix k att w :
  (forall now db, exec_stmt now s db =
     let '(o, db') := update_where jobID (fence epoch) (f now) db in (Ok (RowsAffected o), db')) ->
  answers_hit k -> att_JobID att = jobID -> att_Attempt att = attempt ->
  job_attempts (w_db w0) !! (jobID, attempt) = None -> held w ->
  goes t0 (sync_after (bind_ok (Errorf prefix (pgExec s)) k) att)
    (fun a w' => a = Ok true /\ written f att w w') w.
Proof.
  intros Hs Hk Hid Hn Hnone [(rc & Hrc & _ & Hf & _) _ Ha _ _ _].
  unfold sync_after. apply goes_ok. eapply goes_fenced; [exact Hs|exact Hrc|exact Hf|].
  intros now Hle. apply Hk. intros es. apply goes_bind. unfold sync_record, RecordAttempt.
  apply goes_bind, goes_Errorf, goes_sql. intros now2 _. cbn [exec_stmt].
  unfold insert_attempt_row. simpl. rewrite Hid, Hn, Ha, Hnone, lookup_insert_eq. simpl. split; [done|].
  constructor; simpl; [by exists now, rc|by rewrite Hn, Ha|done].
Qed.

(** *** The ack, and the end *)

Lemma goes_ack (Q : unit -> World R -> Prop) w :
  Q tt (with_redis (xdel (streamKey q (del_Priority d)) (del_EntryID d)
          (xack (streamKey q (del_Priority d)) (del_EntryID d) (w_redis w))) w) ->
  goes t0 (ack q d) Q w.
Proof.
  intros HQ. unfold ack, Ack. apply goes_bind, goes_bind, goes_rdb. intros n1 _. simpl.
  apply goes_bind, goes_rdb. intros n2 _. simpl. by destruct w.
Qed.

(** Stream keys, delayed keys and the dead-letter key are different. *)
Lemma stream_not_dlq p : streamKey q p <> dlqKey q.
Proof. unfold streamKey, dlqKey. intros E. by apply (inj _) in E. Qed.

(** A worker that still holds the job has recorded the outcome and handed the
    job on; it acknowledges. *)
Lemma goes_settle oc res msg started f att (handoff : prog unit) o w w1 :
  held w -> written f att w w1 -> att = my_attempt oc msg started (att_FinishedAt att) ->
  (forall now rc, t0 <= now -> jobs (w_db w) !! jobID = Some rc -> r_def rc = r_def row ->
     r_attempt_count rc = attempt -> r_lease_epoch rc = epoch -> settled_row oc res msg (f now rc)) ->
  goes t0 handoff (fun _ w2 => w_db w2 = w_db w1 /\ elsewhere (w_redis w1) (w_redis w2) /\
     forall row', jobs (w_db w1) !! jobID = Some row' ->
       handed_off (r_status row') msg row' (w_redis w1) (w_redis w2)) w1 ->
  goes t0 (handoff ;;; settle q r d (Ok true) o) (fun _ w' => concluded oc res msg started w') w1.
Proof.
  intros [(rc & Hrc & Hdef & Hf & Hatt) Ho Ha He Hm Hu Hcan] [(now & rc' & Hle & Hrc' & Hj) Hat Hr] Hmy Hrow Hoff.
  rewrite Hrc in Hrc'. injection Hrc' as <-. apply fence_spec in Hf as [Hep _].
  apply goes_bind. eapply goes_mono; [|exact Hoff]. intros u w2 (Hdb & (Hen & Hun & Hget) & Hho).
  unfold settle. simpl. apply goes_bind, goes_ack.
  assert (Hc : forall obs, concluded oc res msg started (Build_World (w_db w2)
    (xdel (streamKey q (del_Priority d)) (del_EntryID d)
       (xack (streamKey q (del_Priority d)) (del_EntryID d) (w_redis w2))) obs)).
  { intros obs. constructor; simpl; rewrite ?Hdb.
    - exists (f now rc). rewrite Hj, lookup_insert_eq. split; [done|]. split; [by apply Hrow|].
      specialize (Hho (f now rc)). rewrite Hj, lookup_insert_eq in Hho. specialize (Hho eq_refl).
      eapply handed_off_same; [..|exact Hho].
      + intros k. by rewrite Hr, Hm.
      + intros k. by rewrite xdel_members, xack_members.
      + by rewrite xdel_other, xack_entries by apply stream_not_dlq.
    - intros i Hi. rewrite Hj, lookup_insert_ne by done. by apply Ho.
    - exists (att_FinishedAt att). rewrite Hat, Ha, Hmy. done.
    - intros p. case_bool_decide as Hp.
      + subst p. by rewrite xdel_entries, xack_entries, Hen, Hr, He.
      + rewrite xdel_other by (by intros ?%streamKey_inj). by rewrite xack_entries, Hen, Hr, He.
    - intros p. case_bool_decide as Hp.
      + subst p. by rewrite xdel_unread, xack_unread, Hun, Hr, Hu.
      + rewrite xdel_unread_other by (by intros ?%streamKey_inj). by rewrite xack_unread, Hun, Hr, Hu.
    - intros n. by rewrite xdel_get, xack_get, Hget, Hr. }
  destruct o as [o|]; [|simpl; apply Hc]. apply goes_observe. apply Hc.
Qed.

(** *** Each outcome *)

(** The row says [st], and Redis has what goes with it. *)
Definition handed_to (msg : string) w1 : unit -> World R -> Prop := fun _ w2 =>
  w_db w2 = w_db w1 /\ elsewhere (w_redis w1) (w_redis w2) /\
  forall row', jobs (w_db w1) !! jobID = Some row' ->
    handed_off (r_status row') msg row' (w_redis w1) (w_redis w2).

Lemma handed_nothing msg w1 :
  (forall row', jobs (w_db w1) !! jobID = Some row' ->
     r_status row' ∈ [StatusCompleted; StatusFailed; StatusCancelled]) -> handed_to msg w1 tt w1.
Proof.
  intros Hst. split; [done|]. split; [by split|]. intros row' Hr. specialize (Hst _ Hr). unfold handed_off.
  by repeat (apply elem_of_cons in Hst as [->|Hst]); [..|apply elem_of_nil in Hst].
Qed.

Lemma goes_retry_handoff msg at_ w1 :
  is_Ok (Encode next_envelope) = true ->
  (forall row', jobs (w_db w1) !! jobID = Some row' ->
     r_status row' = StatusRetrying /\ r_scheduled_at row' = at_) ->
  goes t0 (_ <- Queue.ScheduleRetry q next_envelope at_ ;; Ret tt) (handed_to msg w1) w1.
Proof.
  intros Henc Hrow. apply goes_bind. unfold Queue.ScheduleRetry, add_delayed.
  destruct (Encode next_envelope) as [text|] eqn:He; [|done].
  apply (goes_pure_ok t0 text); [done|]. apply goes_Errorf, goes_rdb. intros now _. split_and!; simpl; [done|..].
  { split_and!; intros; [apply zadd_entries|apply zadd_unread|apply zadd_get]. }
  intros row' Hr. destruct (Hrow _ Hr) as [E1 E2]. unfold handed_off. rewrite E1, E2.
  rewrite (bool_decide_eq_true_2 (StatusRetrying = StatusRetrying)) by done.
  exists text. split; [done|]. intros k. case_bool_decide as Hk; [subst k; apply zadd_members|by apply zadd_other].
Qed.

(** The trimmed log keeps its newest entry. *)
Lemma xtrim_last k n (s : R) x : 1 <= n -> last (entries k s) = Some x -> last (entries k (xtrim k n s)) = Some x.
Proof.
  intros Hn Hx. destruct (decide (Z.of_nat (length (entries k s)) <= n)) as [Hs|Hs]; [by rewrite xtrim_short|].
  assert (Hge : n <= Z.of_nat (length (entries k s))) by lia.
  pose proof (xtrim_keeps k n s Hge) as Hk. destruct (xtrim_suffix k n s) as [es E].
  rewrite E in Hx. rewrite last_app in Hx.
  destruct (last (entries k (xtrim k n s))) eqn:Hl; [done|]. apply last_None in Hl. rewrite Hl in Hk.
  simpl in Hk. lia.
Qed.

Lemma goes_dead_handoff msg w1 :
  is_Ok (Encode (del_Env d)) = true ->
  (forall row', jobs (w_db w1) !! jobID = Some row' -> r_status row' = StatusDeadLetter) ->
  goes t0 (_ <- Queue.DeadLetter q (del_Env d) msg ;; Ret tt) (handed_to msg w1) w1.
Proof.
  intros Henc Hrow. apply goes_bind. unfold Queue.DeadLetter.
  destruct (Encode (del_Env d)) as [text|] eqn:Htext; [|done].
  apply (goes_pure_ok t0 text); [done|]. apply goes_bind, goes_now. intros t _ _.
  apply goes_ok, goes_Errorf, goes_rdb. intros now _. simpl.
  pose proof (xadd_entries (dlqKey q) [("j", text); ("error", msg); ("at", FormatRFC3339 t)]
    (w_redis w1)) as Hx.
  set (fs := [("j", text); ("error", msg); ("at", FormatRFC3339 t)]) in *.
  assert (Hne : forall p, dlqKey q <> streamKey q p) by (intros p E; by apply (stream_not_dlq p)).
  assert (Ho : elsewhere (w_redis w1) (xtrim (dlqKey q) dlqMaxLen (xadd (dlqKey q) fs (w_redis w1)).2)).
  { split_and!; intros; rewrite ?xtrim_other, ?xtrim_unread_other, ?xtrim_get by done;
      [by apply xadd_other|by apply xadd_unread_other|apply xadd_get]. }
  assert (Hm : forall k, members k (xtrim (dlqKey q) dlqMaxLen (xadd (dlqKey q) fs (w_redis w1)).2) = members k (w_redis w1)).
  { intros k. by rewrite xtrim_members, xadd_members. }
  destruct (xadd (dlqKey q) fs (w_redis w1)) as [i s1]. simpl in *.
  split_and!; simpl; [done|exact Ho|].
  - intros row' Hr. rewrite (Hrow _ Hr). unfold handed_off.
    rewrite (bool_decide_eq_false_2 (StatusDeadLetter = StatusRetrying)) by done.
    rewrite (bool_decide_eq_true_2 (StatusDeadLetter = StatusDeadLetter)) by done.
    split; [exact Hm|]. exists i, text, t. split; [done|]. apply xtrim_last; [done|]. by rewrite Hx, last_snoc.
Qed.

(** One recorder call, its hand-off, and the end. *)
Lemma goes_recorded oc res msg started finished (s : stmt Z) f prefix k w (h : result error bool -> prog unit) o :
  (forall now db, exec_stmt now s db =
     let '(x, db') := update_where jobID (fence epoch) (f now) db in (Ok (RowsAffected x), db')) ->
  answers_hit k -> job_attempts (w_db w0) !! (jobID, attempt) = None -> held w ->
  (forall now rc, t0 <= now -> r_def rc = r_def row -> r_attempt_count rc = attempt ->
     r_lease_epoch rc = epoch -> settled_row oc res msg (f now rc)) ->
  (forall w1, (forall row', jobs (w_db w1) !! jobID = Some row' -> exists now rc, row' = f now rc) ->
     goes t0 (h (Ok true)) (handed_to msg w1) w1) ->
  goes t0 (a <- sync_after (bind_ok (Errorf prefix (pgExec s)) k) (my_attempt oc msg started finished) ;;
           h a ;;; settle q r d a o) (fun _ w' => concluded oc res msg started w') w.
Proof.
  intros Hs Hk Hnone Hw Hrow Hh. apply goes_bind. eapply goes_mono; [|by eapply goes_sync].
  intros a w1 [-> Hwr]. eapply goes_settle; [exact Hw|exact Hwr|done|by auto|]. apply Hh.
  destruct Hwr as [(now & rc & _ & _ & Hj) _ _]. intros row'. rewrite Hj, lookup_insert_eq.
  intros [= <-]. eauto.
Qed.

Ltac pick_outcome :=
  repeat first
    [ rewrite (bool_decide_eq_true_2 (_ = _)) by reflexivity
    | rewrite (bool_decide_eq_false_2 (_ = _)) by discriminate ].
Ltac settled_row_by :=
  intros; constructor; simpl; unfold verdict; pick_outcome; try done; eauto;
  try (let E := fresh in intros E; first [discriminate E | set_solver]).

(** A run that may go on: dead-lettered when no attempt is left, otherwise
    scheduled again. *)
Definition unfinished : list Outcome := [OutcomeInterrupted; OutcomeRetryable; OutcomePanicked].

Lemma verdict_unfinished oc : oc ∈ unfinished ->
  verdict oc last_attempt = if last_attempt then StatusDeadLetter else StatusRetrying.
Proof.
  intros Hoc. unfold unfinished in Hoc. unfold verdict.
  repeat (apply elem_of_cons in Hoc as [->|Hoc]); [..|by apply elem_of_nil in Hoc]; by pick_outcome.
Qed.

Lemma goes_dead oc res msg started finished w o :
  is_Ok (Encode (del_Env d)) = true ->
  oc ∈ unfinished -> last_attempt = true ->
  job_attempts (w_db w0) !! (jobID, attempt) = None -> held w ->
  goes t0 (a <- rec_DeadLetter (Recorder:=SyncRecorder) jobID epoch msg (my_attempt oc msg started finished) ;;
           match a with Ok true => _ <- Queue.DeadLetter q (del_Env d) msg ;; Ret tt | _ => Ret tt end ;;;
           settle q r d a o) (fun _ w' => concluded oc res msg started w') w.
Proof.
  intros Henc Hoc Hlast Hnone Hw. pose proof (verdict_unfinished oc Hoc) as Hv. rewrite Hlast in Hv.
  apply (goes_recorded oc res msg started finished (UpdateDeadLetter jobID epoch msg)
    (fun now => row_failed now StatusDeadLetter msg) "store: dead-lettering job: "
    (with_event jobID "dead_lettered" (dead_detail msg)) w
    (fun a => match a with Ok true => _ <- Queue.DeadLetter q (del_Env d) msg ;; Ret tt | _ => Ret tt end)); try done.
  - apply hit_event.
  - intros. constructor; simpl; try done; congruence.
  - intros w1 Hw1. apply goes_dead_handoff; [done|]. intros row' Hr. by destruct (Hw1 _ Hr) as (now & rc & ->).
Qed.

Lemma goes_retry oc res msg started finished at_ w o :
  is_Ok (Encode next_envelope) = true ->
  oc ∈ unfinished -> last_attempt = false ->
  (exists now u, t0 <= now /\ at_ = now + (if bool_decide (oc = OutcomeInterrupted) then 0
                                        else Delay (run_Backoff r) u attempt)) ->
  job_attempts (w_db w0) !! (jobID, attempt) = None -> held w ->
  goes t0 (a <- rec_Retry (Recorder:=SyncRecorder) jobID epoch msg at_ (my_attempt oc msg started finished) ;;
           match a with Ok true => _ <- Queue.ScheduleRetry q next_envelope at_ ;; Ret tt | _ => Ret tt end ;;;
           settle q r d a o) (fun _ w' => concluded oc res msg started w') w.
Proof.
  intros Henc Hoc Hlast Hat Hnone Hw. pose proof (verdict_unfinished oc Hoc) as Hv. rewrite Hlast in Hv.
  apply (goes_recorded oc res msg started finished (UpdateRetry jobID epoch msg at_)
    (fun now => row_retry now msg at_) "store: scheduling retry: "
    (with_event jobID "retry_scheduled" (retry_detail msg at_)) w
    (fun a => match a with Ok true => _ <- Queue.ScheduleRetry q next_envelope at_ ;; Ret tt | _ => Ret tt end)); try done.
  - apply hit_event.
  - intros. constructor; simpl; try done; congruence.
  - intros w1 Hw1. apply goes_retry_handoff; [done|]. intros row' Hr. by destruct (Hw1 _ Hr) as (now & rc & ->).
Qed.

(** The three outcomes that end the job. *)
Lemma goes_final oc res msg started finished (s : stmt Z) f prefix k w o :
  (forall now db, exec_stmt now s db =
     let '(x, db') := update_where jobID (fence epoch) (f now) db in (Ok (RowsAffected x), db')) ->
  answers_hit k -> job_attempts (w_db w0) !! (jobID, attempt) = None -> held w ->
  (forall now rc, t0 <= now -> r_def rc = r_def row -> r_attempt_count rc = attempt ->
     r_lease_epoch rc = epoch -> settled_row oc res msg (f now rc)) ->
  (forall now rc, r_status (f now rc) ∈ [StatusCompleted; StatusFailed; StatusCancelled]) ->
  goes t0 (a <- sync_after (bind_ok (Errorf prefix (pgExec s)) k) (my_attempt oc msg started finished) ;;
           settle q r d a o) (fun _ w' => concluded oc res msg started w') w.
Proof.
  intros Hs Hk Hnone Hw Hrow Hst.
  apply (goes_recorded oc res msg started finished s f prefix k w (fun _ => Ret tt) o); try done.
  intros w1 Hw1. apply handed_nothing. intros row' Hr. destruct (Hw1 _ Hr) as (now & rc & ->). apply Hst.
Qed.

Lemma goes_finish res err started w :
  is_Ok (Encode (del_Env d)) = true -> is_Ok (Encode next_envelope) = true ->
  job_attempts (w_db w0) !! (jobID, attempt) = None -> held w ->
  goes t0 (finish SyncRecorder q r d (my_claim started) res err None started)
    (fun _ w' => concluded (finish_outcome err None) res (AttemptError err) started w') w.
Proof.
  intros Henc Henc' Hnone Hw. unfold finish. apply goes_bind, goes_now. intros t Ht _.
  pose proof (finish_outcome_cases err None) as Hoc.
  assert (Hle : finish_outcome err None <> OutcomeLeaseExpired).
  { unfold finish_outcome, ClassifyError. simpl. rewrite andb_false_r.
    destruct (_ && isPanic err); [done|]. by repeat case_match. }
  set (msg := AttemptError err). remember (finish_outcome err None) as oc eqn:Eoc. clear Eoc.
  assert (Hun : oc ∈ unfinished -> forall dl : prog Duration,
    (forall Q, (forall dl, (exists u, dl = if bool_decide (oc = OutcomeInterrupted) then 0
        else Delay (run_Backoff r) u attempt) -> Q dl w) -> goes t0 dl Q w) ->
    goes t0 (if last_attempt then
        a <- rec_DeadLetter (Recorder:=SyncRecorder) jobID epoch msg (my_attempt oc msg started t) ;;
        match a with Ok true => _ <- Queue.DeadLetter q (del_Env d) msg ;; Ret tt | _ => Ret tt end ;;;
        settle q r d a (Some (JobDeadLettered (env_Type (del_Env d))))
      else
        delay <- dl ;;
        a <- rec_Retry (Recorder:=SyncRecorder) jobID epoch msg (t + delay) (my_attempt oc msg started t) ;;
        match a with Ok true => _ <- Queue.ScheduleRetry q next_envelope (t + delay) ;; Ret tt | _ => Ret tt end ;;;
        settle q r d a (Some (JobRetried (env_Type (del_Env d)))))
      (fun _ w' => concluded oc res msg started w') w).
  { intros Hu dl Hdl. destruct last_attempt eqn:Hlast; [by apply goes_dead|].
    apply goes_bind, Hdl. intros x [u ->]. apply goes_retry; try done. by exists t, u. }
  unfold unfinished in Hun.
  repeat (apply elem_of_cons in Hoc as [->|Hoc]); [..|by apply elem_of_nil in Hoc]; pick_outcome.
  - apply (goes_final OutcomeCompleted res msg started t (UpdateComplete jobID epoch (json_or_null res))
      (fun now => row_completed now (json_or_null res)) "store: completing job: "); try done;
      first [exact hit_plain | solve [settled_row_by] | set_solver].
  - apply (goes_final OutcomeFailed res msg started t (UpdateFail jobID epoch msg)
      (fun now => row_failed now StatusFailed msg) "store: failing job: "); try done;
      first [exact hit_plain | solve [settled_row_by] | set_solver].
  - apply (goes_final OutcomeCancelled res msg started t (UpdateCancelRunning jobID epoch)
      (fun now => row_cancelled_running now) "store: cancelling running job: "); try done;
      first [exact (hit_event _ _) | solve [settled_row_by] | set_solver].
  - done.
  - rewrite bool_decide_eq_true_2 by set_solver. apply (Hun ltac:(set_solver) (Ret 0)).
    intros Q HQ. apply HQ. exists 0. by rewrite bool_decide_eq_true_2.
  - rewrite bool_decide_eq_true_2 by set_solver.
    apply (Hun ltac:(set_solver) (u <- call RandFloat ;; Ret (Delay (run_Backoff r) u attempt))).
    intros Q HQ. apply goes_bind, goes_rand. intros u. apply HQ. by exists u.
  - rewrite bool_decide_eq_true_2 by set_solver.
    apply (Hun ltac:(set_solver) (u <- call RandFloat ;; Ret (Delay (run_Backoff r) u attempt))).
    intros Q HQ. apply goes_bind, goes_rand. intros u. apply HQ. by exists u.
Qed.

(** What the run of the handler comes to: a type nobody handles fails. *)
Definition job_return (sch : schedule) (started : Time) : string * option error :=
  match Get reg (env_Type (del_Env d)) with
  | Some x => safeHandle (returned x (handler_ctx sch) (handler_job d (my_claim started)))
  | None => (EmptyString, ErrNoHandler)
  end.

Lemma claimed_held now ttl :
  (forall t, get t (cancelKey q jobID) (w_redis w0) = None) ->
  held (with_db (set_jobs (<[jobID := row_claimed now (run_WorkerID r) ttl row]> (jobs (w_db w0))) (w_db w0)) w0).
Proof.
  intros Hc. constructor; simpl; try done.
  - eexists. rewrite lookup_insert_eq. split_and!; [done|done| |done].
    unfold fence, status_is. simpl. by rewrite !bool_decide_eq_true_2.
  - intros i Hi. by rewrite lookup_insert_ne.
Qed.

Lemma goes_Run sch :
  is_Ok (Encode (del_Env d)) = true -> is_Ok (Encode next_envelope) = true ->
  jobs (w_db w0) !! jobID = Some row -> claimable row = true ->
  job_attempts (w_db w0) !! (jobID, attempt) = None ->
  (forall t, get t (cancelKey q jobID) (w_redis w0) = None) ->
  Forall (fun ev => ev = Beat) (sch_events sch) ->
  goes t0 (Run SyncRecorder q reg r d sch)
    (fun _ w' => exists started, t0 <= started /\
       concluded (finish_outcome (job_return sch started).2 None) (job_return sch started).1
         (AttemptError (job_return sch started).2) started w') w0.
Proof.
  intros Henc Henc' Hrow Hcl Hnone Hcan Hevs. unfold Run, ClaimJob. apply goes_bind, goes_bind, goes_QueryRow.
  intros now Hle. simpl. unfold update_where. rewrite Hrow, Hcl. simpl.
  set (w1 := with_db _ w0). assert (Hw1 : held w1) by (by apply claimed_held).
  change (claim_of _) with (my_claim now). apply goes_bind, goes_observe. intros obs.
  assert (Hw2 : held (Build_World (w_db w1) (w_redis w1) obs)) by (by apply held_obs).
  assert (Hend : forall ret w, ret = job_return sch now -> held w ->
    goes t0 (finish SyncRecorder q r d (my_claim now) ret.1 ret.2 None now)
      (fun _ w' => exists started, t0 <= started /\
         concluded (finish_outcome (job_return sch started).2 None) (job_return sch started).1
           (AttemptError (job_return sch started).2) started w') w).
  { intros ret w -> Hw. eapply goes_mono; [|by apply goes_finish]. intros u w' Hc. by exists now. }
  simpl. destruct (Get reg (env_Type (del_Env d))) as [x|] eqn:Hreg.
  - apply goes_bind. eapply goes_mono; [|eapply goes_execute; [exact Hevs|exact Hw2]].
    intros ret w' [-> Hw']. apply (Hend (_, _)); [|done]. unfold job_return. rewrite Hreg.
    symmetry. apply surjective_pairing.
  - apply (Hend (EmptyString, ErrNoHandler)); [|done]. unfold job_return. by rewrite Hreg.
Qed.
End execution.

(** ** The theorem *)

(** C6. One run settles the job. Take a claimable job whose delivery a worker
    reads, its envelope and the next one such as can be encoded, no cancellation requested, any handler (or none registered), any
    number of heartbeats, and let every call go through, at any times: the run
    ends; the row has the status the handler's outcome demands - [COMPLETED]
    with the result, [FAILED] or [CANCELLED], [RETRYING] with its time in the
    backoff window while attempts are left, [DEAD_LETTER] otherwise - under
    the claim's epoch with the lease gone and the error text bounded; no other
    row changed; exactly one attempt was added, with worker, times, outcome and
    error; the delivery's entry, and only that one, left its stream; the delayed
    sets are as they were, but for a retry, which is there at its time; a dead
    letter is at the end of the log. *)
Theorem Run_concludes {R : Type} `{!RedisServer R} `{EnvelopeJSON} (t0 : Time) (q : queue)
    (reg : Registry) (r : Runner) (d : Delivery) (sch : schedule) (row : JobRow) (w : World R) :
  let id := env_ID (del_Env d) in
  is_Ok (Encode (del_Env d)) = true -> is_Ok (Encode (next_envelope d row)) = true ->
  jobs (w_db w) !! id = Some row -> claimable row = true ->
  job_attempts (w_db w) !! (id, r_attempt_count row + 1) = None ->
  (forall t, get t (cancelKey q id) (w_redis w) = None) ->
  Forall (fun ev => ev = Beat) (sch_events sch) ->
  goes t0 (Run SyncRecorder q reg r d sch)
    (fun _ w' => exists started, t0 <= started /\
       let ret := job_return reg r d row sch started in
       concluded t0 q r d row w (finish_outcome ret.2 None) ret.1 (AttemptError ret.2) started w') w.
Proof. intros id Henc Henc' Hrow Hcl Hnone Hcan Hevs. by apply goes_Run. Qed.

Lemma Run_concludes_witness :
  exists n a w', run (Run (H:=DemoJSON) SyncRecorder demo_queue demo_registry demo_runner demo_delivery
      demo_schedule) (replicate n (fine 5)) (demo_world demo_inserted) = (Some a, w') /\
    exists row', jobs (w_db w') !! "j1" = Some row' /\ r_status row' = StatusCompleted /\ r_attempt_count row' = 1.
Proof.
  pose proof (Run_concludes (H:=DemoJSON) 5 demo_queue demo_registry demo_runner demo_delivery demo_schedule
    (row_inserted 0 demo_job "{}") (demo_world demo_inserted)) as Hg.
  edestruct (goes_run 5 _ _ (fine 5) _ eq_refl (Z.le_refl 5) eq_refl
    (Hg ltac:(vm_compute; reflexivity) ltac:(vm_compute; reflexivity) ltac:(vm_compute; reflexivity) ltac:(vm_compute; reflexivity) ltac:(vm_compute; reflexivity)
       ltac:(intros t; vm_compute; reflexivity) ltac:(by repeat constructor)))
    as (n & a & w' & Hrun & started & _ & Hc).
  exists n, a, w'. split; [exact Hrun|]. destruct (co_row _ _ _ _ _ _ _ _ _ _ _ Hc) as (row' & Hrow' & [] & _).
  exists row'. split_and!; [exact Hrow'|exact sr_status0|exact sr_attempts0].
Defined.
