(* ===== verification/Recovery.v ===== *)
(** * Recovery: the leader's duties

    Models [internal/recovery/recovery.go]: the promoter, the reaper of
    abandoned deliveries, the database sweeps, and the loop that runs them while
    the process holds the leader lock. *)

From S2P Require Import Prelude Errors Job Retry Database Rows Redis Effects Rely Store.
From S2P Require Import Batch Queue Handler Runner.
Local Open Scope string_scope.
Local Open Scope list_scope.
Local Open Scope Z_scope.
Local Open Scope prog_scope.

Definition leaderRole : string := "recovery".
Definition leaderTTL : Duration := 15 * Second.
Definition promoteEvery : Z := 1.
Definition reapEvery : Z := 8.
Definition sweepEvery : Z := 40.
Definition batchSize : Z := 256.

(** The configuration of a contender; store and queue are arguments. *)
Record Leader := {
  ld_ReapMinIdle : Duration; ld_SweepGrace : Duration; ld_OrphanAge : Duration;
  ld_Backoff : Policy; ld_ID : string
}.

(** [for _, x := range xs { body }]. *)
Fixpoint for_each {F : Type -> Type} {A} (body : A -> free F unit) (xs : list A) : free F unit :=
  match xs with
  | [] => Ret tt
  | x :: xs' => body x ;;; for_each body xs'
  end.

(** A best-effort call: the error is logged and dropped. *)
Definition ignore {F : Type -> Type} {A} (p : free F A) : free F unit := _ <- p ;; Ret tt.

Section leader.
Context `{EnvelopeJSON} (q : queue) (l : Leader).

Definition backoff (attempt : Z) : prog Duration :=
  u <- call RandFloat ;; Ret (Delay (ld_Backoff l) u attempt).

Definition requeueEnvelope (r : Requeueable) (attempt : Z) : prog Envelope :=
  now <- time_Now ;;
  Ret {| env_ID := rq_ID r; env_Type := rq_Type r; env_Queue := rq_Queue r;
         env_Priority := rq_Priority r; env_Attempt := attempt; env_Payload := rq_Payload r;
         env_EnqueuedAt := now |}.

Definition with_attempt (env : Envelope) (attempt : Z) : Envelope :=
  {| env_ID := env_ID env; env_Type := env_Type env; env_Queue := env_Queue env;
     env_Priority := env_Priority env; env_Attempt := attempt; env_Payload := env_Payload env;
     env_EnqueuedAt := env_EnqueuedAt env |}.
Definition with_enqueued_at (env : Envelope) (t : Time) : Envelope :=
  {| env_ID := env_ID env; env_Type := env_Type env; env_Queue := env_Queue env;
     env_Priority := env_Priority env; env_Attempt := env_Attempt env;
     env_Payload := env_Payload env; env_EnqueuedAt := t |}.

(** ** Promotion *)

Definition promote : prog unit :=
  r <- PromoteDue q batchSize ;;
  match r with
  | (_, Some _) => Ret tt
  | ([], None) => Ret tt
  | (envs, None) => ignore (MarkPromoted (map env_ID envs))
  end.

(** ** The reaper *)

Definition doomed_attempt (id : string) (res : ReapResult) (now : Time) (msg : string) : Attempt :=
  {| att_JobID := id; att_Attempt := rr_Attempt res; att_WorkerID := PrevWorker res;
     att_StartedAt := now; att_FinishedAt := now; att_Outcome := OutcomeLeaseExpired;
     att_Error := msg |}.

(** What follows a reaped row, for the envelope to hand over: record the
    attempt, then the delayed set or the dead-letter log. *)
Definition hand_over (id : string) (res : ReapResult) (now : Time) (msg : string)
    (mk : prog (Envelope * Envelope)) : prog unit :=
  ignore (RecordAttempt (doomed_attempt id res now msg)) ;;;
  envs <- mk ;;
  if bool_decide (NewStatus res = StatusRetrying) then
    delay <- backoff (rr_Attempt res) ;; ignore (ScheduleRetry q envs.1 (now + delay))
  else if bool_decide (NewStatus res = StatusDeadLetter) then
    ignore (DeadLetter q envs.2 "lease expired: attempts exhausted")
  else Ret tt.

Definition leader_ack (d : Delivery) : prog unit :=
  ignore (Ack q (del_Priority d) (del_EntryID d)).

Definition reason (msg : string) : option event_detail := Some (JsonObject [("reason", EvText msg)]).

Definition ackUnreaped (d : Delivery) : prog unit :=
  g <- GetJob (env_ID (del_Env d)) ;;
  match g with
  | Err _ => Ret tt
  | Ok j =>
      if bool_decide (Status_ j = StatusPending) then
        now <- time_Now ;;
        let env := with_enqueued_at (with_attempt (del_Env d) (AttemptCount j + 1)) now in
        e <- Enqueue q env zero_time ;;
        match e with
        | Err _ => Ret tt
        | Ok _ =>
            AddEvent (env_ID (del_Env d)) "requeued" (reason "reaped before claim") ;;;
            leader_ack d
        end
      else leader_ack d
  end.

Definition reapOne (d : Delivery) : prog unit :=
  delay <- backoff (Z.max (env_Attempt (del_Env d)) 1) ;;
  r <- ReapJob (env_ID (del_Env d)) delay 0 ;;
  match r with
  | Err _ => Ret tt
  | Ok res =>
      if negb (Reaped res) then ackUnreaped d
      else
        now <- time_Now ;;
        hand_over (env_ID (del_Env d)) res now "lease expired: worker presumed dead"
          (Ret (with_attempt (del_Env d) (rr_Attempt res + 1), del_Env d)) ;;;
        leader_ack d
  end.

Definition reapAbandoned : prog unit :=
  r <- ReapAbandoned q (ld_ReapMinIdle l) batchSize ;;
  match r with
  | (_, Some _) => Ret tt
  | (deliveries, None) => for_each reapOne deliveries
  end.

(** ** The sweeps *)

Definition sweepOne (r : Requeueable) : prog unit :=
  delay <- backoff (Z.max (rq_Attempt r) 1) ;;
  x <- ReapJob (rq_ID r) delay (ld_SweepGrace l) ;;
  match x with
  | Err _ => Ret tt
  | Ok res =>
      if negb (Reaped res) then Ret tt
      else
        now <- time_Now ;;
        hand_over (rq_ID r) res now "lease expired: no queue entry survived"
          (env <- requeueEnvelope r (rr_Attempt res + 1) ;; Ret (env, env))
  end.

Definition sweepStaleRunning : prog unit :=
  rows <- ListExpiredRunning (ld_SweepGrace l) batchSize ;;
  match rows with Err _ => Ret tt | Ok rs => for_each sweepOne rs end.

Definition repairUnenqueuedOne (r : Requeueable) : prog unit :=
  env <- requeueEnvelope r (rq_Attempt r + 1) ;;
  e <- Enqueue q env zero_time ;;
  match e with
  | Err _ => Ret tt
  | Ok streamID =>
      ignore (SetEnqueued (rq_ID r) streamID) ;;;
      AddEvent (rq_ID r) "requeued" (reason "orphaned submit")
  end.
Definition repairUnenqueued : prog unit :=
  rows <- ListUnenqueued (ld_OrphanAge l) batchSize ;;
  match rows with Err _ => Ret tt | Ok rs => for_each repairUnenqueuedOne rs end.

Definition repairStuckOne (r : Requeueable) : prog unit :=
  env <- requeueEnvelope r (rq_Attempt r + 1) ;;
  e <- Enqueue q env zero_time ;;
  match e with
  | Err _ => Ret tt
  | Ok _ => ignore (MarkPromoted [rq_ID r])
  end.
Definition repairStuckRetrying : prog unit :=
  rows <- ListStuckRetrying (ld_OrphanAge l) batchSize ;;
  match rows with Err _ => Ret tt | Ok rs => for_each repairStuckOne rs end.

Definition sweepWorkers : prog unit := ignore (MarkDeadWorkers (15 * Second)).

(** ** The loop *)

Record leader_state := { ls_isLeader : bool; ls_n : Z }.
Definition leader_start : leader_state := {| ls_isLeader := false; ls_n := 0 |}.

(** A channel of the select statement that fired. *)
Inductive leader_event := RenewTick | BaseTick | LeaderDone.

Definition when (b : bool) (p : prog unit) : prog unit := if b then p else Ret tt.

(** The duties of the [n]th tick as leader. *)
Definition duties (n : Z) : prog unit :=
  when (Z.rem n promoteEvery =? 0) promote ;;;
  when (Z.rem n reapEvery =? 0) reapAbandoned ;;;
  when (Z.rem n sweepEvery =? 0)
    (sweepStaleRunning ;;; repairUnenqueued ;;; repairStuckRetrying ;;; sweepWorkers).

(** One turn of the loop; [None] when [Run] returned. *)
Definition leader_step (st : leader_state) (ev : leader_event) : prog (option leader_state) :=
  match ev with
  | LeaderDone =>
      when (ls_isLeader st) (ignore (ReleaseLeader q leaderRole (ld_ID l))) ;;; Ret None
  | RenewTick =>
      if ls_isLeader st then
        r <- RenewLeader q leaderRole (ld_ID l) leaderTTL ;;
        match r with
        | Ok true => Ret (Some st)
        | _ => Ret (Some {| ls_isLeader := false; ls_n := ls_n st |})
        end
      else Ret (Some st)
  | BaseTick =>
      lead <- (if ls_isLeader st then Ret true
               else r <- AcquireLeader q leaderRole (ld_ID l) leaderTTL ;;
                    Ret (match r with Ok true => true | _ => false end)) ;;
      if lead : bool then
        let n := ls_n st + 1 in
        duties n ;;; Ret (Some {| ls_isLeader := true; ls_n := n |})
      else Ret (Some st)
  end.

(** [Run], for the channels that fire. *)
Fixpoint leader_run (evs : list leader_event) (st : leader_state) : prog unit :=
  match evs with
  | [] => Ret tt
  | ev :: evs' =>
      r <- leader_step st ev ;;
      match r with Some st' => leader_run evs' st' | None => Ret tt end
  end.
End leader.

(** ** Discipline *)

Lemma only_for_each {F : Type -> Type} (P : forall B, F B -> Prop) {A} (body : A -> free F unit) xs :
  (forall x, only P (body x)) -> only P (for_each body xs).
Proof. intros Hb. induction xs; simpl; [done|]. by apply only_bind. Qed.

Lemma only_ignore {F : Type -> Type} (P : forall B, F B -> Prop) {A} (p : free F A) :
  only P p -> only P (ignore p).
Proof. intros. by apply only_bind. Qed.

Ltac leader_calls :=
  repeat (intros; first
    [ progress only_calls
    | match goal with
      | |- only _ (for_each _ _) => apply only_for_each
      | |- only _ (ignore _) => apply only_ignore
      | |- only _ (when ?b _) => unfold when
      end ]).

Section plain.
Context `{EnvelopeJSON} (q : queue) (l : Leader).

Lemma plain_backoff n : only plain (backoff l n).
Proof. unfold backoff. leader_calls. Qed.
Lemma plain_requeueEnvelope r n : only plain (requeueEnvelope r n).
Proof. unfold requeueEnvelope. leader_calls. Qed.
#[local] Hint Resolve plain_backoff plain_requeueEnvelope : only.
Lemma plain_promote : only plain (promote q).
Proof. unfold promote. leader_calls. Qed.
Lemma plain_hand_over id res now msg mk : only plain mk -> only plain (hand_over q l id res now msg mk).
Proof. intros. unfold hand_over. leader_calls. Qed.
#[local] Hint Resolve plain_hand_over : only.
Lemma plain_ackUnreaped d : only plain (ackUnreaped q d).
Proof. unfold ackUnreaped, leader_ack. leader_calls. Qed.
#[local] Hint Resolve plain_ackUnreaped : only.
Lemma plain_reapOne d : only plain (reapOne q l d).
Proof.
  unfold reapOne, leader_ack. leader_calls. apply plain_hand_over. leader_calls.
Qed.
#[local] Hint Resolve plain_reapOne : only.
Lemma plain_reapAbandoned : only plain (reapAbandoned q l).
Proof. unfold reapAbandoned. leader_calls. Qed.
Lemma plain_sweepOne r : only plain (sweepOne q l r).
Proof. unfold sweepOne. leader_calls. intros. apply plain_hand_over. leader_calls. Qed.
#[local] Hint Resolve plain_sweepOne : only.
Lemma plain_sweeps :
  only plain (sweepStaleRunning q l) /\ only plain (repairUnenqueued q l) /\
  only plain (repairStuckRetrying q l) /\ only plain sweepWorkers.
Proof.
  unfold sweepStaleRunning, repairUnenqueued, repairUnenqueuedOne, repairStuckRetrying,
    repairStuckOne, sweepWorkers, ListExpiredRunning, ListUnenqueued, ListStuckRetrying.
  split_and!; leader_calls.
Qed.
Lemma plain_duties n : only plain (duties q l n).
Proof.
  destruct plain_sweeps as (? & ? & ? & ?). pose proof plain_promote. pose proof plain_reapAbandoned.
  unfold duties. leader_calls.
Qed.
#[local] Hint Resolve plain_duties : only.
Lemma plain_leader_run evs : forall st, only plain (leader_run q l evs st).
Proof.
  induction evs as [|ev evs IH]; intros st; simpl; [done|].
  apply only_bind; [destruct ev; leader_calls|intros [st'|]; [apply IH|done]].
Qed.
End plain.
#[export] Hint Resolve plain_leader_run : only.
