(* ===== verification/Custody.v ===== *)
(** * Custody: who holds a job that nobody has claimed yet

    Postgres records that a job was handed to Redis in the column
    [enqueued_stream_id]; from then on no sweep looks for a [PENDING] row, so
    the job depends on its queue entry.  This file defines what it means that a
    job is still [queued], the rule every call of the program keeps
    ([lawful]) - nobody deletes the last entry of a job that was never
    claimed, nobody sets the column before an entry exists - and proves that
    every lawful call keeps the invariant [custody], whatever its fate. *)

From S2P Require Import Prelude Errors Json Decode Rfc3339 Encode Job Wire Requests Database Rows Redis Effects Rely Store.
From S2P Require Import Queue Runner.
Local Open Scope string_scope.
Local Open Scope list_scope.
Local Open Scope Z_scope.

(** ** Envelopes that survive the wire *)

(** JSON that may stand inside another document. *)
Definition embeddable (text : string) : Prop := is_Some (parse_within (maxNestingDepth - 1) text).

(** The envelopes of the program: names from the domain, a payload that is
    absent or JSON. *)
Record plain_headers (e : Envelope) : Prop := {
  ph_id : ValidName (env_ID e) = true;
  ph_type : ValidName (env_Type e) = true;
  ph_queue : ValidName (env_Queue e) = true;
  ph_priority : env_Priority e ∈ PriorityOrder;
  ph_payload : env_Payload e = EmptyString \/ embeddable (env_Payload e)
}.

(** A number and a time that [encoding/json] writes. *)
Definition writable (e : Envelope) : Prop :=
  in_years (env_EnqueuedAt e) = true /\ int_range (env_Attempt e) = true.

(** What the clients of the wire format need: it writes these envelopes, and what
    it wrote comes back as it was, up to the text of the payload, which may come
    back compacted. *)
Class HeadersSurvive `{EnvelopeJSON} := {
  headers_written e : plain_headers e -> writable e -> is_Some (Marshal e);
  headers_survive e text : plain_headers e -> Marshal e = Some text ->
    exists e', Unmarshal text = Some e' /\ plain_headers e' /\ e' = set_Payload e (env_Payload e')
}.

Lemma ValidName_nonempty s : ValidName s = true -> s <> EmptyString.
Proof. by intros H ->. Qed.

Lemma encode_plain `{HeadersSurvive} e : plain_headers e -> writable e -> exists text, Encode e = Ok text.
Proof. intros Hp Hw. destruct (headers_written e Hp Hw) as [text Hm]. exists text. unfold Encode. by rewrite Hm. Qed.

Lemma decode_encode_all `{HeadersSurvive} e text : plain_headers e -> Encode e = Ok text ->
  exists e', DecodeEnvelope text = Ok e' /\ plain_headers e' /\ e' = set_Payload e (env_Payload e').
Proof.
  intros Hp He. unfold Encode in He. destruct (Marshal e) as [text'|] eqn:Hm; [|done]. injection He as ->.
  destruct (headers_survive e text Hp Hm) as (e' & Hu & Hp' & He). exists e'.
  unfold DecodeEnvelope. rewrite Hu.
  rewrite bool_decide_false by apply ValidName_nonempty, Hp'.
  rewrite bool_decide_false by apply ValidName_nonempty, Hp'. done.
Qed.

Lemma decode_encode `{HeadersSurvive} e text : plain_headers e -> Encode e = Ok text ->
  exists e', DecodeEnvelope text = Ok e' /\ plain_headers e' /\
    env_ID e' = env_ID e /\ env_Priority e' = env_Priority e.
Proof.
  intros Hp He. destruct (decode_encode_all e text Hp He) as (e' & Hd & Hp' & E). exists e'.
  split_and!; [done|done|by rewrite E|by rewrite E].
Qed.

(** *** The wire format of the program *)

Lemma name_byte_utf8 c s : isNameByte c = true -> utf8_valid 0 (String c s) = utf8_valid 0 s.
Proof. intros Hc. cbn [utf8_valid rune_size]. revert Hc. by all_bytes c. Qed.

Lemma ValidName_utf8 s : ValidName s = true -> utf8_valid 0 s = true.
Proof.
  assert (Hall : forall s, forallb isNameByte (String.list_ascii_of_string s) = true -> utf8_valid 0 s = true).
  { clear. intros s. induction s as [|c s IH]; [done|]. cbn [String.list_ascii_of_string forallb].
    intros [Hc Hs]%andb_true_iff. rewrite name_byte_utf8; auto. }
  destruct s as [|c s]; [done|]. unfold ValidName. intros [[Hc Hl]%andb_true_iff _]%andb_true_iff.
  apply Hall. cbn [String.list_ascii_of_string forallb]. unfold isNameByte at 1. by rewrite Hc, Hl.
Qed.

Lemma plain_carried e : plain_headers e -> int_range (env_Attempt e) = true -> carried e.
Proof.
  intros [Hi Ht Hq Hp Hpl] [Ha1%Z.leb_le Ha2%Z.leb_le]%andb_true_iff. constructor; auto using ValidName_utf8.
  apply list_elem_of_In in Hp. by repeat destruct Hp as [<-|Hp].
Qed.

Lemma compacted_embeddable p : embeddable p -> embeddable (compacted p).
Proof.
  intros [v Hv]. unfold compacted, compact, parse.
  rewrite (parse_within_more (maxNestingDepth - 1) maxNestingDepth _ _ ltac:(done) Hv). cbn.
  eexists. apply parse_within_render, wf_escaped. by eapply parse_within_wf.
Qed.

#[export] Instance WireJSON_survives time_Parse : @HeadersSurvive (WireJSON time_Parse).
Proof.
  constructor; cbn [Marshal Unmarshal WireJSON].
  - intros e Hp [Ht Ha]. pose proof (plain_carried e Hp Ha) as Hc. rewrite marshal_json_carried by done.
    destruct (envelope_carried_back time_Parse e Hc Ht) as (text & -> & _). by eexists.
  - intros e text Hp. unfold marshal_json. destruct (int_range _) eqn:Ha; [|done]. intros Hm.
    assert (Ht : in_years (env_EnqueuedAt e) = true).
    { unfold marshal_envelope in Hm. destruct (in_years _); [done|]. revert Hm.
      destruct (if bool_decide _ then _ else _); discriminate. }
    destruct (envelope_carried_back time_Parse e (plain_carried e Hp Ha) Ht) as (text' & Hm' & Hu & _).
    rewrite Hm in Hm'. injection Hm' as <-. eexists. split; [exact Hu|].
    destruct Hp as [? ? ? ? Hpl]. split; [|done]. constructor; simpl; try done.
    destruct Hpl as [->|Hpl]; [by left|right; by apply compacted_embeddable].
Qed.

(** *** What is accepted fits the wire *)

(** C16. What is accepted can be delivered. The job that [New] makes of a decoded
    submission - however deep its payload, whatever its options - fits the wire:
    its envelope is encoded, at any attempt and in any year that JSON can write,
    and the worker that decodes the text reads the id, the type, the queue, the
    priority and the attempt of the job, and its payload without white space.
    Sent on from there, as the reaper does, it comes back exactly as it was, payload
    and all. So no accepted job is stuck for a name, a payload or a nesting
    depth that the queue cannot carry. *)
Theorem accepted_fits_wire `{GoText} (limit : Z) (uuid body : string) (req : submitRequest) (opts : Options)
    (now enq enq' attempt attempt' : Z) (j : Job) :
  decode_submit limit body = Decoded req -> ValidName uuid = true ->
  New uuid (sr_Type req) (sr_Payload req) opts now = Ok j ->
  int_range attempt = true -> int_range attempt' = true -> in_years enq = true -> in_years enq' = true ->
  let wire := WireJSON time_Parse in
  let sent := set_Attempt (NewEnvelope j enq) attempt in
  let got := set_Payload sent (compacted (sr_Payload req)) in
  let onward := set_Attempt (set_EnqueuedAt got enq') attempt' in
  (exists text, Encode sent = Ok text /\ DecodeEnvelope text = Ok got) /\
  (exists text, Encode onward = Ok text /\ DecodeEnvelope text = Ok onward).
Proof.
  intros Hd Hu Hn Ha Ha' Ht Ht' wire sent got onward.
  destruct (New_admits _ _ _ _ _ _ Hn) as (Hadm & Hid & Hty & Hp).
  assert (Hpl : sr_Payload req = EmptyString \/ embeddable (sr_Payload req)) by by eapply decode_submit_payload.
  assert (Hh : forall p, p = EmptyString \/ embeddable p -> plain_headers (set_Payload sent p)).
  { intros p Hpp. destruct Hadm. constructor; simpl; try done; congruence. }
  assert (Hgot : compacted (sr_Payload req) = EmptyString \/ embeddable (compacted (sr_Payload req))).
  { destruct Hpl as [-> |Hpl]; [by left|right; by apply compacted_embeddable]. }
  assert (Hback : forall e, plain_headers e -> writable e ->
    exists text, Encode e = Ok text /\ DecodeEnvelope text = Ok (set_Payload e (compacted (env_Payload e)))).
  { intros e He [Hy Hr].
    destruct (envelope_carried_back time_Parse e (plain_carried e He Hr) Hy) as (text & Hm & Hum & _).
    exists text. unfold Encode, DecodeEnvelope. cbn [Marshal Unmarshal wire WireJSON].
    rewrite marshal_json_carried, Hm, Hum by by apply plain_carried. split; [done|]. simpl.
    by rewrite !bool_decide_false by apply ValidName_nonempty, He. }
  assert (Hsent : sent = set_Payload sent (sr_Payload req)) by (unfold sent; rewrite <-Hp; by destruct j).
  split.
  - destruct (Hback sent) as (text & He & Hde); [rewrite Hsent; by apply Hh|done|]. exists text. split; [done|].
    rewrite Hde. do 2 f_equal. by rewrite Hsent.
  - destruct (Hback onward) as (text & He & Hde); [|done|].
    { destruct (Hh _ Hgot). by constructor. }
    exists text. split; [done|]. rewrite Hde. f_equal. unfold onward, got. simpl.
    assert (Hc : compacted (compacted (sr_Payload req)) = compacted (sr_Payload req)).
    { destruct Hpl as [-> |[v Hv]]; [done|]. eapply compacted_again, parse_within_more; [|exact Hv]. done. }
    by rewrite Hc.
Qed.

Lemma accepted_fits_wire_witness :
  let body := dquoted "{'type': 'bench.sleep', 'payload': { 'note': '<b>', 'ms': [5, 6] }}" in
  let back := dquoted "{'note':'\u003cb\u003e','ms':[5,6]}" in
  exists j text, New "u9" "bench.sleep" (dquoted "{ 'note': '<b>', 'ms': [5, 6] }") no_options 7 = Ok j /\
    @Encode (WireJSON (@time_Parse DemoText)) (NewEnvelope j 7) = Ok text /\
    @DecodeEnvelope (WireJSON (@time_Parse DemoText)) text = Ok (set_Payload (NewEnvelope j 7) back).
Proof.
  intros body back.
  set (req := set_sr_Payload (set_sr_Type zero_submit "bench.sleep") (dquoted "{ 'note': '<b>', 'ms': [5, 6] }")).
  destruct (New "u9" (sr_Type req) (sr_Payload req) no_options 7) as [j|] eqn:Hj; [|vm_compute in Hj; discriminate].
  destruct (accepted_fits_wire (H:=DemoText) 1000 "u9" body req no_options 7 7 8 1 1 j)
    as [(text & He & Hd) _]; [vm_compute; reflexivity|reflexivity|exact Hj|reflexivity..|].
  assert (Ha : set_Attempt (NewEnvelope j 7) 1 = NewEnvelope j 7) by reflexivity. rewrite Ha in He, Hd.
  exists j, text. split; [exact Hj|]. split; [exact He|]. rewrite Hd. vm_compute. reflexivity.
Defined.

(** ** What the queue holds *)

Section state.
Context {R : Type} `{!RedisServer R} `{EnvelopeJSON} (q : queue).
Implicit Types (s : R) (p : Priority) (id job : string) (e : entry).

(** The entry, or the delayed member, is a delivery of the job. *)
Definition carries job e : Prop :=
  exists env, DecodeEnvelope (field "j" e) = Ok env /\ env_ID env = job.
Definition is_delayed job p s : Prop :=
  exists m env, is_Some (members (delayedKey q p) s !! m) /\
    DecodeEnvelope m = Ok env /\ env_ID env = job.
Definition queued job p s : Prop :=
  (exists e, e ∈ entries (streamKey q p) s /\ carries job e) \/ is_delayed job p s.

(** After whatever entry has this id, there is another delivery of the job. *)
Definition followed job p id s : Prop :=
  forall l1 e l2, entries (streamKey q p) s = l1 ++ e :: l2 -> e.1 = id ->
    (exists e', e' ∈ l2 /\ carries job e') \/ is_delayed job p s.

(** What the program put into the queue of priority [p], about [known] jobs. *)
Definition placed (known : string -> Prop) p (env : Envelope) : Prop :=
  plain_headers env /\ env_Priority env = p /\ known (env_ID env).

Record queue_ok (known : string -> Prop) s : Prop := {
  qo_ids : forall p, NoDup (entries (streamKey q p) s).*1;
  qo_entries : forall p e env, e ∈ entries (streamKey q p) s ->
    DecodeEnvelope (field "j" e) = Ok env -> placed known p env;
  qo_members : forall p m env, is_Some (members (delayedKey q p) s !! m) ->
    DecodeEnvelope m = Ok env -> placed known p env
}.

Lemma queue_ok_mono (known known' : string -> Prop) s :
  (forall job, known job -> known' job) -> queue_ok known s -> queue_ok known' s.
Proof.
  intros Hk [H1 H2 H3]. split; [done|..].
  - intros p e env Hin Hd. destruct (H2 p e env Hin Hd) as (? & ? & ?). split_and!; auto.
  - intros p m env Hin Hd. destruct (H3 p m env Hin Hd) as (? & ? & ?). split_and!; auto.
Qed.

(** ** How the queue may move, when the jobs in [taken] need no entry *)

Record queue_drift (gone : string -> Prop) s s' : Prop := {
  qm_issued : forall p id, issued (streamKey q p) id s -> issued (streamKey q p) id s';
  qm_old : forall p e, issued (streamKey q p) e.1 s -> e ∈ entries (streamKey q p) s' ->
    e ∈ entries (streamKey q p) s;
  qm_queued : forall job p, queued job p s -> queued job p s' \/ gone job;
  qm_followed : forall job p id, issued (streamKey q p) id s ->
    followed job p id s -> followed job p id s' \/ gone job
}.

#[export] Instance queue_drift_preorder gone : PreOrder (queue_drift gone).
Proof.
  split.
  - intros s. split; auto.
  - intros s1 s2 s3 [I1 O1 Q1 F1] [I2 O2 Q2 F2]. split; eauto.
    + intros job p Hq. destruct (Q1 _ _ Hq); [|by right]. by apply Q2.
    + intros job p id Hi Hf. destruct (F1 _ _ _ Hi Hf); [|by right]. apply F2; eauto.
Qed.

Lemma queue_drift_mono (gone gone' : string -> Prop) s s' :
  (forall job, gone job -> gone' job) -> queue_drift gone s s' -> queue_drift gone' s s'.
Proof. intros Hg [I O Q F]. split; eauto; naive_solver. Qed.

Definition queue_moves (known gone : string -> Prop) s s' : Prop :=
  queue_drift gone s s' /\ (queue_ok known s -> queue_ok known s').

#[export] Instance queue_moves_preorder known gone : PreOrder (queue_moves known gone).
Proof.
  split.
  - intros s. split; [reflexivity|done].
  - intros s1 s2 s3 [D1 K1] [D2 K2]. split; [by etrans|auto].
Qed.

(** A move that leaves every stream and delayed set of the queue alone. *)
Definition queue_same s s' : Prop := forall p,
  entries (streamKey q p) s' = entries (streamKey q p) s /\
  members (delayedKey q p) s' = members (delayedKey q p) s /\
  forall id, issued (streamKey q p) id s -> issued (streamKey q p) id s'.

Lemma queue_same_moves known gone s s' : queue_same s s' -> queue_moves known gone s s'.
Proof.
  intros Hs.
  assert (He : forall p, entries (streamKey q p) s' = entries (streamKey q p) s) by apply Hs.
  assert (Hm : forall p, members (delayedKey q p) s' = members (delayedKey q p) s) by apply Hs.
  split; [split|].
  - intros p. apply Hs.
  - intros p e _. by rewrite He.
  - intros job p. unfold queued, is_delayed. rewrite He, Hm. by left.
  - intros job p id _. unfold followed, is_delayed. rewrite He, Hm. by left.
  - intros [H1 H2 H3]. split; intros p; rewrite ?He, ?Hm; eauto.
Qed.

Lemma queue_same_trans s1 s2 s3 : queue_same s1 s2 -> queue_same s2 s3 -> queue_same s1 s3.
Proof.
  intros H1 H2 p. destruct (H1 p) as (E1 & M1 & I1), (H2 p) as (E2 & M2 & I2).
  split_and!; [congruence|congruence|auto].
Qed.

(** ** XADD *)

Lemma carries_fields job id id' fs : carries job (id, fs) -> carries job (id', fs).
Proof. done. Qed.

Lemma xadd_moves known gone p fs s :
  (forall env, DecodeEnvelope (field "j" (EmptyString, fs)) = Ok env -> placed known p env) ->
  queue_moves known gone s (xadd (streamKey q p) fs s).2.
Proof.
  intros Hpl. set (s' := (xadd (streamKey q p) fs s).2).
  assert (Hm : forall p', members (delayedKey q p') s' = members (delayedKey q p') s)
    by (intros; apply xadd_members).
  assert (He : forall p', p' = p /\ entries (streamKey q p') s' =
      entries (streamKey q p') s ++ [((xadd (streamKey q p) fs s).1, fs)] \/
    p' <> p /\ entries (streamKey q p') s' = entries (streamKey q p') s).
  { intros p'. destruct (decide (p' = p)) as [->|Hne]; [left; split; [done|apply xadd_entries]|right].
    split; [done|]. apply xadd_other. by intros ->%streamKey_inj. }
  split; [split|].
  - intros p' id. apply xadd_issued.
  - intros p' e Hi Hin. destruct (He p') as [[-> E]|[_ E]]; rewrite E in Hin; [|done].
    apply elem_of_app in Hin as [Hin|Hin]; [done|]. apply list_elem_of_singleton in Hin as ->.
    exfalso. by apply (xadd_unissued (streamKey q p) fs s).
  - intros job p' Hq. left. destruct Hq as [(e & Hin & Hc)|Hd]; [left|right].
    + exists e. split; [|done]. destruct (He p') as [[-> ->]|[_ ->]]; [|done].
      apply elem_of_app. by left.
    + unfold is_delayed. by rewrite Hm.
  - intros job p' id Hi Hf. left. intros l1 e l2 El Heid. unfold is_delayed. rewrite Hm.
    destruct (He p') as [[-> E]|[_ E]]; rewrite E in El; [|by eapply Hf].
    destruct l2 as [|x l2 _] using rev_ind.
    + exfalso. apply app_inj_tail in El as [_ <-]. simpl in Heid. subst id.
      by apply (xadd_unissued (streamKey q p) fs s).
    + rewrite app_comm_cons, app_assoc in El. apply app_inj_tail in El as [El _].
      destruct (Hf _ _ _ El Heid) as [(e' & Hin & Hc)|Hd]; [left|by right].
      exists e'. split; [|done]. apply elem_of_app. by left.
  - intros [H1 H2 H3]. split.
    + intros p'. destruct (He p') as [[-> ->]|[_ ->]]; [|done]. rewrite fmap_app. simpl.
      apply NoDup_app. split; [done|]. split; [|apply NoDup_singleton].
      intros x Hx ->%list_elem_of_singleton. by apply (xadd_fresh (streamKey q p) fs s).
    + intros p' e env Hin Hd. destruct (He p') as [[-> E]|[_ E]]; rewrite E in Hin; [|by eapply H2].
      apply elem_of_app in Hin as [Hin|Hin]; [by eapply H2|].
      apply list_elem_of_singleton in Hin as ->. by apply Hpl.
    + intros p' m env. rewrite Hm. apply H3.
Qed.

(** ** XDEL *)

(** The entry may go: it is not a delivery, or its job was taken, or there is
    another delivery behind it. *)
Definition spent (gone : string -> Prop) p id s : Prop :=
  forall e env, e ∈ entries (streamKey q p) s -> e.1 = id ->
    DecodeEnvelope (field "j" e) = Ok env -> gone (env_ID env) \/ followed (env_ID env) p id s.

Lemma filter_split {A} (P : A -> Prop) `{!forall x, Decision (P x)} (l : list A) :
  forall l1 x l2, filter P l = l1 ++ x :: l2 ->
  exists m1 m2, l = m1 ++ x :: m2 /\ filter P m2 = l2.
Proof.
  induction l as [|a l IH]; intros l1 x l2; [by destruct l1|]. destruct (decide (P a)) as [Ha|Ha].
  - rewrite filter_cons_True by done. destruct l1 as [|b l1]; simpl; intros [= -> E].
    + by exists [], l.
    + destruct (IH _ _ _ E) as (m1 & m2 & -> & <-). by exists (b :: m1), m2.
  - rewrite filter_cons_False by done. intros E.
    destruct (IH _ _ _ E) as (m1 & m2 & -> & <-). by exists (a :: m1), m2.
Qed.

(** Entries with distinct ids: where an id is, is determined. *)
Lemma split_at id (l : list entry) :
  (exists l1 e l2, l = l1 ++ e :: l2 /\ e.1 = id) \/ (forall e, e ∈ l -> e.1 <> id).
Proof.
  destruct (decide (id ∈ l.*1)) as [Hin|Hn].
  - left. apply list_elem_of_fmap in Hin as (e & -> & (l1 & l2 & ->)%list_elem_of_split). by exists l1, e, l2.
  - right. intros e Hin <-. apply Hn. by apply list_elem_of_fmap_2.
Qed.

Lemma split_unique (l1 l2 m1 m2 : list entry) e f :
  l1 ++ e :: l2 = m1 ++ f :: m2 -> NoDup (l1 ++ e :: l2).*1 -> e.1 = f.1 ->
  l1 = m1 /\ e = f /\ l2 = m2.
Proof.
  revert m1. induction l1 as [|a l1 IH]; intros [|b m1] E Hnd Hid; simpl in *; simplify_eq; try done.
  - exfalso. apply NoDup_cons in Hnd as [Hnd _]. apply Hnd. rewrite Hid. apply list_elem_of_fmap_2.
    apply elem_of_app. right. by left.
  - exfalso. apply NoDup_cons in Hnd as [Hnd _]. apply Hnd. rewrite <-Hid. apply list_elem_of_fmap_2.
    apply elem_of_app. right. by left.
  - apply NoDup_cons in Hnd as [_ Hnd].
    match goal with H : l1 ++ _ = m1 ++ _ |- _ => destruct (IH _ H Hnd Hid) as (-> & -> & ->) end. done.
Qed.

Lemma followed_elem job p id s e :
  e ∈ entries (streamKey q p) s -> e.1 = id -> NoDup (entries (streamKey q p) s).*1 ->
  followed job p id s ->
  (exists e', e' ∈ entries (streamKey q p) s /\ carries job e' /\ e'.1 <> id) \/ is_delayed job p s.
Proof.
  intros (l1 & l2 & E)%list_elem_of_split Hid Hnd Hf.
  destruct (Hf _ _ _ E Hid) as [(e' & Hin & Hc)|Hd]; [left|by right]. exists e'.
  rewrite E in *. split; [apply elem_of_app; right; by right|]. split; [done|]. intros Heq.
  rewrite fmap_app in Hnd. simpl in Hnd. apply NoDup_app in Hnd as (_ & _ & Hnd).
  apply NoDup_cons in Hnd as [Hnd _]. apply Hnd. rewrite Hid, <-Heq. by apply list_elem_of_fmap_2.
Qed.

(** What followed an entry still does after the deletion of another, or is gone. *)
Lemma followed_filter known (gone : string -> Prop) job p id i s :
  queue_ok known s -> spent gone p id s -> followed job p i s ->
  (forall l1 e l2, filter (fun e => e.1 <> id) (entries (streamKey q p) s) = l1 ++ e :: l2 -> e.1 = i ->
     (exists e', e' ∈ l2 /\ carries job e') \/ is_delayed job p s) \/ gone job.
Proof.
  intros Hok Hsp Hf.
  assert (Hother : forall job e, e ∈ entries (streamKey q p) s -> e.1 = id -> carries job e ->
    gone job \/ followed job p id s).
  { intros job' e Hin Hid (env & Hd & <-). by eapply Hsp. }
  destruct (split_at i (filter (fun e => e.1 <> id) (entries (streamKey q p) s))) as [(l1 & e & l2 & El & <-)|Hn].
  2: { left. intros l1 e l2 El Hei. exfalso. apply (Hn e); [|done]. rewrite El.
       apply elem_of_app. right. by left. }
  pose proof El as El'. apply filter_split in El' as (m1 & m2 & Es & <-).
  assert (Hnd : NoDup (filter (fun e => e.1 <> id) (entries (streamKey q p) s)).*1).
  { eapply sublist_NoDup; [apply Hok|]. apply sublist_map, sublist_filter. }
  assert (Hgo : ((exists e', e' ∈ filter (fun e => e.1 <> id) m2 /\ carries job e') \/
      is_delayed job p s) \/ gone job).
  { destruct (Hf _ _ _ Es eq_refl) as [(e' & Hin & Hc)|Hd]; [|by left; right].
    destruct (decide (e'.1 = id)) as [Hid|Hne].
    - assert (Hin' : e' ∈ entries (streamKey q p) s) by (rewrite Es; apply elem_of_app; right; by right).
      destruct (Hother _ _ Hin' Hid Hc) as [?|Hf2]; [by right|left].
      apply list_elem_of_split in Hin as (n1 & n2 & ->).
      destruct (Hf2 (m1 ++ e :: n1) e' n2) as [(e2 & Hin2 & Hc2)|Hd]; [|done| |by right].
      { rewrite Es. by rewrite <-app_assoc. }
      left. exists e2. split; [|done]. apply list_elem_of_filter. split.
      + intros Hid2. pose proof (qo_ids _ _ Hok p) as Hnd2.  rewrite Es in Hnd2.
        rewrite app_comm_cons, app_assoc, fmap_app in Hnd2. simpl in Hnd2.
        apply NoDup_app in Hnd2 as (_ & _ & Hnd2). apply NoDup_cons in Hnd2 as [Hnd2 _].
        apply Hnd2. rewrite Hid, <-Hid2. by apply list_elem_of_fmap_2.
      + apply elem_of_app. right. by right.
    - left. left. exists e'. split; [by apply list_elem_of_filter|done]. }
  destruct Hgo as [Hgo|]; [left|by right]. intros l1' e0 l2' El' Hei.
  rewrite El in El', Hnd. by destruct (split_unique _ _ _ _ _ _ El' Hnd) as (_ & _ & <-).
Qed.

Lemma xdel_moves known (gone : string -> Prop) p id s :
  queue_ok known s -> spent gone p id s -> queue_moves known gone s (xdel (streamKey q p) id s).
Proof.
  intros Hok Hsp. set (s' := xdel (streamKey q p) id s).
  assert (Hm : forall p', members (delayedKey q p') s' = members (delayedKey q p') s)
    by (intros; apply xdel_members).
  assert (He : forall p', p' = p /\ entries (streamKey q p') s' =
      filter (fun e => e.1 <> id) (entries (streamKey q p') s) \/
    p' <> p /\ entries (streamKey q p') s' = entries (streamKey q p') s).
  { intros p'. destruct (decide (p' = p)) as [->|Hne]; [left; split; [done|apply xdel_entries]|right].
    split; [done|]. apply xdel_other. by intros ->%streamKey_inj. }
  (* another delivery for one that goes *)
  assert (Hother : forall job e, e ∈ entries (streamKey q p) s -> e.1 = id -> carries job e ->
    gone job \/ followed job p id s).
  { intros job e Hin Hid (env & Hd & <-). by eapply Hsp. }
  split; [split|].
  - intros p' i. apply xdel_issued.
  - intros p' e _ Hin. destruct (He p') as [[-> E]|[_ E]]; rewrite E in Hin; [|done].
    by apply list_elem_of_filter in Hin as [_ ?].
  - intros job p' Hq. unfold queued, is_delayed. rewrite Hm.
    destruct (He p') as [[-> E]|[_ E]]; rewrite E; [|by left].
    destruct Hq as [(e & Hin & Hc)|Hd]; [|by left; right].
    destruct (decide (e.1 = id)) as [Hid|Hne].
    + destruct (Hother _ _ Hin Hid Hc) as [?|Hf]; [by right|left].
      apply (followed_elem _ _ _ _ _ Hin Hid) in Hf; [|apply Hok].
      destruct Hf as [(e' & Hin' & Hc' & Hne)|Hd]; [left|by right]. exists e'.
      split; [by apply list_elem_of_filter|done].
    + left. left. exists e. split; [by apply list_elem_of_filter|done].
  - intros job p' i Hi Hf. unfold followed, is_delayed. rewrite Hm.
    destruct (He p') as [[-> E]|[_ E]]; rewrite E; [|by left].
    by eapply followed_filter.
  - intros _. destruct Hok as [H1 H2 H3]. split.
    + intros p'. destruct (He p') as [[-> ->]|[_ ->]]; [|done].
      eapply sublist_NoDup; [apply H1|]. apply sublist_map, sublist_filter.
    + intros p' e env Hin. apply (H2 p'). destruct (He p') as [[-> E]|[_ E]]; rewrite E in Hin; [|done].
      by apply list_elem_of_filter in Hin as [_ ?].
    + intros p' m env. rewrite Hm. apply H3.
Qed.

(** ** ZADD, and the moves of the promotion script *)

Lemma zadd_moves known gone p sc m s :
  (forall env, DecodeEnvelope m = Ok env -> placed known p env) ->
  queue_moves known gone s (zadd (delayedKey q p) sc m s).
Proof.
  intros Hpl. set (s' := zadd (delayedKey q p) sc m s).
  assert (He : forall p', entries (streamKey q p') s' = entries (streamKey q p') s)
    by (intros; apply zadd_entries).
  assert (Hm : forall p', p' = p /\ members (delayedKey q p') s' = <[m := sc]> (members (delayedKey q p') s) \/
    members (delayedKey q p') s' = members (delayedKey q p') s).
  { intros p'. destruct (decide (p' = p)) as [->|Hne]; [left; split; [done|apply zadd_members]|right].
    apply zadd_other. by intros ->%delayedKey_inj. }
  assert (Hd : forall job p', is_delayed job p' s -> is_delayed job p' s').
  { intros job p' (m' & env & Hin & Hdec). exists m', env. split; [|done].
    destruct (Hm p') as [[-> ->]| ->]; [|done]. rewrite lookup_insert_is_Some. 
    destruct (decide (m = m')); [by left|by right]. }
  split; [split|].
  - intros p' id. apply zadd_issued.
  - intros p' e _. by rewrite He.
  - intros job p' [Hq|Hq]; left; [left; by rewrite He|right; auto].
  - intros job p' id _ Hf. left. intros l1 e l2. rewrite He. intros El Hid.
    destruct (Hf _ _ _ El Hid); [by left|right; auto].
  - intros [H1 H2 H3]. split; [intros p'; by rewrite He|intros p' e env; rewrite He; apply H2|].
    intros p' m' env Hin Hdec. destruct (Hm p') as [[-> E]|E]; rewrite E in Hin; [|by eapply H3].
    destruct (decide (m = m')) as [<-|Hne]; [by apply Hpl|].
    rewrite lookup_insert_ne in Hin by done. by eapply H3.
Qed.

(** One due member goes from the delayed set to the end of the stream. *)
Lemma promote_one_moves known gone p m s :
  is_Some (members (delayedKey q p) s !! m) -> queue_ok known s ->
  queue_moves known gone s (zrem (delayedKey q p) m (xadd (streamKey q p) [("j", m)] s).2).
Proof.
  intros Hin Hok. set (s1 := (xadd (streamKey q p) [("j", m)] s).2).
  assert (Hpl : forall env, DecodeEnvelope (field "j" (EmptyString, [("j", m)])) = Ok env -> placed known p env)
    by (intros env Hd; by eapply (qo_members _ _ Hok)).
  pose proof (xadd_moves known gone p [("j", m)] s Hpl) as [[I1 O1 Q1 F1] K1].
  set (s' := zrem (delayedKey q p) m s1).
  assert (He : forall p', entries (streamKey q p') s' = entries (streamKey q p') s1)
    by (intros; apply zrem_entries).
  set (new := ((xadd (streamKey q p) [("j", m)] s).1, [("j", m)])).
  assert (Hnew : entries (streamKey q p) s' = entries (streamKey q p) s ++ [new])
    by (rewrite He; apply xadd_entries).
  assert (Hm1 : forall p', members (delayedKey q p') s1 = members (delayedKey q p') s)
    by (intros; apply xadd_members).
  assert (Hd : forall job p', is_delayed job p' s ->
    is_delayed job p' s' \/ (p' = p /\ carries job new)).
  { intros job p' (m' & env & Hi & Hdec & Hid). destruct (decide (p' = p /\ m' = m)) as [[-> ->]|Hne].
    - right. split; [done|]. by exists env.
    - left. exists m', env. split; [|done]. unfold s'. destruct (decide (p' = p)) as [->|Hp].
      + rewrite zrem_members, Hm1, lookup_delete_ne by naive_solver. done.
      + rewrite zrem_other, Hm1 by (by intros ->%delayedKey_inj). done. }
  split; [split|].
  - intros p' id Hi. apply zrem_issued, I1, Hi.
  - intros p' e Hi. rewrite He. by apply O1.
  - intros job p' [(e & Hi & Hc)|Hq]; left.
    + left. exists e. split; [|done]. rewrite He. unfold s1.
      destruct (decide (p' = p)) as [->|Hne]; [rewrite xadd_entries; apply elem_of_app; by left|].
      rewrite xadd_other by (by intros ->%streamKey_inj). done.
    + destruct (Hd _ _ Hq) as [?|[-> Hc]]; [by right|left]. exists new. split; [|done].
      rewrite Hnew. apply elem_of_app. right. by left.
  - intros job p' id Hi Hf. left. intros l1 e l2. destruct (decide (p' = p)) as [->|Hne].
    + rewrite Hnew. intros El Heid. destruct l2 as [|x l2 _] using rev_ind.
      { exfalso. apply app_inj_tail in El as [_ <-]. simpl in Heid. subst id.
        by apply (xadd_unissued (streamKey q p) [("j", m)] s). }
      rewrite app_comm_cons, app_assoc in El. apply app_inj_tail in El as [El <-].
      destruct (Hf _ _ _ El Heid) as [(e' & Hin' & Hc)|Hdl].
      * left. exists e'. split; [|done]. apply elem_of_app. by left.
      * destruct (Hd _ _ Hdl) as [?|[_ Hc]]; [by right|left]. exists new. split; [|done].
        apply elem_of_app. right. by left.
    + rewrite He. unfold s1. rewrite xadd_other by (by intros ->%streamKey_inj).
      intros El Heid. destruct (Hf _ _ _ El Heid) as [?|Hdl]; [by left|].
      destruct (Hd _ _ Hdl) as [?|[? _]]; [by right|done].
  - intros _. destruct (K1 Hok) as [H1 H2 H3].
    split; [intros p'; by rewrite He|intros p' e env; rewrite He; apply H2|].
    intros p' m' env Hi. apply (H3 p'). unfold s' in Hi. destruct (decide (p' = p)) as [->|Hne].
    + rewrite zrem_members in Hi. by apply lookup_delete_is_Some in Hi as [_ ?].
    + by rewrite zrem_other in Hi by (by intros ->%delayedKey_inj).
Qed.

Lemma promote_each_moves known gone now p due : forall s,
  NoDup due -> (forall m, m ∈ due -> is_Some (members (delayedKey q p) s !! m)) -> queue_ok known s ->
  exists s', exec_script now (promote_each (streamKey q p) (delayedKey q p) due) s = (Ok tt, s') /\
    queue_moves known gone s s'.
Proof.
  induction due as [|m due IH]; intros s Hnd Hin Hok; simpl; [by exists s|].
  apply NoDup_cons in Hnd as [Hm Hnd].
  pose proof (promote_one_moves known gone p m s (Hin m ltac:(by left)) Hok) as Hmv.
  destruct (xadd (streamKey q p) [("j", m)] s) as [i s1] eqn:Hx. simpl in *.
  destruct (IH (zrem (delayedKey q p) m s1)) as (s' & Hrun & Hmv'); [done| | |].
  - intros m' Hm'. rewrite zrem_members. apply lookup_delete_is_Some. split; [by intros ->|].
    replace s1 with (xadd (streamKey q p) [("j", m)] s).2 by (by rewrite Hx).
    rewrite xadd_members. apply Hin. by right.
  - by apply Hmv.
  - exists s'. split; [done|]. by etrans.
Qed.

Lemma promoteScript_queue_moves known gone now p t n s :
  queue_ok known s ->
  queue_moves known gone s (exec_script now (promoteScript (delayedKey q p) (streamKey q p) t n) s).2.
Proof.
  intros Hok. unfold promoteScript. simpl.
  destruct (promote_each_moves known gone now p (zrangebyscore (delayedKey q p) t n s) s) as (s' & Hr & Hmv);
    [apply zrange_nodup| |done|].
  - intros m Hm. apply zrange_due in Hm as (sc & -> & _). by eexists.
  - rewrite exec_script_bind, Hr. exact Hmv.
Qed.
End state.

(** ** The column [enqueued_stream_id] *)

(** The job a statement marks as handed over. *)
Definition enqueues {A} (s : stmt A) : option string :=
  match s with UpdateEnqueued id _ => Some id | _ => None end.

Definition has_marker (o : option JobRow) : Prop :=
  exists r, o = Some r /\ r_enqueued_stream_id r <> None.

Lemma update_where_marker id p f db i :
  (forall r, r_enqueued_stream_id (f r) <> None -> r_enqueued_stream_id r <> None) ->
  has_marker (jobs (update_where id p f db).2 !! i) -> has_marker (jobs db !! i).
Proof.
  intros Hf. unfold update_where.
  destruct (jobs db !! id) as [r|] eqn:Hr; [destruct (p r)|]; simpl; try done.
  destruct (decide (id = i)) as [<-|Hne]; [|by rewrite lookup_insert_ne].
  rewrite lookup_insert_eq, Hr. intros (r' & [= <-] & Hm). exists r. auto.
Qed.

Lemma map_imap_marker (f : string -> JobRow -> JobRow) (m : gmap string JobRow) i :
  (forall j r, r_enqueued_stream_id (f j r) <> None -> r_enqueued_stream_id r <> None) ->
  has_marker (map_imap (fun j r => Some (f j r)) m !! i) -> has_marker (m !! i).
Proof.
  intros Hf. rewrite map_lookup_imap. destruct (m !! i) as [r|]; simpl; [|done].
  intros (r' & [= <-] & Hm). exists r. eauto.
Qed.

(** Only [SetEnqueued] sets it. *)
Lemma exec_stmt_marker {A} now (s : stmt A) db id :
  enqueues s <> Some id ->
  has_marker (jobs (exec_stmt now s db).2 !! id) -> has_marker (jobs db !! id).
Proof.
  intros Hne. destruct s; simpl in *; try done;
    try (match goal with |- context [update_where ?i ?p ?f db] =>
           pose proof (update_where_marker i p f db id) as Hu; destruct (update_where i p f db);
           simpl in *; apply Hu; intros r; try done; unfold row_reaped, row_requeued; simpl; done end).
  - destruct (insert_job_cases now j payload db) as [E|(_ & E & _)]; rewrite E; [done|]. simpl.
    destruct (decide (ID j = id)) as [<-|Hid]; [|by rewrite lookup_insert_ne].
    rewrite lookup_insert_eq. by intros (r & [= <-] & Hm).
  - unfold update_where. destruct (jobs db !! id0) as [r|]; [destruct (bool_decide _)|]; simpl; try done.
    rewrite lookup_insert_ne by congruence. done.
  - destruct (insert_attempt_row _ _ _ _) eqn:Ha; simpl; [|done].
    by rewrite (insert_attempt_row_jobs _ _ _ _ _ Ha).
  - by destruct (jobs db !! jobID).
  - apply map_imap_marker. intros j r. by destruct (promoted_hit _ _ _).
  - unfold upsert_worker. by destruct (bool_decide _).
  - apply map_imap_marker. intros j r. by destruct (batch_match vs j r).
  - destruct (insert_attempts xs db) eqn:Ha; simpl; [|done]. by rewrite (insert_attempts_jobs _ _ _ Ha).
  - by destruct (forallb _ es).
Qed.

(** A job handed over and never claimed, with its priority. *)
Definition handed_over (id : string) (p : Priority) (db : DB) : Prop :=
  exists r, jobs db !! id = Some r /\ r_lease_epoch r = 0 /\ r_enqueued_stream_id r <> None /\
    d_priority (r_def r) = p.

Lemma handed_over_exec {A} now (s : stmt A) db id p :
  db_wf db -> stmt_ok s -> handed_over id p (exec_stmt now s db).2 ->
  handed_over id p db \/
  (enqueues s = Some id /\ exists r, jobs db !! id = Some r /\ r_lease_epoch r = 0 /\ d_priority (r_def r) = p).
Proof.
  intros Hwf Hok (r' & Hr' & He & Hm & Hp).
  destruct (exec_stmt_row_origin now s db id r' Hok Hr') as [(r & Hr & Hs)|(j & pl & _ & -> & _)]; [|done].
  assert (Hrow : r_lease_epoch r = 0 /\ d_priority (r_def r) = p).
  { destruct (row_step_epoch _ _ Hs) as [Hle _]. rewrite (row_step_def _ _ Hs) in Hp. split; [|done].
    destruct (wf_rows _ Hwf _ _ Hr) as [Hrw _]. pose proof (wf_counters _ Hrw). lia. }
  destruct Hrow as [Her Hpr]. destruct (decide (enqueues s = Some id)) as [Hen|Hen]; [right|left].
  - split; [done|]. by exists r.
  - destruct (exec_stmt_marker now s db id Hen) as (r0 & Hr0 & Hm0); [by exists r'|].
    rewrite Hr in Hr0. injection Hr0 as <-. by exists r.
Qed.

(** The identity columns of every row make an envelope that survives the wire. *)
Record good_def (d : JobDef) : Prop := {
  gd_id : ValidName (d_id d) = true;
  gd_type : ValidName (d_type d) = true;
  gd_queue : ValidName (d_queue d) = true;
  gd_priority : d_priority d ∈ PriorityOrder;
  gd_payload : embeddable (d_payload d)
}.
Definition good_defs (db : DB) : Prop := forall id r, jobs db !! id = Some r -> good_def (r_def r).

Definition inserts_good {A} (s : stmt A) : Prop :=
  match s with InsertJob j payload => ValidName (ID j) = true /\ embeddable payload | _ => True end.

Lemma good_defs_exec {A} now (s : stmt A) db :
  stmt_ok s -> inserts_good s -> good_defs db -> good_defs (exec_stmt now s db).2.
Proof.
  intros Hok Hin Hg id r' Hr'.
  destruct (exec_stmt_row_origin now s db id r' Hok Hr') as [(r & Hr & Hs)|(j & pl & -> & _ & Hj & Hn & _)].
  - rewrite (row_step_def _ _ Hs). by eapply Hg.
  - destruct (is_insert s) eqn:Hi; [|by rewrite (exec_stmt_absent now s db _ Hi Hn) in Hr'].
    destruct s; try discriminate Hi. simpl in *. destruct Hin as [Hid Hpl].
    destruct (insert_job_cases now j0 payload db) as [E|(_ & E & _)]; rewrite E in Hr'; [congruence|].
    simpl in Hr'. destruct (decide (ID j0 = ID j)) as [Heq|Hne].
    + rewrite Heq, lookup_insert_eq in Hr'. apply Some_inj in Hr'. rewrite <-Hr'.
      destruct Hok. by constructor.
    + rewrite lookup_insert_ne in Hr' by done. congruence.
Qed.

(** ** The rule of every call *)

Section world.
Context {R : Type} `{!RedisServer R} `{EnvelopeJSON} (q : queue).
Implicit Types (w : World R) (p : Priority).

Definition gone_in w : string -> Prop := fun job => taken job (w_db w).
Definition known_in w : string -> Prop := fun job => is_Some (jobs (w_db w) !! job).

Definition stmt_careful {A} (s : stmt A) w : Prop :=
  inserts_good s /\
  forall id, enqueues s = Some id -> forall r, jobs (w_db w) !! id = Some r -> r_lease_epoch r = 0 ->
    queued q id (d_priority (r_def r)) (w_redis w).

Fixpoint tx_quiet {A} (t : free stmt A) : Prop :=
  match t with
  | Ret _ => True
  | Vis s k => inserts_good s /\ enqueues s = None /\ forall b, tx_quiet (k b)
  end.

(** A key that is no stream and no delayed set of the queue. *)
Definition foreign (k : string) : Prop := forall p, k <> streamKey q p /\ k <> delayedKey q p.

Definition rdb_careful {A} (c : redis_cmd A) w : Prop :=
  match c with
  | XADD k vs => exists p, k = streamKey q p /\
      forall env, DecodeEnvelope (field "j" (EmptyString, vs)) = Ok env -> placed (known_in w) p env
  | XDEL k i => exists p, k = streamKey q p /\ spent q (gone_in w) p i (w_redis w)
  | ZADD k sc m => exists p, k = delayedKey q p /\
      forall env, DecodeEnvelope m = Ok env -> placed (known_in w) p env
  | XADD_MAXLEN k _ _ | ZREM k _ | SET k _ _ | SETNX k _ _ | DEL k | PEXPIRE k _ => foreign k
  | _ => True
  end.

(** The Lua scripts of the program. *)
Inductive script_ok : forall {A : Type}, free redis_cmd A -> Prop :=
| so_promote p t n : script_ok (promoteScript (delayedKey q p) (streamKey q p) t n)
| so_renew k id ttl : foreign k -> script_ok (renewScript k id ttl)
| so_release k id : foreign k -> script_ok (releaseScript k id).

Definition careful : forall B, cmd B -> World R -> Prop := fun _ c w =>
  match c with
  | Sql s => stmt_careful s w
  | Tx t => tx_quiet t
  | Rdb c => rdb_careful c w
  | Script p => script_ok p
  | _ => True
  end.

Definition lawful : forall B, cmd B -> World R -> Prop := fun B c w => disciplined B c w /\ careful B c w.

(** ** The invariant, and what others may do *)

Record custody w : Prop := {
  cu_db : db_inv (w_db w);
  cu_defs : good_defs (w_db w);
  cu_queue : queue_ok q (known_in w) (w_redis w);
  cu_queued : forall id p, handed_over id p (w_db w) -> queued q id p (w_redis w)
}.

Definition cares w w' : Prop :=
  world_evolves w w' /\ queue_drift q (gone_in w') (w_redis w) (w_redis w') /\ (custody w -> custody w').

#[global] Instance cares_preorder : PreOrder cares.
Proof.
  split.
  - intros w. split_and!; [reflexivity|reflexivity|done].
  - intros w1 w2 w3 (E1 & M1 & C1) (E2 & M2 & C2). split_and!; [by etrans| |auto].
    etrans; [|exact M2]. eapply queue_drift_mono; [|exact M1].
    intros job. by apply evolves_taken.
Qed.

Lemma cares_evolves w w' : cares w w' -> world_evolves w w'.
Proof. by intros []. Qed.

(** ** Every lawful call keeps it *)

Lemma xreadgroup_same now c k n (s : R) : queue_same q s (xreadgroup now c k n s).2.
Proof.
  intros p. split_and!; [apply xreadgroup_entries|apply xreadgroup_members|].
  intros id. apply xreadgroup_issued.
Qed.

Lemma xautoclaim_same now c k mi n (s : R) : queue_same q s (xautoclaim now c k mi n s).2.
Proof.
  intros p. split_and!; [apply xautoclaim_entries|apply xautoclaim_members|].
  intros id. apply xautoclaim_issued.
Qed.

Lemma read_streams_same now c ks n : forall s : R, queue_same q s (read_streams now c ks n s).2.
Proof.
  induction ks as [|k ks IH]; intros s; simpl; [done|].
  pose proof (xreadgroup_same now c k n s) as H1. destruct (xreadgroup now c k n s) as [es s1].
  specialize (IH s1). destruct (read_streams now c ks n s1) as [rest s2]. simpl in *.
  by eapply queue_same_trans.
Qed.

Lemma exec_redis_moves {A} now (c : redis_cmd A) w :
  queue_ok q (known_in w) (w_redis w) -> rdb_careful c w ->
  queue_moves q (known_in w) (gone_in w) (w_redis w) (exec_redis now c (w_redis w)).2.
Proof.
  intros Hok Hc. set (s := w_redis w) in *.
  assert (Hfor : forall k s', foreign k ->
    (forall k', k <> k' -> same_key k' s s' entries members issued) -> queue_moves q (known_in w) (gone_in w) s s').
  { intros k s' Hk Hsame. apply queue_same_moves. intros p. destruct (Hk p) as [Hs Hd].
    destruct (Hsame _ Hs) as (? & _ & ?), (Hsame _ Hd) as (_ & ? & _). done. }
  destruct c; simpl in *; try reflexivity.
  - (* XADD *)
    destruct Hc as (p & -> & Hpl). pose proof (xadd_moves q (known_in w) (gone_in w) p values s Hpl) as Hmv.
    by destruct (xadd (streamKey q p) values s).
  - (* XADD_MAXLEN *)
    pose proof (Hfor key (xtrim key maxlen (xadd key values s).2) Hc) as Hmv.
    destruct (xadd key values s) as [i s1] eqn:Hx. simpl in *. apply Hmv. intros k' Hk.
    replace s1 with (xadd key values s).2 by (by rewrite Hx). split_and!.
    + rewrite xtrim_other, xadd_other by done. done.
    + by rewrite xtrim_members, xadd_members.
    + intros id Hi. by apply xtrim_issued, xadd_issued.
  - (* XREADGROUP *)
    pose proof (xreadgroup_same now consumer key count s) as Hsm.
    destruct (xreadgroup now consumer key count s) as [es s1]. simpl in *. by apply queue_same_moves.
  - (* XREADGROUP_BLOCK *)
    pose proof (read_streams_same now consumer keys count s) as Hsm.
    destruct (read_streams now consumer keys count s) as [es s1]. simpl in *. by apply queue_same_moves.
  - (* XACK *)
    apply queue_same_moves. intros p. split_and!; [apply xack_entries|apply xack_members|].
    intros id'. apply xack_issued.
  - (* XDEL *)
    destruct Hc as (p & -> & Hsp). by apply xdel_moves.
  - (* XCLAIM *)
    apply queue_same_moves. intros p. split_and!; [apply xclaim_entries|apply xclaim_members|].
    intros id'. apply xclaim_issued.
  - (* XAUTOCLAIM *)
    pose proof (xautoclaim_same now consumer key minIdle count s) as Hsm.
    destruct (xautoclaim now consumer key minIdle count s) as [es s1]. simpl in *. by apply queue_same_moves.
  - (* ZADD *)
    destruct Hc as (p & -> & Hpl). by apply zadd_moves.
  - (* ZREM *)
    apply queue_same_moves. intros p. split_and!; [apply zrem_entries| |].
    + apply zrem_other. by apply Hc.
    + intros id'. apply zrem_issued.
  - (* SET *)
    apply (Hfor key _ Hc). intros k' Hk. by apply set_keeps.
  - (* SETNX *)
    destruct (get now key s); simpl; [reflexivity|]. apply (Hfor key _ Hc). intros k' Hk. by apply set_keeps.
  - (* DEL *)
    apply (Hfor key _ Hc). intros k' Hk. by apply del_keeps.
  - (* PEXPIRE *)
    apply (Hfor key _ Hc). intros k' Hk. by apply pexpire_keeps.
Qed.

(** A script keeps the queue the way its commands do. *)
Lemma exec_script_moves {A} now (p : free redis_cmd A) w :
  queue_ok q (known_in w) (w_redis w) -> script_ok p ->
  queue_moves q (known_in w) (gone_in w) (w_redis w) (exec_script now p (w_redis w)).2.
Proof.
  intros Hok Hp. destruct Hp as [p t n|k id ttl Hk|k id Hk].
  - by apply promoteScript_queue_moves.
  - pose proof (exec_redis_moves now (PEXPIRE k ttl) w Hok Hk) as Hmv. unfold renewScript. simpl in *.
    by case_bool_decide.
  - pose proof (exec_redis_moves now (DEL k) w Hok Hk) as Hmv. unfold releaseScript. simpl in *.
    by case_bool_decide.
Qed.

(** A move of the queue alone. *)
Lemma cares_queue w s' :
  (queue_ok q (known_in w) (w_redis w) -> queue_moves q (known_in w) (gone_in w) (w_redis w) s') -> custody w ->
  cares w (with_redis s' w).
Proof.
  intros Hmv Hcu. specialize (Hmv (cu_queue _ Hcu)). split_and!; [unfold world_evolves; simpl; reflexivity|apply Hmv|]. intros _.
  destruct Hcu as [Hd Hg Hq Hh]. constructor; simpl; auto; [by apply Hmv|].
  intros id p Ho. destruct (qm_queued _ _ _ _ (proj1 Hmv) _ _ (Hh _ _ Ho)) as [?|(r & Hr & Ht)]; [done|].
  destruct Ho as (r' & Hr' & He & _). rewrite Hr in Hr'. injection Hr' as <-. lia.
Qed.

(** A statement, and a transaction. *)
Lemma cares_stmt {A} now (s : stmt A) w :
  stmt_ok s -> stmt_budget s (w_db w) -> stmt_careful s w -> custody w ->
  custody (with_db (exec_stmt now s (w_db w)).2 w).
Proof.
  intros Hok Hb [Hin Hen] [Hd Hg Hq Hh]. constructor; simpl; auto.
  - by apply exec_stmt_inv.
  - by apply good_defs_exec.
  - eapply queue_ok_mono; [|exact Hq]. intros job. apply exec_stmt_present.
  - intros id p Ho. destruct (handed_over_exec now s _ id p (proj1 Hd) Hok Ho) as [Ho'|(He & r & Hr & H0 & <-)];
      [by apply Hh|by eapply Hen].
Qed.

Lemma cares_tx {A} now (t : free stmt A) : forall w a db',
  tx_ok t -> tx_budget t (w_db w) -> tx_quiet t -> custody w ->
  exec_tx now t (w_db w) = Ok (a, db') -> custody (with_db db' w).
Proof.
  induction t as [a0|B s k IH]; simpl; intros w a db' Hok Hb Hqt Hcu.
  { intros [= <- <-]. by destruct w. }
  destruct Hok as [Hok1 Hok2], Hb as [Hb1 Hb2], Hqt as (Hq1 & Hq2 & Hq3).
  assert (Hcu1 : custody (with_db (exec_stmt now s (w_db w)).2 w)).
  { apply cares_stmt; auto. split; [done|]. intros id. by rewrite Hq2. }
  pose proof (evolves_step now s (w_db w) Hok1) as He.
  destruct (exec_stmt now s (w_db w)) as [[b|msg] db1]; [|done]. simpl in *. intros Hx.
  apply (IH b (with_db db1 w) a db'); auto. simpl. by eapply tx_budget_evolves.
Qed.

(** Every lawful call, whatever its fate. *)
Lemma lawful_call {B} (c : cmd B) (t : tick) w :
  custody w -> lawful B c w -> custody (step_call t c w).2 /\ cares w (step_call t c w).2.
Proof.
  intros Hcu [Hd Hc]. assert (Hgoal : cares w (step_call t c w).2); [|split; [by apply Hgoal|done]].
  assert (Hdb : forall db', evolves (w_db w) db' -> custody (with_db db' w) -> cares w (with_db db' w)).
  { intros db' He Hcu'. split_and!; [exact He|simpl; reflexivity|done]. }
  destruct c; simpl in *; try reflexivity.
  - destruct Hd as [Hok Hb]. simpl in *.
    pose proof (cares_stmt (at_ t) s w Hok Hb Hc Hcu). pose proof (evolves_step (at_ t) s (w_db w) Hok).
    destruct (exec_stmt (at_ t) s (w_db w)); simpl in *. apply fate_cases; simpl; intros; auto; reflexivity.
  - destruct Hd as [Hok Hb]. simpl in *.
    destruct (exec_tx (at_ t) t0 (w_db w)) as [[a db']|e] eqn:Hx;
      [|apply fate_cases; simpl; intros; reflexivity].
    pose proof (cares_tx (at_ t) t0 w a db' Hok Hb Hc Hcu Hx).
    pose proof (exec_tx_evolves (at_ t) t0 (w_db w) a db' Hok Hx).
    apply fate_cases; simpl; intros; auto; reflexivity.
  - pose proof (cares_queue w (exec_redis (at_ t) c (w_redis w)).2
      (fun Hq => exec_redis_moves (at_ t) c w Hq Hc) Hcu).
    destruct (exec_redis (at_ t) c (w_redis w)); simpl in *. apply fate_cases; simpl; intros; auto; reflexivity.
  - pose proof (cares_queue w (exec_script (at_ t) p (w_redis w)).2
      (fun Hq => exec_script_moves (at_ t) p w Hq Hc) Hcu).
    destruct (exec_script (at_ t) p (w_redis w)); simpl in *. apply fate_cases; simpl; intros; auto; reflexivity.
  - split_and!; [unfold world_evolves; simpl; reflexivity|simpl; reflexivity|].
    intros [Ha Hb Hq Hh]. by constructor.
Qed.
End world.
