(* ===== verification/Pool.v ===== *)
(** * Pool: bounded concurrency, pause, resize and drain

    Models [internal/worker/pool.go] as a step function.  The pool's loop
    goroutine is a small state machine ([phase]); the job goroutines, the
    callers of [SetTarget] and [SetPaused] and the owner of the fetch context
    interleave with it at every step. *)

From S2P Require Import Prelude Errors Job Queue.
Local Open Scope string_scope.
Local Open Scope list_scope.
Local Open Scope Z_scope.

(** Where the loop is: at its top, waiting for the answer of a fetch for [n],
    asleep in a [select], about to start the rest of a batch, in [wg.Wait], or
    returned. *)
Inductive phase :=
| Top
| Fetching (n : Z)
| Asleep (on_completion : bool)
| Dispatching (rest : list Delivery)
| Draining
| Exited.

Record Pool := {
  p_target : Z; p_paused : bool; p_processed : Z; p_batchMax : Z;
  p_active : Z;                       (* the atomic counter *)
  p_running : list Delivery;          (* the job goroutines that have not returned *)
  p_completions : nat;                (* buffered wake-ups, at most 256 *)
  p_cancelled : bool;                 (* fetchCtx *)
  p_errBackoff : Duration; p_phase : phase
}.

Definition completions_cap : nat := 256.

Definition NewPool (initial batchMax : Z) : Pool :=
  {| p_target := initial; p_paused := false; p_processed := 0; p_batchMax := batchMax;
     p_active := 0; p_running := []; p_completions := 0; p_cancelled := false;
     p_errBackoff := 0; p_phase := Top |}.

Definition with_phase (ph : phase) (p : Pool) : Pool :=
  {| p_target := p_target p; p_paused := p_paused p; p_processed := p_processed p;
     p_batchMax := p_batchMax p; p_active := p_active p; p_running := p_running p;
     p_completions := p_completions p; p_cancelled := p_cancelled p;
     p_errBackoff := p_errBackoff p; p_phase := ph |}.
Definition with_backoff (b : Duration) (p : Pool) : Pool :=
  {| p_target := p_target p; p_paused := p_paused p; p_processed := p_processed p;
     p_batchMax := p_batchMax p; p_active := p_active p; p_running := p_running p;
     p_completions := p_completions p; p_cancelled := p_cancelled p;
     p_errBackoff := b; p_phase := p_phase p |}.

Definition SetTarget (n : Z) (p : Pool) : Pool :=
  {| p_target := Z.max 1 n; p_paused := p_paused p; p_processed := p_processed p;
     p_batchMax := p_batchMax p; p_active := p_active p; p_running := p_running p;
     p_completions := p_completions p; p_cancelled := p_cancelled p;
     p_errBackoff := p_errBackoff p; p_phase := p_phase p |}.
Definition SetPaused (v : bool) (p : Pool) : Pool :=
  {| p_target := p_target p; p_paused := v; p_processed := p_processed p;
     p_batchMax := p_batchMax p; p_active := p_active p; p_running := p_running p;
     p_completions := p_completions p; p_cancelled := p_cancelled p;
     p_errBackoff := p_errBackoff p; p_phase := p_phase p |}.
Definition cancel_fetch (p : Pool) : Pool :=
  {| p_target := p_target p; p_paused := p_paused p; p_processed := p_processed p;
     p_batchMax := p_batchMax p; p_active := p_active p; p_running := p_running p;
     p_completions := p_completions p; p_cancelled := true;
     p_errBackoff := p_errBackoff p; p_phase := p_phase p |}.

(** [active.Add(1); wg.Add(1); go ...]. *)
Definition start_job (d : Delivery) (p : Pool) : Pool :=
  {| p_target := p_target p; p_paused := p_paused p; p_processed := p_processed p;
     p_batchMax := p_batchMax p; p_active := p_active p + 1; p_running := p_running p ++ [d];
     p_completions := p_completions p; p_cancelled := p_cancelled p;
     p_errBackoff := p_errBackoff p; p_phase := p_phase p |}.

(** The deferred function of a job goroutine. *)
Definition finish_job (i : nat) (p : Pool) : Pool :=
  {| p_target := p_target p; p_paused := p_paused p; p_processed := p_processed p + 1;
     p_batchMax := p_batchMax p; p_active := p_active p - 1; p_running := delete i (p_running p);
     p_completions := Nat.min completions_cap (S (p_completions p)); p_cancelled := p_cancelled p;
     p_errBackoff := p_errBackoff p; p_phase := p_phase p |}.
Definition take_completion (p : Pool) : Pool :=
  {| p_target := p_target p; p_paused := p_paused p; p_processed := p_processed p;
     p_batchMax := p_batchMax p; p_active := p_active p; p_running := p_running p;
     p_completions := pred (p_completions p); p_cancelled := p_cancelled p;
     p_errBackoff := p_errBackoff p; p_phase := p_phase p |}.

(** The backoff after one more failed fetch. *)
Definition next_backoff (b : Duration) : Duration :=
  if b <? 5 * Second then b + 500 * Millisecond else b.

(** The top of the loop: shutdown, pause, the free slots, or a fetch. *)
Definition loop_top (p : Pool) : Pool :=
  if p_cancelled p then with_phase Draining p
  else if p_paused p then with_phase (Asleep false) p
  else
    let free := p_target p - p_active p in
    if free <=? 0 then with_phase (Asleep true) p
    else with_phase (Fetching (if p_batchMax p <? free then p_batchMax p else free)) p.

(** The answer of the fetch. *)
Definition fetch_answer (ds : list Delivery) (err : option error) (p : Pool) : Pool :=
  match err with
  | Some _ =>
      if p_cancelled p then with_phase Draining p
      else with_phase (Asleep false) (with_backoff (next_backoff (p_errBackoff p)) p)
  | None => with_phase (Dispatching ds) (with_backoff 0 p)
  end.

Inductive pool_event :=
| LoopTurn                                              (* the loop goes on where it can *)
| FetchReturned (ds : list Delivery) (err : option error)
| TimerFired
| CompletionSeen
| JobDone (i : nat)
| Resize (n : Z)
| Pause (v : bool)
| CancelFetch.

(** One step; [None] when it cannot happen. *)
Definition pool_step (p : Pool) (ev : pool_event) : option Pool :=
  match ev with
  | LoopTurn =>
      match p_phase p with
      | Top => Some (loop_top p)
      | Asleep _ => if p_cancelled p then Some (with_phase Top p) else None
      | Dispatching [] => Some (with_phase Top p)
      | Dispatching (d :: ds) => Some (with_phase (Dispatching ds) (start_job d p))
      | Draining => match p_running p with [] => Some (with_phase Exited p) | _ => None end
      | _ => None
      end
  | FetchReturned ds err =>
      match p_phase p with Fetching _ => Some (fetch_answer ds err p) | _ => None end
  | TimerFired => match p_phase p with Asleep _ => Some (with_phase Top p) | _ => None end
  | CompletionSeen =>
      match p_phase p, p_completions p with
      | Asleep true, S _ => Some (with_phase Top (take_completion p))
      | _, _ => None
      end
  | JobDone i =>
      if bool_decide (i < length (p_running p))%nat then Some (finish_job i p) else None
  | Resize n => Some (SetTarget n p)
  | Pause v => Some (SetPaused v p)
  | CancelFetch => Some (cancel_fetch p)
  end.

Fixpoint pool_run (p : Pool) (evs : list pool_event) : option Pool :=
  match evs with
  | [] => Some p
  | ev :: evs' => match pool_step p ev with Some p' => pool_run p' evs' | None => None end
  end.

(** ** Bounded concurrency *)

(** A fetch for [n] answers at most [k] times as much. *)
Definition fetch_respects (k : Z) (p : Pool) (ev : pool_event) : Prop :=
  match ev, p_phase p with
  | FetchReturned ds None, Fetching n => Z.of_nat (length ds) <= k * n
  | _, _ => True
  end.

(** A run whose fetches answer at most [k] times what they were asked for and
    whose targets stay within [m]. *)
Fixpoint within (k m : Z) (p : Pool) (evs : list pool_event) : Prop :=
  match evs with
  | [] => True
  | ev :: evs' =>
      fetch_respects k p ev /\ (forall n, ev = Resize n -> Z.max 1 n <= m) /\
      match pool_step p ev with Some p' => within k m p' evs' | None => True end
  end.

(** The deliveries that the loop is about to start, or may be handed to start. *)
Definition waiting (k : Z) (p : Pool) : Z :=
  match p_phase p with
  | Fetching n => k * n
  | Dispatching ds => Z.of_nat (length ds)
  | _ => 0
  end.

(** The last batch started can exceed the free slots, when [k] is above one: by
    at most [k - 1] times what one fetch asks for. *)
Record pool_inv (k b m : Z) (p : Pool) : Prop := {
  pi_active : p_active p = Z.of_nat (length (p_running p));
  pi_bound : p_active p + waiting k p <= m + (k - 1) * Z.min b m;
  pi_target : p_target p <= m;
  pi_wait : 0 <= waiting k p;
  pi_batch : p_batchMax p = b /\ 0 < b;
  pi_completions : (p_completions p <= completions_cap)%nat;
  pi_backoff : exists k, p_errBackoff p = k * (500 * Millisecond) /\ 0 <= k <= 10;
  pi_exited : p_phase p = Exited -> p_running p = [] /\ p_cancelled p = true;
  pi_draining : p_phase p = Draining -> p_cancelled p = true
}.

Lemma pool_step_inv k b m p ev p' :
  1 <= k -> pool_inv k b m p -> fetch_respects k p ev -> (forall n, ev = Resize n -> Z.max 1 n <= m) ->
  pool_step p ev = Some p' -> pool_inv k b m p'.
Proof.
  intros Hk1 [Ha Hb Ht Hw Hbm Hc Hbo Hex Hdr] Hf Hr Hs. unfold waiting, fetch_respects in *.
  destruct ev as [|ds err| | |i|n|v|]; simpl in Hs.
  - destruct (p_phase p) as [|n|oc|[|d ds]| |] eqn:Hph; try done.
    + injection Hs as <-. unfold loop_top.
      destruct (p_cancelled p) eqn:?; [|destruct (p_paused p); [|destruct (p_target p - p_active p <=? 0) eqn:?]];
        constructor; unfold waiting; simpl; try done; try lia; reflect_bools;
        destruct (p_batchMax p <? p_target p - p_active p) eqn:?; reflect_bools; nia.
    + destruct (p_cancelled p) eqn:?; [|done]. injection Hs as <-.
      constructor; unfold waiting; simpl; try done; lia.
    + injection Hs as <-. constructor; unfold waiting; simpl; try done; simpl in *; lia.
    + injection Hs as <-. constructor; unfold waiting; simpl in *; try done;
        try rewrite length_app; simpl; lia.
    + destruct (p_running p) eqn:Hrun; [|done]. injection Hs as <-.
      constructor; unfold waiting; simpl in *; try done; try lia; rewrite ?Hrun; simpl; try lia; auto.
  - destruct (p_phase p) as [|n|oc|l| |] eqn:Hph; try done. injection Hs as <-. unfold fetch_answer.
    destruct err as [e|]; [destruct (p_cancelled p) eqn:?|]; constructor; unfold waiting; simpl; try done; try lia.
    + unfold next_backoff, Second, Millisecond in *. destruct (_ <? _) eqn:E; reflect_bools.
      * destruct Hbo as (x & Hx & ?). rewrite Hx in *. exists (x + 1). lia.
      * destruct Hbo as (x & Hx & ?). rewrite Hx in *. exists x. lia.
    + by exists 0.
  - destruct (p_phase p) eqn:Hph; try done. injection Hs as <-.
    constructor; unfold waiting; simpl; try done; lia.
  - destruct (p_phase p) as [| |[]| | |] eqn:Hph; try done. destruct (p_completions p) eqn:?; [done|].
    injection Hs as <-. constructor; unfold waiting; simpl; try done; lia.
  - case_bool_decide as Hi; [|done]. injection Hs as <-.
    assert (Hlen : length (delete i (p_running p)) = (length (p_running p) - 1)%nat).
    { apply length_delete. by apply lookup_lt_is_Some. }
    constructor; unfold waiting; cbn -[Nat.min completions_cap]; try done; try rewrite Hlen; try lia.
    intros Hp. destruct (Hex Hp) as [Hnil _]. rewrite Hnil in Hi. simpl in Hi. lia.
  - injection Hs as <-. specialize (Hr n eq_refl). constructor; unfold waiting; simpl; done.
  - injection Hs as <-. constructor; unfold waiting; simpl; done.
  - injection Hs as <-. constructor; unfold waiting; simpl; try done. intros Hp. by destruct (Hex Hp).
Qed.

Lemma pool_run_inv k b m evs : 1 <= k -> forall p p',
  pool_inv k b m p -> within k m p evs -> pool_run p evs = Some p' -> pool_inv k b m p'.
Proof.
  intros Hk. induction evs as [|ev evs IH]; simpl; intros p p' Hi Hw Hr; [by injection Hr as <-|].
  destruct Hw as (Hf & Hn & Hw). destruct (pool_step p ev) as [p1|] eqn:Hs; [|done].
  eapply IH; [|exact Hw|exact Hr]. by eapply pool_step_inv.
Qed.

Lemma NewPool_inv k m initial batchMax :
  1 <= k -> initial <= m -> 0 <= m -> 0 < batchMax -> pool_inv k batchMax m (NewPool initial batchMax).
Proof.
  intros. constructor; unfold waiting, completions_cap; simpl; try done; try nia. by exists 0.
Qed.

(** Bounded concurrency. In every interleaving of the loop with job
    goroutines, resizes, pauses and the end of the fetch context in which the
    fetches answer at most [k] times what they were asked for and targets stay at
    or below [m], never more than [m] jobs run at once (nor would after starting
    what is already claimed) - [k - 1] times one fetch more, when [k] is above
    one - the atomic counter is exact, the pause after
    failed fetches grows by half a second to at most five, and the loop only
    returns once the fetch context is cancelled and no job is running. *)
Theorem Pool_bounded (k m initial batchMax : Z) (evs : list pool_event) (p : Pool) :
  1 <= k -> 0 <= m -> initial <= m -> 0 < batchMax ->
  within k m (NewPool initial batchMax) evs ->
  pool_run (NewPool initial batchMax) evs = Some p ->
  p_active p = Z.of_nat (length (p_running p)) /\
  p_active p + waiting k p <= m + (k - 1) * Z.min batchMax m /\
  0 <= p_errBackoff p <= 5 * Second /\
  (p_phase p = Exited -> p_running p = [] /\ p_cancelled p = true).
Proof.
  intros Hk Hm Hi Hb Hw Hr.
  destruct (pool_run_inv k batchMax m evs Hk _ p (NewPool_inv k m initial batchMax Hk Hi Hm Hb) Hw Hr)
    as [? ? ? ? ? ? (x & Hx & ?) ? ?].
  split_and!; try done; rewrite Hx; unfold Second, Millisecond; lia.
Qed.

(** ** Every delivery is run once *)

(** What the fetches answered, an error beside it or not; what a successful one
    handed to the loop; what came back with an error, which the loop drops. *)
Definition fetched (evs : list pool_event) : list Delivery :=
  concat (map (fun ev => match ev with FetchReturned ds _ => ds | _ => [] end) evs).
Definition accepted (evs : list pool_event) : list Delivery :=
  concat (map (fun ev => match ev with FetchReturned ds None => ds | _ => [] end) evs).
Definition dropped (evs : list pool_event) : list Delivery :=
  concat (map (fun ev => match ev with FetchReturned ds (Some _) => ds | _ => [] end) evs).

Lemma fetched_split evs : fetched evs ≡ₚ dropped evs ++ accepted evs.
Proof.
  induction evs as [|ev evs IH]; [done|]. unfold fetched, dropped, accepted in *. simpl. rewrite IH.
  destruct ev as [|ds [e|]| | | | | |]; simpl; try done; rewrite ?(assoc_L (++)); [done|].
  by rewrite (Permutation_app_comm ds).
Qed.

Definition finished (evs : list pool_event) : Z :=
  Z.of_nat (length (filter (fun ev => match ev with JobDone _ => true | _ => false end = true) evs)).

Definition to_start (p : Pool) : list Delivery :=
  match p_phase p with Dispatching ds => ds | _ => [] end.

Lemma loop_top_keeps p :
  p_running (loop_top p) = p_running p /\ p_processed (loop_top p) = p_processed p /\
  match p_phase (loop_top p) with Dispatching ds => ds | _ => [] end = [].
Proof. unfold loop_top. by repeat case_match; simplify_eq. Qed.

Lemma pool_step_accounts p ev p' done_ :
  pool_step p ev = Some p' ->
  (done_ ++ p_running p ++ to_start p) ++ accepted [ev] ≡ₚ
    done_ ++ (match ev with JobDone i => default [] (option_map (fun d => [d]) (p_running p !! i)) | _ => [] end)
      ++ p_running p' ++ to_start p' /\
  p_processed p' = p_processed p + finished [ev].
Proof.
  unfold accepted, finished, to_start. intros Hs.
  destruct ev as [|ds [e|]| | |i|n|v|]; simpl in *; rewrite ?app_nil_r; rewrite ?Z.add_0_r.
  - destruct (p_phase p) as [|n|b|[|d ds]| |] eqn:Hph; try done; try (injection Hs as <-; simpl; try done).
    + destruct (loop_top_keeps p) as (-> & -> & ->). by rewrite !app_nil_r.
    + destruct (p_cancelled p); [|done]. by injection Hs as <-.
    + split; [|done]. by rewrite <-app_assoc.
    + destruct (p_running p) eqn:E; [|done]. injection Hs as <-. simpl. by rewrite E.
  - destruct (p_phase p) eqn:Hph; try done. injection Hs as <-. by destruct (p_cancelled p).
  - destruct (p_phase p) eqn:Hph; try done. injection Hs as <-. simpl.
    split; [|done]. by rewrite !app_nil_r, <-app_assoc.
  - destruct (p_phase p) eqn:Hph; try done. by injection Hs as <-.
  - destruct (p_phase p) as [| |[]| | |] eqn:Hph; try done. by destruct (p_completions p); simplify_eq.
  - case_bool_decide as Hi; [|done]. injection Hs as <-.
    apply lookup_lt_is_Some in Hi as [d Hd]. rewrite Hd. simpl. split; [|done].
    apply Permutation_app_head. rewrite (delete_Permutation _ _ _ Hd) at 1. done.
  - by injection Hs as <-.
  - by injection Hs as <-.
  - by injection Hs as <-.
Qed.

(** The deliveries whose job goroutine returned, in order. *)
Fixpoint completed (p : Pool) (evs : list pool_event) : list Delivery :=
  match evs with
  | [] => []
  | ev :: evs' =>
      (match ev with JobDone i => default [] (option_map (fun d => [d]) (p_running p !! i)) | _ => [] end)
        ++ match pool_step p ev with Some p' => completed p' evs' | None => [] end
  end.

Lemma pool_run_accounts evs : forall p p' done_,
  pool_run p evs = Some p' ->
  (done_ ++ p_running p ++ to_start p) ++ accepted evs ≡ₚ
    done_ ++ completed p evs ++ p_running p' ++ to_start p' /\
  p_processed p' = p_processed p + Z.of_nat (length (completed p evs)).
Proof.
  induction evs as [|ev evs IH]; intros p p' done_ Hr; simpl in *.
  { injection Hr as <-. unfold accepted. simpl. rewrite app_nil_r. split; [done|lia]. }
  destruct (pool_step p ev) as [p1|] eqn:Hs; [|done].
  set (now := match ev with JobDone i => default [] (option_map (fun d => [d]) (p_running p !! i)) | _ => [] end).
  destruct (pool_step_accounts p ev p1 done_ Hs) as [Hp Hn]. fold now in Hp.
  destruct (IH p1 p' (done_ ++ now) Hr) as [Hp2 Hn2].
  assert (Hcons : accepted (ev :: evs) = accepted [ev] ++ accepted evs).
  { unfold accepted. simpl. by rewrite app_nil_r. }
  split.
  - rewrite Hcons, (assoc_L (++)), Hp. rewrite <-!(assoc_L (++)) in Hp2 |- *. exact Hp2.
  - rewrite Hn2, Hn, length_app, Nat2Z.inj_add, Z.add_assoc. do 2 f_equal.
    unfold finished, now. destruct ev as [| | | |i| | |]; try done. simpl in Hs.
    case_bool_decide as Hi; [|done]. apply lookup_lt_is_Some in Hi as [d Hd]. by rewrite Hd.
Qed.

(** When the loop has returned, no job is running: it waits for them. *)
Lemma pool_step_stays p ev p' :
  pool_step p ev = Some p' ->
  (p_cancelled p = true -> p_cancelled p' = true) /\
  (p_phase p = Exited -> p_running p = [] -> p_phase p' = Exited) /\
  ((p_phase p = Exited -> p_running p = []) -> p_phase p' = Exited -> p_running p' = []).
Proof.
  intros Hs. destruct ev as [|ds [e|]| | |i|n|v|]; simpl in Hs; unfold fetch_answer, loop_top in Hs;
    repeat case_match; simplify_eq/=; split_and!; try done; try congruence.
  all: try (intros; repeat case_match; simplify_eq/=; congruence || done).
  intros H1 H2. by rewrite (H1 H2).
Qed.

Lemma pool_run_exited evs : forall p p', pool_run p evs = Some p' ->
  (p_phase p = Exited -> p_running p = []) -> p_phase p' = Exited -> p_running p' = [].
Proof.
  induction evs as [|ev evs IH]; simpl; intros p p' Hr Hp; [by injection Hr as <-|].
  destruct (pool_step p ev) as [p1|] eqn:Hs; [|done]. apply (IH p1 p' Hr). by apply (pool_step_stays _ _ _ Hs).
Qed.

(** C36. Every delivery is accounted for. Whatever the interleaving, the
    deliveries that the fetches returned are, as a multiset, the ones that came
    back beside an error - the loop drops them - and, once each, the ones whose
    job goroutine has returned, the ones running and the ones about to be
    started; the processed counter counts the returned goroutines; and once the
    pool's [Run] has returned no job is running, and every delivery that did not
    come with an error has been run to its end, exactly once. *)
Theorem Pool_runs_each_once (initial batchMax : Z) (evs : list pool_event) (p : Pool) :
  pool_run (NewPool initial batchMax) evs = Some p ->
  fetched evs ≡ₚ dropped evs ++ completed (NewPool initial batchMax) evs ++ p_running p ++ to_start p /\
  p_processed p = Z.of_nat (length (completed (NewPool initial batchMax) evs)) /\
  (p_phase p = Exited ->
     p_running p = [] /\ fetched evs ≡ₚ dropped evs ++ completed (NewPool initial batchMax) evs).
Proof.
  intros Hr. destruct (pool_run_accounts evs _ _ [] Hr) as [Hp Hn]. simpl in Hp.
  split_and!; [by rewrite fetched_split, Hp|done|]. intros Hex.
  assert (Hrun : p_running p = []) by (by eapply pool_run_exited). split; [done|].
  unfold to_start in Hp. rewrite Hrun, Hex in Hp. simpl in Hp. by rewrite fetched_split, Hp, app_nil_r.
Qed.

(** ** Drain *)

(** What is left to do: jobs to start, jobs to finish, turns of the loop. *)
Definition only_drains (ev : pool_event) : Prop :=
  match ev with LoopTurn | JobDone _ => True | _ => False end.

Lemma drain_running p :
  p_cancelled p = true -> p_phase p = Draining ->
  exists evs p', Forall only_drains evs /\ pool_run p evs = Some p' /\ p_phase p' = Exited /\ p_running p' = [].
Proof.
  remember (p_running p) as run eqn:Hrun. revert p Hrun.
  induction run as [|d run IH]; intros p Hrun Hc Hph.
  - exists [LoopTurn], (with_phase Exited p). split; [by repeat constructor|]. simpl.
    by rewrite Hph, <-Hrun.
  - destruct (IH (finish_job 0 p)) as (evs & p' & He & Hr & Hx); try done.
    { simpl. by rewrite <-Hrun. }
    exists (JobDone 0 :: evs), p'. split; [by constructor|]. split; [|done].
    cbn [pool_run pool_step]. rewrite <-Hrun, bool_decide_true by (simpl; lia). exact Hr.
Qed.

Lemma pool_run_app p evs1 evs2 p1 :
  pool_run p evs1 = Some p1 -> pool_run p (evs1 ++ evs2) = pool_run p1 evs2.
Proof.
  revert p. induction evs1 as [|ev evs IH]; simpl; intros p Hr; [by injection Hr as <-|].
  destruct (pool_step p ev); [auto|done].
Qed.

Lemma drain_dispatching ds : forall p,
  p_cancelled p = true -> p_phase p = Dispatching ds ->
  exists evs p', Forall only_drains evs /\ pool_run p evs = Some p' /\
    p_phase p' = Top /\ p_cancelled p' = true.
Proof.
  induction ds as [|d ds IH]; intros p Hc Hph.
  - exists [LoopTurn], (with_phase Top p). split; [by repeat constructor|]. simpl. by rewrite Hph.
  - destruct (IH (with_phase (Dispatching ds) (start_job d p))) as (evs & p' & He & Hr & Hx); try done.
    exists (LoopTurn :: evs), p'. split; [by constructor|]. simpl. by rewrite Hph.
Qed.

Lemma drain_top p :
  p_cancelled p = true -> p_phase p = Top ->
  exists evs p', Forall only_drains evs /\ pool_run p evs = Some p' /\ p_phase p' = Exited /\ p_running p' = [].
Proof.
  intros Hc Hph. destruct (drain_running (with_phase Draining p)) as (evs & p' & He & Hr & Hx); try done.
  exists (LoopTurn :: evs), p'. split; [by constructor|]. simpl. rewrite Hph. unfold loop_top. by rewrite Hc.
Qed.

(** Drain. Once the fetch context is cancelled, no fetch is ever issued
    again: from a state in which none is pending, no run reaches one. And the
    pool always can finish: wherever the loop is (a pending fetch apart), the
    turns of the loop and the return of the jobs already claimed are enough
    for [Run] to return, with nothing left running and no fetch needed. *)
Theorem Pool_drains (p : Pool) :
  p_cancelled p = true -> (forall n, p_phase p <> Fetching n) ->
  (forall evs p', pool_run p evs = Some p' -> forall n, p_phase p' <> Fetching n) /\
  (p_phase p <> Exited ->
   exists evs p', Forall only_drains evs /\ pool_run p evs = Some p' /\
     p_phase p' = Exited /\ p_running p' = []).
Proof.
  intros Hc Hph. split.
  - intros evs. revert p Hc Hph. induction evs as [|ev evs IH]; simpl; intros p Hc Hph p' Hr n.
    { injection Hr as <-. apply Hph. }
    destruct (pool_step p ev) as [p1|] eqn:Hs; [|done].
    assert (H1 : p_cancelled p1 = true /\ forall n, p_phase p1 <> Fetching n).
    { destruct ev as [|ds [e|]| | |i|k|v|]; simpl in Hs; try (by simplify_eq);
        try (repeat case_match; simplify_eq; by split);
        destruct (p_phase p) as [|k| |[]| |] eqn:Hp; try done; try (by destruct (Hph k));
        repeat case_match; simplify_eq; unfold loop_top; rewrite ?Hc; done. }
    destruct H1 as [H1 H2]. by eapply IH.
  - intros Hne. destruct (p_phase p) as [|n|b|ds| |] eqn:Hp; try done.
    + by apply drain_top.
    + by destruct (Hph n).
    + destruct (drain_top (with_phase Top p)) as (evs & p' & He & Hr & Hx); try done.
      exists (LoopTurn :: evs), p'. split; [by constructor|]. simpl. by rewrite Hp, Hc.
    + destruct (drain_dispatching ds p Hc Hp) as (e1 & p1 & He1 & Hr1 & Ht & Hc1).
      destruct (drain_top p1 Hc1 Ht) as (e2 & p2 & He2 & Hr2 & Hx).
      exists (e1 ++ e2), p2. split; [by apply Forall_app|]. by rewrite (pool_run_app _ _ _ _ Hr1).
    + by apply drain_running.
Qed.

(** ** Witnesses *)

Definition demo_pool_delivery (id : string) : Delivery :=
  {| del_Env := demo_env id; del_EntryID := id; del_Priority := PriorityHigh |}.

(** Two jobs on two slots, one finishes, the context is cancelled, the pool
    drains. *)
Definition demo_pool_evs : list pool_event :=
  [LoopTurn; FetchReturned [demo_pool_delivery "a"; demo_pool_delivery "b"] None; LoopTurn;
   LoopTurn; LoopTurn; LoopTurn; JobDone 0; CompletionSeen; CancelFetch; LoopTurn; JobDone 0; LoopTurn].

Lemma Pool_bounded_witness :
  exists p, pool_run (NewPool 2 8) (take 5 demo_pool_evs) = Some p /\ p_active p = 2 /\
    p_active p + waiting 1 p <= 2.
Proof.
  eexists. split; [vm_compute; reflexivity|]. split; [reflexivity|].
  apply (Pool_bounded 1 2 2 8 (take 5 demo_pool_evs)); [lia|lia|lia|lia| |vm_compute; reflexivity].
  simpl. split_and!; try done; lia.
Defined.

Lemma Pool_runs_each_once_witness :
  exists p, pool_run (NewPool 2 8) demo_pool_evs = Some p /\ p_phase p = Exited /\ p_processed p = 2 /\
    map del_EntryID (completed (NewPool 2 8) demo_pool_evs) = ["a"; "b"]%string /\
    fetched demo_pool_evs ≡ₚ dropped demo_pool_evs ++ completed (NewPool 2 8) demo_pool_evs.
Proof.
  eexists. split; [vm_compute; reflexivity|]. do 3 (split; [vm_compute; reflexivity|]).
  edestruct (Pool_runs_each_once 2 8 demo_pool_evs) as (_ & _ & H);
    [vm_compute; reflexivity|]. apply H. reflexivity.
Defined.

Lemma Pool_drains_witness :
  exists evs p, Forall only_drains evs /\
    pool_run (cancel_fetch (start_job (demo_pool_delivery "a") (NewPool 1 1))) evs = Some p /\
    p_phase p = Exited /\ p_running p = [].
Proof.
  destruct (Pool_drains (cancel_fetch (start_job (demo_pool_delivery "a") (NewPool 1 1)))) as [_ H];
    [reflexivity|intros n; simpl; discriminate|]. apply H. simpl. discriminate.
Defined.

(** A [Queue.Fetch] that blocks can answer three times what it was asked for (see
    [Queue.blocking_fetch_overshoots]): asked for one delivery it can return one
    per priority, and the pool then runs three jobs on one slot. *)
Example overshooting_fetch_exceeds_target :
  exists p, pool_run (NewPool 1 8)
    [LoopTurn; FetchReturned (map demo_pool_delivery ["a"; "b"; "c"]%string) None;
     LoopTurn; LoopTurn; LoopTurn] = Some p /\ p_target p = 1 /\ p_active p = 3.
Proof. eexists. split; [vm_compute; reflexivity|]. by split. Qed.

(** A fetch that fails at its second priority returns what it claimed at the
    first, with the error; the loop never looks at it, and the entry stays pending
    under this consumer until a reaper takes it. *)
Example deliveries_dropped_with_error :
  exists p, pool_run (NewPool 2 8)
    [LoopTurn; FetchReturned [demo_pool_delivery "a"] (Some (EMsg "queue: fetch default: i/o timeout")); TimerFired] = Some p /\
    p_running p = [] /\ to_start p = [] /\ p_processed p = 0.
Proof. eexists. split; [vm_compute; reflexivity|]. by split_and!. Qed.
