(* ===== verification/Metrics.v ===== *)
(** * Metrics: the Prometheus series

    Models [internal/metrics/metrics.go]: the series a process registers, the
    observer that the runner tells what happened to a delivery, the gauges over
    the pool and the collector that reads the queue depths when it is scraped.
    The Prometheus client library keeps the numbers; what the code relies on is
    the interface [Prometheus]. *)

From Stdlib Require Import QArith.
From S2P Require Import Prelude Errors Job Retry Database Rows Redis Effects Rely Store.
From S2P Require Import Batch Queue Handler Runner Pool.
Local Open Scope string_scope.
Local Open Scope list_scope.
Local Open Scope Z_scope.
Local Open Scope prog_scope.

(** ** The client library *)

(** A child of a vector: its name and the values of its labels. *)
Record series := { se_Name : string; se_Labels : list string }.
#[export] Instance series_eq_dec : EqDecision series.
Proof. solve_decision. Defined.

(** Counters count and histograms keep what they observed; [Inc] and [Observe]
    touch one child. *)
Class Prometheus (P : Type) := {
  Inc : series -> P -> P;
  Observe : series -> Duration -> P -> P;
  counter : series -> P -> Z;
  observed : series -> P -> list Duration;
  counter_Inc s s' p : counter s (Inc s' p) = counter s p + (if bool_decide (s = s') then 1 else 0);
  counter_Observe s s' x p : counter s (Observe s' x p) = counter s p;
  observed_Inc s s' p : observed s (Inc s' p) = observed s p;
  observed_Observe s s' x p :
    observed s (Observe s' x p) = observed s p ++ (if bool_decide (s = s') then [x] else [])
}.

(** ** The series *)

Record desc := {
  de_Name : string; de_Help : string; de_Labels : list string; de_ConstLabels : list (string * string)
}.

(** A registry refuses a second collector of the same name and constant labels;
    [MustRegister] panics then ([None]). *)
Definition same_desc (a b : desc) : bool :=
  bool_decide (de_Name a = de_Name b) && bool_decide (de_ConstLabels a = de_ConstLabels b).
Fixpoint MustRegister (ds reg : list desc) : option (list desc) :=
  match ds with
  | [] => Some reg
  | d :: ds' => if existsb (same_desc d) reg then None else MustRegister ds' (reg ++ [d])
  end.

Definition vec (name help : string) (labels : list string) : desc :=
  {| de_Name := name; de_Help := help; de_Labels := labels; de_ConstLabels := [] |}.

Definition JobsSubmitted_desc := vec "calligraphy_jobs_submitted_total" "Jobs accepted by the API, by type and queue." ["type"; "queue"].
Definition JobsCompleted_desc := vec "calligraphy_jobs_completed_total" "Jobs that reached COMPLETED." ["type"].
Definition JobsFailed_desc := vec "calligraphy_jobs_failed_total" "Attempts that ended in a permanent (non-retryable) failure." ["type"].
Definition JobsRetried_desc := vec "calligraphy_jobs_retried_total" "Attempts that ended in a retry being scheduled." ["type"].
Definition JobsDeadLettered_desc := vec "calligraphy_jobs_dead_lettered_total" "Jobs parked in the DLQ after exhausting attempts." ["type"].
Definition JobsCancelled_desc := vec "calligraphy_jobs_cancelled_total" "Jobs cancelled cooperatively mid-run." ["type"].
Definition ExecDuration_desc := vec "calligraphy_job_duration_seconds" "Handler execution time (excludes queue wait)." ["type"].
Definition E2EDuration_desc := vec "calligraphy_job_e2e_duration_seconds" "Enqueue-to-completion time (includes queue wait)." ["type"].
Definition ClaimsSkipped_desc := vec "calligraphy_claims_skipped_total" "Deliveries that lost claim arbitration (duplicate/stale) and were acked away." [].
Definition WritesFenced_desc := vec "calligraphy_writes_fenced_total" "Terminal writes rejected by the lease-epoch fence." [].

(** [New]: what it registers besides the collectors of the library. *)
Definition New_descs : list desc :=
  [JobsSubmitted_desc; JobsCompleted_desc; JobsFailed_desc; JobsRetried_desc; JobsDeadLettered_desc;
   JobsCancelled_desc; ExecDuration_desc; E2EDuration_desc; ClaimsSkipped_desc; WritesFenced_desc].
(** [RegisterWorkerGauges]. *)
Definition worker_gauges (workerID : string) : list desc :=
  map (fun x => {| de_Name := x.1; de_Help := x.2; de_Labels := []; de_ConstLabels := [("worker", workerID)] |})
    [("calligraphy_worker_active_jobs", "Jobs executing right now.");
     ("calligraphy_worker_target_concurrency", "Current concurrency target.");
     ("calligraphy_worker_utilization", "active / target, 0..1.");
     ("calligraphy_worker_processed_total", "Deliveries finished by this worker.")].
(** [NewDepthCollector] and [Describe]. *)
Definition descReady : desc :=
  {| de_Name := "calligraphy_queue_depth"; de_Help := "Entries ready to claim.";
     de_Labels := ["queue"; "priority"]; de_ConstLabels := [("state", "ready")] |}.
Definition descDelayed := vec "calligraphy_queue_delayed_depth" "Envelopes waiting on backoff/schedule." ["queue"; "priority"].
Definition descInflight := vec "calligraphy_queue_inflight" "Claimed, unacked entries." ["queue"].
Definition descDLQ := vec "calligraphy_queue_dlq_depth" "Entries in the DLQ log stream." ["queue"].
Definition Describe : list desc := [descReady; descDelayed; descInflight; descDLQ].

(** What the API and a worker register, on top of [library], the collectors of
    the Go runtime and of the process. *)
Definition api_registry (library : list desc) : option (list desc) :=
  reg ← MustRegister New_descs library; MustRegister Describe reg.
Definition worker_registry (workerID : string) (library : list desc) : option (list desc) :=
  reg ← MustRegister New_descs library; MustRegister (worker_gauges workerID) reg.

(** ** The pool's gauges, computed at the scrape *)

Class PoolStats (S : Type) := { Active : S -> Z; Target : S -> Z; Processed : S -> Z }.
#[export] Instance Pool_stats : PoolStats Pool :=
  {| Active := p_active; Target := p_target; Processed := p_processed |}.

Section gauges.
Context {S : Type} `{!PoolStats S}.
Definition utilization (p : S) : Q :=
  if Target p =? 0 then 0%Q else (inject_Z (Active p) / inject_Z (Target p))%Q.
(** The samples, in the order of [worker_gauges]. *)
Definition gauge_values (p : S) : list Q :=
  [inject_Z (Active p); inject_Z (Target p); utilization p; inject_Z (Processed p)].
End gauges.

(** ** The observer *)

Section observer.
Context {P : Type} `{!Prometheus P}.

Definition child (d : desc) (labels : list string) : series :=
  {| se_Name := de_Name d; se_Labels := labels |}.

Definition Observer (o : obs_event) (p : P) : P :=
  match o with
  | JobStarted _ => p
  | JobCompleted ty exec e2e =>
      Observe (child E2EDuration_desc [ty]) e2e
        (Observe (child ExecDuration_desc [ty]) exec (Inc (child JobsCompleted_desc [ty]) p))
  | JobFailed ty => Inc (child JobsFailed_desc [ty]) p
  | JobRetried ty => Inc (child JobsRetried_desc [ty]) p
  | JobDeadLettered ty => Inc (child JobsDeadLettered_desc [ty]) p
  | JobCancelled ty => Inc (child JobsCancelled_desc [ty]) p
  | ClaimSkipped => Inc (child ClaimsSkipped_desc []) p
  | WriteFenced => Inc (child WritesFenced_desc []) p
  | JobsSubmitted ty queue => Inc (child JobsSubmitted_desc [ty; queue]) p
  end.

(** The registry after the observer was told [os], in order. *)
Definition told (os : list obs_event) (p : P) : P := foldl (fun p o => Observer o p) p os.
End observer.

(** ** The collector of queue depths *)

Record sample := { sa_Desc : desc; sa_Value : Z; sa_Labels : list string }.

Section collector.
Context `{EnvelopeJSON} (q : queue).

(** Nothing is sent when the depths cannot be read.  (A Go map is visited in any
    order; the order here is that of the priorities.) *)
Definition Collect : prog (list sample) :=
  d <- ReadDepths q ;;
  match d with
  | Err _ => Ret []
  | Ok d =>
      let name := QueueName q in
      Ret (map (fun x => {| sa_Desc := descReady; sa_Value := x.2; sa_Labels := [name; x.1] |}) (Ready d) ++
           map (fun x => {| sa_Desc := descDelayed; sa_Value := x.2; sa_Labels := [name; x.1] |}) (Delayed d) ++
           [{| sa_Desc := descInflight; sa_Value := InFlight d; sa_Labels := [name] |};
            {| sa_Desc := descDLQ; sa_Value := DLQ d; sa_Labels := [name] |}])
  end.
End collector.

(** ** Registration *)

Definition calligraphy_name (d : desc) : bool := String.prefix "calligraphy_" (de_Name d).

Lemma MustRegister_ok ds : forall reg,
  Forall (fun d => existsb (same_desc d) reg = false) ds ->
  (forall i j a b, ds !! i = Some a -> ds !! j = Some b -> same_desc a b = true -> i = j) ->
  MustRegister ds reg = Some (reg ++ ds).
Proof.
  induction ds as [|d ds IH]; intros reg Hnew Huniq; simpl; [by rewrite app_nil_r|].
  apply Forall_cons in Hnew as [-> Hnew]. rewrite IH; [by rewrite <-app_assoc| |].
  - rewrite Forall_forall in *. intros x Hx. rewrite existsb_app, Hnew by done. simpl.
    rewrite orb_false_r. apply not_true_iff_false. intros E.
    apply list_elem_of_lookup_1 in Hx as [i Hi]. discriminate (Huniq (S i) 0%nat x d Hi eq_refl E).
  - intros i j a b Hi Hj E. pose proof (Huniq (S i) (S j) a b Hi Hj E). lia.
Qed.

(** Decided over the list. *)
Definition distinct_descs (ds : list desc) : bool :=
  let n := length ds in
  forallb (fun i => forallb (fun j =>
    match ds !! i, ds !! j with
    | Some a, Some b => bool_decide (i = j) || negb (same_desc a b)
    | _, _ => true
    end) (seq 0 n)) (seq 0 n).
Lemma distinct_descs_spec ds i j a b :
  distinct_descs ds = true -> ds !! i = Some a -> ds !! j = Some b -> same_desc a b = true -> i = j.
Proof.
  intros Hd Hi Hj E. unfold distinct_descs in Hd. rewrite forallb_forall in Hd. specialize (Hd i).
  assert (Hin : forall k x, ds !! k = Some x -> In k (seq 0 (length ds))).
  { intros k x Hk. apply in_seq. apply lookup_lt_Some in Hk. lia. }
  specialize (Hd (Hin _ _ Hi)). rewrite forallb_forall in Hd. specialize (Hd j (Hin _ _ Hj)).
  rewrite Hi, Hj, E, orb_false_r in Hd. by apply bool_decide_eq_true in Hd.
Qed.

(** Registration does not panic: the names are distinct, and distinct from those
    of the library's own collectors, none of which begins with [calligraphy_]. *)
Theorem registers (workerID : string) (library : list desc) :
  Forall (fun d => calligraphy_name d = false) library ->
  api_registry library = Some (library ++ New_descs ++ Describe) /\
  worker_registry workerID library = Some (library ++ New_descs ++ worker_gauges workerID).
Proof.
  intros Hlib.
  assert (Hdistinct : forall ds, distinct_descs (New_descs ++ ds) = true -> Forall (fun d => calligraphy_name d = true) ds ->
    (reg ← MustRegister New_descs library; MustRegister ds reg) = Some (library ++ New_descs ++ ds)).
  { intros ds Hd Hnames. pose proof (fun i j a b => distinct_descs_spec _ i j a b Hd) as Hu.
    assert (Hfar : forall d, calligraphy_name d = true -> existsb (same_desc d) library = false).
    { intros d Hn. apply not_true_iff_false. intros (x & Hx & E)%existsb_exists.
      unfold same_desc in E. apply andb_true_iff in E as [E%bool_decide_eq_true _].
      rewrite Forall_forall in Hlib. apply list_elem_of_In, Hlib in Hx. unfold calligraphy_name in *. congruence. }
    rewrite (MustRegister_ok New_descs library).
    - simpl. rewrite (MustRegister_ok ds); [by rewrite <-app_assoc| |].
      + rewrite Forall_forall in *. intros d Hin. rewrite existsb_app, Hfar, orb_false_l by auto.
        apply not_true_iff_false. intros (x & Hx & E)%existsb_exists.
        apply list_elem_of_In, list_elem_of_lookup_1 in Hx as [j Hj]. apply list_elem_of_lookup_1 in Hin as [i Hi].
        pose proof (lookup_lt_Some _ _ _ Hj) as Hlt.
        assert (length New_descs + i = j)%nat; [|lia]. eapply Hu; [| |exact E].
        * rewrite lookup_app_r by lia. replace (_ + i - _)%nat with i by lia. exact Hi.
        * by rewrite lookup_app_l.
      + intros i j a b Hi Hj E. assert (length New_descs + i = length New_descs + j)%nat; [|lia].
        eapply Hu; [| |exact E]; rewrite lookup_app_r by lia.
        * replace (_ + i - _)%nat with i by lia. exact Hi.
        * replace (_ + j - _)%nat with j by lia. exact Hj.
    - apply Forall_forall. intros d Hin. apply Hfar. revert d Hin. apply Forall_forall.
      repeat constructor.
    - intros i j a b Hi Hj. apply Hu; by rewrite lookup_app_l by (by eapply lookup_lt_Some). }
  split; apply Hdistinct; try (vm_compute; reflexivity); try (repeat constructor).
Qed.

(** ** What one delivery tells the observer *)

Definition heard {A} (c : cmd A) : list obs_event := match c with Notify o => [o] | _ => [] end.

(** On every path, whatever the answers, the events told so far and the result
    are as [Q] says. *)
Fixpoint emits {A} (p : prog A) (os : list obs_event) (Q : A -> list obs_event -> Prop) : Prop :=
  match p with
  | Ret a => Q a os
  | Vis c k => forall b, emits (k b) (os ++ heard c) Q
  end.

Lemma emits_bind {A B} (p : prog A) (f : A -> prog B) Q : forall os,
  emits p os (fun a os' => emits (f a) os' Q) -> emits (free_bind p f) os Q.
Proof. induction p as [a|X c k IH]; intros os; simpl; [done|]. intros Hp b. by apply IH. Qed.

Lemma emits_mono {A} (p : prog A) (Q Q' : A -> list obs_event -> Prop) : forall os,
  (forall a os', Q a os' -> Q' a os') -> emits p os Q -> emits p os Q'.
Proof. induction p as [a|X c k IH]; intros os HQ; simpl; [auto|]. intros Hp b. eauto. Qed.

Definition silent : forall B, cmd B -> Prop := fun B c => heard c = [].
Lemma emits_silent {A} (p : prog A) Q : forall os, only silent p -> (forall a, Q a os) -> emits p os Q.
Proof.
  induction p as [a|X c k IH]; intros os; simpl; [auto|]. intros [Hc Hk] HQ b. unfold silent in Hc.
  rewrite Hc, app_nil_r. by apply IH.
Qed.
#[local] Transparent call pgExec rdb time_Now.
Lemma emits_notify o Q os : Q tt (os ++ [o]) -> emits (call (Notify o)) os Q.
Proof. intros HQ []. exact HQ. Qed.
Lemma emits_now (Q : Time -> list obs_event -> Prop) os : (forall t, Q t os) -> emits time_Now os Q.
Proof. intros HQ t. simpl. rewrite app_nil_r. apply HQ. Qed.
#[local] Opaque call pgExec rdb time_Now.

(** A run alone, whatever fails, tells what the program emits. *)
Lemma emits_run {R} `{!RedisServer R} {A} (p : prog A) Q : forall os ts (w w' : World R) a,
  emits p os Q -> run p ts w = (Some a, w') ->
  exists os', w_obs w' = w_obs w ++ os' /\ Q a (os ++ os').
Proof.
  unfold run, run_env. induction p as [a0|X c k IH]; intros os ts w w' a Hp; simpl.
  - intros [= -> <-]. exists []. by rewrite !app_nil_r.
  - destruct ts as [|t ts]; [done|]. simpl. destruct (step_call t c w) as [b w1] eqn:Hc.
    assert (Hobs : w_obs w1 = w_obs w ++ heard c).
    { clear -Hc. destruct c; simpl in *; rewrite ?app_nil_r;
        try (unfold with_fate in Hc; repeat case_match; by simplify_eq); by simplify_eq. }
    specialize (Hp b). destruct (steps (k b) (map alone ts) w1) as [[[a1 ts1]|] w2] eqn:Hs; [|done].
    simpl. intros [= -> <-].
    destruct (IH b _ ts w1 w2 a Hp) as (os' & E & HQ); [by rewrite Hs|].
    exists (heard c ++ os'). by rewrite E, Hobs, <-app_assoc, (app_assoc os).
Qed.

#[export] Hint Extern 1 (silent _ _) => reflexivity : only.

Section delivery.
Context `{EnvelopeJSON} (rec : Recorder) (q : queue) (reg : Registry) (r : Runner) (d : Delivery).
#[local] Existing Instance rec.
Abbreviation ty := (env_Type (del_Env d)).

(** The recorder tells the observer nothing itself (neither recorder does: the one
    calls the store, the other waits for the batcher). *)
Context (Hrec : forall id e p, rec_call id e p -> only silent p).

Lemma silent_ack : only silent (ack q d).
Proof. unfold ack, Ack. only_calls. Qed.
Lemma silent_beat claim ttl : only silent (beat q r d claim ttl).
Proof. unfold beat, Heartbeat, ExtendLease, IsCancelRequested. only_calls. Qed.
#[local] Hint Resolve silent_ack silent_beat : only.
Lemma silent_exec_events claim ttl evs : forall st, only silent (exec_events q r d claim ttl evs st).
Proof. induction evs as [|[|e] evs IH]; intros st; only_calls. Qed.
#[local] Hint Resolve silent_exec_events : only.
Lemma silent_execute claim x sch : only silent (execute q reg r d claim x sch).
Proof. unfold execute. only_calls. Qed.

(** The outcome that is told at the end, at most one of the five. *)
Definition is_outcome (o : obs_event) : Prop :=
  o ∈ [JobFailed ty; JobRetried ty; JobDeadLettered ty; JobCancelled ty] \/
  exists exec e2e, o = JobCompleted ty exec e2e.

(** What is told about a delivery that was claimed, after its start. *)
Definition ending (os : list obs_event) : Prop :=
  os = [] \/ run_HasObs r = true /\ exists o, is_outcome o /\ (os = [o] \/ os = [WriteFenced; o]).
(** ... and about any delivery; without an observer, nothing. *)
Definition report (os : list obs_event) : Prop :=
  os = [] \/ os = [ClaimSkipped] \/ exists os', os = JobStarted ty :: os' /\ ending os'.

Lemma emits_observe o Q os :
  Q tt os -> Q tt (os ++ [o]) -> emits (observe r o) os Q.
Proof. intros H0 H1. unfold observe. destruct (run_HasObs r); [by apply emits_notify|exact H0]. Qed.

Abbreviation adds P os := (fun _ os' => exists es, os' = os ++ es /\ P es).

Lemma emits_settle a o os : is_outcome o -> emits (settle q r d a (Some o)) os (adds ending os).
Proof.
  intros Ho. unfold settle. assert (Hnone : adds ending os tt os) by (exists []; rewrite app_nil_r; split; [done|by left]).
  destruct a as [b|e]; [|exact Hnone]. apply emits_bind. unfold observe. destruct (run_HasObs r) eqn:Hobs.
  - assert (Hend : forall os1, (os1 = os \/ os1 = os ++ [WriteFenced]) ->
      emits (ack q d ;;; call (Notify o)) os1 (adds ending os)).
    { intros os1 H1. apply emits_bind, emits_silent; [apply silent_ack|]. intros _. apply emits_notify.
      destruct H1 as [-> | ->].
      - exists [o]. split; [done|]. right. eauto.
      - exists [WriteFenced; o]. rewrite <-app_assoc. split; [done|]. right. eauto. }
    destruct b; [apply Hend; auto|]. apply emits_notify. apply Hend. auto.
  - destruct b; apply emits_bind, emits_silent; try apply silent_ack; done.
Qed.

Lemma emits_recorded p o (handoff : result error bool -> prog unit) os :
  (exists id e, rec_call id e p) -> is_outcome o -> (forall a, only silent (handoff a)) ->
  emits (a <- p ;; handoff a ;;; settle q r d a (Some o)) os (adds ending os).
Proof.
  intros (id & e & Hp) Ho Hh. apply emits_bind, emits_silent; [by eapply Hrec|]. intros a.
  apply emits_bind, emits_silent; [apply Hh|]. intros _. by apply emits_settle.
Qed.

Lemma emits_finish claim res err cause t os :
  emits (finish rec q r d claim res err cause t) os (adds ending os).
Proof.
  assert (Hnone : adds ending os tt os) by (exists []; rewrite app_nil_r; split; [done|by left]).
  assert (Hcall : forall id e p, rec_call id e p -> exists id e, rec_call id e p) by eauto.
  unfold finish. apply emits_bind, emits_now. intros now.
  pose proof (finish_outcome_cases err cause) as Hcases. set (oc := finish_outcome err cause) in *.
  destruct (bool_decide (oc = OutcomeCompleted)) eqn:E1.
  { apply (emits_recorded _ _ (fun _ => Ret tt)); [eapply Hcall; constructor| |done]. right. eauto. }
  destruct (bool_decide (oc = OutcomeFailed)) eqn:E2.
  { apply (emits_recorded _ _ (fun _ => Ret tt)); [eapply Hcall; constructor| |done]. left. set_solver. }
  destruct (bool_decide (oc = OutcomeCancelled)) eqn:E3.
  { apply (emits_recorded _ _ (fun _ => Ret tt)); [eapply Hcall; constructor| |done]. left. set_solver. }
  destruct (bool_decide (oc = OutcomeLeaseExpired)) eqn:E4.
  { apply emits_silent; [unfold RecordAttempt; only_calls|done]. }
  destruct (bool_decide (oc ∈ _)) eqn:E5.
  - destruct (_ <=? _).
    { apply (emits_recorded _ _ (fun a => match a with Ok true => _ <- Queue.DeadLetter q (del_Env d) _ ;; Ret tt | _ => Ret tt end));
        [eapply Hcall; constructor|left; set_solver|]. intros a. unfold Queue.DeadLetter. only_calls. }
    apply emits_bind, emits_silent; [only_calls|]. intros delay.
    apply (emits_recorded _ _ (fun a => match a with Ok true => _ <- Queue.ScheduleRetry q _ _ ;; Ret tt | _ => Ret tt end));
      [eapply Hcall; constructor|left; set_solver|]. intros a. unfold Queue.ScheduleRetry, add_delayed. only_calls.
  - exfalso. reflect_bools. apply E5. set_solver.
Qed.

Lemma emits_Run sch : emits (Run rec q reg r d sch) [] (fun _ os => report os).
Proof.
  unfold Run. apply emits_bind, emits_silent; [unfold ClaimJob, QueryRow; only_calls|].
  intros [[claim|]|e]; simpl; [|apply emits_bind, emits_observe|by left].
  - assert (Hfin : forall res err cause t os, os = (if run_HasObs r then [JobStarted ty] else []) ->
      emits (finish rec q r d claim res err cause t) os (fun _ os => report os)).
    { intros res err cause t os ->. eapply emits_mono; [|apply emits_finish]. intros u os (es & -> & He).
      destruct (run_HasObs r) eqn:Hobs; [right; right; by exists es|].
      destruct He as [->|[? _]]; [by left|congruence]. }
    assert (Hrest : forall os, os = (if run_HasObs r then [JobStarted ty] else []) ->
      emits (match Get reg ty with
             | None => finish rec q r d claim EmptyString ErrNoHandler None (cl_StartedAt claim)
             | Some x => ret <- execute q reg r d claim x sch ;;
                         finish rec q r d claim ret.1.1 ret.1.2 ret.2 (cl_StartedAt claim)
             end) os (fun _ os => report os)).
    { intros os Hos. destruct (Get reg ty) as [x|]; [|by apply Hfin].
      apply emits_bind, emits_silent; [apply silent_execute|]. intros ret. by apply Hfin. }
    apply emits_bind. unfold observe. destruct (run_HasObs r); [apply emits_notify|]; by apply Hrest.
  - apply emits_silent; [apply silent_ack|]. intros _. by left.
  - apply emits_silent; [apply silent_ack|]. intros _. right. by left.
Qed.
End delivery.

Lemma silent_SyncRecorder id e p : @rec_call SyncRecorder id e p -> only silent p.
Proof.
  destruct 1; unfold rec_Complete, rec_Fail, rec_Retry, rec_DeadLetter, rec_Cancelled; simpl;
    unfold sync_after, sync_record, CompleteJob, FailJob, Store.ScheduleRetry, DeadLetterJob, CancelRunning,
      with_event, addEvent, RecordAttempt; only_calls.
Qed.

(** ** One delivery, one count *)

Section counting.
Context {P : Type} `{!Prometheus P}.

(** The five outcome counters of a type; deliveries that lost the claim. *)
Definition outcomes (ty : string) (p : P) : Z :=
  counter (child JobsCompleted_desc [ty]) p + counter (child JobsFailed_desc [ty]) p +
  counter (child JobsRetried_desc [ty]) p + counter (child JobsDeadLettered_desc [ty]) p +
  counter (child JobsCancelled_desc [ty]) p.
Definition skips (p : P) : Z := counter (child ClaimsSkipped_desc []) p.
Definition fenced (p : P) : Z := counter (child WritesFenced_desc []) p.

(** What the series may have done between [p] and [p']. *)
Record counted_once (ty : string) (p p' : P) : Prop := {
  co_once : 0 <= outcomes ty p' - outcomes ty p /\ 0 <= skips p' - skips p /\
    outcomes ty p' - outcomes ty p + (skips p' - skips p) <= 1;
  co_fenced : 0 <= fenced p' - fenced p <= 1;
  co_histograms d : d ∈ [ExecDuration_desc; E2EDuration_desc] ->
    Z.of_nat (length (observed (child d [ty]) p')) - Z.of_nat (length (observed (child d [ty]) p)) =
    counter (child JobsCompleted_desc [ty]) p' - counter (child JobsCompleted_desc [ty]) p;
  co_others s : se_Labels s <> [ty] -> se_Labels s <> [] ->
    counter s p' = counter s p /\ observed s p' = observed s p
}.

Lemma told_app os os' (p : P) : told (os ++ os') p = told os' (told os p).
Proof. apply foldl_app. Qed.

(** One event at a time. *)
Lemma Observer_counter s o (p : P) : counter s (Observer o p) = counter s p +
  match o with
  | JobStarted _ => 0
  | JobCompleted ty _ _ => if bool_decide (s = child JobsCompleted_desc [ty]) then 1 else 0
  | JobFailed ty => if bool_decide (s = child JobsFailed_desc [ty]) then 1 else 0
  | JobRetried ty => if bool_decide (s = child JobsRetried_desc [ty]) then 1 else 0
  | JobDeadLettered ty => if bool_decide (s = child JobsDeadLettered_desc [ty]) then 1 else 0
  | JobCancelled ty => if bool_decide (s = child JobsCancelled_desc [ty]) then 1 else 0
  | ClaimSkipped => if bool_decide (s = child ClaimsSkipped_desc []) then 1 else 0
  | WriteFenced => if bool_decide (s = child WritesFenced_desc []) then 1 else 0
  | JobsSubmitted ty queue => if bool_decide (s = child JobsSubmitted_desc [ty; queue]) then 1 else 0
  end.
Proof. destruct o; simpl; rewrite ?counter_Observe, ?counter_Inc; lia. Qed.

Lemma Observer_observed s o (p : P) : observed s (Observer o p) = observed s p ++
  match o with
  | JobCompleted ty exec e2e =>
      (if bool_decide (s = child ExecDuration_desc [ty]) then [exec] else []) ++
      (if bool_decide (s = child E2EDuration_desc [ty]) then [e2e] else [])
  | _ => []
  end.
Proof. destruct o; simpl; rewrite ?observed_Observe, ?observed_Inc, ?app_nil_r, <- ?app_assoc; done. Qed.

Definition counts_as (o : obs_event) (ty : string) : Z :=
  match o with
  | JobCompleted t _ _ | JobFailed t | JobRetried t | JobDeadLettered t | JobCancelled t =>
      if bool_decide (ty = t) then 1 else 0
  | _ => 0
  end.

Ltac decide_series := unfold child; repeat (case_bool_decide; simplify_eq); try lia; try done.

Lemma outcomes_Observer ty o (p : P) : outcomes ty (Observer o p) = outcomes ty p + counts_as o ty.
Proof. unfold outcomes. rewrite !Observer_counter. destruct o; simpl; decide_series. Qed.
Lemma skips_Observer o (p : P) : skips (Observer o p) = skips p + (if o is ClaimSkipped then 1 else 0).
Proof. unfold skips. rewrite !Observer_counter. destruct o; simpl; decide_series. Qed.
Lemma fenced_Observer o (p : P) : fenced (Observer o p) = fenced p + (if o is WriteFenced then 1 else 0).
Proof. unfold fenced. rewrite !Observer_counter. destruct o; simpl; decide_series. Qed.
Lemma histogram_Observer ty d o (p : P) : d ∈ [ExecDuration_desc; E2EDuration_desc] ->
  Z.of_nat (length (observed (child d [ty]) (Observer o p))) - counter (child JobsCompleted_desc [ty]) (Observer o p) =
  Z.of_nat (length (observed (child d [ty]) p)) - counter (child JobsCompleted_desc [ty]) p.
Proof.
  intros Hd. rewrite Observer_counter, Observer_observed, length_app.
  repeat (apply elem_of_cons in Hd as [->|Hd]); [..|by apply elem_of_nil in Hd];
    destruct o; simpl; decide_series; simpl; lia.
Qed.
(** The events of a delivery of this type. *)
Definition about (ty : string) (o : obs_event) : Prop :=
  match o with
  | JobCompleted t _ _ | JobFailed t | JobRetried t | JobDeadLettered t | JobCancelled t | JobStarted t => t = ty
  | ClaimSkipped | WriteFenced => True
  | JobsSubmitted _ _ => False
  end.
Lemma others_told ty os : forall (p : P) s, Forall (about ty) os ->
  se_Labels s <> [ty] -> se_Labels s <> [] ->
  counter s (told os p) = counter s p /\ observed s (told os p) = observed s p.
Proof.
  induction os as [|o os IH]; intros p s Hos H1 H2; [done|]. apply Forall_cons in Hos as [Ho Hos].
  change (told (o :: os) p) with (told os (Observer o p)). destruct (IH (Observer o p) s Hos H1 H2) as [-> ->].
  rewrite Observer_counter, Observer_observed.
  assert (Hs : forall d, s <> child d [ty]) by (by intros d ->).
  assert (Hs' : forall d, s <> child d []) by (by intros d ->).
  destruct o; simpl in Ho; subst; rewrite ?(bool_decide_eq_false_2 _ (Hs _)), ?(bool_decide_eq_false_2 _ (Hs' _)), ?app_nil_r;
    done || (split; [lia|done]).
Qed.

(** Sums over the events told. *)
Definition total (f : obs_event -> Z) (os : list obs_event) : Z := foldr (fun o n => f o + n) 0 os.
Definition is_skip (o : obs_event) : Z := if o is ClaimSkipped then 1 else 0.
Definition is_fence (o : obs_event) : Z := if o is WriteFenced then 1 else 0.

Lemma sums_told ty os : forall p : P,
  outcomes ty (told os p) = outcomes ty p + total (fun o => counts_as o ty) os /\
  skips (told os p) = skips p + total is_skip os /\
  fenced (told os p) = fenced p + total is_fence os /\
  forall d, d ∈ [ExecDuration_desc; E2EDuration_desc] ->
    Z.of_nat (length (observed (child d [ty]) (told os p))) - Z.of_nat (length (observed (child d [ty]) p)) =
    counter (child JobsCompleted_desc [ty]) (told os p) - counter (child JobsCompleted_desc [ty]) p.
Proof.
  induction os as [|o os IH]; intros p; [simpl; split_and!; intros; lia|].
  change (told (o :: os) p) with (told os (Observer o p)). destruct (IH (Observer o p)) as (-> & -> & -> & Hh).
  rewrite outcomes_Observer, skips_Observer, fenced_Observer. unfold is_skip, is_fence. simpl. split_and!; [lia..|].
  intros d Hd. pose proof (histogram_Observer ty d o p Hd). specialize (Hh d Hd). lia.
Qed.

Lemma outcome_counts d o : is_outcome d o ->
  about (env_Type (del_Env d)) o /\ counts_as o (env_Type (del_Env d)) = 1 /\ is_skip o = 0 /\ is_fence o = 0.
Proof.
  assert (Hty : forall t : string, (if bool_decide (t = t) then 1 else 0) = 1)
    by (intros t; by rewrite bool_decide_eq_true_2).
  intros [Ho|(exec & e2e & ->)]; [|split_and!; [done|apply Hty|done|done]].
  repeat (apply elem_of_cons in Ho as [->|Ho]); [split_and!; [done|apply Hty|done|done]..|by apply elem_of_nil in Ho].
Qed.

Lemma report_counted d r os (p : P) :
  report r d os -> counted_once (env_Type (del_Env d)) p (told os p).
Proof.
  intros Hr. set (ty := env_Type (del_Env d)). pose proof (sums_told ty os p) as (E1 & E2 & E3 & E4).
  assert (Hos : Forall (about ty) os /\ 0 <= total (fun o => counts_as o ty) os /\ 0 <= total is_skip os /\
    total (fun o => counts_as o ty) os + total is_skip os <= 1 /\ 0 <= total is_fence os <= 1).
  { destruct Hr as [->|[->|(os' & -> & [->|[_ (o & Ho & Hos)]])]].
    - simpl. split; [done|lia].
    - simpl. split; [by repeat constructor|lia].
    - simpl. split; [by repeat constructor|lia].
    - destruct (outcome_counts d o Ho) as (Ha & H1 & H2 & H3). fold ty in Ha, H1.
      destruct Hos as [-> | ->]; simpl; rewrite H1, H2, H3; (split; [by repeat constructor|simpl; lia]). }
  destruct Hos as (Hab & H1 & H2 & H3 & H4). constructor; [lia|lia|exact E4|].
  intros s. by apply others_told.
Qed.

(** C7. One delivery, one count. Whatever the store, the queue and the recorder
    answer, and whatever the handler does, processing a delivery moves at most
    one of the outcome counters of its type or the counter of lost claims, by
    one; the counter of fenced writes by at most one; the two duration
    histograms exactly as often as the counter of completed jobs; and no series
    of another type. *)
Theorem delivery_counted_once `{EnvelopeJSON} (rec : Recorder) (q : queue) (reg : Registry) (r : Runner)
    (d : Delivery) (sch : schedule) :
  (forall id e p, @rec_call rec id e p -> only silent p) ->
  emits (Run rec q reg r d sch) []
    (fun _ os => forall p : P, counted_once (env_Type (del_Env d)) p (told os p)).
Proof.
  intros Hrec. eapply emits_mono; [|by apply emits_Run]. intros u os Hr p. by apply (report_counted d r).
Qed.
End counting.

(** ** A registry, and what it says after a write that was fenced *)

Record registry := { rg_Counters : list series; rg_Observed : list (series * Duration) }.
#[export] Program Instance registry_prometheus : Prometheus registry := {|
  Inc s p := {| rg_Counters := rg_Counters p ++ [s]; rg_Observed := rg_Observed p |};
  Observe s x p := {| rg_Counters := rg_Counters p; rg_Observed := rg_Observed p ++ [(s, x)] |};
  counter s p := Z.of_nat (length (filter (fun s' => s = s') (rg_Counters p)));
  observed s p := (filter (fun x => s = x.1) (rg_Observed p)).*2
|}.
Next Obligation.
  intros s s' p. simpl. rewrite filter_app, length_app, filter_cons, filter_nil. destruct (decide _); simpl;
    [rewrite bool_decide_true by done|rewrite bool_decide_false by done]; lia.
Qed.
Next Obligation. done. Qed.
Next Obligation. done. Qed.
Next Obligation.
  intros s s' x p. simpl. rewrite filter_app, fmap_app, filter_cons, filter_nil. f_equal.
  simpl. destruct (decide _); [by rewrite bool_decide_true|by rewrite bool_decide_false].
Qed.
Definition new_registry : registry := {| rg_Counters := []; rg_Observed := [] |}.

Lemma delivery_counted_once_witness :
  exists w', run (Run (H:=DemoJSON) SyncRecorder demo_queue demo_registry demo_runner demo_delivery demo_schedule)
      (replicate 12 (fine 5)) (demo_world demo_inserted) = (Some tt, w') /\
    counted_once "bench.sleep" new_registry (told (w_obs w') new_registry) /\
    counter (child JobsCompleted_desc ["bench.sleep"]) (told (w_obs w') new_registry) = 1.
Proof.
  pose proof (delivery_counted_once (H:=DemoJSON) (P:=registry) SyncRecorder demo_queue demo_registry demo_runner
    demo_delivery demo_schedule silent_SyncRecorder) as He.
  set (out := run _ _ _). assert (Hrun : out = (Some tt, out.2)) by (vm_compute; reflexivity).
  exists out.2. split; [exact Hrun|]. split; [|vm_compute; reflexivity].
  destruct (emits_run _ _ [] (replicate 12 (fine 5)) (demo_world demo_inserted) out.2 tt He Hrun) as (os & E & Hc).
  cbn [w_obs demo_world app] in E. rewrite E. apply (Hc new_registry).
Defined.

(** A worker whose job is taken from it while the handler runs: its write is
    fenced, and the job is counted as one that reached [COMPLETED] all the same. *)
Definition reaped_meanwhile (w : World redis) : World redis :=
  with_db (exec_stmt Hour (UpdateReap "j1" 0 0) (w_db w)).2 w.
Definition fenced_run : World redis :=
  (run_env (Run (H:=DemoJSON) SyncRecorder demo_queue demo_registry demo_runner demo_delivery demo_schedule)
     (replicate 6 (alone (fine 5)) ++ [(reaped_meanwhile, fine 5)] ++ replicate 12 (alone (fine 5)))
     (demo_world demo_inserted)).2.

Example fenced_write_counts_as_completed :
  (r_status <$> jobs (w_db fenced_run) !! "j1") = Some StatusRetrying /\
  w_obs fenced_run = [JobStarted "bench.sleep"; WriteFenced; JobCompleted "bench.sleep" 0 5] /\
  counter (child JobsCompleted_desc ["bench.sleep"]) (told (w_obs fenced_run) new_registry) = 1.
Proof. by vm_compute. Qed.

(** A pool whose target was lowered while jobs run is used to more than its
    capacity. *)
Example utilization_above_one :
  exists p, pool_run (NewPool 2 2) [LoopTurn; FetchReturned [demo_delivery; demo_delivery] None; LoopTurn; LoopTurn; Resize 1]
    = Some p /\ (1 < utilization p)%Q.
Proof. eexists. split; [vm_compute; reflexivity|]. by vm_compute. Qed.
