(* ===== verification/Scale.v ===== *)
(** * Scale: the autoscaler

    Models [internal/scale/autoscaler.go]: the decision [Next] with its idle
    counter, and the loop that applies it to a pool.  [GrowAt] is a binary64
    number, given as [ga_num / 2^ga_shift]; the comparison of the code is
    carried out with its roundings. *)

From S2P Require Import Prelude Errors Retry.
Local Open Scope list_scope.
Local Open Scope Z_scope.

Record float := { ga_num : Z; ga_shift : Z }.

(** [Config]; the interval is the loop's ticker. *)
Record Config := { Min : Z; Max : Z; Interval : Duration; GrowAt : float; IdleAfter : Z }.

Definition DefaultConfig (min max : Z) : Config :=
  {| Min := min; Max := max; Interval := 3 * Second; GrowAt := {| ga_num := 2; ga_shift := 0 |};
     IdleAfter := 5 |}.

(** [float64(ready) >= GrowAt*float64(target)]. *)
Definition backlogged (cfg : Config) (ready target : Z) : bool :=
  round53 (ga_num (GrowAt cfg) * round53 target) <=? round53 ready * 2 ^ ga_shift (GrowAt cfg).

Definition is_idle (ready active target : Z) : bool := (ready =? 0) && (active <? target).

(** [Next]: the new target and the new idle counter. *)
Definition Next (cfg : Config) (idleTicks : Z) (ready active target : Z) : Z * Z :=
  if target <? Min cfg then (Min cfg, idleTicks)
  else if backlogged cfg ready target then
    (Z.min (target + Z.max 1 (Z.quot target 2)) (Max cfg), 0)
  else if is_idle ready active target then
    if IdleAfter cfg <=? idleTicks + 1 then (Z.max (Min cfg) (target - 1), 0)
    else (target, idleTicks + 1)
  else (target, 0).

(** One interval of the loop: what [Depths] answered and what the pool shows.
    The target that results is what [SetTarget] stores. *)
Record observation := { ob_ready : result error Z; ob_active : Z }.
Record scaler := { sc_target : Z; sc_idle : Z }.

Definition scale_step (cfg : Config) (s : scaler) (o : observation) : scaler :=
  match ob_ready o with
  | Err _ => s
  | Ok ready =>
      let '(next, idle) := Next cfg (sc_idle s) ready (ob_active o) (sc_target s) in
      {| sc_target := if bool_decide (next = sc_target s) then sc_target s else Z.max 1 next;
         sc_idle := idle |}
  end.
Fixpoint scale_run (cfg : Config) (s : scaler) (obs : list observation) : scaler :=
  match obs with [] => s | o :: obs' => scale_run cfg (scale_step cfg s o) obs' end.

Definition sane (cfg : Config) : Prop := 1 <= Min cfg <= Max cfg /\ 1 <= IdleAfter cfg.

(** The four branches. *)
Lemma Next_cases cfg idle ready active target :
  let n := Next cfg idle ready active target in
  (target < Min cfg /\ n = (Min cfg, idle)) \/
  (Min cfg <= target /\ backlogged cfg ready target = true /\
     n = (Z.min (target + Z.max 1 (Z.quot target 2)) (Max cfg), 0)) \/
  (Min cfg <= target /\ is_idle ready active target = true /\ IdleAfter cfg <= idle + 1 /\
     n = (Z.max (Min cfg) (target - 1), 0)) \/
  (Min cfg <= target /\ is_idle ready active target = true /\ idle + 1 < IdleAfter cfg /\
     n = (target, idle + 1)) \/
  (Min cfg <= target /\ n = (target, 0)).
Proof.
  unfold Next. destruct (target <? Min cfg) eqn:?; reflect_bools; [by left|right].
  destruct (backlogged cfg ready target) eqn:?; [by left|right].
  destruct (is_idle ready active target) eqn:?; [|by right; right].
  destruct (IdleAfter cfg <=? idle + 1) eqn:?; reflect_bools; [by left|by right; left].
Qed.

Lemma quot2_nonneg t : 0 <= t -> 0 <= Z.quot t 2 <= t.
Proof. intros. rewrite Z.quot_div_nonneg by lia. pose proof (Z.div_le_upper_bound t 2 t). pose proof (Z.div_pos t 2). lia. Qed.

(** [SetTarget] stores what [Next] decided. *)
Lemma scale_step_spec cfg s o :
  sane cfg ->
  scale_step cfg s o =
    match ob_ready o with
    | Err _ => s
    | Ok ready =>
        let n := Next cfg (sc_idle s) ready (ob_active o) (sc_target s) in
        {| sc_target := n.1; sc_idle := n.2 |}
    end.
Proof.
  intros [Hm _]. unfold scale_step. destruct (ob_ready o) as [ready|e]; [|done].
  pose proof (Next_cases cfg (sc_idle s) ready (ob_active o) (sc_target s)) as Hc. cbv zeta in *.
  destruct (Next _ _ _ _ _) as [next idle]. simpl. f_equal. case_bool_decide as He; [done|].
  pose proof (quot2_nonneg (sc_target s)). naive_solver lia.
Qed.

(** The decision stays in its band and moves the way the policy says. From a
    target inside [Min, Max] the next one is inside again; it grows only under
    backlog, by at least one and at most half (but never past [Max]); it shrinks
    only when the queue is empty, slots are idle and enough idle intervals
    preceded, and then by exactly one. Outside the band it comes back at once
    at the bottom and never moves further out at the top. *)
Theorem Next_band (cfg : Config) (idle ready active target : Z) :
  sane cfg ->
  let '(next, idle') := Next cfg idle ready active target in
  Min cfg <= next <= Z.max target (Max cfg) /\
  (target < next -> target < Min cfg \/
     (backlogged cfg ready target = true /\ next <= target + Z.max 1 (Z.quot target 2))) /\
  (Min cfg <= target < Max cfg -> backlogged cfg ready target = true -> target < next) /\
  (Min cfg <= target <= Max cfg -> next < target ->
     next = target - 1 /\ ready = 0 /\ active < target /\ IdleAfter cfg <= idle + 1 /\ idle' = 0).
Proof.
  intros [Hm _]. pose proof (Next_cases cfg idle ready active target) as Hc. cbv zeta in Hc.
  pose proof (quot2_nonneg target) as Hq. unfold Next in *.
  unfold is_idle in *. destruct (target <? Min cfg) eqn:?; reflect_bools; [split_and!; intros; lia|].
  destruct (backlogged cfg ready target) eqn:Hb; [split_and!; intros; auto; lia|].
  destruct ((ready =? 0) && (active <? target)) eqn:Hi; [|split_and!; intros; auto; lia].
  destruct (IdleAfter cfg <=? idle + 1) eqn:?; reflect_bools; split_and!; intros; try done; lia.
Qed.

(** ** Runs of the loop *)

(** How many observations in a row, up to now, found the pool idle (failed
    readings do not count either way). *)
Fixpoint idle_streak (cfg : Config) (s : scaler) (obs : list observation) (streak : Z) : Z :=
  match obs with
  | [] => streak
  | o :: obs' =>
      idle_streak cfg (scale_step cfg s o) obs'
        (match ob_ready o with
         | Err _ => streak
         | Ok ready => if is_idle ready (ob_active o) (sc_target s) then streak + 1 else 0
         end)
  end.

Lemma scale_run_app cfg obs1 obs2 : forall s,
  scale_run cfg s (obs1 ++ obs2) = scale_run cfg (scale_run cfg s obs1) obs2.
Proof. induction obs1; simpl; auto. Qed.

Record scaler_inv (cfg : Config) (s : scaler) (streak : Z) : Prop := {
  si_band : Min cfg <= sc_target s <= Max cfg;
  si_idle : 0 <= sc_idle s < IdleAfter cfg;
  si_streak : sc_idle s <= streak
}.

Lemma scale_step_inv cfg s o streak :
  sane cfg -> scaler_inv cfg s streak ->
  scaler_inv cfg (scale_step cfg s o)
    (match ob_ready o with
     | Err _ => streak
     | Ok ready => if is_idle ready (ob_active o) (sc_target s) then streak + 1 else 0
     end).
Proof.
  intros Hs [Hb Hi Hst]. rewrite scale_step_spec by done.
  destruct (ob_ready o) as [ready|e]; [|done]. destruct Hs as [Hm Ha].
  pose proof (Next_cases cfg (sc_idle s) ready (ob_active o) (sc_target s)) as Hc. cbv zeta in *.
  pose proof (quot2_nonneg (sc_target s)) as Hq.
  destruct (is_idle ready (ob_active o) (sc_target s)) eqn:E;
    destruct Hc as [[? ->]|[(? & ? & ->)|[(? & ? & ? & ->)|[(? & ? & ? & ->)|[? ->]]]]];
    try done; constructor; simpl; lia.
Qed.

Lemma scale_run_inv cfg obs : forall s streak,
  sane cfg -> scaler_inv cfg s streak ->
  scaler_inv cfg (scale_run cfg s obs) (idle_streak cfg s obs streak).
Proof.
  induction obs as [|o obs IH]; simpl; intros s streak Hs Hi; [done|].
  apply IH; [done|]. by apply scale_step_inv.
Qed.

(** Reluctant shrinking. Over any history of observations, starting
    from a target in the band, the target stays in the band, and whenever one
    more observation makes it smaller, that observation was idle and, with those
    before it, at least [IdleAfter] successful readings in a row were. So a lull
    shorter than that never shrinks the pool. *)
Theorem scaler_shrinks_reluctantly (cfg : Config) (initial : Z) (obs : list observation)
    (o : observation) :
  sane cfg -> Min cfg <= initial <= Max cfg ->
  let s0 := {| sc_target := initial; sc_idle := 0 |} in
  let s := scale_run cfg s0 obs in
  let s' := scale_run cfg s0 (obs ++ [o]) in
  Min cfg <= sc_target s <= Max cfg /\
  (sc_target s' < sc_target s ->
     sc_target s' = sc_target s - 1 /\ idle_streak cfg s0 (obs ++ [o]) 0 >= IdleAfter cfg).
Proof.
  intros Hs Hb s0 s s'.
  assert (H0 : scaler_inv cfg s0 0) by (destruct Hs; constructor; simpl; lia).
  pose proof (scale_run_inv cfg obs s0 0 Hs H0) as [Hband Hidle Hstreak]. split; [done|].
  assert (Hsplit : forall obs s1 k, idle_streak cfg s1 (obs ++ [o]) k =
    match ob_ready o with
    | Err _ => idle_streak cfg s1 obs k
    | Ok ready => if is_idle ready (ob_active o) (sc_target (scale_run cfg s1 obs))
                  then idle_streak cfg s1 obs k + 1 else 0
    end).
  { clear. induction obs as [|o1 obs IH]; intros s1 k; simpl; [done|]. apply IH. }
  rewrite Hsplit. unfold s'. rewrite scale_run_app. fold s. simpl. rewrite scale_step_spec by done.
  fold s in Hband, Hidle, Hstreak. fold s.
  destruct (ob_ready o) as [ready|e]; [simpl|lia].
  pose proof (Next_band cfg (sc_idle s) ready (ob_active o) (sc_target s) Hs) as Hn.
  destruct (Next _ _ _ _ _) as [next idle']. simpl. intros Hlt.
  destruct Hn as (_ & _ & _ & Hn). destruct (Hn Hband Hlt) as (-> & Hr & Ha & Hk & _).
  split; [done|]. unfold is_idle. rewrite (proj2 (Z.eqb_eq _ _) Hr), (proj2 (Z.ltb_lt _ _) Ha). simpl. lia.
Qed.

(** Eager growth. If every observation finds a backlog that would trigger
    growth at any size, the pool reaches [Max] within [Max - initial]
    intervals, and stays there as long as the backlog lasts. *)
Theorem scaler_reaches_max (cfg : Config) (initial : Z) (obs : list observation) :
  sane cfg -> Min cfg <= initial <= Max cfg ->
  Forall (fun o => exists ready, ob_ready o = Ok ready /\
            forall t, Min cfg <= t <= Max cfg -> backlogged cfg ready t = true) obs ->
  let s := scale_run cfg {| sc_target := initial; sc_idle := 0 |} obs in
  Z.min (Max cfg) (initial + Z.of_nat (length obs)) <= sc_target s <= Max cfg /\
  (Max cfg - initial <= Z.of_nat (length obs) -> sc_target s = Max cfg).
Proof.
  intros Hs Hb Hobs. cbv zeta.
  assert (H : forall s, Min cfg <= sc_target s <= Max cfg ->
    Z.min (Max cfg) (sc_target s + Z.of_nat (length obs)) <= sc_target (scale_run cfg s obs) <= Max cfg).
  { clear Hb. induction Hobs as [|o obs (ready & Hr & Hbl) _ IH]; intros s Hb; simpl; [lia|].
    rewrite scale_step_spec by done. rewrite Hr. unfold Next.
    destruct (sc_target s <? Min cfg) eqn:?; reflect_bools; [lia|]. rewrite Hbl by done.
    pose proof (quot2_nonneg (sc_target s)). destruct Hs as [Hm _].
    cbv zeta. cbn [fst snd].
    specialize (IH {| sc_target := Z.min (sc_target s + Z.max 1 (Z.quot (sc_target s) 2)) (Max cfg); sc_idle := 0 |}).
    cbn [sc_target] in IH. specialize (IH ltac:(lia)). lia. }
  specialize (H {| sc_target := initial; sc_idle := 0 |} Hb). simpl in H. lia.
Qed.

(** With the default policy the growth test is the integer comparison. *)
Lemma DefaultConfig_backlogged min max ready target :
  0 <= ready <= 2 ^ 53 -> 0 <= target <= 2 ^ 52 ->
  backlogged (DefaultConfig min max) ready target = (2 * target <=? ready).
Proof.
  intros Hr Ht. unfold backlogged. simpl ga_num. simpl ga_shift.
  rewrite (round53_small target), !round53_small by lia. by rewrite Z.mul_1_r.
Qed.

(** ** Witnesses *)

Lemma Next_band_witness :
  Next (DefaultConfig 2 16) 0 40 6 6 = (9, 0) /\ 6 < 9 <= 6 + Z.max 1 (Z.quot 6 2).
Proof.
  split; [vm_compute; reflexivity|].
  pose proof (Next_band (DefaultConfig 2 16) 0 40 6 6) as H.
  assert (Hs : sane (DefaultConfig 2 16)) by (unfold sane; simpl; lia).
  specialize (H Hs). vm_compute in H. destruct H as (_ & H2 & H3 & _).
  specialize (H3 ltac:(split; done) eq_refl). split; [exact H3|]. destruct (H2 H3) as [?|[_ ?]]; done.
Defined.

Definition idle_obs : observation := {| ob_ready := Ok 0; ob_active := 0 |}.

Lemma scaler_shrinks_reluctantly_witness :
  let cfg := DefaultConfig 2 16 in
  let s0 := {| sc_target := 8; sc_idle := 0 |} in
  sc_target (scale_run cfg s0 (replicate 4 idle_obs)) = 8 /\
  sc_target (scale_run cfg s0 (replicate 4 idle_obs ++ [idle_obs])) = 7 /\
  idle_streak cfg s0 (replicate 4 idle_obs ++ [idle_obs]) 0 >= 5.
Proof.
  cbv zeta. do 2 (split; [vm_compute; reflexivity|]).
  apply (scaler_shrinks_reluctantly (DefaultConfig 2 16) 8 (replicate 4 idle_obs) idle_obs);
    [unfold sane; simpl; lia|simpl; lia|vm_compute; reflexivity].
Defined.

Lemma scaler_reaches_max_witness :
  sc_target (scale_run (DefaultConfig 1 4) {| sc_target := 1; sc_idle := 0 |}
    (replicate 3 {| ob_ready := Ok 100; ob_active := 4 |})) = 4.
Proof.
  apply (scaler_reaches_max (DefaultConfig 1 4) 1 (replicate 3 {| ob_ready := Ok 100; ob_active := 4 |}));
    [unfold sane; simpl; lia|simpl; lia| |simpl; lia].
  repeat constructor; exists 100; (split; [reflexivity|]); intros t Ht; simpl in Ht;
    rewrite DefaultConfig_backlogged by lia; apply Z.leb_le; lia.
Defined.

(** The scripted day of the project's own test. *)
Example test_next_policy :
  (fix day s steps := match steps with
     | [] => []
     | (r, a) :: rest =>
         let s' := scale_step {| Min := 2; Max := 16; Interval := 1;
           GrowAt := {| ga_num := 2; ga_shift := 0 |}; IdleAfter := 3 |} s
           {| ob_ready := Ok r; ob_active := a |} in sc_target s' :: day s' rest
     end) {| sc_target := 4; sc_idle := 0 |}
    [(6, 4); (8, 4); (40, 6); (500, 9); (500, 13); (0, 3); (0, 2); (0, 1); (5, 10); (0, 0); (0, 0); (0, 0)]
  = [4; 6; 9; 13; 16; 16; 16; 15; 15; 15; 15; 14].
Proof. vm_compute. reflexivity. Qed.
