(* ===== verification/Worker.v ===== *)
(** * Worker: construction, heartbeats and the drain of a worker process

    Models [internal/worker/worker.go]: [New] wires the parts together and
    closes what it opened when a later part fails; [Run] composes the pool's
    loop ([Pool.v]), the flush loop of the batcher ([Batch.v]) and the heartbeat
    loop, and shuts them down in order.  All four goroutines, the jobs that
    record their outcomes, and the timers interleave at every step; what the
    process writes comes out as a list of [output]s. *)

From S2P Require Import Prelude Errors Job Retry Database Rows Redis Effects Rely Store.
From S2P Require Import Batch Queue Handler Runner Pool Config.
Local Open Scope string_scope.
Local Open Scope list_scope.
Local Open Scope Z_scope.
Local Open Scope prog_scope.

(** ** The worker *)

(** Where [Run] is: before [ctx.Done], in the two [select]s of the drain,
    waiting for the heartbeat loop, in [batcher.Stop], in the final heartbeat. *)
Inductive run_phase :=
| Serving | DrainWait | GraceWait | StopHeartbeats | StopBatcher
| FinalHeartbeat (reads : list Z)
| Returned.

(** The heartbeat loop: reading the pool's counters, waiting, ended. *)
Inductive heartbeat := Reading (reads : list Z) | Sleeping | Ended.
#[export] Instance heartbeat_eq : EqDecision heartbeat.
Proof. solve_decision. Defined.

Record Worker := {
  wk_cfg : Config; wk_pool : Pool;
  wk_batcher : option Batcher;        (* [None] with synchronous writes *)
  wk_phase : run_phase; wk_hb : heartbeat;
  wk_hbCancelled : bool; wk_jobsCancelled : bool
}.

(** The connections [New] opens. *)
Inductive conn := StoreConn | QueueConn.
#[export] Instance conn_eq : EqDecision conn.
Proof. solve_decision. Defined.
Definition closed (c : conn) (l : list conn) : list conn := filter (fun x => x <> c) l.

Definition fresh (cfg : Config) : Worker :=
  {| wk_cfg := cfg; wk_pool := NewPool (Concurrency cfg) (FetchBatch cfg);
     wk_batcher := if BatchWrites cfg then Some NewBatcher else None;
     wk_phase := Serving; wk_hb := Reading []; wk_hbCancelled := false; wk_jobsCancelled := false |}.

(** [New], given what its four fallible calls answer; with the connections
    left open. *)
Definition New (cfg : Config) (open migrate queueNew ensureGroup : option error)
    : result error Worker * list conn :=
  match open with
  | Some e => (Err e, [])
  | None =>
      let conns := [StoreConn] in
      match migrate with
      | Some e => (Err e, closed StoreConn conns)
      | None =>
          match queueNew with
          | Some e => (Err e, closed StoreConn conns)
          | None =>
              let conns := QueueConn :: conns in
              match ensureGroup with
              | Some e => (Err e, closed QueueConn (closed StoreConn conns))
              | None => (Ok (fresh cfg), conns)
              end
          end
      end
  end.

(** The parts it wires: the queue, the runner, the recorder, the fetch. *)
Definition queue_of (cfg : Config) : queue := queue_New (KeyPrefix cfg) (cfg_Queue cfg).
Definition runner_of (cfg : Config) (obs : bool) : Runner :=
  {| run_Backoff := {| base := RetryBase cfg; cap := RetryCap cfg |};
     run_WorkerID := cfg_WorkerID cfg; run_LeaseTTL := LeaseTTL cfg;
     run_ExecTimeout := ExecTimeout cfg; run_HasObs := obs |}.
Definition recorder_of (cfg : Config) (before after : list op) : Recorder :=
  if BatchWrites cfg then BatchRecorder before after else SyncRecorder.
Definition fetch_of `{EnvelopeJSON} (cfg : Config) (max : Z) : prog (list Delivery * option error) :=
  Fetch (queue_of cfg) (cfg_WorkerID cfg) max (FetchBlock cfg).

Section worker.
(** [os.Hostname] and [os.Getpid]. *)
Context (host : string) (pid : Z).

(** ** Heartbeats *)

(** The reads of the pool's counters a heartbeat makes, in order: [Active],
    [Target], [Active], [Processed]. *)
Definition next_read (p : Pool) (reads : list Z) : Z :=
  match length reads with
  | 1%nat => p_target p
  | 3%nat => p_processed p
  | _ => p_active p
  end.

Definition heartbeat_info (cfg : Config) (reads : list Z) (state : string) : WorkerInfo :=
  {| wi_ID := cfg_WorkerID cfg; wi_Hostname := host; wi_PID := pid;
     wi_Concurrency := nth 0 reads 0; wi_TargetConcurrency := nth 1 reads 0;
     wi_ActiveJobs := nth 2 reads 0; wi_Processed := wrap64 (nth 3 reads 0);
     wi_State := state; wi_StartedAt := zero_time; wi_LastHeartbeatAt := zero_time |}.

(** What the process does to the outside. *)
Inductive output := Beats (i : WorkerInfo) | Flushes (ops : list op) | Closes (c : conn).

(** The calls behind an output; a failed heartbeat is only logged. *)
Definition upsert (i : WorkerInfo) : prog unit := _ <- UpsertWorker i ;; Ret tt.
Definition perform (o : output) : prog unit :=
  match o with
  | Beats i => upsert i
  | Flushes ops => _ <- flush ops ;; Ret tt
  | Closes _ => Ret tt
  end.

(** ** The goroutines of a running worker *)

Definition set_pool (p : Pool) (w : Worker) : Worker :=
  {| wk_cfg := wk_cfg w; wk_pool := p; wk_batcher := wk_batcher w; wk_phase := wk_phase w;
     wk_hb := wk_hb w; wk_hbCancelled := wk_hbCancelled w; wk_jobsCancelled := wk_jobsCancelled w |}.
Definition set_batcher (b : Batcher) (w : Worker) : Worker :=
  {| wk_cfg := wk_cfg w; wk_pool := wk_pool w; wk_batcher := Some b; wk_phase := wk_phase w;
     wk_hb := wk_hb w; wk_hbCancelled := wk_hbCancelled w; wk_jobsCancelled := wk_jobsCancelled w |}.
Definition set_hb (h : heartbeat) (w : Worker) : Worker :=
  {| wk_cfg := wk_cfg w; wk_pool := wk_pool w; wk_batcher := wk_batcher w; wk_phase := wk_phase w;
     wk_hb := h; wk_hbCancelled := wk_hbCancelled w; wk_jobsCancelled := wk_jobsCancelled w |}.
Definition set_phase (ph : run_phase) (w : Worker) : Worker :=
  {| wk_cfg := wk_cfg w; wk_pool := wk_pool w; wk_batcher := wk_batcher w; wk_phase := ph;
     wk_hb := wk_hb w; wk_hbCancelled := wk_hbCancelled w; wk_jobsCancelled := wk_jobsCancelled w |}.
(** [stopHB()] and [stopJobs(...)]. *)
Definition cancel_hb (w : Worker) : Worker :=
  {| wk_cfg := wk_cfg w; wk_pool := wk_pool w; wk_batcher := wk_batcher w; wk_phase := wk_phase w;
     wk_hb := wk_hb w; wk_hbCancelled := true; wk_jobsCancelled := wk_jobsCancelled w |}.
Definition cancel_jobs (w : Worker) : Worker :=
  {| wk_cfg := wk_cfg w; wk_pool := wk_pool w; wk_batcher := wk_batcher w; wk_phase := wk_phase w;
     wk_hb := wk_hb w; wk_hbCancelled := wk_hbCancelled w; wk_jobsCancelled := true |}.

Inductive worker_event :=
| PoolMoves (ev : pool_event)
| JobRecords (o : op)                (* a running job submits its outcome *)
| BatcherMoves (ev : batcher_event)  (* the flush loop *)
| HeartbeatTurn | HeartbeatTick
| CtxDone                            (* SIGTERM, or a drain command *)
| PoolDone                           (* [poolDone] is closed, and seen *)
| DrainTimeoutFired | GraceFired
| HeartbeatsDone | BatcherDone | FinalTurn.

Definition max_size (w : Worker) : nat := Z.to_nat (BatchMaxSize (wk_cfg w)).

(** The batcher moves; [None] when it cannot, or when there is none. *)
Definition step_batcher (ev : batcher_event) (w : Worker) : option (Worker * list output) :=
  match wk_batcher w with
  | None => None
  | Some b =>
      match batcher_step (max_size w) b ev with
      | None => None
      | Some (b', fs) => Some (set_batcher b' w, map Flushes fs)
      end
  end.

(** The outcome is recorded by the job's own goroutine, so while it runs. *)
Definition is_running (id : string) (p : Pool) : bool :=
  existsb (fun d => bool_decide (env_ID (del_Env d) = id)) (p_running p).

Definition heartbeat_turn (w : Worker) : option (Worker * list output) :=
  match wk_hb w with
  | Reading reads =>
      if bool_decide (length reads < 4)%nat
      then Some (set_hb (Reading (reads ++ [next_read (wk_pool w) reads])) w, [])
      else Some (set_hb Sleeping w, [Beats (heartbeat_info (wk_cfg w) reads "active")])
  | Sleeping => if wk_hbCancelled w then Some (set_hb Ended w, []) else None
  | Ended => None
  end.

(** After the drain, however it ended: [stopHB(); <-hbDone]. *)
Definition drained (w : Worker) : Worker := set_phase StopHeartbeats (cancel_hb w).
(** The last lines of [Run], with its deferred [stopJobs(nil)]. *)
Definition final_turn (w : Worker) : option (Worker * list output) :=
  match wk_phase w with
  | FinalHeartbeat reads =>
      if bool_decide (length reads < 4)%nat
      then Some (set_phase (FinalHeartbeat (reads ++ [next_read (wk_pool w) reads])) w, [])
      else Some (set_phase Returned (cancel_jobs w),
                 [Beats (heartbeat_info (wk_cfg w) reads "draining"); Closes QueueConn; Closes StoreConn])
  | _ => None
  end.

Definition worker_step (w : Worker) (ev : worker_event) : option (Worker * list output) :=
  match ev with
  | PoolMoves CancelFetch => None
  | PoolMoves ev =>
      match pool_step (wk_pool w) ev with Some p => Some (set_pool p w, []) | None => None end
  | JobRecords o =>
      if is_running (op_id o) (wk_pool w) then step_batcher (SubmitOp o) w else None
  | BatcherMoves ev =>
      match ev with ReceiveOp | Tick | StopSeen | DrainReceive | DrainEnd => step_batcher ev w | _ => None end
  | HeartbeatTurn => heartbeat_turn w
  | HeartbeatTick => match wk_hb w with Sleeping => Some (set_hb (Reading []) w, []) | _ => None end
  | CtxDone =>
      match wk_phase w with
      | Serving => Some (set_phase DrainWait (set_pool (cancel_fetch (wk_pool w)) w), [])
      | _ => None
      end
  | PoolDone =>
      match wk_phase w, p_phase (wk_pool w) with
      | DrainWait, Exited | GraceWait, Exited => Some (drained w, [])
      | _, _ => None
      end
  | DrainTimeoutFired =>
      match wk_phase w with
      | DrainWait => Some (set_phase GraceWait (cancel_jobs w), [])
      | _ => None
      end
  | GraceFired => match wk_phase w with GraceWait => Some (drained w, []) | _ => None end
  | HeartbeatsDone =>
      match wk_phase w, wk_hb w with
      | StopHeartbeats, Ended =>
          match wk_batcher w with
          | Some _ => match step_batcher CloseStop w with
                      | Some (w', fs) => Some (set_phase StopBatcher w', fs)
                      | None => None
                      end
          | None => Some (set_phase (FinalHeartbeat []) w, [])
          end
      | _, _ => None
      end
  | BatcherDone =>
      match wk_phase w, wk_batcher w with
      | StopBatcher, Some b =>
          if b_exited b then Some (set_phase (FinalHeartbeat []) w, []) else None
      | _, _ => None
      end
  | FinalTurn => final_turn w
  end.

Fixpoint worker_run (w : Worker) (evs : list worker_event) : option (Worker * list output) :=
  match evs with
  | [] => Some (w, [])
  | ev :: evs' =>
      match worker_step w ev with
      | None => None
      | Some (w1, o1) =>
          match worker_run w1 evs' with
          | None => None
          | Some (w2, o2) => Some (w2, o1 ++ o2)
          end
      end
  end.

(** ** The parts, seen alone *)

Definition pool_events (evs : list worker_event) : list pool_event :=
  omap (fun ev => match ev with PoolMoves e => Some e | CtxDone => Some CancelFetch | _ => None end) evs.
Definition batcher_events (evs : list worker_event) : list batcher_event :=
  omap (fun ev => match ev with
                  | JobRecords o => Some (SubmitOp o)
                  | BatcherMoves e => Some e
                  | HeartbeatsDone => Some CloseStop
                  | _ => None
                  end) evs.
Definition flushes (outs : list output) : list (list op) :=
  omap (fun o => match o with Flushes ops => Some ops | _ => None end) outs.
Definition recorded (evs : list worker_event) : list op :=
  omap (fun ev => match ev with JobRecords o => Some o | _ => None end) evs.

Lemma recorded_submitted w evs w' o :
  worker_run w evs = Some (w', o) -> submitted (batcher_events evs) = recorded evs.
Proof.
  revert w w' o. induction evs as [|ev evs IH]; intros w w' o Hr; [done|]. cbn in Hr.
  destruct (worker_step w ev) as [[w1 o1]|] eqn:Hs; [|done].
  destruct (worker_run w1 evs) as [[w2 o2]|] eqn:Hr2; [|done]. specialize (IH _ _ _ Hr2).
  destruct ev as [e|op|e| | | | | | | | |]; try exact IH; [cbn; f_equal; exact IH|].
  destruct e; try exact IH. done.
Qed.

Lemma flushes_map fs : flushes (map Flushes fs) = fs.
Proof. induction fs as [|f fs IH]; [done|]. cbn. f_equal. exact IH. Qed.

Lemma flushes_app o1 o2 : flushes (o1 ++ o2) = flushes o1 ++ flushes o2.
Proof. apply omap_app. Qed.

Ltac worker_cases :=
  repeat match goal with
  | H : None = Some _ |- _ => discriminate H
  | H : Some _ = Some _ |- _ => injection H as <- <-
  | H : (match ?x with _ => _ end) = Some _ |- _ => destruct x eqn:?
  | H : (if ?x then _ else _) = Some _ |- _ => destruct x eqn:?
  end.

Lemma step_batcher_Some ev w w' o :
  step_batcher ev w = Some (w', o) ->
  exists b b', wk_batcher w = Some b /\ w' = set_batcher b' w /\
    batcher_step (max_size w) b ev = Some (b', flushes o) /\ Forall (fun x => exists ops, x = Flushes ops) o.
Proof.
  unfold step_batcher. intros Hs. worker_cases. exists b, b0. rewrite flushes_map. split_and!; try done.
  apply Forall_map, Forall_true. by eexists.
Qed.

Lemma no_flushes o : Forall (fun x => exists ops, x = Flushes ops) o -> flushes o = [] -> o = [].
Proof. intros [|x l (ops & ->) _] Hf; [done|by cbn in Hf]. Qed.

(** The pool does what [Pool.v] says. *)
Lemma worker_step_pool w ev w' o :
  worker_step w ev = Some (w', o) -> pool_run (wk_pool w) (pool_events [ev]) = Some (wk_pool w').
Proof.
  intros Hs. destruct ev as [e|op|e| | | | | | | | |]; cbn -[pool_step] in *.
  - assert (Hs' : match pool_step (wk_pool w) e with Some p => Some (set_pool p w, []) | None => None end
      = Some (w', o)) by (by destruct e).
    destruct (pool_step (wk_pool w) e) as [p|]; by simplify_eq/=.
  - destruct (is_running _ _); [|done]. by apply step_batcher_Some in Hs as (b & b' & _ & -> & _).
  - assert (Hs' : step_batcher e w = Some (w', o)) by (by destruct e).
    by apply step_batcher_Some in Hs' as (b & b' & _ & -> & _).
  - unfold heartbeat_turn in Hs. by worker_cases.
  - by worker_cases.
  - by worker_cases.
  - by worker_cases.
  - by worker_cases.
  - by worker_cases.
  - destruct (wk_phase w), (wk_hb w); try done. destruct (wk_batcher w); [|by simplify_eq].
    destruct (step_batcher CloseStop w) as [[w1 o1]|] eqn:Hb; [|done]. injection Hs as <- <-.
    by apply step_batcher_Some in Hb as (b1 & b' & _ & -> & _).
  - by worker_cases.
  - unfold final_turn in Hs. by worker_cases.
Qed.

(** And the flush loop what [Batch.v] says. *)
Lemma worker_step_batcher w ev w' o :
  worker_step w ev = Some (w', o) ->
  match wk_batcher w with
  | Some b => exists b', wk_batcher w' = Some b' /\
      batcher_run (max_size w) b (batcher_events [ev]) = Some (b', flushes o)
  | None => wk_batcher w' = None /\ flushes o = [] /\ recorded [ev] = []
  end.
Proof.
  assert (Hb : forall e w1 o1, step_batcher e w = Some (w1, o1) ->
    match wk_batcher w with
    | Some b => exists b', wk_batcher w1 = Some b' /\ batcher_run (max_size w) b [e] = Some (b', flushes o1)
    | None => False
    end).
  { intros e w1 o1 He. apply step_batcher_Some in He as (b & b' & -> & -> & He & _).
    exists b'. split; [done|]. simpl. rewrite He. by rewrite app_nil_r. }
  assert (Hq : wk_batcher w' = wk_batcher w -> flushes o = [] -> batcher_events [ev] = [] -> recorded [ev] = [] ->
    match wk_batcher w with
    | Some b => exists b', wk_batcher w' = Some b' /\
        batcher_run (max_size w) b (batcher_events [ev]) = Some (b', flushes o)
    | None => wk_batcher w' = None /\ flushes o = [] /\ recorded [ev] = []
    end).
  { intros H1 H2 H3 H4. rewrite H1, H2, H3, H4. destruct (wk_batcher w); [|done]. by eexists. }
  intros Hs. destruct ev as [e|op|e| | | | | | | | |]; cbn -[pool_step] in Hs.
  - apply Hq; try done; destruct e; cbn -[pool_step] in Hs; by worker_cases.
  - destruct (is_running _ _); [|done]. apply Hb in Hs. by destruct (wk_batcher w).
  - assert (Hs' : step_batcher e w = Some (w', o)) by (by destruct e).
    apply Hb in Hs'. by destruct (wk_batcher w).
  - unfold heartbeat_turn in Hs. apply Hq; try done; by worker_cases.
  - apply Hq; try done; by worker_cases.
  - apply Hq; try done; by worker_cases.
  - apply Hq; try done; by worker_cases.
  - apply Hq; try done; by worker_cases.
  - apply Hq; try done; by worker_cases.
  - destruct (wk_phase w), (wk_hb w); try done. destruct (wk_batcher w) as [b|] eqn:Hwb; [|by simplify_eq].
    destruct (step_batcher CloseStop w) as [[w1 o1]|] eqn:Hc; [|done]. injection Hs as <- <-. by apply Hb in Hc.
  - apply Hq; try done; by worker_cases.
  - unfold final_turn in Hs. apply Hq; try done; by worker_cases.
Qed.

Lemma worker_step_cfg w ev w' o : worker_step w ev = Some (w', o) -> wk_cfg w' = wk_cfg w.
Proof.
  intros Hs. destruct ev as [e|op|e| | | | | | | | |]; cbn -[pool_step] in Hs;
    unfold heartbeat_turn, final_turn, step_batcher in Hs; by worker_cases.
Qed.

Lemma worker_run_parts evs : forall w w' o,
  worker_run w evs = Some (w', o) ->
  pool_run (wk_pool w) (pool_events evs) = Some (wk_pool w') /\
  wk_cfg w' = wk_cfg w /\
  match wk_batcher w with
  | Some b => exists b', wk_batcher w' = Some b' /\
      batcher_run (max_size w) b (batcher_events evs) = Some (b', flushes o)
  | None => wk_batcher w' = None /\ flushes o = [] /\ recorded evs = []
  end.
Proof.
  induction evs as [|ev evs IH]; intros w w' o Hr; cbn in Hr.
  { injection Hr as <- <-. split_and!; [done|done|]. destruct (wk_batcher w); [by eexists|done]. }
  destruct (worker_step w ev) as [[w1 o1]|] eqn:Hs; [|done].
  destruct (worker_run w1 evs) as [[w2 o2]|] eqn:Hr2; [|done]. injection Hr as <- <-.
  destruct (IH _ _ _ Hr2) as (Hp & Hc & Hb). pose proof (worker_step_cfg _ _ _ _ Hs) as Hc1. split_and!.
  - change (ev :: evs) with ([ev] ++ evs). unfold pool_events. rewrite omap_app.
    rewrite (pool_run_app _ _ _ _ (worker_step_pool _ _ _ _ Hs)). exact Hp.
  - congruence.
  - pose proof (worker_step_batcher _ _ _ _ Hs) as Hb1. rewrite flushes_app.
    change (ev :: evs) with ([ev] ++ evs). unfold batcher_events, recorded. rewrite !omap_app.
    destruct (wk_batcher w) as [b|].
    + destruct Hb1 as (b1 & Hw1 & Hr1). rewrite Hw1 in Hb. destruct Hb as (b2 & -> & Hb2).
      exists b2. split; [done|]. assert (max_size w1 = max_size w) as Hm by (unfold max_size; by rewrite Hc1).
      rewrite Hm in Hb2. by eapply batcher_run_app.
    + destruct Hb1 as (Hw1 & -> & Hrec). rewrite Hw1 in Hb. destruct Hb as (-> & -> & Hrec2).
      split_and!; [done|done|]. change (recorded [ev] ++ recorded evs = []). by rewrite Hrec, Hrec2.
Qed.

(** ** The order of the shutdown *)

Definition rank (ph : run_phase) : nat :=
  match ph with
  | Serving => 0 | DrainWait => 1 | GraceWait => 2 | StopHeartbeats => 3 | StopBatcher => 4
  | FinalHeartbeat _ => 5 | Returned => 6
  end%nat.

(** The outputs of a worker that has not returned. *)
Definition at_work (o : output) : Prop :=
  match o with Beats i => wi_State i = "active" | Flushes _ => True | Closes _ => False end.
(** Those of one that has: a last heartbeat, then the connections. *)
Definition signed_off (outs : list output) : Prop :=
  exists outs' i, outs = outs' ++ [Beats i; Closes QueueConn; Closes StoreConn] /\
    wi_State i = "draining" /\ Forall at_work outs'.

(** What has been seen of the drain. *)
Definition clean (evs : list worker_event) : bool :=
  existsb (fun ev => match ev with PoolDone => true | _ => false end) evs.
Definition timed_out (evs : list worker_event) : bool :=
  existsb (fun ev => match ev with DrainTimeoutFired => true | _ => false end) evs.
Definition abandoned (evs : list worker_event) : bool :=
  existsb (fun ev => match ev with GraceFired => true | _ => false end) evs.

(** The batcher's side: told to stop by [Run], at its place, and nowhere else. *)
Definition batcher_ok (ph : run_phase) (cl : bool) (b : Batcher) : Prop :=
  (b_stopped b = true <-> (4 <= rank ph)%nat) /\
  (b_draining b = true -> b_stopped b = true) /\
  (b_exited b = true -> b_draining b = true) /\
  ((5 <= rank ph)%nat -> b_exited b = true) /\
  (cl = true -> b_exited b = true -> b_in b = []).

Record run_inv (w : Worker) (evs : list worker_event) (outs : list output) : Prop := {
  ri_cancel : (1 <= rank (wk_phase w))%nat -> p_cancelled (wk_pool w) = true;
  ri_clean : clean evs = true -> p_phase (wk_pool w) = Exited;
  ri_idle : p_phase (wk_pool w) = Exited -> p_running (wk_pool w) = [];
  ri_over : (3 <= rank (wk_phase w))%nat -> clean evs = true \/ abandoned evs = true;
  ri_going : clean evs = true -> (3 <= rank (wk_phase w))%nat;
  ri_grace : abandoned evs = true \/ wk_phase w = GraceWait -> timed_out evs = true;
  ri_jobs : wk_jobsCancelled w = true -> timed_out evs = true \/ wk_phase w = Returned;
  ri_batcher : forall b, wk_batcher w = Some b -> batcher_ok (wk_phase w) (clean evs) b;
  ri_has : wk_phase w = StopBatcher -> is_Some (wk_batcher w);
  ri_ended : (4 <= rank (wk_phase w))%nat -> wk_hb w = Ended;
  ri_hb : wk_hbCancelled w = true <-> (3 <= rank (wk_phase w))%nat;
  ri_hb_ended : wk_hb w = Ended -> wk_hbCancelled w = true;
  ri_outs : match wk_phase w with Returned => signed_off outs | _ => Forall at_work outs end
}.

Lemma fresh_inv cfg : run_inv (fresh cfg) [] [].
Proof.
  constructor; simpl; try done; try lia; try (by intros [|]).
  destruct (BatchWrites cfg); [|done]. intros b [= <-]. unfold batcher_ok. simpl.
  split_and!; try done; [|lia]. split; [done|lia].
Qed.

Lemma batcher_step_flags m b ev b' fs :
  batcher_step m b ev = Some (b', fs) ->
  match ev with
  | SubmitOp _ => b_stopped b' = b_stopped b /\ b_draining b' = b_draining b /\ b_exited b' = b_exited b
  | ReceiveOp | Tick => b_draining b = false /\
      b_stopped b' = b_stopped b /\ b_draining b' = false /\ b_exited b' = b_exited b
  | CloseStop => b_stopped b = false /\
      b_stopped b' = true /\ b_draining b' = b_draining b /\ b_exited b' = b_exited b /\ b_in b' = b_in b
  | StopSeen => b_stopped b = true /\
      b_stopped b' = true /\ b_draining b' = true /\ b_exited b' = b_exited b /\ b_in b' = b_in b
  | DrainReceive => b_draining b = true /\ b_exited b = false /\
      b_stopped b' = b_stopped b /\ b_draining b' = true /\ b_exited b' = false
  | DrainEnd => b_draining b = true /\
      b_stopped b' = b_stopped b /\ b_draining b' = true /\ b_exited b' = true /\ b_in b' = []
  end.
Proof.
  destruct ev; simpl; intros Hs; repeat case_match; simplify_eq/=; reflect_bools; done.
Qed.

(** An event the invariant does not look at. *)
Definition silent (ev : worker_event) : Prop :=
  match ev with PoolDone | GraceFired | DrainTimeoutFired => False | _ => True end.

Lemma log_snoc evs ev :
  clean (evs ++ [ev]) = (clean evs || clean [ev]) /\
  timed_out (evs ++ [ev]) = (timed_out evs || timed_out [ev]) /\
  abandoned (evs ++ [ev]) = (abandoned evs || abandoned [ev]).
Proof. unfold clean, timed_out, abandoned. by rewrite !existsb_app. Qed.

Lemma log_silent evs ev : silent ev ->
  clean (evs ++ [ev]) = clean evs /\ timed_out (evs ++ [ev]) = timed_out evs /\
  abandoned (evs ++ [ev]) = abandoned evs.
Proof.
  destruct (log_snoc evs ev) as (-> & -> & ->). by destruct ev; simpl; rewrite ?orb_false_r.
Qed.

Lemma outs_working w evs outs o :
  run_inv w evs outs -> Forall at_work o -> (wk_phase w = Returned -> o = []) ->
  match wk_phase w with Returned => signed_off (outs ++ o) | _ => Forall at_work (outs ++ o) end.
Proof.
  intros Hi Ho Hr. pose proof (ri_outs _ _ _ Hi) as H.
  destruct (wk_phase w); try (by apply Forall_app). by rewrite Hr, app_nil_r.
Qed.

Lemma inv_pool w evs outs ev e p :
  silent ev -> run_inv w evs outs -> pool_step (wk_pool w) e = Some p ->
  run_inv (set_pool p w) (evs ++ [ev]) outs.
Proof.
  intros Hq [] Hs. destruct (pool_step_stays _ _ _ Hs) as (Hc & He & Hi).
  destruct (log_silent evs ev Hq) as (E1 & E2 & E3).
  constructor; simpl; rewrite ?E1, ?E2, ?E3; auto.
Qed.

Lemma batcher_ok_step ph cl m b e b' fs :
  batcher_step m b e = Some (b', fs) -> batcher_ok ph cl b -> e <> CloseStop ->
  (forall op, e = SubmitOp op -> cl = false) -> batcher_ok ph cl b'.
Proof.
  intros Hs (Hst & Hd & Hex & Hfl & Hin) He Hsub. pose proof (batcher_step_flags _ _ _ _ _ Hs) as Hf.
  unfold batcher_ok. destruct e as [op| | | | | |]; [..|by destruct He| | |].
  - destruct Hf as (-> & -> & ->). specialize (Hsub op eq_refl). naive_solver.
  - destruct Hf as (Hdr & -> & -> & ->). naive_solver congruence.
  - destruct Hf as (Hdr & -> & -> & ->). naive_solver congruence.
  - destruct Hf as (Hs1 & -> & -> & -> & ->). naive_solver.
  - destruct Hf as (Hdr & Hx & -> & -> & ->). naive_solver congruence.
  - destruct Hf as (Hdr & -> & -> & -> & ->). naive_solver.
Qed.

(** The flush loop, and the jobs that record. *)
Lemma inv_batcher w evs outs ev e w' o :
  silent ev -> run_inv w evs outs -> step_batcher e w = Some (w', o) -> e <> CloseStop ->
  (forall op, e = SubmitOp op -> clean evs = false) ->
  run_inv w' (evs ++ [ev]) (outs ++ o).
Proof.
  intros Hq Hinv Hs He Hsub. apply step_batcher_Some in Hs as (b & b' & Hb & -> & Hs & Ho).
  destruct (ri_batcher _ _ _ Hinv _ Hb) as (Hst & Hd & Hex & Hfl & Hin).
  assert (Hout : wk_phase w = Returned -> o = []).
  { intros Hr. rewrite Hr in Hfl. assert (He' : b_exited b = true) by (apply Hfl; simpl; lia).
    assert (Ho0 : flushes o = []).
    { specialize (Hex He'). destruct e; simpl in Hs; repeat case_match; simplify_eq/=; try done; reflect_bools; congruence. }
    by apply no_flushes. }
  pose proof (outs_working _ _ _ o Hinv) as Ho'. destruct Hinv.
  destruct (log_silent evs ev Hq) as (E1 & E2 & E3).
  constructor; simpl; rewrite ?E1, ?E2, ?E3; auto.
  - intros b1 [= <-]. by eapply batcher_ok_step.
  - apply Ho'; [|done]. by eapply Forall_impl; [exact Ho|]; intros ? (? & ->).
Qed.

(** The heartbeat loop. *)
Lemma inv_hb w evs outs ev h o :
  silent ev -> run_inv w evs outs -> wk_hb w <> Ended -> Forall at_work o -> flushes o = [] ->
  (h = Ended -> wk_hbCancelled w = true) ->
  run_inv (set_hb h w) (evs ++ [ev]) (outs ++ o).
Proof.
  intros Hq Hinv Hne Ho Hf He.
  assert (Hlow : (4 <= rank (wk_phase w))%nat -> False) by (intros Hr; by apply Hne, (ri_ended _ _ _ Hinv)).
  pose proof (outs_working _ _ _ o Hinv Ho) as Ho'. destruct Hinv.
  destruct (log_silent evs ev Hq) as (E1 & E2 & E3).
  constructor; simpl; rewrite ?E1, ?E2, ?E3; auto.
  - intros Hr. by destruct (Hlow Hr).
  - apply Ho'. intros Hr. destruct Hlow. rewrite Hr. simpl. lia.
Qed.

Lemma batcher_ok_early ph ph' cl cl' b :
  batcher_ok ph cl b -> (rank ph < 4)%nat -> (rank ph' < 4)%nat -> batcher_ok ph' cl' b.
Proof.
  intros (Hs & Hd & He & _ & _) H1 H2.
  assert (Hst : b_stopped b <> true) by (rewrite Hs; lia).
  split_and!; [|done|done|lia|]; [split; [done|lia]|]. intros _ Hx. by destruct Hst; apply Hd, He.
Qed.

(** [Run] moves on. *)
Ltac moves_on Hinv Hph evs ev :=
  destruct (log_snoc evs ev) as (?E1 & ?E2 & ?E3); destruct Hinv; rewrite Hph in *; simpl in *;
  constructor; simpl; rewrite ?E1, ?E2, ?E3, ?app_nil_r; simpl; rewrite ?orb_true_r, ?orb_false_r;
  auto; try lia; try congruence;
  try match goal with
  | H : _ <-> _ |- _ <-> _ => rewrite H; split; lia
  | H : forall b, _ -> batcher_ok _ _ b |- forall b, _ -> batcher_ok _ _ b =>
      intros ? ?; eapply batcher_ok_early; [by apply H|simpl; lia|simpl; lia]
  | |- _ -> _ => intuition congruence
  end.

Lemma inv_run w evs outs ev w' o :
  match ev with CtxDone | PoolDone | DrainTimeoutFired | GraceFired => True | _ => False end ->
  run_inv w evs outs -> worker_step w ev = Some (w', o) -> run_inv w' (evs ++ [ev]) (outs ++ o).
Proof.
  intros Hev Hinv Hs. destruct ev; try done; simpl in Hs.
  - destruct (wk_phase w) eqn:Hph; try done. injection Hs as <- <-. moves_on Hinv Hph evs CtxDone.
  - destruct (wk_phase w) eqn:Hph, (p_phase (wk_pool w)) eqn:Hpp; try done; injection Hs as <- <-;
      moves_on Hinv Hph evs PoolDone.
  - destruct (wk_phase w) eqn:Hph; try done. injection Hs as <- <-. moves_on Hinv Hph evs DrainTimeoutFired.
  - destruct (wk_phase w) eqn:Hph; try done. injection Hs as <- <-. moves_on Hinv Hph evs GraceFired.
Qed.

Lemma inv_stop w evs outs ev w' o :
  match ev with HeartbeatsDone | BatcherDone | FinalTurn => True | _ => False end ->
  run_inv w evs outs -> worker_step w ev = Some (w', o) -> run_inv w' (evs ++ [ev]) (outs ++ o).
Proof.
  intros Hev Hinv Hs. destruct ev; try done; simpl in Hs.
  - destruct (wk_phase w) eqn:Hph, (wk_hb w) eqn:Hhb; try done.
    destruct (wk_batcher w) as [b|] eqn:Hb.
    + destruct (step_batcher CloseStop w) as [[w1 o1]|] eqn:Hc; [|done]. injection Hs as <- <-.
      apply step_batcher_Some in Hc as (b1 & b' & Hb1 & -> & Hc & Ho). simplify_eq.
      pose proof (batcher_step_flags _ _ _ _ _ Hc) as (Hns & Hs' & Hd' & He' & Hin').
      assert (o1 = []) as ->.
      { apply no_flushes; [done|]. simpl in Hc. by destruct (b_stopped b); simplify_eq/=. }
      moves_on Hinv Hph evs HeartbeatsDone. intros b1 [= <-].
      destruct (ri_batcher0 _ Hb) as (Hst & Hd & Hex & _ & Hcl). unfold batcher_ok. simpl.
      rewrite Hs', Hd', He', Hin'. split_and!; [split; [lia|done]|done|done|lia|done].
    + injection Hs as <- <-. moves_on Hinv Hph evs HeartbeatsDone.
  - destruct (wk_phase w) eqn:Hph, (wk_batcher w) as [b|] eqn:Hb; try done.
    destruct (b_exited b) eqn:Hx; [|done]. injection Hs as <- <-. moves_on Hinv Hph evs BatcherDone.
    intros b1 Hb1. assert (b1 = b) as -> by congruence.
    destruct (ri_batcher0 _ Hb1) as (Hst & Hd & Hex & _ & Hcl).
    unfold batcher_ok. simpl. simpl in Hst. split_and!; try done. rewrite Hst. split; lia.
  - unfold final_turn in Hs. destruct (wk_phase w) eqn:Hph; try done.
    case_bool_decide; injection Hs as <- <-; moves_on Hinv Hph evs FinalTurn.
    + intros _. apply ri_cancel0. lia.
    + intros b Hb. destruct (ri_batcher0 _ Hb) as (Hst & Hd & Hex & Hfl & Hcl).
      unfold batcher_ok. simpl in *. split_and!; try done; [rewrite Hst; split; lia|intros _; apply Hfl; lia].
    + eexists outs, _. split_and!; [done|done|done].
Qed.

Lemma inv_step w evs outs ev w' o :
  run_inv w evs outs -> worker_step w ev = Some (w', o) -> run_inv w' (evs ++ [ev]) (outs ++ o).
Proof.
  intros Hinv Hs. destruct ev as [e|op|e| | | | | | | | |].
  - cbn -[pool_step] in Hs.
    assert (Hs' : match pool_step (wk_pool w) e with Some p => Some (set_pool p w, []) | None => None end
      = Some (w', o)) by (by destruct e).
    destruct (pool_step (wk_pool w) e) as [p|] eqn:Hp; [|done]. injection Hs' as <- <-.
    rewrite app_nil_r. by eapply inv_pool.
  - simpl in Hs. destruct (is_running _ _) eqn:Hr; [|done]. eapply inv_batcher; [done|done|done|done|].
    intros op' [= <-]. destruct (clean evs) eqn:Hc; [|done]. unfold is_running in Hr.
    rewrite (ri_idle _ _ _ Hinv) in Hr; [done|by apply (ri_clean _ _ _ Hinv)].
  - assert (Hs' : step_batcher e w = Some (w', o)) by (by destruct e).
    by eapply inv_batcher; [done|done|done|intros ->|intros op' ->].
  - simpl in Hs. unfold heartbeat_turn in Hs. destruct (wk_hb w) as [reads| |] eqn:Hhb; try done.
    + case_bool_decide; injection Hs as <- <-; apply inv_hb; rewrite ?Hhb; try done. by repeat constructor.
    + destruct (wk_hbCancelled w) eqn:Hc; [|done]. injection Hs as <- <-. apply inv_hb; by rewrite ?Hhb.
  - simpl in Hs. destruct (wk_hb w) eqn:Hhb; try done. injection Hs as <- <-. apply inv_hb; by rewrite ?Hhb.
  - by eapply inv_run.
  - by eapply inv_run.
  - by eapply inv_run.
  - by eapply inv_run.
  - by eapply inv_stop.
  - by eapply inv_stop.
  - by eapply inv_stop.
Qed.

Lemma inv_worker_run evs : forall w w' evs0 outs0 o,
  run_inv w evs0 outs0 -> worker_run w evs = Some (w', o) -> run_inv w' (evs0 ++ evs) (outs0 ++ o).
Proof.
  induction evs as [|ev evs IH]; simpl; intros w w' evs0 outs0 o Hinv Hr.
  { injection Hr as <- <-. by rewrite !app_nil_r. }
  destruct (worker_step w ev) as [[w1 o1]|] eqn:Hs; [|done].
  destruct (worker_run w1 evs) as [[w2 o2]|] eqn:Hr2; [|done]. injection Hr as <- <-.
  rewrite (app_assoc outs0), (cons_middle ev), (app_assoc evs0). by eapply IH; [eapply inv_step|].
Qed.

(** ** The properties *)

(** Once the batcher is told to stop behind a finished pool, it is empty when it ends. *)
Lemma all_flushed cfg evs w outs :
  1 <= BatchMaxSize cfg -> worker_run (fresh cfg) evs = Some (w, outs) -> run_inv w evs outs ->
  wk_phase w = Returned -> clean evs = true -> concat (flushes outs) = recorded evs.
Proof.
  intros Hm Hr Hinv Hret Hc. destruct (worker_run_parts _ _ _ _ Hr) as (_ & _ & Hb).
  destruct (wk_batcher (fresh cfg)) as [b0|] eqn:Hb0.
  - destruct Hb as (b & Hwb & Hbr). destruct (ri_batcher _ _ _ Hinv _ Hwb) as (_ & _ & _ & Hfl & Hin).
    rewrite Hret in Hfl. simpl in Hfl.
    assert (b0 = NewBatcher) as -> by (simpl in Hb0; destruct (BatchWrites cfg); by simplify_eq).
    assert (Hx : b_exited b = true) by (apply Hfl; lia).
    apply (batcher_run_inv _ _ _ _ _ [] []) in Hbr; [|apply NewBatcher_inv; unfold max_size; simpl; lia].
    destruct (bi_exited _ _ _ _ Hbr Hx) as (_ & Hpend & _). pose proof (bi_all _ _ _ _ Hbr) as Hall. simpl in Hall.
    rewrite Hpend, Hin, !app_nil_r in Hall by done. rewrite Hall. by eapply recorded_submitted.
  - destruct Hb as (_ & -> & ->). done.
Qed.

(** A failed construction leaves no connection open, a successful one both. *)
Lemma New_leaks_nothing cfg open migrate queueNew ensureGroup :
  match New cfg open migrate queueNew ensureGroup with
  | (Ok w, conns) => w = fresh cfg /\ conns = [QueueConn; StoreConn]
  | (Err _, conns) => conns = []
  end.
Proof. by destruct open, migrate, queueNew, ensureGroup. Qed.

(** C29. The drain. Whatever the pool, the jobs, the flush loop, the heartbeats
    and the timers do: in-flight jobs are cancelled only once the drain timeout
    fired (or [Run] is returning); the batcher is told to stop only once the
    pool is done, or both the drain timeout and the grace ran out. When [Run]
    has returned, the last things the process did were the heartbeat that says
    "draining" and closing its connections, after every flush; and if the pool
    finished in time, every outcome its jobs recorded was flushed, in order, no
    job is running, and of the deliveries that its fetches returned all were run
    to their end, once each, but those that came with an error, which the pool
    drops. *)
Theorem Worker_drains (cfg : Config) (evs : list worker_event) (w : Worker) (outs : list output) :
  1 <= BatchMaxSize cfg -> worker_run (fresh cfg) evs = Some (w, outs) ->
  (wk_jobsCancelled w = true -> timed_out evs = true \/ wk_phase w = Returned) /\
  (forall b, wk_batcher w = Some b -> b_stopped b = true ->
     clean evs = true \/ timed_out evs = true /\ abandoned evs = true) /\
  (wk_phase w = Returned -> signed_off outs /\
     (clean evs = true ->
        concat (flushes outs) = recorded evs /\ p_running (wk_pool w) = [] /\
        fetched (pool_events evs) ≡ₚ
          dropped (pool_events evs) ++ completed (wk_pool (fresh cfg)) (pool_events evs))).
Proof.
  intros Hm Hr. pose proof (inv_worker_run _ _ _ _ _ _ (fresh_inv cfg) Hr) as Hinv. simpl in Hinv.
  destruct (worker_run_parts _ _ _ _ Hr) as (Hp & _ & Hb).
  split_and!; [apply (ri_jobs _ _ _ Hinv)| |].
  - intros b Hwb Hst. apply (ri_batcher _ _ _ Hinv _ Hwb) in Hst.
    destruct (ri_over _ _ _ Hinv) as [Hc|Ha]; [lia|by left|]. right. split; [|done].
    apply (ri_grace _ _ _ Hinv). by left.
  - intros Hret. pose proof (ri_outs _ _ _ Hinv) as Hout. rewrite Hret in Hout. split; [done|].
    intros Hc. pose proof (ri_clean _ _ _ Hinv Hc) as Hex. pose proof (ri_idle _ _ _ Hinv Hex) as Hrun.
    split_and!; [|done|].
    + by eapply all_flushed.
    + destruct (pool_run_accounts _ _ _ [] Hp) as [Hperm _]. unfold to_start in Hperm.
      rewrite Hrun, Hex in Hperm. simpl in Hperm. by rewrite fetched_split, Hperm, !app_nil_r.
Qed.

(** ** Shutdown always ends *)

(** What the shutdown needs when nobody helps: the timers, the heartbeat loop
    and the flush loop, but no turn of the pool and no job. *)
Definition unaided (ev : worker_event) : Prop :=
  match ev with
  | PoolMoves _ | JobRecords _ | PoolDone | HeartbeatTick => False
  | BatcherMoves e => e = StopSeen \/ e = DrainReceive \/ e = DrainEnd
  | _ => True
  end.

Definition returns (n : nat) (w : Worker) : Prop := exists evs w' outs,
  (length evs <= n)%nat /\ Forall unaided evs /\ worker_run w evs = Some (w', outs) /\ wk_phase w' = Returned.

Lemma returns_step n w ev w1 o :
  worker_step w ev = Some (w1, o) -> unaided ev -> returns n w1 -> returns (S n) w.
Proof.
  intros Hs Hu (evs & w' & outs & Hn & He & Hr & Hp).
  exists (ev :: evs), w', (o ++ outs). split_and!; simpl; [lia|by constructor| |done]. by rewrite Hs, Hr.
Qed.

Lemma returns_mono n m w : (n <= m)%nat -> returns n w -> returns m w.
Proof. intros Hle (evs & w' & outs & Hn & ?). exists evs, w', outs. split; [lia|done]. Qed.

Lemma returns_final k : forall w reads,
  wk_phase w = FinalHeartbeat reads -> (length reads + k >= 4)%nat -> returns (S k) w.
Proof.
  induction k as [|k IH]; intros w reads Hp Hk.
  - eapply returns_step with (ev := FinalTurn); [simpl; unfold final_turn; rewrite Hp|done|].
    { rewrite bool_decide_eq_false_2 by lia. done. }
    eexists [], _, []. split_and!; [simpl; lia|done|done|done].
  - destruct (decide (length reads < 4)%nat).
    + eapply returns_step with (ev := FinalTurn); [simpl; unfold final_turn; rewrite Hp|done|].
      { rewrite bool_decide_eq_true_2 by done. done. }
      eapply IH; [done|]. rewrite length_app. simpl. lia.
    + eapply returns_mono; [|eapply (IH w reads); [done|lia]]. lia.
Qed.

(** What waits in the batcher's channel. *)
Definition queued (w : Worker) : nat := match wk_batcher w with Some b => length (b_in b) | None => 0 end.

(** The flush loop of a worker runs by itself. *)
Lemma worker_run_batcher es : forall w b b' fs,
  Forall (fun e => e = StopSeen \/ e = DrainReceive \/ e = DrainEnd) es ->
  wk_batcher w = Some b -> batcher_run (max_size w) b es = Some (b', fs) ->
  worker_run w (map BatcherMoves es) = Some (set_batcher b' w, map Flushes fs).
Proof.
  induction es as [|e es IH]; intros w b b' fs He Hb Hr; cbn [batcher_run map worker_run] in *.
  - injection Hr as <- <-. simpl. do 2 f_equal. destruct w; simpl in *. by subst.
  - apply Forall_cons in He as [He Hes]. destruct (batcher_step (max_size w) b e) as [[b1 f1]|] eqn:Hs; [|done].
    destruct (batcher_run (max_size w) b1 es) as [[b2 f2]|] eqn:Hr2; [|done]. injection Hr as <- <-.
    assert (Hw : worker_step w (BatcherMoves e) = Some (set_batcher b1 w, map Flushes f1)).
    { unfold worker_step. assert (Hst : step_batcher e w = Some (set_batcher b1 w, map Flushes f1)).
      { unfold step_batcher. by rewrite Hb, Hs. }
      by destruct He as [-> |[-> | ->]]. }
    rewrite Hw, (IH (set_batcher b1 w) b1 b2 f2 Hes eq_refl Hr2). by rewrite map_app.
Qed.

Lemma returns_run n m w evs w1 o :
  worker_run w evs = Some (w1, o) -> Forall unaided evs -> (length evs <= m)%nat -> returns n w1 -> returns (m + n) w.
Proof.
  revert w m o. induction evs as [|ev evs IH]; simpl; intros w m o Hr Hu Hm Hn.
  - injection Hr as <- <-. eapply returns_mono; [|exact Hn]. lia.
  - destruct (worker_step w ev) as [[w2 o2]|] eqn:Hs; [|done].
    destruct (worker_run w2 evs) as [[w3 o3]|] eqn:Hr2; [|done]. injection Hr as <- <-.
    apply Forall_cons in Hu as [Hev Hu]. destruct m as [|m]; [lia|].
    eapply (returns_step (m + n)); [exact Hs|done|]. eapply IH; [exact Hr2|done|lia|done].
Qed.

(** The steps of a drain that has not ended. *)
Definition drain_events (b : Batcher) : list batcher_event :=
  (if b_draining b then [] else [StopSeen]) ++ replicate (length (b_in b)) DrainReceive ++ [DrainEnd].

Lemma batcher_ends m b : b_stopped b = true -> b_exited b = false ->
  exists b' fs, batcher_run m b (drain_events b) = Some (b', fs) /\ b_exited b' = true.
Proof.
  intros Hs Hx. unfold drain_events. destruct (b_draining b) eqn:Hd.
  - destruct (batcher_drains m b Hd Hx) as (b' & fs & Hr & Hx' & _). by exists b', fs.
  - set (b1 := {| b_in := b_in b; b_pending := b_pending b; b_stopped := true; b_draining := true; b_exited := b_exited b |}).
    destruct (batcher_drains m b1 eq_refl Hx) as (b' & fs & Hr & Hx' & _). exists b', ([] ++ fs).
    split; [|done]. apply (batcher_run_app m [StopSeen] _ b b1); [|exact Hr]. simpl. by rewrite Hs, Hd.
Qed.

Lemma returns_flush w evs outs : run_inv w evs outs -> wk_phase w = StopBatcher -> returns (8 + queued w) w.
Proof.
  intros Hinv Hp.
  destruct (ri_has _ _ _ Hinv Hp) as [b Hb].
  destruct (ri_batcher _ _ _ Hinv _ Hb) as (Hst & _). rewrite Hp in Hst.
  assert (Hs : b_stopped b = true) by (apply Hst; simpl; lia).
  assert (Hx : forall w, wk_phase w = StopBatcher -> (exists b, wk_batcher w = Some b /\ b_exited b = true) -> returns 6 w).
  { intros w1 Hp1 (b1 & Hb1 & Hx1). eapply returns_step with (ev := BatcherDone); [|done|].
    - simpl. by rewrite Hp1, Hb1, Hx1.
    - eapply (returns_final 4 _ []); [done|simpl; lia]. }
  destruct (b_exited b) eqn:He; [eapply returns_mono; [|apply Hx; [done|by exists b]]; lia|].
  destruct (batcher_ends (max_size w) b Hs He) as (b' & fs & Hr & Hx').
  apply (returns_mono (2 + queued w + 6)); [lia|].
  assert (Hes : Forall (fun e => e = StopSeen \/ e = DrainReceive \/ e = DrainEnd) (drain_events b)).
  { unfold drain_events. repeat apply Forall_app_2; [destruct (b_draining b)|apply Forall_replicate|]; auto. }
  eapply returns_run; [by eapply worker_run_batcher| | |apply Hx; [done|by exists b']].
  - apply Forall_map. exact Hes.
  - unfold queued. rewrite Hb, length_map. unfold drain_events. rewrite !length_app, length_replicate.
    destruct (b_draining b); simpl; lia.
Qed.

Lemma returns_heartbeats_done w evs outs :
  run_inv w evs outs -> wk_phase w = StopHeartbeats -> wk_hb w = Ended -> returns (9 + queued w) w.
Proof.
  intros Hinv Hp Hhb. assert (Hs : exists w1 o1, worker_step w HeartbeatsDone = Some (w1, o1) /\
    queued w1 = queued w /\ (wk_phase w1 = StopBatcher \/ wk_phase w1 = FinalHeartbeat [])).
  { simpl. rewrite Hp, Hhb. destruct (wk_batcher w) as [b|] eqn:Hb; [|eexists _, _; split_and!; [done|done|by right]].
    destruct (ri_batcher _ _ _ Hinv _ Hb) as ([Hst _] & _). rewrite Hp in Hst. simpl in Hst.
    unfold step_batcher. rewrite Hb. simpl. destruct (b_stopped b); [specialize (Hst eq_refl); lia|].
    eexists _, _. split_and!; [done| |by left]. unfold queued. simpl. by rewrite Hb. }
  destruct Hs as (w1 & o1 & Hs & Hq & [Hp1|Hp1]); eapply returns_step; try done.
  - rewrite <-Hq. eapply returns_flush; [by eapply inv_step|done].
  - eapply (returns_mono 5); [lia|eapply (returns_final 4 _ []); [done|simpl; lia]].
Qed.

Lemma heartbeat_moves w evs outs :
  run_inv w evs outs -> wk_phase w = StopHeartbeats -> wk_hb w <> Ended ->
  exists w1 o1, worker_step w HeartbeatTurn = Some (w1, o1) /\ wk_phase w1 = StopHeartbeats /\ queued w1 = queued w /\
    wk_hb w1 = match wk_hb w with
               | Reading reads => if bool_decide (length reads < 4)%nat
                                  then Reading (reads ++ [next_read (wk_pool w) reads]) else Sleeping
               | _ => Ended
               end.
Proof.
  intros Hinv Hp Hne. simpl. unfold heartbeat_turn. destruct (wk_hb w) as [reads| |]; [| |done].
  - case_bool_decide; eexists _, _; split_and!; done.
  - assert (wk_hbCancelled w = true) as -> by (apply (ri_hb _ _ _ Hinv); rewrite Hp; simpl; lia).
    eexists _, _; split_and!; done.
Qed.

(** How many turns the heartbeat loop still needs. *)
Definition beats_left (h : heartbeat) : nat :=
  match h with Reading reads => 2 + (4 - length reads) | Sleeping => 1 | Ended => 0 end%nat.

Lemma returns_heartbeats k : forall w evs outs,
  run_inv w evs outs -> wk_phase w = StopHeartbeats -> (beats_left (wk_hb w) <= k)%nat ->
  returns (9 + queued w + k) w.
Proof.
  induction k as [|k IH]; intros w evs outs Hinv Hp Hk.
  - rewrite Nat.add_0_r. eapply returns_heartbeats_done; [done|done|]. destruct (wk_hb w); simpl in Hk; by lia || done.
  - destruct (decide (wk_hb w = Ended)) as [He|Hne].
    + eapply (returns_mono (9 + queued w)); [lia|by eapply returns_heartbeats_done].
    + destruct (heartbeat_moves w evs outs Hinv Hp Hne) as (w1 & o1 & Hs & Hp1 & Hq1 & Hh1).
      rewrite Nat.add_succ_r. eapply returns_step; [exact Hs|done|].
      rewrite <-Hq1. eapply IH; [by eapply inv_step|done|]. rewrite Hh1.
      destruct (wk_hb w) as [reads| |]; simpl in *; try lia.
      case_bool_decide; simpl; rewrite ?length_app; simpl; lia.
Qed.

Lemma beats_left_max h : (beats_left h <= 6)%nat.
Proof. destruct h; simpl; lia. Qed.

Lemma returns_always w evs outs : run_inv w evs outs -> wk_phase w <> Returned -> returns (18 + queued w) w.
Proof.
  intros Hinv Hne.
  assert (Hstop : forall w1 evs1 outs1, run_inv w1 evs1 outs1 -> wk_phase w1 = StopHeartbeats -> returns (15 + queued w1) w1).
  { intros w1 evs1 outs1 Hi Hp. eapply (returns_mono (9 + queued w1 + 6)); [lia|].
    eapply (returns_heartbeats 6); [done|done|apply beats_left_max]. }
  assert (Hgrace : forall w1 evs1 outs1, run_inv w1 evs1 outs1 -> wk_phase w1 = GraceWait -> returns (16 + queued w1) w1).
  { intros w1 evs1 outs1 Hi Hp. assert (Hs : worker_step w1 GraceFired = Some (drained w1, [])) by (simpl; by rewrite Hp).
    eapply (returns_step (15 + queued w1)); [exact Hs|done|].
    eapply (Hstop (drained w1)); [by eapply inv_step|done]. }
  assert (Hdrain : forall w1 evs1 outs1, run_inv w1 evs1 outs1 -> wk_phase w1 = DrainWait -> returns (17 + queued w1) w1).
  { intros w1 evs1 outs1 Hi Hp.
    assert (Hs : worker_step w1 DrainTimeoutFired = Some (set_phase GraceWait (cancel_jobs w1), [])) by (simpl; by rewrite Hp).
    eapply (returns_step (16 + queued w1)); [exact Hs|done|].
    eapply (Hgrace (set_phase GraceWait (cancel_jobs w1))); [by eapply inv_step|done]. }
  destruct (wk_phase w) as [| | | | |reads|] eqn:Hp; [| | | | | |done].
  - assert (Hs : worker_step w CtxDone = Some (set_phase DrainWait (set_pool (cancel_fetch (wk_pool w)) w), []))
      by (simpl; by rewrite Hp).
    eapply (returns_step (17 + queued w)); [exact Hs|done|].
    eapply (Hdrain (set_phase DrainWait (set_pool (cancel_fetch (wk_pool w)) w))); [by eapply inv_step|done].
  - eapply (returns_mono (17 + queued w)); [lia|by eapply Hdrain].
  - eapply (returns_mono (16 + queued w)); [lia|by eapply Hgrace].
  - eapply (returns_mono (15 + queued w)); [lia|by eapply Hstop].
  - eapply (returns_mono (8 + queued w)); [lia|by eapply returns_flush].
  - eapply (returns_mono 5); [lia|eapply (returns_final 4); [done|lia]].
Qed.

Lemma queued_bound cfg evs w outs :
  worker_run (fresh cfg) evs = Some (w, outs) -> (queued w <= 2 * Z.to_nat (BatchMaxSize cfg))%nat.
Proof.
  intros Hr. destruct (worker_run_parts _ _ _ _ Hr) as (_ & _ & Hb). unfold queued.
  destruct (wk_batcher (fresh cfg)) as [b0|] eqn:Hb0.
  - destruct Hb as (b & -> & Hbr). apply batcher_run_room in Hbr; [done|].
    simpl in Hb0. destruct (BatchWrites cfg); simplify_eq/=. lia.
  - destruct Hb as (-> & _). lia.
Qed.

(** C30. [Run] returns. From every state a worker can reach and has not left,
    even if the pool never turns again and no job ever finishes, at most eighteen
    steps of the signal, the two timers, the heartbeat loop and the flush loop,
    and one more for each outcome that waits in the batcher's channel (never more
    than twice [BatchMaxSize] of them), are enough for [Run] to return. *)
Theorem Worker_returns (cfg : Config) (evs : list worker_event) (w : Worker) (outs : list output) :
  worker_run (fresh cfg) evs = Some (w, outs) -> wk_phase w <> Returned ->
  exists evs' w' outs', (length evs' <= 18 + queued w)%nat /\ (queued w <= 2 * Z.to_nat (BatchMaxSize cfg))%nat /\
    Forall unaided evs' /\ worker_run w evs' = Some (w', outs') /\ wk_phase w' = Returned.
Proof.
  intros Hr Hne. pose proof (inv_worker_run _ _ _ _ _ _ (fresh_inv cfg) Hr) as Hinv. simpl in Hinv.
  destruct (returns_always w evs outs Hinv Hne) as (evs' & w' & outs' & H).
  exists evs', w', outs'. split; [apply H|]. split; [by eapply queued_bound|apply H].
Qed.
End worker.

(** ** Witnesses *)

(** The defaults, with a worker id. *)
Definition demo_settings : Config := (Load (fun _ => None) "host" 7).1.

(** One job is fetched, runs, records its completion and ends; the signal
    arrives, the pool ends, the heartbeat and flush loops stop. *)
Definition demo_worker_evs : list worker_event :=
  [PoolMoves LoopTurn; PoolMoves (FetchReturned [demo_pool_delivery "j1"] None); PoolMoves LoopTurn;
   HeartbeatTurn; HeartbeatTurn; HeartbeatTurn; HeartbeatTurn; HeartbeatTurn;
   JobRecords (demo_op opComplete 1); PoolMoves LoopTurn; PoolMoves LoopTurn; CtxDone;
   PoolMoves (FetchReturned [] None); PoolMoves LoopTurn; PoolMoves LoopTurn; PoolMoves (JobDone 0);
   PoolMoves LoopTurn; PoolDone; HeartbeatTurn; HeartbeatsDone;
  BatcherMoves StopSeen; BatcherMoves DrainReceive; BatcherMoves DrainEnd; BatcherDone; FinalTurn; FinalTurn; FinalTurn; FinalTurn; FinalTurn].

Lemma Worker_drains_witness :
  exists w outs, worker_run "host" 7 (fresh demo_settings) demo_worker_evs = Some (w, outs) /\
    flushes outs = [[demo_op opComplete 1]] /\
    map wi_State (omap (fun o => match o with Beats i => Some i | _ => None end) outs) = ["active"; "draining"] /\
    signed_off outs /\ concat (flushes outs) = recorded demo_worker_evs.
Proof.
  eexists _, _. split; [vm_compute; reflexivity|]. split; [reflexivity|]. split; [reflexivity|].
  edestruct (Worker_drains "host" 7 demo_settings demo_worker_evs) as (_ & _ & Hret);
    [vm_compute; discriminate|vm_compute; reflexivity|].
  destruct (Hret eq_refl) as [Hoff Hall]. split; [exact Hoff|]. apply Hall. reflexivity.
Defined.

(** The same worker stopped in the middle: its job never ends, and [Run] returns. *)
Lemma Worker_returns_witness :
  exists w outs evs' w' outs', worker_run "host" 7 (fresh demo_settings) (take 9 demo_worker_evs) = Some (w, outs) /\
    map del_EntryID (p_running (wk_pool w)) = ["j1"] /\ (length evs' <= 19)%nat /\
    worker_run "host" 7 w evs' = Some (w', outs') /\ wk_phase w' = Returned.
Proof.
  edestruct (Worker_returns "host" 7 demo_settings (take 9 demo_worker_evs)) as (evs' & w' & outs' & Hn & _ & _ & Hr & Hp);
    [vm_compute; reflexivity|discriminate|].
  eexists _, _, evs', w', outs'. split; [vm_compute; reflexivity|]. split; [reflexivity|].
  split; [exact Hn|]. split; [exact Hr|exact Hp].
Defined.

(** [Load] checks neither the size nor the interval of a batch: with a negative
    size [make(chan op, maxSize*2)] of [NewBatcher] panics, with an interval
    that is not positive [time.NewTicker] does. *)
Example Load_accepts_what_the_batcher_cannot :
  let env k := if bool_decide (k = "CALLIGRAPHY_BATCH_MAX_SIZE") then Some "-1"
               else if bool_decide (k = "CALLIGRAPHY_BATCH_INTERVAL") then Some "0s" else None in
  let '(c, e) := Load env "w" 1 in
  e = None /\ BatchWrites c = true /\ BatchMaxSize c = -1 /\ BatchInterval c = 0.
Proof. by vm_compute. Qed.
