(* ===== verification/Control.v ===== *)
(** * Control: the hub of live workers and the worker's side of it

    Models [internal/control/server.go] (the sessions, their command queues,
    eviction on reconnect) and [internal/control/client.go] (dispatch of a
    command to the pool, the reconnect backoff).  The protobuf messages are
    generated code: here they are plain data.  A pointer to a session is its
    allocation number. *)

From S2P Require Import Prelude Errors Job Queue Pool.
Local Open Scope string_scope.
Local Open Scope list_scope.
Local Open Scope Z_scope.

(** ** Messages *)

Record WorkerHello := {
  wh_WorkerId : string; wh_Hostname : string; wh_Pid : Z; wh_Concurrency : Z; wh_Types : list string
}.
(** [Utilization] is the quotient of the two numbers. *)
Record WorkerStats := {
  ws_Active : Z; ws_Target : Z; ws_Processed : Z; ws_Utilization : Z * Z; ws_Paused : bool
}.
Inductive command := CmdDrain | CmdPause | CmdResume | CmdSetConcurrency (target : Z).
Record Command := { CommandId : string; Cmd : command }.

(** ** The hub *)

Definition cmds_cap : nat := 16.

Record session := {
  ss_hello : WorkerHello; ss_stats : option WorkerStats; ss_connectedAt : Time;
  ss_lastStatsAt : Time; ss_cmds : list Command; ss_done : bool;
  ss_open : bool      (* the stream handler has not returned *)
}.

Record Hub := { h_store : gmap nat session; h_sessions : gmap string nat; h_next : nat }.
Definition NewHub : Hub := {| h_store := ∅; h_sessions := ∅; h_next := 0 |}.

Definition with_done (s : session) : session :=
  {| ss_hello := ss_hello s; ss_stats := ss_stats s; ss_connectedAt := ss_connectedAt s;
     ss_lastStatsAt := ss_lastStatsAt s; ss_cmds := ss_cmds s; ss_done := true; ss_open := ss_open s |}.
Definition with_closed (s : session) : session :=
  {| ss_hello := ss_hello s; ss_stats := ss_stats s; ss_connectedAt := ss_connectedAt s;
     ss_lastStatsAt := ss_lastStatsAt s; ss_cmds := ss_cmds s; ss_done := ss_done s; ss_open := false |}.
Definition with_cmds (c : list Command) (s : session) : session :=
  {| ss_hello := ss_hello s; ss_stats := ss_stats s; ss_connectedAt := ss_connectedAt s;
     ss_lastStatsAt := ss_lastStatsAt s; ss_cmds := c; ss_done := ss_done s; ss_open := ss_open s |}.
Definition with_stats (st : WorkerStats) (now : Time) (s : session) : session :=
  {| ss_hello := ss_hello s; ss_stats := Some st; ss_connectedAt := ss_connectedAt s;
     ss_lastStatsAt := now; ss_cmds := ss_cmds s; ss_done := ss_done s; ss_open := ss_open s |}.

Definition upd (sid : nat) (f : session -> session) (h : Hub) : Hub :=
  {| h_store := alter f sid (h_store h); h_sessions := h_sessions h; h_next := h_next h |}.

Definition terminate (sid : nat) (h : Hub) : Hub := upd sid with_done h.

Definition register (id : string) (sid : nat) (h : Hub) : Hub :=
  let h := match h_sessions h !! id with Some old => terminate old h | None => h end in
  {| h_store := h_store h; h_sessions := <[id := sid]> (h_sessions h); h_next := h_next h |}.

Definition unregister (id : string) (sid : nat) (h : Hub) : Hub :=
  let h := terminate sid h in
  if bool_decide (h_sessions h !! id = Some sid)
  then {| h_store := h_store h; h_sessions := delete id (h_sessions h); h_next := h_next h |}
  else h.

Definition updateStats (sid : nat) (st : WorkerStats) (now : Time) (h : Hub) : Hub :=
  upd sid (with_stats st now) h.

(** [WorkerStream] after its hello: a new session, registered. *)
Definition connect (hello : WorkerHello) (now : Time) (h : Hub) : nat * Hub :=
  let sid := h_next h in
  let s := {| ss_hello := hello; ss_stats := None; ss_connectedAt := now; ss_lastStatsAt := zero_time;
              ss_cmds := []; ss_done := false; ss_open := true |} in
  (sid, register (wh_WorkerId hello) sid
          {| h_store := <[sid := s]> (h_store h); h_sessions := h_sessions h; h_next := S sid |}).

(** The return of the stream handler: the deferred [unregister]. *)
Definition disconnect (sid : nat) (h : Hub) : Hub :=
  match h_store h !! sid with
  | Some s => unregister (wh_WorkerId (ss_hello s)) sid (upd sid with_closed h)
  | None => h
  end.

Inductive HubError := NotConnected (id : string) | QueueFull (id : string) | TargetTooSmall.

(** The select on the session's channel has a default: it never blocks. *)
Definition push (id : string) (sid : nat) (cmd : Command) (h : Hub) : option HubError * Hub :=
  match h_store h !! sid with
  | Some s =>
      if bool_decide (length (ss_cmds s) < cmds_cap)%nat
      then (None, upd sid (with_cmds (ss_cmds s ++ [cmd])) h)
      else (Some (QueueFull id), h)
  | None => (Some (NotConnected id), h)
  end.

(** [send] reads the session under the lock and queues after releasing it. *)
Definition send (id : string) (cmd : Command) (h : Hub) : option HubError * Hub :=
  match h_sessions h !! id with
  | None => (Some (NotConnected id), h)
  | Some sid => push id sid cmd h
  end.

(** [fmt.Sprintf("cmd-%d", time.Now().UnixNano())]. *)
Definition cmdID (now : Time) : string := "cmd-" +:+ pretty now.
Definition Drain (id : string) (now : Time) (h : Hub) : option HubError * Hub :=
  send id {| CommandId := cmdID now; Cmd := CmdDrain |} h.
Definition Hub_Pause (id : string) (now : Time) (h : Hub) : option HubError * Hub :=
  send id {| CommandId := cmdID now; Cmd := CmdPause |} h.
Definition Hub_Resume (id : string) (now : Time) (h : Hub) : option HubError * Hub :=
  send id {| CommandId := cmdID now; Cmd := CmdResume |} h.
Definition SetConcurrency (id : string) (target : Z) (now : Time) (h : Hub) : option HubError * Hub :=
  if target <? 1 then (Some TargetTooSmall, h)
  else send id {| CommandId := cmdID now; Cmd := CmdSetConcurrency (int32 target) |} h.

(** The sender goroutine takes one command off its queue; it may do so after the
    session ended, when its select has both cases ready. *)
Definition sender_take (sid : nat) (h : Hub) : option (Command * Hub) :=
  match h_store h !! sid with
  | Some s => match ss_cmds s with
              | c :: cs => Some (c, upd sid (with_cmds cs) h)
              | [] => None
              end
  | None => None
  end.

Record WorkerView := {
  wv_ID : string; wv_Hostname : string; wv_PID : Z; wv_Active : Z; wv_Target : Z; wv_Processed : Z;
  wv_Utilization : Z * Z; wv_Paused : bool; wv_Types : list string; wv_ConnectedAt : Time;
  wv_LastStatsAt : Time
}.
Definition view (id : string) (s : session) : WorkerView :=
  {| wv_ID := id; wv_Hostname := wh_Hostname (ss_hello s); wv_PID := wh_Pid (ss_hello s);
     wv_Active := default 0 (ws_Active <$> ss_stats s); wv_Target := default 0 (ws_Target <$> ss_stats s);
     wv_Processed := default 0 (ws_Processed <$> ss_stats s);
     wv_Utilization := default (0, 1) (ws_Utilization <$> ss_stats s);
     wv_Paused := default false (ws_Paused <$> ss_stats s); wv_Types := wh_Types (ss_hello s);
     wv_ConnectedAt := ss_connectedAt s; wv_LastStatsAt := ss_lastStatsAt s |}.
Definition Workers (h : Hub) : list WorkerView :=
  omap (fun '(id, sid) => view id <$> h_store h !! sid) (map_to_list (h_sessions h)).

(** ** The worker's side *)

(** The stats of one interval; [pool] is what [PoolControls] shows. *)
Definition stats_of (p : Pool) : WorkerStats :=
  {| ws_Active := int32 (p_active p); ws_Target := int32 (p_target p); ws_Processed := p_processed p;
     ws_Utilization := if 0 <? p_target p then (p_active p, p_target p) else (0, 1);
     ws_Paused := p_paused p |}.

(** [dispatch]: the pool afterwards, the detail of the ack, whether [OnDrain]
    was called. *)
Definition dispatch (c : Command) (p : Pool) : Pool * string * bool :=
  match Cmd c with
  | CmdDrain => (p, "draining", true)
  | CmdPause => (SetPaused true p, "paused", false)
  | CmdResume => (SetPaused false p, "resumed", false)
  | CmdSetConcurrency t => (SetTarget t p, "concurrency updated", false)
  end.

(** The pause before the next connection attempt, after a lost stream. *)
Definition next_reconnect (b : Duration) : Duration := if b <? 30 * Second then b * 2 else b.
Fixpoint reconnects (n : nat) (b : Duration) : Duration :=
  match n with O => b | S n' => reconnects n' (next_reconnect b) end.

(** ** The life of the hub *)

Inductive hub_event :=
| Connected (hello : WorkerHello) (now : Time)
| Disconnected (sid : nat)
| StatsArrived (sid : nat) (st : WorkerStats) (now : Time)
| CommandTaken (sid : nat)
| CommandSent (id : string) (cmd : Command)
| CommandPushed (sid : nat) (cmd : Command).   (* a [send] that read the session earlier *)

Definition hub_step (h : Hub) (ev : hub_event) : Hub :=
  match ev with
  | Connected hello now => (connect hello now h).2
  | Disconnected sid => disconnect sid h
  | StatsArrived sid st now => updateStats sid st now h
  | CommandTaken sid => match sender_take sid h with Some (_, h') => h' | None => h end
  | CommandSent id cmd => (send id cmd h).2
  | CommandPushed sid cmd => (push EmptyString sid cmd h).2
  end.
Definition hub_run (evs : list hub_event) : Hub := foldl hub_step NewHub evs.

(** A session whose stream is up and that was not evicted. *)
Definition live (h : Hub) (sid : nat) (id : string) : Prop :=
  exists s, h_store h !! sid = Some s /\ wh_WorkerId (ss_hello s) = id /\
    ss_open s = true /\ ss_done s = false.

Record hub_inv (h : Hub) : Prop := {
  hi_registered : forall id sid, h_sessions h !! id = Some sid <-> live h sid id;
  hi_fresh : forall sid, is_Some (h_store h !! sid) -> (sid < h_next h)%nat;
  hi_cmds : forall sid s, h_store h !! sid = Some s -> (length (ss_cmds s) <= cmds_cap)%nat
}.

(** Changing what is neither identity nor life of one session. *)
Lemma upd_live f sid h :
  (forall s, wh_WorkerId (ss_hello (f s)) = wh_WorkerId (ss_hello s) /\
     ss_open (f s) = ss_open s /\ ss_done (f s) = ss_done s) ->
  forall sid' id, live (upd sid f h) sid' id <-> live h sid' id.
Proof.
  intros Hf sid' id. unfold live, upd. simpl. destruct (decide (sid = sid')) as [->|Hne].
  - rewrite lookup_alter_eq. destruct (h_store h !! sid') as [s|]; simpl; [|naive_solver].
    destruct (Hf s) as (H1 & H2 & H3). split; intros (x & [= <-] & ? & ? & ?);
      [exists s|exists (f s)]; split_and!; congruence.
  - by rewrite lookup_alter_ne.
Qed.

Lemma upd_inv f sid h :
  (forall s, wh_WorkerId (ss_hello (f s)) = wh_WorkerId (ss_hello s) /\
     ss_open (f s) = ss_open s /\ ss_done (f s) = ss_done s) ->
  (forall s, h_store h !! sid = Some s -> (length (ss_cmds (f s)) <= cmds_cap)%nat) ->
  hub_inv h -> hub_inv (upd sid f h).
Proof.
  intros Hf Hc [Hr Hn Hcm]. constructor; simpl.
  - intros id sid'. rewrite upd_live by done. apply Hr.
  - intros sid' [s Hs]. apply Hn. apply lookup_alter_Some in Hs as [(-> & ? & ? & _)|[_ ?]]; eauto.
  - intros sid' s Hs. apply lookup_alter_Some in Hs as [(-> & ? & ? & ->)|[_ ?]]; eauto.
Qed.

(** Ending one session: it is dead, the others live as before. *)
Lemma live_ended f sid h :
  (forall s, ss_open (f s) = false \/ ss_done (f s) = true) ->
  forall sid' id, live (upd sid f h) sid' id <-> live h sid' id /\ sid' <> sid.
Proof.
  intros Hf sid' id. unfold live, upd. simpl. destruct (decide (sid = sid')) as [->|Hne].
  - rewrite lookup_alter_eq. split; [|tauto]. intros (x & Hx & _ & Ho & Hd).
    destruct (h_store h !! sid') as [s|]; [|done]. injection Hx as <-. destruct (Hf s); congruence.
  - rewrite lookup_alter_ne by done. naive_solver.
Qed.

Lemma upd_store f sid h sid' s :
  (forall s, ss_cmds (f s) = ss_cmds s) ->
  h_store (upd sid f h) !! sid' = Some s ->
  exists s0, h_store h !! sid' = Some s0 /\ ss_cmds s = ss_cmds s0.
Proof.
  intros Hf Hs. simpl in Hs. apply lookup_alter_Some in Hs as [(-> & s0 & ? & ->)|[_ ?]]; eauto.
Qed.

(** A new session under a number that was never used. *)
Lemma live_alloc sid s h h' :
  h_store h !! sid = None -> h_store h' = <[sid := s]> (h_store h) ->
  ss_open s = true -> ss_done s = false ->
  forall sid' id, live h' sid' id <-> (sid' = sid /\ id = wh_WorkerId (ss_hello s)) \/ live h sid' id.
Proof.
  intros Hnone Hst Ho Hd sid' id. unfold live. rewrite Hst.
  destruct (decide (sid' = sid)) as [->|Hne].
  - rewrite lookup_insert_eq, Hnone. split; [intros (x & [= <-] & <- & _); by left|].
    intros [[_ ->]|(? & ? & _)]; [|done]. by exists s.
  - rewrite lookup_insert_ne by done. naive_solver.
Qed.

(** Who lives after a worker connected: its new session, and the sessions of
    the others. *)
Lemma connect_live hello now h :
  hub_inv h -> forall sid' id',
  live (connect hello now h).2 sid' id' <->
    (sid' = h_next h /\ id' = wh_WorkerId hello) \/ (live h sid' id' /\ id' <> wh_WorkerId hello).
Proof.
  intros [Hr Hn Hcm] sid' id'. set (id := wh_WorkerId hello).
  assert (Hnew : h_store h !! h_next h = None).
  { destruct (h_store h !! h_next h) eqn:E; [|done].
    specialize (Hn _ (mk_is_Some _ _ E)). lia. }
  unfold connect. cbn [snd]. set (s := Build_session _ _ _ _ _ _ _). fold id.
  set (h1 := Build_Hub (<[h_next h := s]> (h_store h)) (h_sessions h) (S (h_next h))).
  pose proof (live_alloc (h_next h) s h h1 Hnew eq_refl eq_refl eq_refl) as H1.
  assert (Hlive : forall sid0 id0, live h sid0 id0 -> sid0 <> h_next h).
  { intros sid0 id0 (x & Hx & _) ->. congruence. }
  change (live (register id (h_next h) h1) sid' id') with
    (live (match h_sessions h !! id with Some old => terminate old h1 | None => h1 end) sid' id').
  destruct (h_sessions h !! id) as [old|] eqn:Hold.
  - unfold terminate. rewrite live_ended by (intros; by right). rewrite H1. simpl. fold id.
    pose proof (proj1 (Hr id old) Hold) as Hlo. split.
    + intros [[[-> ->]|Hl] Hne]; [by left|right]. split; [done|]. intros ->.
      apply Hr in Hl. congruence.
    + intros [[-> ->]|[Hl Hne]]; (split; [tauto|]).
      * intros E. by apply (Hlive old id Hlo).
      * intros ->. apply Hne. destruct Hl as (x & Hx & <- & _), Hlo as (y & Hy & <- & _). congruence.
  - rewrite H1. simpl. fold id. split; [|tauto].
    intros [?|Hl]; [by left|right]. split; [done|]. intros ->. apply Hr in Hl. congruence.
Qed.

Lemma connect_inv hello now h : hub_inv h -> hub_inv (connect hello now h).2.
Proof.
  intros Hi. pose proof (connect_live hello now h Hi) as Hl. destruct Hi as [Hr Hn Hcm].
  assert (Hst : forall sid x, h_store (connect hello now h).2 !! sid = Some x ->
    sid = h_next h /\ ss_cmds x = [] \/ exists y, h_store h !! sid = Some y /\ ss_cmds x = ss_cmds y).
  { intros sid x Hx. unfold connect, register in Hx. simpl in Hx.
    assert (Hx' : exists y, (<[h_next h := Build_session hello None now zero_time [] false true]> (h_store h)) !! sid = Some y
      /\ ss_cmds x = ss_cmds y).
    { destruct (h_sessions h !! wh_WorkerId hello); simpl in Hx; [|eauto].
      apply lookup_alter_Some in Hx as [(-> & y & ? & ->)|[_ ?]]; eauto. }
    destruct Hx' as (y & Hy & ->). apply lookup_insert_Some in Hy as [[<- <-]|[_ Hy]]; [by left|right; eauto]. }
  constructor.
  - intros id' sid'. rewrite Hl, <-Hr. unfold connect, register. simpl.
    destruct (h_sessions h !! wh_WorkerId hello); simpl; rewrite lookup_insert_Some; naive_solver.
  - intros sid [x Hx]. assert (Hnx : h_next (connect hello now h).2 = S (h_next h)).
    { unfold connect, register. simpl. by destruct (h_sessions h !! _). }
    rewrite Hnx. destruct (Hst _ _ Hx) as [[-> _]|(y & Hy & _)]; [lia|].
    specialize (Hn _ (mk_is_Some _ _ Hy)). lia.
  - intros sid x Hx. destruct (Hst _ _ Hx) as [[_ ->]|(y & Hy & ->)]; [simpl; unfold cmds_cap; lia|eauto].
Qed.

Lemma disconnect_inv sid h : hub_inv h -> hub_inv (disconnect sid h).
Proof.
  intros [Hr Hn Hcm]. unfold disconnect. destruct (h_store h !! sid) as [s|] eqn:Hs; [|by constructor].
  set (id := wh_WorkerId (ss_hello s)). unfold unregister.
  set (h1 := terminate sid (upd sid with_closed h)).
  assert (Hl1 : forall sid' id', live h1 sid' id' <-> live h sid' id' /\ sid' <> sid).
  { intros sid' id'. unfold h1, terminate. rewrite live_ended by (intros; by right).
    rewrite live_ended by (intros; by left). tauto. }
  assert (Hst : forall sid' x, h_store h1 !! sid' = Some x -> exists y, h_store h !! sid' = Some y /\ ss_cmds x = ss_cmds y).
  { intros sid' x Hx. apply upd_store in Hx as (y & Hy & ->); [|done].
    apply upd_store in Hy as (z & Hz & ->); [|done]. eauto. }
  assert (Hone : forall id', live h sid id' -> id' = id).
  { intros id' (x & Hx & <- & _). unfold id. congruence. }
  change (h_sessions h1) with (h_sessions h). change (h_store h1) with (h_store h1).
  case_bool_decide as Hreg; constructor; simpl.
  - intros id' sid'. rewrite lookup_delete_Some, Hr.
    change (live _ sid' id') with (live h1 sid' id') at 2. rewrite Hl1.
    split; intros [H1 H2].
    + split; [done|]. intros ->. apply H1. symmetry. by apply Hone.
    + split; [|done]. intros <-. apply H2. apply Hr in H1. congruence.
  - intros sid' [x Hx]. apply Hst in Hx as (y & Hy & _). eauto.
  - intros sid' x Hx. apply Hst in Hx as (y & Hy & ->). eauto.
  - intros id' sid'. change (h_sessions h1) with (h_sessions h). rewrite Hl1, Hr.
    split; [intros H1; split; [done|]|tauto]. intros ->. rewrite (Hone _ H1) in H1. by apply Hr in H1.
  - intros sid' [x Hx]. apply Hst in Hx as (y & Hy & _). eauto.
  - intros sid' x Hx. apply Hst in Hx as (y & Hy & ->). eauto.
Qed.

Lemma push_inv id sid cmd h : hub_inv h -> hub_inv (push id sid cmd h).2.
Proof.
  intros Hi. unfold push. destruct (h_store h !! sid) as [s|] eqn:Hs; [|done]. case_bool_decide; [|done].
  apply upd_inv; [done| |done]. intros s' Hs'. rewrite Hs in Hs'. injection Hs' as <-.
  simpl. rewrite length_app. simpl. lia.
Qed.

Lemma send_inv id cmd h : hub_inv h -> hub_inv (send id cmd h).2.
Proof. intros Hi. unfold send. destruct (h_sessions h !! id) as [sid|]; [by apply push_inv|done]. Qed.

Lemma hub_step_inv h ev : hub_inv h -> hub_inv (hub_step h ev).
Proof.
  intros Hi. destruct ev as [hello now|sid|sid st now|sid|id cmd|sid cmd]; simpl.
  - by apply connect_inv.
  - by apply disconnect_inv.
  - apply upd_inv; [done| |done]. intros s Hs. exact (hi_cmds h Hi sid s Hs).
  - unfold sender_take. destruct (h_store h !! sid) as [s|] eqn:Hs; [|done].
    destruct (ss_cmds s) as [|c cs] eqn:Hc; [done|].
    apply upd_inv; [done| |done]. intros s' Hs'. simpl.
    pose proof (hi_cmds h Hi sid s Hs) as Hlen. rewrite Hc in Hlen. simpl in Hlen. lia.
  - by apply send_inv.
  - by apply push_inv.
Qed.

Lemma hub_run_inv evs : hub_inv (hub_run evs).
Proof.
  unfold hub_run. assert (H0 : hub_inv NewHub).
  { constructor; unfold NewHub, live; simpl.
    - intros id sid. rewrite !lookup_empty. naive_solver.
    - intros sid. rewrite lookup_empty. by intros [].
    - intros sid s. by rewrite lookup_empty. }
  revert H0. generalize NewHub. induction evs as [|ev evs IH]; intros h Hi; [done|].
  apply IH. by apply hub_step_inv.
Qed.

(** C38. One live session per worker. Whatever connections, reconnections,
    losses, statistics and commands happened, a worker id is registered exactly
    to its one session that is up and was not evicted - so a reconnect always
    severs the older stream, and the late end of the old stream never removes
    the new session - every command queue holds at most 16 commands, and the
    snapshot lists each connected worker once. *)
Theorem hub_one_live_session (evs : list hub_event) :
  let h := hub_run evs in
  (forall id sid, h_sessions h !! id = Some sid <-> live h sid id) /\
  (forall id sid sid', live h sid id -> live h sid' id -> sid = sid') /\
  (forall sid s, h_store h !! sid = Some s -> (length (ss_cmds s) <= 16)%nat) /\
  NoDup (map wv_ID (Workers h)) /\
  (forall id, id ∈ map wv_ID (Workers h) <-> exists sid, live h sid id).
Proof.
  intros h. destruct (hub_run_inv evs) as [Hr Hn Hc]. fold h in Hr, Hn, Hc.
  assert (HW : map wv_ID (Workers h) = (map_to_list (h_sessions h)).*1).
  { unfold Workers. assert (Hall : forall id sid, (id, sid) ∈ map_to_list (h_sessions h) -> is_Some (h_store h !! sid)).
    { intros id sid Hin%elem_of_map_to_list%Hr. destruct Hin as (s & -> & _). eauto. }
    induction (map_to_list (h_sessions h)) as [|[id sid] l IH]; [done|]. simpl.
    destruct (Hall id sid) as [s Hs]; [by left|]. rewrite Hs. simpl. f_equal. apply IH.
    intros id' sid' Hin. eapply Hall. by right. }
  split_and!; [done| |done| |].
  - intros id sid sid' H1%Hr H2%Hr. congruence.
  - rewrite HW. apply NoDup_fst_map_to_list.
  - intros id. rewrite HW, list_elem_of_fmap. split.
    + intros ([id' sid] & -> & Hin%elem_of_map_to_list). exists sid. by apply Hr.
    + intros [sid Hl%Hr]. exists (id, sid). split; [done|]. by apply elem_of_map_to_list.
Qed.

(** ** Commands reach the pool *)

(** The next [n] commands the sender takes. *)
Fixpoint take_all (n : nat) (sid : nat) (h : Hub) : list Command :=
  match n with
  | O => []
  | S n' => match sender_take sid h with
            | Some (c, h') => c :: take_all n' sid h'
            | None => []
            end
  end.

Lemma take_all_spec cs : forall sid s h,
  h_store h !! sid = Some s -> ss_cmds s = cs ->
  take_all (length cs) sid h = cs.
Proof.
  induction cs as [|c cs IH]; intros sid s h Hs Hc; [done|]. simpl.
  unfold sender_take. rewrite Hs, Hc. f_equal.
  apply (IH sid (with_cmds cs s)); [|done]. simpl. by rewrite lookup_alter_eq, Hs.
Qed.

(** Operator commands arrive. In any state the hub can be in, a resize
    command for a connected worker is either refused because its queue is full
    or accepted, in which case the worker's stream delivers exactly the commands
    already queued, in order, and then this one, and dispatching it leaves the
    worker's pool with the target the operator asked for - provided the target
    fits the 32 bits of the message. A worker that is not connected, and a
    target below one, are refused and nothing changes. *)
Theorem SetConcurrency_arrives (evs : list hub_event) (id : string) (target : Z) (now : Time) (p : Pool) :
  1 <= target < 2 ^ 31 ->
  let h := hub_run evs in
  match SetConcurrency id target now h with
  | (Some (NotConnected id'), h') => id' = id /\ h' = h /\ forall sid, ~ live h sid id
  | (Some (QueueFull id'), h') => id' = id /\ h' = h /\
      exists sid s, live h sid id /\ h_store h !! sid = Some s /\ length (ss_cmds s) = 16%nat
  | (Some TargetTooSmall, _) => False
  | (None, h') =>
      exists sid s c, live h sid id /\ h_store h !! sid = Some s /\
        take_all (S (length (ss_cmds s))) sid h' = ss_cmds s ++ [c] /\
        p_target (dispatch c p).1.1 = target
  end.
Proof.
  intros Ht h. destruct (hub_run_inv evs) as [Hr Hn Hc]. fold h in Hr, Hn, Hc.
  unfold SetConcurrency. destruct (target <? 1) eqn:?; reflect_bools; [lia|].
  unfold send, push. destruct (h_sessions h !! id) as [sid|] eqn:Hreg.
  2: { split_and!; [done|done|]. intros sid Hl%Hr. congruence. }
  pose proof (proj1 (Hr id sid) Hreg) as Hl. destruct (Hl) as (s & Hs & Hid & Ho & Hd).
  rewrite Hs. case_bool_decide as Hlen.
  - set (c := Build_Command _ _). exists sid, s, c. split_and!; [done|done| |].
    + replace (S (length (ss_cmds s))) with (length (ss_cmds s ++ [c])) by (rewrite length_app; simpl; lia).
      apply (take_all_spec _ sid (with_cmds (ss_cmds s ++ [c]) s)); [|done].
      simpl. by rewrite lookup_alter_eq, Hs.
    + unfold dispatch, c. simpl. rewrite int32_id by lia. lia.
  - split_and!; [done|done|]. exists sid, s. split_and!; [done|done|].
    specialize (Hc sid s Hs). unfold cmds_cap in *. lia.
Qed.

(** ** Witnesses *)

Definition demo_hello : WorkerHello :=
  {| wh_WorkerId := "w1"; wh_Hostname := "host"; wh_Pid := 7; wh_Concurrency := 4; wh_Types := ["bench.sleep"] |}.

Lemma SetConcurrency_arrives_witness :
  exists sid s c, live (hub_run [Connected demo_hello 1]) sid "w1" /\
    h_store (hub_run [Connected demo_hello 1]) !! sid = Some s /\
    take_all (S (length (ss_cmds s))) sid
      (SetConcurrency "w1" 9 5 (hub_run [Connected demo_hello 1])).2 = ss_cmds s ++ [c] /\
    p_target (dispatch c (NewPool 4 8)).1.1 = 9.
Proof. apply (SetConcurrency_arrives [Connected demo_hello 1] "w1" 9 5 (NewPool 4 8)). lia. Defined.

(** The bound on the target is needed: [SetConcurrency] checks the 64-bit value
    and sends its low 32 bits, so a larger one is accepted and becomes another
    target, here one slot. *)
Example SetConcurrency_truncates :
  let h := hub_run [Connected demo_hello 1] in
  exists h' c, SetConcurrency "w1" (2 ^ 32) 5 h = (None, h') /\ take_all 1 0 h' = [c] /\
    p_target (dispatch c (NewPool 4 8)).1.1 = 1.
Proof.
  eexists _, _. split; [vm_compute; reflexivity|]. split; [vm_compute; reflexivity|].
  vm_compute. reflexivity.
Qed.

(** The reconnect backoff doubles up to 32 seconds. *)
Lemma reconnect_bounds n : Second <= reconnects n Second <= 32 * Second.
Proof.
  assert (H : forall n k, 0 <= k <= 5 -> exists k', 0 <= k' <= 5 /\ reconnects n (2 ^ k * Second) = 2 ^ k' * Second).
  { clear. induction n as [|n IH]; intros k Hk; [by exists k|]. simpl.
    assert (Hcase : next_reconnect (2 ^ k * Second) = if bool_decide (k < 5) then 2 ^ (k + 1) * Second else 2 ^ k * Second).
    { assert (k = 0 \/ k = 1 \/ k = 2 \/ k = 3 \/ k = 4 \/ k = 5) as Hc by lia.
      by repeat destruct Hc as [->|Hc]; [vm_compute..|subst; vm_compute]. }
    rewrite Hcase. case_bool_decide; apply IH; lia. }
  destruct (H n 0) as (k & Hk & Hr); [lia|]. rewrite Z.mul_1_l in Hr. rewrite Hr.
  assert (k = 0 \/ k = 1 \/ k = 2 \/ k = 3 \/ k = 4 \/ k = 5) as Hc by lia.
  unfold Second. repeat destruct Hc as [->|Hc]; [lia..|subst; lia].
Qed.
