(* ===== verification/Streams.v ===== *)
(** * Streams: the two ends of the control connection

    Models [controlService.WorkerStream] of [internal/control/server.go] and
    [Client.connectOnce], [Client.Run] of [internal/control/client.go] over the
    hub and the dispatch of [Control.v].  The gRPC stream is what it delivers:
    messages, or an error, and what each [Send] answers.  The handler, its sender
    and its receiver take their steps in any order. *)

From S2P Require Import Prelude Errors Job Queue Pool Control.
Local Open Scope string_scope.
Local Open Scope list_scope.
Local Open Scope Z_scope.

(** What a worker sends. *)
Inductive message :=
| MsgHello (hello : WorkerHello) | MsgStats (st : WorkerStats) | MsgAck (id detail : string).

(** ** The server's end *)

(** One call of [WorkerStream]: its session, after the hello; whether its sender
    and receiver goroutines still run; the two channels of capacity one they
    leave their errors in; what the handler returned. *)
Record stream := {
  st_session : option nat; st_sender : bool; st_receiver : bool;
  st_sendErr : option error; st_recvErr : option error; st_returned : option (option error)
}.
Definition new_stream : stream :=
  {| st_session := None; st_sender := false; st_receiver := false;
     st_sendErr := None; st_recvErr := None; st_returned := None |}.
Definition serving (sid : nat) : stream :=
  {| st_session := Some sid; st_sender := true; st_receiver := true;
     st_sendErr := None; st_recvErr := None; st_returned := None |}.
Definition sender_left (e : option error) (st : stream) : stream :=
  {| st_session := st_session st; st_sender := false; st_receiver := st_receiver st;
     st_sendErr := e; st_recvErr := st_recvErr st; st_returned := st_returned st |}.
Definition receiver_left (e : error) (st : stream) : stream :=
  {| st_session := st_session st; st_sender := st_sender st; st_receiver := false;
     st_sendErr := st_sendErr st; st_recvErr := Some e; st_returned := st_returned st |}.
Definition returned (err : option error) (st : stream) : stream :=
  {| st_session := st_session st; st_sender := st_sender st; st_receiver := st_receiver st;
     st_sendErr := st_sendErr st; st_recvErr := st_recvErr st; st_returned := Some err |}.

(** The four cases of the handler's select. *)
Inductive return_cause := OnRecvErr | OnSendErr | OnDone | OnContext.

Inductive stream_event :=
| Received (m : result error message) (now : Time)   (* what [stream.Recv] answered *)
| SenderTook (failed : option error)                 (* a command taken, and what [stream.Send] answered *)
| SenderSawDone
| Returns (why : return_cause).

(** What became of a command: accepted on a session's queue, sent by its stream,
    or taken off the queue by a sender whose [Send] failed. *)
Inductive fate := Accepted | Sent | Dropped.
#[export] Instance fate_eq_dec : EqDecision fate.
Proof. solve_decision. Defined.
Notation trace := (list (nat * fate * Command)).

Definition select_ready (why : return_cause) (sid : nat) (st : stream) (h : Hub) : option (option error) :=
  match why with
  | OnRecvErr => if st_recvErr st then Some None else None
  | OnSendErr => match st_sendErr st with Some e => Some (Some e) | None => None end
  | OnDone => match h_store h !! sid with
              | Some s => if ss_done s then Some (Some (EMsg "control: session replaced")) else None
              | None => None
              end
  | OnContext => Some None
  end.

(** One step of [WorkerStream]: of the handler before its hello, then of the
    sender, of the receiver, or the return of the handler with its deferred
    [unregister].  The goroutines outlive the handler. *)
Definition stream_step (st : stream) (h : Hub) (ev : stream_event) : option (stream * Hub * trace) :=
  match st_session st with
  | None =>
      match st_returned st, ev with
      | None, Received (Err e) _ => Some (returned (Some e) st, h, [])
      | None, Received (Ok (MsgHello hello)) now =>
          let '(sid, h') := connect hello now h in Some (serving sid, h', [])
      | None, Received (Ok _) _ =>
          Some (returned (Some (EMsg "control: first message must be WorkerHello")) st, h, [])
      | _, _ => None
      end
  | Some sid =>
      match ev with
      | Received m now =>
          if st_receiver st then
            match m with
            | Err e => Some (receiver_left e st, h, [])
            | Ok (MsgStats x) => Some (st, updateStats sid x now h, [])
            | Ok _ => Some (st, h, [])
            end
          else None
      | SenderTook failed =>
          if st_sender st then
            match sender_take sid h with
            | None => None
            | Some (c, h') =>
                match failed with
                | None => Some (st, h', [(sid, Sent, c)])
                | Some e => Some (sender_left (Some e) st, h', [(sid, Dropped, c)])
                end
            end
          else None
      | SenderSawDone =>
          match h_store h !! sid with
          | Some s => if st_sender st && ss_done s then Some (sender_left None st, h, []) else None
          | None => None
          end
      | Returns why =>
          match st_returned st, select_ready why sid st h with
          | None, Some err => Some (returned err st, disconnect sid h, [])
          | _, _ => None
          end
      end
  end.

(** The server: the hub and the calls of [WorkerStream], under any numbers. *)
Record service := { sv_hub : Hub; sv_streams : gmap nat stream }.
Definition NewService : service := {| sv_hub := NewHub; sv_streams := ∅ |}.

Inductive service_event :=
| OnStream (k : nat) (ev : stream_event)
| Operator (id : string) (cmd : Command)
| OperatorLate (sid : nat) (cmd : Command).    (* a [send] that read the session earlier *)

Definition accepts (sid : nat) (cmd : Command) (r : option HubError * Hub) : trace :=
  match r.1 with None => [(sid, Accepted, cmd)] | Some _ => [] end.

(** A step that is not enabled changes nothing. *)
Definition service_step (s : service) (ev : service_event) : service * trace :=
  match ev with
  | OnStream k ev =>
      match stream_step (default new_stream (sv_streams s !! k)) (sv_hub s) ev with
      | Some (st, h, out) => ({| sv_hub := h; sv_streams := <[k := st]> (sv_streams s) |}, out)
      | None => (s, [])
      end
  | Operator id cmd =>
      ({| sv_hub := (send id cmd (sv_hub s)).2; sv_streams := sv_streams s |},
       match h_sessions (sv_hub s) !! id with
       | Some sid => accepts sid cmd (push id sid cmd (sv_hub s))
       | None => []
       end)
  | OperatorLate sid cmd =>
      ({| sv_hub := (push EmptyString sid cmd (sv_hub s)).2; sv_streams := sv_streams s |},
       accepts sid cmd (push EmptyString sid cmd (sv_hub s)))
  end.

Fixpoint service_run (s : service) (evs : list service_event) : service * trace :=
  match evs with
  | [] => (s, [])
  | ev :: evs' => let '(s', out) := service_step s ev in
                  let '(s'', rest) := service_run s' evs' in (s'', out ++ rest)
  end.

(** ** The worker's end *)

Section client.
Context (WorkerID host : string) (pid : Z) (types : list string).

Definition hello_of (p : Pool) : WorkerHello :=
  {| wh_WorkerId := WorkerID; wh_Hostname := host; wh_Pid := int32 pid; wh_Concurrency := int32 (p_target p);
     wh_Types := types |}.

(** One turn of the receive loop: what [sendErr] holds, then what [Recv] says,
    and how the pool has moved meanwhile. *)
Record turn := { tn_sendErr : option error; tn_recv : result error Command; tn_pool : Pool -> Pool }.

Record client_state := { cl_pool : Pool; cl_sent : list message; cl_drains : nat }.
Definition sends (m : message) (s : client_state) : client_state :=
  {| cl_pool := cl_pool s; cl_sent := cl_sent s ++ [m]; cl_drains := cl_drains s |}.

(** [dispatch] with its ack; [OnDrain] is counted. *)
Definition dispatch_turn (c : Command) (s : client_state) : client_state :=
  let '(p, detail, drain) := dispatch c (cl_pool s) in
  {| cl_pool := p; cl_sent := cl_sent s ++ [MsgAck (CommandId c) detail];
     cl_drains := (if drain then S (cl_drains s) else cl_drains s) |}.

Definition moved (f : Pool -> Pool) (s : client_state) : client_state :=
  {| cl_pool := f (cl_pool s); cl_sent := cl_sent s; cl_drains := cl_drains s |}.

(** The stats goroutine, at a tick. *)
Definition stats_turn (s : client_state) : client_state := sends (MsgStats (stats_of (cl_pool s))) s.

(** The receive loop over the turns so far; [None]: it has not returned. *)
Fixpoint receive_loop (turns : list turn) (s : client_state) : option error * client_state :=
  match turns with
  | [] => (None, s)
  | t :: turns' =>
      let s := moved (tn_pool t) s in
      match tn_sendErr t with
      | Some e => (Some e, s)
      | None =>
          match tn_recv t with
          | Err e => (Some e, s)
          | Ok c => receive_loop turns' (dispatch_turn c s)
          end
      end
  end.

(** What one connection meets: the errors of dialling, of opening the stream
    and of the hello, and the turns of the loop. *)
Record connection := {
  cn_dial : option error; cn_open : option error; cn_hello : option error; cn_turns : list turn
}.

(** [connectOnce]: its error, [None] while it runs. *)
Definition connectOnce (cn : connection) (s : client_state) : option error * client_state :=
  match cn_dial cn with
  | Some e => (Some e, s)
  | None =>
      match cn_open cn with
      | Some e => (Some e, s)
      | None =>
          let s := sends (MsgHello (hello_of (cl_pool s))) s in
          match cn_hello cn with
          | Some e => (Some e, s)
          | None => receive_loop (cn_turns cn) s
          end
      end
  end.

(** [Run] while the context lives: connections one after the other, and the
    pauses between them. *)
Fixpoint client_run (cns : list connection) (backoff : Duration) (s : client_state)
    : list Duration * Duration * client_state :=
  match cns with
  | [] => ([], backoff, s)
  | cn :: cns' =>
      match connectOnce cn s with
      | (Some _, s') =>
          let '(pauses, b, s'') := client_run cns' (next_reconnect backoff) s' in (backoff :: pauses, b, s'')
      | (None, s') => ([], backoff, s')
      end
  end.

(** [backoff = time.Second] after a connection is never reached: a connection
    that returns returns an error, however long it lived and whatever it
    delivered.  So the pause only grows, and stays at thirty-two seconds. *)
Lemma client_run_pauses cns : forall b s,
  let '(pauses, b', _) := client_run cns b s in
  b' = reconnects (length pauses) b /\ pauses = map (fun i => reconnects i b) (seq 0 (length pauses)).
Proof.
  induction cns as [|cn cns IH]; intros b s; simpl; [done|].
  destruct (connectOnce cn s) as [[e|] s']; simpl; [|done].
  specialize (IH (next_reconnect b) s'). destruct (client_run cns (next_reconnect b) s') as [[ps b'] s''].
  simpl. destruct IH as [-> IH]. split; [done|]. f_equal. rewrite IH at 1. rewrite <-seq_shift, map_map. done.
Qed.
End client.

(** ** Commands, end to end *)

(** The commands of session [sid] that met this fate, in order. *)
Definition fated (f : fate) (sid : nat) (tr : trace) : list Command :=
  (filter (fun x => x.1 = (sid, f)) tr).*2.

Lemma fated_app f sid tr1 tr2 : fated f sid (tr1 ++ tr2) = fated f sid tr1 ++ fated f sid tr2.
Proof. unfold fated. by rewrite list.filter_app, fmap_app. Qed.
Lemma fated_same f sid sid' c : fated f sid [(sid', f, c)] = if bool_decide (sid' = sid) then [c] else [].
Proof. unfold fated. rewrite list.filter_cons. simpl. case_decide; case_bool_decide; naive_solver. Qed.
Lemma fated_other f sid sid' f' c : f' <> f -> fated f sid [(sid', f', c)] = [].
Proof. intros Hf. unfold fated. rewrite list.filter_cons. simpl. case_decide; naive_solver. Qed.

Definition queue_at (h : Hub) (sid : nat) : list Command := default [] (ss_cmds <$> h_store h !! sid).

Lemma push_queue id sid cmd h sid' :
  queue_at (push id sid cmd h).2 sid' = queue_at h sid' ++ fated Accepted sid' (accepts sid cmd (push id sid cmd h)).
Proof.
  unfold push, queue_at, accepts. destruct (h_store h !! sid) as [s|] eqn:Hs; [|by rewrite app_nil_r].
  case_bool_decide; simpl; [|by rewrite app_nil_r]. rewrite fated_same.
  case_bool_decide as Hne; [subst sid'|].
  - by rewrite lookup_alter_eq, Hs.
  - by rewrite lookup_alter_ne, app_nil_r.
Qed.

Lemma upd_queue f sid h sid' : (forall s, ss_cmds (f s) = ss_cmds s) -> queue_at (upd sid f h) sid' = queue_at h sid'.
Proof.
  intros Hf. unfold queue_at, upd. simpl. destruct (decide (sid = sid')) as [<-|Hne].
  - rewrite lookup_alter_eq. destruct (h_store h !! sid); simpl; by rewrite ?Hf.
  - by rewrite lookup_alter_ne.
Qed.

Lemma connect_queue hello now h sid : hub_inv h -> queue_at (connect hello now h).2 sid = queue_at h sid.
Proof.
  intros Hi. set (s := Build_session hello None now zero_time [] false true).
  set (h1 := Build_Hub (<[h_next h := s]> (h_store h)) (h_sessions h) (S (h_next h))).
  assert (H1 : queue_at h1 sid = queue_at h sid).
  { unfold queue_at. simpl. destruct (decide (h_next h = sid)) as [<-|Hne]; [|by rewrite lookup_insert_ne].
    rewrite lookup_insert_eq. destruct (h_store h !! h_next h) eqn:E; [|done].
    pose proof (hi_fresh _ Hi _ (mk_is_Some _ _ E)). lia. }
  rewrite <-H1. unfold connect, register. simpl. destruct (h_sessions h !! wh_WorkerId hello); [|done].
  apply (upd_queue with_done n h1). done.
Qed.

Lemma disconnect_queue sid h sid' : queue_at (disconnect sid h) sid' = queue_at h sid'.
Proof.
  unfold disconnect. destruct (h_store h !! sid) as [s|]; [|done]. unfold unregister, terminate.
  assert (H : queue_at (upd sid with_done (upd sid with_closed h)) sid' = queue_at h sid') by (by rewrite !upd_queue).
  by case_bool_decide.
Qed.

Lemma take_queue sid h c h' sid' :
  sender_take sid h = Some (c, h') ->
  queue_at h sid' = (if bool_decide (sid = sid') then [c] else []) ++ queue_at h' sid'.
Proof.
  unfold sender_take, queue_at. destruct (h_store h !! sid) as [s|] eqn:Hs; [|done].
  destruct (ss_cmds s) as [|c' cs] eqn:Hc; [done|]. intros [= <- <-]. simpl. case_bool_decide as Hd.
  - subst sid'. rewrite lookup_alter_eq, Hs. simpl. by rewrite Hc.
  - by rewrite lookup_alter_ne.
Qed.

Lemma connect_next hello now h : h_next (connect hello now h).2 = S (h_next h).
Proof. unfold connect, register. simpl. by destruct (h_sessions h !! _). Qed.
Lemma disconnect_next sid h : h_next (disconnect sid h) = h_next h.
Proof. unfold disconnect, unregister. destruct (h_store h !! sid); [|done]. by case_bool_decide. Qed.

(** A step of a stream opens a session, sends a command, drops one, or leaves
    every queue as it is; a sender that left stays away, and its error stays. *)
Inductive moves (st : stream) (h : Hub) : stream -> Hub -> trace -> Prop :=
| MovesOpen st' h' :
    st_session st = None -> st_session st' = Some (h_next h) -> hub_inv h' -> h_next h' = S (h_next h) ->
    (forall sid, queue_at h' sid = queue_at h sid) -> moves st h st' h' []
| MovesSent sid c h' :
    st_session st = Some sid -> st_sender st = true -> sender_take sid h = Some (c, h') -> moves st h st h' [(sid, Sent, c)]
| MovesDropped sid c h' e :
    st_session st = Some sid -> st_sender st = true -> sender_take sid h = Some (c, h') ->
    moves st h (sender_left (Some e) st) h' [(sid, Dropped, c)]
| MovesQuiet st' h' :
    st_session st' = st_session st ->
    (st_sender st = false -> st_sender st' = false /\ st_sendErr st' = st_sendErr st) ->
    hub_inv h' -> h_next h' = h_next h -> (forall sid, queue_at h' sid = queue_at h sid) -> moves st h st' h' [].

Lemma stream_step_moves st h ev st' h' out :
  hub_inv h -> stream_step st h ev = Some (st', h', out) -> moves st h st' h' out.
Proof.
  intros Hi. unfold stream_step. destruct (st_session st) as [sid|] eqn:Hsid.
  - destruct ev as [m now|failed| |why].
    + destruct (st_receiver st); [|done].
      destruct m as [[?|x|??]|e]; intros [= <- <- <-]; apply MovesQuiet; try done.
      * by apply (hub_step_inv _ (StatsArrived sid x now)).
      * intros sid'. unfold updateStats. by rewrite upd_queue.
    + destruct (st_sender st) eqn:?; [|done]. destruct (sender_take sid h) as [[c h1]|] eqn:Ht; [|done].
      destruct failed; intros [= <- <- <-]; by econstructor.
    + destruct (h_store h !! sid) as [x|]; [|done].
      destruct (st_sender st) eqn:Hsend; [|done]. simpl. destruct (ss_done x); [|done].
      intros [= <- <- <-]. apply MovesQuiet; try done. by rewrite Hsend.
    + destruct (st_returned st); [done|]. destruct (select_ready why sid st h) as [err|]; [|done].
      intros [= <- <- <-]. apply MovesQuiet; try done.
      * by apply disconnect_inv.
      * by apply disconnect_next.
      * apply disconnect_queue.
  - destruct (st_returned st); [done|]. destruct ev as [[[hello|?|??]|e] now| | |]; try done;
      try by intros [= <- <- <-]; apply MovesQuiet.
    destruct (connect hello now h) as [sid' h1] eqn:Hc. intros [= <- <- <-].
    assert (sid' = h_next h) as -> by (unfold connect in Hc; by injection Hc).
    replace h1 with (connect hello now h).2 by (by rewrite Hc).
    apply MovesOpen; [done|done|by apply connect_inv|apply connect_next|intros; by apply connect_queue].
Qed.

Lemma take_inv sid h c h' : hub_inv h -> sender_take sid h = Some (c, h') -> hub_inv h' /\ h_next h' = h_next h.
Proof.
  intros Hi Ht. pose proof (hub_step_inv h (CommandTaken sid) Hi) as H. simpl in H. rewrite Ht in H. split; [done|].
  unfold sender_take in Ht. destruct (h_store h !! sid) as [s|]; [|done]. destruct (ss_cmds s); [done|].
  by injection Ht as _ <-.
Qed.

Definition balanced (h : Hub) (tr : trace) (sid : nat) : Prop :=
  fated Accepted sid tr = fated Sent sid tr ++ fated Dropped sid tr ++ queue_at h sid.

(** The session [sid] dropped [cs]: nothing, or the one command whose sending
    failed; then the stream's sender is gone and its error is with the handler. *)
Definition dropped_by (streams : gmap nat stream) (sid : nat) (cs : list Command) : Prop :=
  cs = [] \/
  exists c k st e, cs = [c] /\ streams !! k = Some st /\ st_session st = Some sid /\
    st_sender st = false /\ st_sendErr st = Some e.

(** After any run: sessions belong to one stream each, what a session accepted
    is accounted for, and at most one command was dropped. *)
Record service_inv (s : service) (tr : trace) : Prop := {
  si_hub : hub_inv (sv_hub s);
  si_below : forall k st sid, sv_streams s !! k = Some st -> st_session st = Some sid -> (sid < h_next (sv_hub s))%nat;
  si_one : forall k k' st st' sid, sv_streams s !! k = Some st -> sv_streams s !! k' = Some st' ->
    st_session st = Some sid -> st_session st' = Some sid -> k = k';
  si_dropped : forall sid, dropped_by (sv_streams s) sid (fated Dropped sid tr);
  si_balanced : forall sid, balanced (sv_hub s) tr sid
}.

Lemma dropped_none s tr k st sid :
  service_inv s tr -> sv_streams s !! k = Some st -> st_session st = Some sid -> st_sender st = true ->
  fated Dropped sid tr = [].
Proof.
  intros Hi Hk Hsid Hs. destruct (si_dropped _ _ Hi sid) as [?|(c & k' & st' & e & _ & Hk' & Hsid' & Hs' & _)]; [done|].
  pose proof (si_one _ _ Hi _ _ _ _ _ Hk Hk' Hsid Hsid') as <-. congruence.
Qed.

(** Another stream that dropped a command is not touched by a step of stream [k]. *)
Lemma dropped_by_insert streams k st' sid cs :
  (forall st, streams !! k = Some st -> st_session st = Some sid -> st_sender st = false ->
     st_session st' = Some sid /\ st_sender st' = false /\ st_sendErr st' = st_sendErr st) ->
  dropped_by streams sid cs -> dropped_by (<[k := st']> streams) sid cs.
Proof.
  intros Hst [->|(c & k0 & st & e & -> & Hk & Hsid & Hs & He)]; [by left|right].
  destruct (decide (k = k0)) as [<-|Hne].
  - destruct (Hst st Hk Hsid Hs) as (? & ? & ?). exists c, k, st', e. rewrite lookup_insert_eq. split_and!; congruence.
  - exists c, k0, st, e. by rewrite lookup_insert_ne.
Qed.

(** Sessions stay with one stream when a stream keeps the session it had, or
    takes a number never used. *)
Lemma one_insert (streams : gmap nat stream) k st' n :
  (forall k st sid, streams !! k = Some st -> st_session st = Some sid -> (sid < n)%nat) ->
  (forall k k' st st' sid, streams !! k = Some st -> streams !! k' = Some st' ->
     st_session st = Some sid -> st_session st' = Some sid -> k = k') ->
  (forall sid, st_session st' = Some sid ->
     sid = n \/ exists st, streams !! k = Some st /\ st_session st = Some sid) ->
  forall k1 k2 st1 st2 sid, <[k := st']> streams !! k1 = Some st1 -> <[k := st']> streams !! k2 = Some st2 ->
    st_session st1 = Some sid -> st_session st2 = Some sid -> k1 = k2.
Proof.
  intros Hb Ho Hst.
  assert (Hk : forall k0 x sid, streams !! k0 = Some x -> st_session x = Some sid -> st_session st' = Some sid -> k = k0).
  { intros k0 x sid Hx Ex Es. destruct (Hst _ Es) as [->|(st & Hs & Est)]; [|by eapply Ho].
    pose proof (Hb _ _ _ Hx Ex). lia. }
  intros k1 k2 st1 st2 sid [[<- <-]|[_ H1]]%lookup_insert_Some [[<- <-]|[_ H2]]%lookup_insert_Some E1 E2;
    [done|by eapply Hk|symmetry; by eapply Hk|by eapply Ho].
Qed.

Lemma stream_step_inv s tr k ev st h out :
  service_inv s tr ->
  stream_step (default new_stream (sv_streams s !! k)) (sv_hub s) ev = Some (st, h, out) ->
  service_inv {| sv_hub := h; sv_streams := <[k := st]> (sv_streams s) |} (tr ++ out).
Proof.
  intros Hi Hs. pose proof (stream_step_moves _ _ _ _ _ _ (si_hub _ _ Hi) Hs) as Hm. clear Hs.
  set (st0 := default new_stream (sv_streams s !! k)) in *.
  assert (Hk : forall sid, st_session st0 = Some sid -> sv_streams s !! k = Some st0).
  { unfold st0. destruct (sv_streams s !! k); simpl; [done|]. by intros. }
  assert (H0 : forall x, sv_streams s !! k = Some x -> x = st0) by (by unfold st0; intros x ->).
  assert (Hh : hub_inv h /\ (h_next (sv_hub s) <= h_next h)%nat /\
    forall sid, st_session st = Some sid -> sid = h_next (sv_hub s) /\ (sid < h_next h)%nat \/ st_session st0 = Some sid).
  { destruct Hm as [st h ? Hn ? ->|sid c h ?? Ht|sid c h e ?? Ht|st h -> ?? ->];
      try (destruct (take_inv _ _ _ _ (si_hub _ _ Hi) Ht) as [? ->]); (split; [done|split; [lia|]]); intros sid' E;
      [left|by right..].
    rewrite Hn in E. injection E as <-. split; [done|lia]. }
  destruct Hh as (Hh & Hle & Hsid). constructor; simpl.
  - done.
  - intros k' x sid [[<- <-]|[_ Hx]]%lookup_insert_Some E.
    + destruct (Hsid _ E) as [[_ ?]|E0]; [done|]. pose proof (si_below _ _ Hi _ _ _ (Hk _ E0) E0). lia.
    + pose proof (si_below _ _ Hi _ _ _ Hx E). lia.
  - apply (one_insert _ _ _ (h_next (sv_hub s))); [apply (si_below _ _ Hi)|apply (si_one _ _ Hi)|].
    intros sid E. destruct (Hsid _ E) as [[? _]|E0]; [by left|right; eauto].
  - intros sid. rewrite fated_app. pose proof (si_dropped _ _ Hi sid) as Hd.
    destruct Hm as [st h Hnone|sid' c h Hs0 Hsend ?|sid' c h e Hs0 Hsend ?|st h Hs0 Hkeep]; rewrite ?app_nil_r.
    + eapply dropped_by_insert; [|done]. intros x ->%H0. congruence.
    + rewrite fated_other, app_nil_r by done.
      eapply dropped_by_insert; [|done]. intros x ->%H0. congruence.
    + rewrite fated_same. case_bool_decide as Hc.
      * subst sid'. rewrite (dropped_none _ _ _ _ _ Hi (Hk _ Hs0) Hs0 Hsend). right.
        eexists c, k, _, e. rewrite lookup_insert_eq. done.
      * rewrite app_nil_r. eapply dropped_by_insert; [|done]. intros x ->%H0. congruence.
    + eapply dropped_by_insert; [|done]. intros x ->%H0 Ex Sx. destruct (Hkeep Sx). split_and!; congruence.
  - intros sid. unfold balanced. rewrite !fated_app. pose proof (si_balanced _ _ Hi sid) as Hb. unfold balanced in Hb.
    destruct Hm as [st h ???? Hq|sid' c h Hs0 Hsend Ht|sid' c h e Hs0 Hsend Ht|st h ???? Hq];
      rewrite ?app_nil_r; try by rewrite Hq.
    + rewrite Hb, (take_queue _ _ _ _ sid Ht), fated_same, !(fated_other _ _ _ Sent), !app_nil_r by done.
      case_bool_decide; [|by rewrite app_nil_r]. subst sid'.
      rewrite (dropped_none _ _ _ _ _ Hi (Hk _ Hs0) Hs0 Hsend). simpl. by rewrite <-app_assoc.
    + rewrite Hb, (take_queue _ _ _ _ sid Ht), fated_same, !(fated_other _ _ _ Dropped), !app_nil_r by done.
      by rewrite <-app_assoc.
Qed.

Lemma push_next id sid cmd h : h_next (push id sid cmd h).2 = h_next h.
Proof. unfold push. destruct (h_store h !! sid); [|done]. by case_bool_decide. Qed.

Lemma push_step_inv s tr id sid cmd :
  service_inv s tr ->
  service_inv {| sv_hub := (push id sid cmd (sv_hub s)).2; sv_streams := sv_streams s |}
    (tr ++ accepts sid cmd (push id sid cmd (sv_hub s))).
Proof.
  intros Hi. set (r := push id sid cmd (sv_hub s)).
  assert (Hf : forall f sid', f <> Accepted -> fated f sid' (accepts sid cmd r) = []).
  { intros f sid' Hf. unfold accepts. destruct (r.1); [done|]. by apply fated_other. }
  constructor; simpl.
  - by apply push_inv, Hi.
  - intros. unfold r. rewrite push_next. by eapply (si_below _ _ Hi).
  - apply (si_one _ _ Hi).
  - intros sid'. rewrite fated_app, Hf, app_nil_r by done. apply (si_dropped _ _ Hi).
  - intros sid'. unfold balanced. rewrite !fated_app, !(Hf Sent), !(Hf Dropped), !app_nil_r by done.
    unfold r. rewrite push_queue, (si_balanced _ _ Hi). by rewrite <-!app_assoc.
Qed.

Lemma service_step_inv s tr ev :
  service_inv s tr -> service_inv (service_step s ev).1 (tr ++ (service_step s ev).2).
Proof.
  intros Hi. destruct ev as [k ev|id cmd|sid cmd]; simpl.
  - destruct (stream_step _ _ ev) as [[[st h] out]|] eqn:Hs; [by eapply stream_step_inv|by rewrite app_nil_r].
  - unfold send. destruct (h_sessions (sv_hub s) !! id); [by apply push_step_inv|]. simpl. rewrite app_nil_r. by destruct s.
  - by apply push_step_inv.
Qed.

Lemma service_run_inv evs : service_inv (service_run NewService evs).1 (service_run NewService evs).2.
Proof.
  assert (H : forall evs s tr, service_inv s tr -> service_inv (service_run s evs).1 (tr ++ (service_run s evs).2)).
  { clear. induction evs as [|ev evs IH]; intros s tr Hi; simpl; [by rewrite app_nil_r|].
    pose proof (service_step_inv s tr ev Hi) as Hs. destruct (service_step s ev) as [s' out].
    specialize (IH s' _ Hs). destruct (service_run s' evs). simpl in *. by rewrite app_assoc. }
  apply (H evs NewService []). constructor; simpl.
  - apply (hub_run_inv []).
  - by intros k st sid.
  - by intros k k' st st' sid.
  - intros sid. by left.
  - done.
Qed.

(** The pool after a worker obeyed [cs]. *)
Definition obeyed (cs : list Command) (p : Pool) : Pool := foldl (fun p c => (dispatch c p).1.1) p cs.
Definition target_in (c : Command) : option Z := match Cmd c with CmdSetConcurrency t => Some t | _ => None end.
Definition pause_in (c : Command) : option bool :=
  match Cmd c with CmdPause => Some true | CmdResume => Some false | _ => None end.

Lemma obeyed_last cs p :
  p_target (obeyed cs p) = match last (omap target_in cs) with Some t => Z.max 1 t | None => p_target p end /\
  p_paused (obeyed cs p) = default (p_paused p) (last (omap pause_in cs)).
Proof.
  unfold obeyed. induction cs as [|c cs IH] using rev_ind; [done|].
  rewrite foldl_app, !omap_app. destruct IH as [IH1 IH2].
  destruct c as [i []]; cbn; rewrite ?app_nil_r, ?last_snoc, ?IH1, ?IH2; done.
Qed.

(** A client that is handed [cs] and nothing else obeys them, in order. *)
Definition handed (c : Command) : turn := {| tn_sendErr := None; tn_recv := Ok c; tn_pool := fun p => p |}.

Lemma receive_loop_obeys cs : forall s,
  (receive_loop (map handed cs) s).1 = None /\
  cl_pool (receive_loop (map handed cs) s).2 = obeyed cs (cl_pool s).
Proof.
  induction cs as [|c cs IH]; intros s; [done|]. simpl. destruct (IH (dispatch_turn c (moved (fun p => p) s))) as [-> ->].
  split; [done|]. unfold obeyed. simpl. f_equal. unfold dispatch_turn. simpl. by destruct (dispatch c (cl_pool s)) as [[??]?].
Qed.

(** C39. Commands arrive once, in order. Whatever connections, evictions, lost
    streams, failed sends, statistics and commands happen, in whatever order - a
    command may even be queued on a session after it was replaced - the commands
    that a session accepted are, in order: those its stream sent, then at most
    one that the sender took off the queue and could not send, then those still
    in the queue, at most sixteen. After a failed send the sender is gone, so
    that session sends nothing more, and its error waits for the handler, which
    can return with it and unregister the session. A worker that is handed what the
    stream sent, or any first part of it, ends with the last target and the last
    pause in it, and with what it had if there is none. *)
Theorem commands_in_order (evs : list service_event) (sid n : nat) (s : client_state) :
  let '(sv, tr) := service_run NewService evs in
  let h := sv_hub sv in
  fated Accepted sid tr = fated Sent sid tr ++ fated Dropped sid tr ++ queue_at h sid /\
  (length (queue_at h sid) <= 16)%nat /\
  (fated Dropped sid tr = [] \/
   exists c k st e, fated Dropped sid tr = [c] /\ sv_streams sv !! k = Some st /\ st_session st = Some sid /\
     st_sender st = false /\ (forall failed, stream_step st h (SenderTook failed) = None) /\
     (st_returned st = None ->
      stream_step st h (Returns OnSendErr) = Some (returned (Some e) st, disconnect sid h, []))) /\
  let got := take n (fated Sent sid tr) in
  (receive_loop (map handed got) s).1 = None /\
  let p := cl_pool (receive_loop (map handed got) s).2 in
  p_target p = match last (omap target_in got) with Some t => Z.max 1 t | None => p_target (cl_pool s) end /\
  p_paused p = default (p_paused (cl_pool s)) (last (omap pause_in got)).
Proof.
  pose proof (service_run_inv evs) as Hi. destruct (service_run NewService evs) as [sv tr]. simpl in Hi.
  intros h. split; [apply (si_balanced _ _ Hi)|split; [|split]].
  - unfold queue_at. destruct (h_store h !! sid) as [x|] eqn:Hx; simpl; [|lia]. by apply (hi_cmds _ (si_hub _ _ Hi) sid).
  - destruct (si_dropped _ _ Hi sid) as [?|(c & k & st & e & ? & ? & Hs & Ho & He)]; [by left|right].
    exists c, k, st, e. split_and!; try done; intros; unfold stream_step, select_ready; by rewrite Hs, ?Ho, ?He, ?H1.
  - intros got. destruct (receive_loop_obeys got s) as [Hl Hp]. split; [done|]. rewrite Hp. apply obeyed_last.
Qed.

(** The command that could not be sent was accepted - the operator was told so -
    and no queue holds it any more. *)
Example accepted_command_dropped :
  let pause := {| CommandId := "c"; Cmd := CmdPause |} in
  let '(sv, tr) := service_run NewService
    [OnStream 0 (Received (Ok (MsgHello demo_hello)) 1); Operator "w1" pause;
     OnStream 0 (SenderTook (Some (EMsg "transport is closing")))] in
  fated Accepted 0 tr = [pause] /\ fated Sent 0 tr = [] /\ fated Dropped 0 tr = [pause] /\ queue_at (sv_hub sv) 0 = [].
Proof. vm_compute. by split_and!. Qed.

(** A first message that is no hello ends the stream, and the hub never hears of it. *)
Example no_hello_no_session h m now :
  match m with MsgHello _ => False | _ => True end ->
  exists e, stream_step new_stream h (Received (Ok m) now) = Some (returned (Some e) new_stream, h, []).
Proof. destruct m; [done| |]; intros _; by eexists. Qed.

(** An evicted session's stream ends, and its late end does not remove the
    session that replaced it. *)
Example eviction_ends_the_old_stream :
  let '(sv, _) := service_run NewService
    [OnStream 0 (Received (Ok (MsgHello demo_hello)) 1); OnStream 1 (Received (Ok (MsgHello demo_hello)) 2);
     OnStream 0 (Returns OnDone)] in
  st_returned <$> sv_streams sv !! 0%nat = Some (Some (Some (EMsg "control: session replaced"))) /\
  h_sessions (sv_hub sv) !! "w1" = Some 1%nat.
Proof. vm_compute. by split. Qed.

(** Six connections that each lived as long as they liked: the next pause is
    thirty-two seconds, not one. *)
Example backoff_never_resets :
  let good := {| cn_dial := None; cn_open := None; cn_hello := None;
                 cn_turns := [handed {| CommandId := "c"; Cmd := CmdPause |};
                              {| tn_sendErr := None; tn_recv := Err (EMsg "EOF"); tn_pool := fun p => p |}] |} in
  (client_run "w" "h" 1 [] (replicate 6 good) Second
     {| cl_pool := NewPool 1 1; cl_sent := []; cl_drains := 0 |}).1
  = (map (fun k => k * Second) [1; 2; 4; 8; 16; 32], 32 * Second).
Proof. vm_compute. reflexivity. Qed.
