(* ===== verification/Sha256.v ===== *)
(** * Sha256: the hash and the signature the program uses

    [crypto/sha256], [crypto/hmac] and [encoding/hex] of Go's standard library,
    as far as the source uses them: the digest of API tokens
    ([internal/api/server.go]) and the signature of callbacks
    ([internal/handlers/httpcallback]).  Bytes and 32-bit words are integers in
    range; the functions compute, and the published test vectors are checked. *)

From S2P Require Import Prelude.
Local Open Scope Z_scope.
Local Open Scope list_scope.

(** ** Bytes and words *)

Definition bytes_of (s : string) : list Z :=
  map (fun c => Z.of_nat (nat_of_ascii c)) (list_ascii_of_string s).

Definition word (z : Z) : Z := Z.land z (Z.ones 32).
Definition add32 (a b : Z) : Z := word (a + b).
Definition rotr (n w : Z) : Z := Z.lor (Z.shiftr w n) (word (Z.shiftl w (32 - n))).
Definition not32 (w : Z) : Z := Z.lxor w (Z.ones 32).

(** The big-endian bytes of [z], [n] of them, and the number they stand for. *)
Fixpoint be_bytes (n : nat) (z : Z) : list Z :=
  match n with
  | O => []
  | S n' => be_bytes n' (Z.shiftr z 8) ++ [Z.land z (Z.ones 8)]
  end.
Definition be_value (bs : list Z) : Z := fold_left (fun acc b => 256 * acc + b) bs 0.

(** [l] in pieces of [k]; [fuel] is at least their number. *)
Fixpoint pieces (fuel k : nat) (l : list Z) : list (list Z) :=
  match fuel, l with
  | S fuel', _ :: _ => take k l :: pieces fuel' k (drop k l)
  | _, _ => []
  end.

(** ** The hash *)

(** The constants are the first 32 bits of the fractional parts of the cube
    roots, and of the square roots, of the first primes. *)
Definition primes : list Z :=
  filter (fun p => forallb (fun k => negb (p mod Z.of_nat k =? 0)) (seq 2 (Z.to_nat (Z.sqrt p) - 1)) = true)
    (map Z.of_nat (seq 2 310)).
Fixpoint cube_root (bits : nat) (x r : Z) : Z :=
  match bits with
  | O => r
  | S b => let r' := r + 2 ^ Z.of_nat b in cube_root b x (if r' * r' * r' <=? x then r' else r)
  end.
Definition K256 : list Z :=
  Eval vm_compute in map (fun p => word (cube_root 36 (Z.shiftl p 96) 0)) primes.
Definition H256 : list Z :=
  Eval vm_compute in map (fun p => word (Z.sqrt (Z.shiftl p 64))) (take 8 primes).

Record state := { sa : Z; sb : Z; sc : Z; sd : Z; se : Z; sf : Z; sg : Z; sh : Z }.

Definition initial : state :=
  let h i := nth i H256 0 in
  {| sa := h 0%nat; sb := h 1%nat; sc := h 2%nat; sd := h 3%nat;
     se := h 4%nat; sf := h 5%nat; sg := h 6%nat; sh := h 7%nat |}.

Definition big_sigma0 (w : Z) := Z.lxor (rotr 2 w) (Z.lxor (rotr 13 w) (rotr 22 w)).
Definition big_sigma1 (w : Z) := Z.lxor (rotr 6 w) (Z.lxor (rotr 11 w) (rotr 25 w)).
Definition small_sigma0 (w : Z) := Z.lxor (rotr 7 w) (Z.lxor (rotr 18 w) (Z.shiftr w 3)).
Definition small_sigma1 (w : Z) := Z.lxor (rotr 17 w) (Z.lxor (rotr 19 w) (Z.shiftr w 10)).
Definition choose (x y z : Z) := Z.lxor (Z.land x y) (Z.land (not32 x) z).
Definition majority (x y z : Z) := Z.lxor (Z.land x y) (Z.lxor (Z.land x z) (Z.land y z)).

(** The message schedule, newest word first: [n] more words. *)
Fixpoint extend (n : nat) (ws : list Z) : list Z :=
  match n with
  | O => ws
  | S n' =>
      let w i := nth i ws 0 in
      extend n' (add32 (add32 (small_sigma1 (w 1%nat)) (w 6%nat))
                       (add32 (small_sigma0 (w 14%nat)) (w 15%nat)) :: ws)
  end.
Definition schedule_words (block : list Z) : list Z :=
  rev (extend 48 (rev (map be_value (pieces 16 4 block)))).

Definition round (st : state) (kw : Z * Z) : state :=
  let t1 := add32 (add32 (sh st) (big_sigma1 (se st)))
                  (add32 (choose (se st) (sf st) (sg st)) (add32 kw.1 kw.2)) in
  let t2 := add32 (big_sigma0 (sa st)) (majority (sa st) (sb st) (sc st)) in
  {| sa := add32 t1 t2; sb := sa st; sc := sb st; sd := sc st;
     se := add32 (sd st) t1; sf := se st; sg := sf st; sh := sg st |}.

Definition compress (st : state) (block : list Z) : state :=
  let st' := fold_left round (combine K256 (schedule_words block)) st in
  {| sa := add32 (sa st) (sa st'); sb := add32 (sb st) (sb st'); sc := add32 (sc st) (sc st');
     sd := add32 (sd st) (sd st'); se := add32 (se st) (se st'); sf := add32 (sf st) (sf st');
     sg := add32 (sg st) (sg st'); sh := add32 (sh st) (sh st') |}.

(** One byte 128, zeros up to 56 modulo 64, the length in bits. *)
Definition padded (msg : list Z) : list Z :=
  let n := Z.of_nat (length msg) in
  msg ++ [128] ++ repeat 0 (Z.to_nat ((55 - n) mod 64)) ++ be_bytes 8 (8 * n).

Definition Sum256 (msg : list Z) : list Z :=
  let p := padded msg in
  let st := fold_left compress (pieces (length p) 64 p) initial in
  concat (map (be_bytes 4) [sa st; sb st; sc st; sd st; se st; sf st; sg st; sh st]).

(** ** HMAC and hex *)

Definition hmac_key (key : list Z) : list Z :=
  let key := if bool_decide (64 < length key)%nat then Sum256 key else key in
  key ++ repeat 0 (64 - length key).
Definition HMAC (key msg : list Z) : list Z :=
  let k := hmac_key key in
  Sum256 (map (Z.lxor 0x5c) k ++ Sum256 (map (Z.lxor 0x36) k ++ msg)).

Definition hex_digit (n : Z) : ascii :=
  ascii_of_nat (Z.to_nat (if n <? 10 then 48 + n else 87 + n)).
Definition hex_encode (bs : list Z) : string :=
  string_of_list_ascii (concat (map (fun b => [hex_digit (Z.shiftr b 4); hex_digit (Z.land b 15)]) bs)).

(** The vectors of FIPS 180-2 and RFC 4231. *)
Example sha256_empty :
  hex_encode (Sum256 []) = "e3b0c44298fc1c149afbf4c8996fb92427ae41e4649b934ca495991b7852b855"%string.
Proof. by vm_compute. Qed.
Example sha256_abc :
  hex_encode (Sum256 (bytes_of "abc")) =
    "ba7816bf8f01cfea414140de5dae2223b00361a396177a9cb410ff61f20015ad"%string.
Proof. by vm_compute. Qed.
Example sha256_two_blocks :
  hex_encode (Sum256 (bytes_of "abcdbcdecdefdefgefghfghighijhijkijkljklmklmnlmnomnopnopq")) =
    "248d6a61d20638b8e5c026930c3e6039a33ce45964ff2167f6ecedd419db06c1"%string.
Proof. by vm_compute. Qed.
Example hmac_rfc4231_case2 :
  hex_encode (HMAC (bytes_of "Jefe") (bytes_of "what do ya want for nothing?")) =
    "5bdcc146bf60754e6a042426089575c75a003f089d2739839dec58b964ec3843"%string.
Proof. by vm_compute. Qed.
Example hmac_rfc4231_case6 :
  hex_encode (HMAC (repeat 0xaa 131) (bytes_of "Test Using Larger Than Block-Size Key - Hash Key First")) =
    "60e431591ee0b67f0d8a26aacbf5b77f8e0bc6213728c5140546040f0ee37f54"%string.
Proof. by vm_compute. Qed.

(** ** Shapes *)

Definition is_byte (b : Z) : Prop := 0 <= b < 256.

Lemma be_bytes_length n z : length (be_bytes n z) = n.
Proof. revert z. induction n as [|n IH]; intros z; simpl; [done|]. rewrite length_app, IH. simpl. lia. Qed.

Lemma be_bytes_range n z : Forall is_byte (be_bytes n z).
Proof.
  revert z. induction n as [|n IH]; intros z; simpl; [constructor|].
  apply Forall_app. split; [done|]. repeat constructor; rewrite Z.land_ones by lia; apply Z.mod_pos_bound; lia.
Qed.

Lemma Sum256_shape msg : length (Sum256 msg) = 32%nat /\ Forall is_byte (Sum256 msg).
Proof.
  unfold Sum256. set (ws := [_; _; _; _; _; _; _; _]). assert (Hw : length ws = 8%nat) by done. split.
  - clearbody ws. rewrite length_concat, map_map.
    rewrite (map_ext _ (fun _ => 4%nat)) by (intros; apply be_bytes_length).
    do 9 (destruct ws as [|? ws]; try done).
  - apply Forall_concat, Forall_map, Forall_true. intros w. apply be_bytes_range.
Qed.

Definition is_hex (c : ascii) : bool :=
  let n := nat_of_ascii c in
  ((48 <=? n) && (n <=? 57) || (97 <=? n) && (n <=? 102))%nat.

Lemma hex_digit_hex n : 0 <= n < 16 -> is_hex (hex_digit n) = true.
Proof.
  intros Hn. unfold hex_digit, is_hex. rewrite nat_ascii_embedding by (destruct (n <? 10) eqn:?; lia).
  destruct (n <? 10) eqn:Hd; reflect_bools;
    rewrite orb_true_iff, !andb_true_iff, !Nat.leb_le; lia.
Qed.

Lemma hex_encode_shape bs : Forall is_byte bs ->
  String.length (hex_encode bs) = (2 * length bs)%nat /\
  Forall (fun c => is_hex c = true) (list_ascii_of_string (hex_encode bs)).
Proof.
  unfold hex_encode. rewrite list_ascii_of_string_of_list_ascii.
  assert (Hlen : forall l, String.length (string_of_list_ascii l) = length l) by
    (induction l; simpl; auto).
  rewrite Hlen. induction 1 as [|b bs Hb _ [IH1 IH2]]; simpl; [by split|]. rewrite IH1. split; [lia|].
  repeat constructor; [| |exact IH2]; apply hex_digit_hex.
  - rewrite Z.shiftr_div_pow2 by lia. unfold is_byte in Hb.
    split; [apply Z.div_pos; lia|apply Z.div_lt_upper_bound; lia].
  - change 15 with (Z.ones 4). rewrite Z.land_ones by lia. by apply Z.mod_pos_bound.
Qed.
