(* ===== verification/Api.v ===== *)
(** * Api: the HTTP surface

    Models the handlers of [internal/api/server.go].  A handler is a program that
    ends with a response: a status code and a body.  Request bodies are texts,
    decoded as in [Requests.v].  The texts of
    error bodies that are formatted from arguments are kept as format and
    arguments. *)

From stdpp Require Import sorting.
From S2P Require Import Prelude Errors Sha256 Json Job Requests Retry Database Rows Redis Effects Rely Store.
From S2P Require Import Queue Pool Control.
Local Open Scope string_scope.
Local Open Scope list_scope.
Local Open Scope Z_scope.
Local Open Scope prog_scope.

(** [s[n:]]. *)
Definition sdrop (n : nat) (s : string) : string := String.substring n (String.length s - n) s.

(** ** Responses *)

Inductive message :=
| Text (s : string)
| Sprintf (format : string) (args : list fmt_arg)
| InvalidJob (e : NewError)
with fmt_arg := FStr (s : string) | FInt (z : Z) | FStrs (l : list string).

(** The result document of a job. *)
Record resultResponse := { rr_ID : string; rr_Status : Status; rr_Result : string; rr_Error : string }.

Inductive body :=
| BodyError (code : string) (msg : message)
| BodyJob (j : Job)
| BodyResult (r : resultResponse)
| BodyAttempts (jobId : string) (atts : list Attempt)
| BodyCancellation (id state : string)
| BodyDepths (d : Depths)
| BodyJobs (js : list Job)
| BodyRequeued (id : string)
| BodyWorkers (ws : list WorkerInfo)
| BodyLive (ws : list WorkerView)
| BodySent (worker : string)
| BodyTarget (worker : string) (target : Z)
| BodySummary (s : Summary)
| BodyMeta (version goVersion goos goarch : string) (numCPU : Z)
| BodyStatus (s : string)
| BodyText (s : string).

Record response := { re_Status : Z; re_Body : body }.

Definition writeJSON (status : Z) (b : body) : response := {| re_Status := status; re_Body := b |}.
Definition writeErr (status : Z) (code : string) (msg : message) : response :=
  writeJSON status (BodyError code msg).

Definition StatusOK : Z := 200.
Definition StatusCreated : Z := 201.
Definition StatusAccepted : Z := 202.
Definition StatusBadRequest : Z := 400.
Definition StatusUnauthorized : Z := 401.
Definition StatusNotFound : Z := 404.
Definition StatusMethodNotAllowed : Z := 405.
Definition StatusConflict : Z := 409.
Definition StatusRequestEntityTooLarge : Z := 413.
Definition StatusServiceUnavailable : Z := 503.

(** ** The server *)

(** [tokens] are the digests of the accepted bearer tokens. *)
Record Server := {
  srv_KnownTypes : gset string; srv_tokens : list (list Z); srv_MaxPayloadBytes : Z;
  srv_Meters : bool
}.

(** [sortedKeys]. *)
Definition string_le (a b : string) : Prop := String.leb a b = true.
#[export] Instance string_le_dec a b : Decision (string_le a b).
Proof. unfold string_le. apply _. Defined.
Definition sortedKeys (m : gset string) : list string := merge_sort string_le (elements m).

(** *** Authentication *)

(** [sha256.Sum256] of a token. *)
Definition digest (token : string) : list Z := Sum256 (bytes_of token).

Definition NewServer (tokens knownTypes : list string) (maxPayload : Z) (meters : bool) : Server :=
  {| srv_KnownTypes := list_to_set knownTypes; srv_tokens := map digest tokens;
     srv_MaxPayloadBytes := maxPayload; srv_Meters := meters |}.

Definition bearer : string := "Bearer ".

(** What the middleware makes of the Authorization header (empty when there is
    none): nothing to object, or its answer. *)
Definition auth_check (s : Server) (header : string) : option response :=
  match srv_tokens s with
  | [] => None
  | _ =>
      if (slen header <=? slen bearer) || negb (bool_decide (stake (String.length bearer) header = bearer))
      then Some (writeErr StatusUnauthorized "unauthorized" (Text "Missing bearer token."))
      else
        let presented := digest (sdrop (String.length bearer) header) in
        if bool_decide (presented ∈ srv_tokens s) then None
        else Some (writeErr StatusUnauthorized "unauthorized" (Text "Unknown token."))
  end.

(** The middleware in front of [next]. *)
Definition auth (s : Server) (header : string) (next : prog response) : prog response :=
  match auth_check s header with None => next | Some re => Ret re end.

(** ** Handlers *)

Section handlers.
Context `{EnvelopeJSON} `{GoText} (q : queue) (s : Server).

(** The size limit of a submission body. *)
Definition body_limit : Z := srv_MaxPayloadBytes s + 4096.

(** The switch on the two schedule fields; [None] when both are set.  The
    product is [time.Duration] arithmetic. *)
Definition schedule_of (req : submitRequest) (now : Time) : option Time :=
  if (0 <? sr_DelaySeconds req) && negb (IsZero (sr_ScheduledAt req)) then None
  else if 0 <? sr_DelaySeconds req then Some (now + wrap64 (sr_DelaySeconds req * Second))
  else if negb (IsZero (sr_ScheduledAt req)) then Some (sr_ScheduledAt req)
  else Some zero_time.

(** [handleSubmit]; [uuid] is the id [job.New] draws. *)
Definition handleSubmit (uuid body : string) : prog response :=
  match decode_submit body_limit body with
  | BodyTooLarge =>
      Ret (writeErr StatusRequestEntityTooLarge "payload_too_large"
             (Sprintf "Request body exceeds %d bytes." [FInt body_limit]))
  | InvalidJSON err =>
      Ret (writeErr StatusBadRequest "invalid_json" (Text ("Body must be valid JSON: " +:+ err)))
  | Decoded req =>
      if negb (bool_decide (sr_Type req ∈ srv_KnownTypes s)) then
        Ret (writeErr StatusBadRequest "unknown_type"
               (Sprintf "No handler is registered for type %q. Known types: %v"
                  [FStr (sr_Type req); FStrs (sortedKeys (srv_KnownTypes s))]))
      else if srv_MaxPayloadBytes s <? slen (sr_Payload req) then
        Ret (writeErr StatusRequestEntityTooLarge "payload_too_large"
               (Sprintf "Payload is %d bytes; the limit is %d."
                  [FInt (slen (sr_Payload req)); FInt (srv_MaxPayloadBytes s)]))
      else
        now <- time_Now ;;
        match schedule_of req now with
        | None => Ret (writeErr StatusBadRequest "invalid_schedule"
                         (Text "Set delaySeconds or scheduledAt, not both."))
        | Some at_time =>
            let opts := {| opt_Queue := sr_Queue req; opt_Priority := sr_Priority req;
                           opt_MaxAttempts := sr_MaxAttempts req;
                           opt_IdempotencyKey := sr_IdempotencyKey req; opt_ScheduledAt := at_time |} in
            match New uuid (sr_Type req) (sr_Payload req) opts now with
            | Err e => Ret (writeErr StatusBadRequest "invalid_job" (InvalidJob e))
            | Ok j =>
                created <- CreateJob j ;;
                match created with
                | Err _ => Ret (writeErr StatusServiceUnavailable "storage_unavailable"
                                  (Text "Could not persist the job."))
                | Ok cr =>
                    if negb (cr_Created cr) then Ret (writeJSON StatusOK (BodyJob (cr_Job cr)))
                    else
                      streamID <- Enqueue q (NewEnvelope j now) (ScheduledAt j) ;;
                      match streamID with
                      | Err _ => Ret tt
                      | Ok sid => _ <- SetEnqueued (ID j) sid ;; Ret tt
                      end ;;;
                      (if srv_Meters s then call (Notify (JobsSubmitted (Type_ j) (Queue j))) else Ret tt) ;;;
                      Ret (writeJSON StatusCreated (BodyJob j))
                end
            end
        end
  end.

Definition is_not_found (e : error) : bool := errors_Is (Some e) ErrNotFound.

(** [loadJob]: the job, or the response that was written. *)
Definition loadJob (id : string) : prog (result response Job) :=
  g <- GetJob id ;;
  match g with
  | Ok j => Ret (Ok j)
  | Err e =>
      if is_not_found e then Ret (Err (writeErr StatusNotFound "not_found" (Text "No such job.")))
      else Ret (Err (writeErr StatusServiceUnavailable "storage_unavailable" (Text (Error e))))
  end.

Definition with_job (id : string) (k : Job -> prog response) : prog response :=
  g <- loadJob id ;; match g with Ok j => k j | Err re => Ret re end.

Definition handleGetJob (id : string) : prog response :=
  with_job id (fun j => Ret (writeJSON StatusOK (BodyJob j))).

Definition result_of (j : Job) : resultResponse :=
  {| rr_ID := ID j; rr_Status := Status_ j; rr_Result := Result j; rr_Error := Error_ j |}.
Definition handleGetResult (id : string) : prog response :=
  with_job id (fun j =>
    if bool_decide (Status_ j ∈ [StatusCompleted; StatusFailed; StatusDeadLetter; StatusCancelled])
    then Ret (writeJSON StatusOK (BodyResult (result_of j)))
    else Ret (writeJSON StatusAccepted (BodyResult (result_of j)))).

Definition handleGetAttempts (id : string) : prog response :=
  with_job id (fun j =>
    atts <- ListAttempts (ID j) ;;
    match atts with
    | Err e => Ret (writeErr StatusServiceUnavailable "storage_unavailable" (Text (Error e)))
    | Ok l => Ret (writeJSON StatusOK (BodyAttempts (ID j) l))
    end).

Definition cancel_flag_ttl : Duration := 24 * Hour.

Definition handleCancel (id : string) : prog response :=
  with_job id (fun j =>
    if Terminal (Status_ j) then
      Ret (writeErr StatusConflict "already_terminal"
             (Sprintf "Job is %s; there is nothing to cancel." [FStr (Status_ j)]))
    else if bool_decide (Status_ j = StatusRunning) then
      r <- RequestCancel q (ID j) cancel_flag_ttl ;;
      match r with
      | Err e => Ret (writeErr StatusServiceUnavailable "queue_unavailable" (Text (Error e)))
      | Ok _ => Ret (writeJSON StatusAccepted (BodyCancellation (ID j) "requested"))
      end
    else
      c <- CancelJob (ID j) ;;
      match c with
      | Err e => Ret (writeErr StatusServiceUnavailable "storage_unavailable" (Text (Error e)))
      | Ok false => Ret (writeErr StatusConflict "race_lost"
                           (Text "The job changed state mid-cancel; fetch it again."))
      | Ok true =>
          _ <- RequestCancel q (ID j) cancel_flag_ttl ;;
          Ret (writeJSON StatusOK (BodyCancellation (ID j) "done"))
      end).

Definition handleDepths : prog response :=
  d <- ReadDepths q ;;
  match d with
  | Err e => Ret (writeErr StatusServiceUnavailable "queue_unavailable" (Text (Error e)))
  | Ok d => Ret (writeJSON StatusOK (BodyDepths d))
  end.

Definition handleListDLQ : prog response :=
  js <- ListDeadLetters 50 0 ;;
  match js with
  | Err e => Ret (writeErr StatusServiceUnavailable "storage_unavailable" (Text (Error e)))
  | Ok l => Ret (writeJSON StatusOK (BodyJobs l))
  end.

Definition handleRequeueDLQ (id : string) : prog response :=
  r <- RequeueDeadLetter id ;;
  match r with
  | Err e => Ret (writeErr StatusServiceUnavailable "storage_unavailable" (Text (Error e)))
  | Ok None => Ret (writeErr StatusConflict "not_dead_lettered"
                      (Text "Job is not in the dead-letter queue."))
  | Ok (Some req) =>
      now <- time_Now ;;
      let env := {| env_ID := rq_ID req; env_Type := rq_Type req; env_Queue := rq_Queue req;
                    env_Priority := rq_Priority req; env_Attempt := 1;
                    env_Payload := rq_Payload req; env_EnqueuedAt := now |} in
      streamID <- Enqueue q env zero_time ;;
      match streamID with
      | Err _ => Ret tt
      | Ok sid => _ <- SetEnqueued id sid ;; Ret tt
      end ;;;
      Ret (writeJSON StatusOK (BodyRequeued id))
  end.

Definition handleWorkers : prog response :=
  ws <- ListWorkers ;;
  match ws with
  | Err e => Ret (writeErr StatusServiceUnavailable "storage_unavailable" (Text (Error e)))
  | Ok l => Ret (writeJSON StatusOK (BodyWorkers l))
  end.

(** ** The control endpoints: over a hub, or none *)

Definition hub_message (e : HubError) : message :=
  match e with
  | NotConnected id => Sprintf "control: worker %q is not connected" [FStr id]
  | QueueFull id => Sprintf "control: worker %q command queue is full" [FStr id]
  | TargetTooSmall => Text "control: target must be >= 1"
  end.
Definition no_hub : response :=
  writeErr StatusServiceUnavailable "no_control_plane" (Text "This API has no control plane attached.").

Definition handleControlWorkers (hub : option Hub) : response :=
  match hub with Some h => writeJSON StatusOK (BodyLive (Workers h)) | None => no_hub end.

Definition controlCmd (f : string -> Hub -> option HubError * Hub) (hub : option Hub) (id : string)
    : response * option Hub :=
  match hub with
  | None => (no_hub, None)
  | Some h =>
      match f id h with
      | (Some e, h') => (writeErr StatusNotFound "command_failed" (hub_message e), Some h')
      | (None, h') => (writeJSON StatusAccepted (BodySent id), Some h')
      end
  end.

Definition handleSetConcurrency (hub : option Hub) (id body : string) (now : Time)
    : response * option Hub :=
  match hub with
  | None => (no_hub, None)
  | Some h =>
      match decode_target body with
      | BodyTooLarge => (writeErr StatusBadRequest "invalid_json" (Text "http: request body too large"), Some h)
      | InvalidJSON err => (writeErr StatusBadRequest "invalid_json" (Text err), Some h)
      | Decoded target =>
          match SetConcurrency id target now h with
          | (Some e, h') => (writeErr StatusNotFound "command_failed" (hub_message e), Some h')
          | (None, h') => (writeJSON StatusAccepted (BodyTarget id target), Some h')
          end
      end
  end.
End handlers.

(** ** Authentication *)

Lemma substring_full s : String.substring 0 (String.length s) s = s.
Proof. induction s; simpl; congruence. Qed.

Lemma stake_app a b : stake (String.length a) (a +:+ b) = a.
Proof. unfold stake. induction a; simpl; [by destruct b|congruence]. Qed.

Lemma sdrop_app a b : sdrop (String.length a) (a +:+ b) = b.
Proof.
  unfold sdrop. rewrite length_sapp.
  replace (String.length a + String.length b - String.length a)%nat with (String.length b) by lia.
  induction a; simpl; [apply substring_full|done].
Qed.

Lemma stake_sdrop n s : (n <= String.length s)%nat -> stake n s +:+ sdrop n s = s.
Proof.
  unfold stake, sdrop. revert n. induction s as [|c s IH]; intros n Hn; simpl in *.
  - by destruct n; [|lia].
  - destruct n as [|n]; simpl; [by rewrite substring_full|].
    change (String c (String.substring 0 n s +:+ String.substring n (String.length s - n) s) = String c s).
    f_equal. apply IH. lia.
Qed.

(** The headers that pass: any at all without tokens, else the scheme and a token
    with a known digest. *)
Definition credentials (tokens : list string) (header : string) : Prop :=
  tokens = [] \/
  exists t t', header = bearer +:+ t /\ t <> EmptyString /\ t' ∈ tokens /\ digest t = digest t'.

Lemma auth_check_accepts tokens known max meters header :
  credentials tokens header ->
  auth_check (NewServer tokens known max meters) header = None.
Proof.
  intros [-> | (t & t' & -> & Hne & Hin & Hd)]; [done|].
  unfold auth_check. cbn [srv_tokens NewServer]. destruct (map digest tokens) eqn:Hm; [done|]. rewrite <-Hm.
  apply slen_pos_iff in Hne. replace (slen (bearer +:+ t) <=? slen bearer) with false.
  2: { symmetry. apply Z.leb_gt. unfold slen in *. rewrite length_sapp. lia. }
  rewrite (stake_app bearer t), (sdrop_app bearer t). rewrite bool_decide_true by done. cbn [negb orb].
  rewrite bool_decide_true; [done|]. rewrite Hd. apply list_elem_of_fmap. eauto.
Qed.

Lemma auth_check_refuses tokens known max meters header :
  ~ credentials tokens header ->
  exists msg, auth_check (NewServer tokens known max meters) header
    = Some (writeErr StatusUnauthorized "unauthorized" (Text msg)).
Proof.
  intros Hno. unfold auth_check. cbn [srv_tokens NewServer].
  destruct (map digest tokens) eqn:Hm; [exfalso; apply Hno; left; by destruct tokens|]. rewrite <-Hm.
  destruct ((slen header <=? slen bearer) || _) eqn:Hpre; [eauto|].
  destruct (bool_decide (_ ∈ map digest tokens)) eqn:Hin; [|eauto]. exfalso. apply Hno. right.
  apply orb_false_iff in Hpre as [Hlen Hpre]. reflect_bools. unfold slen in Hlen.
  apply list_elem_of_fmap in Hin as (t' & Hd & Hin).
  pose proof (stake_sdrop (String.length bearer) header ltac:(lia)) as Heq. rewrite Hpre in Heq.
  exists (sdrop (String.length bearer) header), t'. split_and!; try done.
  intros Hz. rewrite Hz in Heq. rewrite <-Heq in Hlen. simpl in Hlen. lia.
Qed.

(** Authentication. A request reaches its handler if and only if no token is
    configured, or its Authorization header is the scheme [Bearer] and one
    space followed by a non-empty token whose digest is the digest of a
    configured token; every other request is answered 401 without a single
    call to the store or the queue. In particular every configured non-empty
    token is accepted. *)
Theorem auth_spec (tokens known : list string) (max : Z) (meters : bool)
    (header : string) (next : prog response) :
  let s := NewServer tokens known max meters in
  (credentials tokens header -> auth s header next = next) /\
  (~ credentials tokens header -> exists msg, auth s header next
     = Ret (writeErr StatusUnauthorized "unauthorized" (Text msg))) /\
  (forall t, t ∈ tokens -> t <> EmptyString -> auth s (bearer +:+ t) next = next).
Proof.
  intros s. unfold auth, s. split_and!.
  - intros Ha. by rewrite auth_check_accepts.
  - intros Hno. destruct (auth_check_refuses tokens known max meters header Hno) as [msg ->]. by exists msg.
  - intros t Ht Hne. rewrite auth_check_accepts; [done|]. right. by exists t, t.
Qed.

(** ** Submission *)

Section submit.
Context {R : Type} `{!RedisServer R} `{EnvelopeJSON} `{GoText} (q : queue) (s : Server).
Implicit Types w : World R.

(** The job is in the table, under its type and key. *)
Definition stored (j : Job) (db : DB) : Prop :=
  exists row, jobs db !! ID j = Some row /\ d_type (r_def row) = Type_ j /\
    d_idempotency_key (r_def row) = nullif (IdempotencyKey j).

Lemma evolves_stored j db db' : evolves db db' -> stored j db -> stored j db'.
Proof.
  intros He (row & Hr & Ht & Hk).
  destruct (evolves_defined_as (ID j) (r_def row) db db' He ltac:(by exists row)) as (row' & Hr' & Hd).
  exists row'. by rewrite Hd.
Qed.

(** What a submission answers. *)
Definition submit_answer (uuid : string) (d : decoded submitRequest) (re : response) (db : DB) : Prop :=
  re_Status re ∈ [StatusOK; StatusCreated; StatusBadRequest; StatusRequestEntityTooLarge;
                  StatusServiceUnavailable] /\
  (re_Status re = StatusCreated -> exists req j, d = Decoded req /\ re_Body re = BodyJob j /\
     admitted j /\ ID j = uuid /\ Type_ j = sr_Type req /\ sr_Type req ∈ srv_KnownTypes s /\
     Payload j = sr_Payload req /\ slen (sr_Payload req) <= srv_MaxPayloadBytes s /\
     IdempotencyKey j = sr_IdempotencyKey req /\ stored j db) /\
  (re_Status re = StatusOK -> exists req j, d = Decoded req /\ re_Body re = BodyJob j /\
     Type_ j = sr_Type req /\ IdempotencyKey j = sr_IdempotencyKey req /\
     sr_IdempotencyKey req <> EmptyString /\ stored j db).

Lemma submit_answer_error uuid d st code msg db :
  st ∈ [StatusBadRequest; StatusRequestEntityTooLarge; StatusServiceUnavailable] ->
  submit_answer uuid d (writeErr st code msg) db.
Proof.
  intros Hst. unfold submit_answer. simpl. split_and!; [set_solver| |];
    intros ->; exfalso; revert Hst; unfold StatusCreated, StatusOK, StatusBadRequest,
    StatusRequestEntityTooLarge, StatusServiceUnavailable; set_solver.
Qed.

(** The handoff after the row is in the table changes nothing of the answer. *)
Lemma wp_handoff {A} (j : Job) env at_time (k : prog A) (Q : A -> World R -> Prop) w :
  (forall w', world_evolves w w' -> wp world_evolves no_pre k Q w') ->
  wp world_evolves no_pre
    (streamID <- Enqueue q env at_time ;;
     match streamID with Err _ => Ret tt | Ok sid => _ <- SetEnqueued (ID j) sid ;; Ret tt end ;;; k) Q w.
Proof.
  intros HQ. apply wp_bind. eapply wp_mono;
    [|refine (wp_weaken _ _ disciplined no_pre _ _ w _ _ (wp_plain _ w _)); [done|done|apply plain_Enqueue]].
  intros sid w1 H1. simpl in H1. apply wp_bind. eapply wp_mono;
    [|refine (wp_weaken _ _ disciplined no_pre _ _ w1 _ _ (wp_plain _ w1 _)); [done|done|only_calls]].
  intros u w2 H2. apply HQ. by etrans.
Qed.

(** C24. The contract of a submission. Under any interference and failure,
    [POST /jobs] answers 201 only with a job that was admitted from exactly
    the request its body decodes to, of a type the server knows, and whose row is in Postgres;
    it answers 200 only to a request with an idempotency key, with the stored
    job of that type and key; and every other answer is an error response. *)
Theorem submit_contract (uuid body : string) (w : World R) :
  db_wf (w_db w) ->
  wp world_evolves no_pre (handleSubmit q s uuid body)
    (fun re w' => submit_answer uuid (decode_submit (body_limit s) body) re (w_db w')) w.
Proof.
  intros Hwf. unfold handleSubmit. generalize (decode_submit (body_limit s) body) as d. intros d.
  destruct d as [req| |err]; [|apply submit_answer_error; set_solver..].
  destruct (negb (bool_decide (sr_Type req ∈ _))) eqn:Hty; [apply submit_answer_error; set_solver|].
  destruct (srv_MaxPayloadBytes s <? slen (sr_Payload req)) eqn:Hlen; [apply submit_answer_error; set_solver|].
  reflect_bools. apply wp_bind, wp_now. intros w1 now H1. split; [done|].
  destruct (schedule_of req now) as [at_time|]; [|apply submit_answer_error; set_solver].
  set (opts := Build_Options _ _ _ _ _).
  destruct (New uuid (sr_Type req) (sr_Payload req) opts now) as [j|e] eqn:Hnew;
    [|apply submit_answer_error; set_solver].
  destruct (proj2 (New_admits_iff _ _ _ _ _) j Hnew) as (Hadm & Hid & Ht & Hp & Hk & _).
  apply wp_bind. eapply wp_mono; [|apply wp_CreateJob; [done|by eapply evolves_wf]].
  intros [cr|e] w2; [|intros _; apply submit_answer_error; set_solver].
  intros (Hwf2 & id & row & Hrow & HID & Hty' & Hkey' & Hdt & Hdk & Hcr & Hnc).
  assert (Hst : stored (cr_Job cr) (w_db w2)) by (exists row; rewrite HID, Hty', Hkey'; done).
  destruct (cr_Created cr); simpl.
  - destruct (Hcr eq_refl) as [E _]. rewrite E in Hst. apply wp_handoff. intros w3 H3. simpl.
    apply wp_bind. eapply (wp_mono _ _ _ (fun _ w' => world_evolves w2 w')).
    + intros u w4 H4. simpl. split_and!; [set_solver|intros _|done].
      exists req, j. split_and!; try done. by eapply evolves_stored.
    + destruct (srv_Meters s); [|done]. apply wp_notify. intros w4 H4. split; [done|]. by etrans.
  - simpl. split_and!; [set_solver|done|intros _]. exists req, (cr_Job cr).
    split_and!; try done; [by rewrite Hty'|by rewrite Hkey'|].
    change (opt_IdempotencyKey opts <> EmptyString). rewrite <-Hk. by apply Hnc.
Qed.
End submit.

(** ** Cancellation *)

Section cancel.
Context {R : Type} `{!RedisServer R} `{EnvelopeJSON} (q : queue).
Implicit Types w : World R.

Definition is_cancelled (id : string) (db : DB) : Prop :=
  exists r, jobs db !! id = Some r /\ r_status r = StatusCancelled.

Lemma evolves_cancelled id db db' : evolves db db' -> is_cancelled id db -> is_cancelled id db'.
Proof.
  apply (evolves_ind (is_cancelled id)). intros A now s db0 _ (r & Hr & Hs).
  pose proof (exec_stmt_slots now s db0 id) as H1. rewrite Hr in H1.
  apply slot_from_Some in H1 as (r' & Hr' & Hstep). exists r'. split; [done|].
  apply row_step_status in Hstep. rewrite Hs in Hstep. destruct Hstep as [Heq|Ht]; [done|].
  exfalso. destruct (CanTransition_from_Terminal StatusCancelled (r_status r') eq_refl Ht); done.
Qed.

(** What the answer of a cancellation means. *)
Definition cancel_answer (id : string) (re : response) (db : DB) : Prop :=
  (re_Status re = StatusOK -> re_Body re = BodyCancellation id "done" /\ is_cancelled id db) /\
  (re_Status re = StatusAccepted -> re_Body re = BodyCancellation id "requested" /\
     exists r, jobs db !! id = Some r) /\
  re_Status re ∈ [StatusOK; StatusAccepted; StatusNotFound; StatusConflict; StatusServiceUnavailable].

Lemma cancel_answer_error id st code msg db :
  st ∈ [StatusNotFound; StatusConflict; StatusServiceUnavailable] ->
  cancel_answer id (writeErr st code msg) db.
Proof.
  intros Hst. unfold cancel_answer. simpl. split_and!; [intros ->|intros ->|set_solver];
    exfalso; revert Hst; unfold StatusOK, StatusAccepted, StatusNotFound, StatusConflict,
    StatusServiceUnavailable; set_solver.
Qed.

Lemma wp_plain' {A} (p : prog A) w :
  only plain p -> wp world_evolves no_pre p (fun _ w' => world_evolves w w') w.
Proof. intros Hp. apply (wp_weaken world_evolves _ disciplined); [done|done|by apply wp_plain]. Qed.

(** What a loaded job is: some row was there, and is for ever. *)
Lemma wp_loadJob id w (Q : result response Job -> World R -> Prop) :
  db_wf (w_db w) ->
  (forall j w', world_evolves w w' -> ID j = id -> is_Some (jobs (w_db w') !! id) -> Q (Ok j) w') ->
  (forall st code msg w', world_evolves w w' -> st ∈ [StatusNotFound; StatusServiceUnavailable] ->
     Q (Err (writeErr st code msg)) w') ->
  wp world_evolves no_pre (loadJob id) Q w.
Proof.
  intros Hwf Hok Herr. unfold loadJob, GetJob, getJobBy. apply wp_bind, wp_bind, wp_QueryRow.
  intros w1 H1. split; [done|]. intros now.
  assert (Hw2 : world_evolves w (with_db (exec_stmt now (SelectJob id) (w_db w1)).2 w1)) by exact H1.
  split; [|split].
  1-2: intros o; simpl; unfold is_no_rows; rewrite outage_not_sentinel by set_solver; simpl;
    destruct (is_not_found _); apply Herr; [exact H1|set_solver|exact H1|set_solver].
  simpl in *. destruct (jobs (w_db w1) !! id) as [row|] eqn:Hrow; simpl.
  - apply Hok; [done| |by simpl; eauto].
    assert (Hwf1 : db_wf (w_db w1)) by (by eapply evolves_wf). apply (wf_rows _ Hwf1 id row Hrow).
  - unfold is_no_rows, is_not_found. simpl. apply Herr; [done|set_solver].
Qed.

(** The contract of a cancellation. Under any interference and failure,
    [DELETE /jobs/{id}] answers 200 only when the job's row is [CANCELLED] (and
    then it is for ever), 202 only for a job that exists; everything else is an
    error response. *)
Theorem cancel_contract (id : string) (w : World R) :
  db_wf (w_db w) ->
  wp world_evolves no_pre (handleCancel q id) (fun re w' => cancel_answer id re (w_db w')) w.
Proof.
  intros Hwf. unfold handleCancel, with_job. apply wp_bind, wp_loadJob; [done| |].
  2: { intros st code msg w1 _ Hst. apply cancel_answer_error. set_solver. }
  intros j w1 H1 Hid Hex. rewrite Hid.
  destruct (Terminal (Status_ j)); [apply cancel_answer_error; set_solver|].
  destruct (bool_decide (Status_ j = StatusRunning)).
  - apply wp_bind. eapply wp_mono; [|apply wp_plain', plain_RequestCancel]. simpl.
    intros [[]|e] w2 H2; [|apply cancel_answer_error; set_solver]. simpl.
    split_and!; [done| |set_solver]. intros _. split; [done|].
    destruct Hex as [row Hrow].
    destruct (evolves_defined_as id (r_def row) _ _ H2 ltac:(by exists row)) as (r & ? & _). eauto.
  - unfold CancelJob. apply wp_bind, wp_ok, wp_Errorf, wp_sql. intros w2 H2. split; [done|].
    intros now. split; [|split]; [intros; apply cancel_answer_error; set_solver..|].
    pose proof (update_where_hit id claimable (row_cancelled now) (w_db w2)) as Hhit.
    simpl. destruct (update_where id claimable (row_cancelled now) (w_db w2)) as [o db2]. simpl in *.
    unfold with_event, one_row. destruct o as [row|]; simpl; [|apply cancel_answer_error; set_solver].
    destruct (Hhit row eq_refl) as (r0 & _ & _ & -> & Hj).
    assert (Hc : is_cancelled id db2) by (eexists; rewrite Hj, lookup_insert_eq; done).
    apply wp_bind, wp_addEvent; [done|]. intros w3 H3. simpl.
    apply wp_bind. eapply wp_mono; [|apply wp_plain', plain_RequestCancel]. intros u w4 H4. simpl in *.
    split_and!; [|done|set_solver]. intros _. split; [done|].
    eapply evolves_cancelled; [exact H4|]. by eapply evolves_cancelled.
Qed.
End cancel.

(** ** Discipline *)

Section plain.
Context `{EnvelopeJSON} `{GoText} (q : queue) (s : Server).

Lemma plain_handleSubmit uuid body : only plain (handleSubmit q s uuid body).
Proof.
  unfold handleSubmit. destruct (decode_submit _ body) as [req| |]; [|exact I..].
  destruct (negb _); [exact I|]. destruct (_ <? _); [exact I|].
  apply only_bind; [by apply only_now|]. intros now.
  destruct (schedule_of req now) as [t|]; [|exact I].
  destruct (New uuid (sr_Type req) (sr_Payload req) _ now) as [j|e] eqn:Hnew; [|exact I].
  destruct (proj2 (New_admits_iff _ _ _ _ _) j Hnew) as (Hadm & _).
  apply only_bind; [by apply plain_CreateJob|]. only_calls.
Qed.

Lemma plain_with_job id k : (forall j, only plain (k j)) -> only plain (with_job id k).
Proof.
  intros Hk. unfold with_job, loadJob. only_calls.
Qed.

Lemma plain_handleCancel id : only plain (handleCancel q id).
Proof. apply plain_with_job. only_calls. Qed.

Lemma plain_handleRequeueDLQ id : only plain (handleRequeueDLQ q id).
Proof. unfold handleRequeueDLQ. only_calls. Qed.
End plain.
#[export] Hint Resolve plain_handleSubmit plain_handleCancel plain_handleRequeueDLQ : only.

(** ** Witnesses *)

Lemma auth_spec_witness :
  auth (NewServer ["k1"; "k2"] [] 1 false) "Bearer k2" handleWorkers = handleWorkers.
Proof.
  destruct (auth_spec ["k1"; "k2"] [] 1 false "Bearer k2" handleWorkers) as [H _].
  apply H. right. exists "k2", "k2". split_and!; [reflexivity|discriminate|apply list_elem_of_In; simpl; tauto|reflexivity].
Defined.

Definition demo_server : Server := NewServer [] ["bench.sleep"] 1024 true.
Definition demo_body : string :=
  dquoted "{'type': 'bench.sleep', 'payload': {}, 'options': {'idempotencyKey': 'k'}}".

Lemma submit_contract_witness :
  exists w', run (handleSubmit (H:=DemoJSON) (H0:=DemoText) demo_queue demo_server "u9" demo_body)
    (replicate 7 (fine 5)) (demo_world empty_db)
    = (Some (writeJSON StatusCreated (BodyJob (Build_Job "u9" "bench.sleep" DefaultQueue StatusPending
         PriorityDefault "{}" EmptyString EmptyString "k" 0 DefaultMaxAttempts 0 None EmptyString 5 5 None None))), w') /\
    submit_answer demo_server "u9" (decode_submit (H:=DemoText) (body_limit demo_server) demo_body)
      (writeJSON StatusCreated (BodyJob (Build_Job "u9" "bench.sleep" DefaultQueue StatusPending
         PriorityDefault "{}" EmptyString EmptyString "k" 0 DefaultMaxAttempts 0 None EmptyString 5 5 None None)))
      (w_db w').
Proof.
  pose proof (wp_run world_evolves no_pre _ _ _ (demo_world empty_db) (replicate 7 (fine 5))
    (submit_contract (H:=DemoJSON) (H0:=DemoText) demo_queue demo_server "u9" demo_body
       (demo_world empty_db) empty_db_wf)) as H.
  eexists. split; [vm_compute; reflexivity|]. vm_compute run in H. exact H.
Defined.

Lemma cancel_contract_witness :
  exists w', run (handleCancel demo_queue "j1") (replicate 6 (fine 5)) (demo_world demo_inserted)
    = (Some (writeJSON StatusOK (BodyCancellation "j1" "done")), w') /\
    cancel_answer "j1" (writeJSON StatusOK (BodyCancellation "j1" "done")) (w_db w').
Proof.
  assert (Hwf : db_wf (w_db (demo_world demo_inserted))).
  { apply (evolves_wf empty_db); [|apply empty_db_wf].
    eapply (evolves_step 0 (InsertJob demo_job "{}")). exact demo_job_admitted. }
  pose proof (wp_run world_evolves no_pre _ _ _ (demo_world demo_inserted) (replicate 6 (fine 5))
    (cancel_contract demo_queue "j1" (demo_world demo_inserted) Hwf)) as H.
  eexists. split; [vm_compute; reflexivity|]. vm_compute run in H. exact H.
Defined.

(** The product of [delaySeconds] and a second wraps: a delay of about 292 years
    is one in the past. *)
Example delay_seconds_overflows :
  schedule_of {| sr_Type := "bench.sleep"; sr_Payload := "{}"; sr_Queue := ""; sr_Priority := "";
     sr_MaxAttempts := 0; sr_IdempotencyKey := ""; sr_DelaySeconds := 9223372037;
     sr_ScheduledAt := zero_time |} 0 = Some (-9223372036709551616).
Proof. by vm_compute. Qed.
