(* ===== verification/Routes.v ===== *)
(** * Routes: from a request to its handler

    Models [Server.Handler] of [internal/api/server.go]: the table of patterns,
    the choice [http.ServeMux] makes, authentication in front of everything
    but the probes and the metrics, and the handlers that [Api.v] leaves
    out.  A request comes as the method, the segments of the clean path, the
    Authorization header, the query parameter [since] and the body; the hub is
    passed along.  The wrappers around the whole, which log and recover from
    panics, are in [Middleware.v]. *)

From S2P Require Import Prelude Errors Job Requests Retry Database Rows Redis Effects Rely Store.
From S2P Require Import Queue Pool Control Api.
Local Open Scope string_scope.
Local Open Scope list_scope.
Local Open Scope Z_scope.
Local Open Scope prog_scope.

(** ** The table *)

Inductive endpoint :=
| EHealthz | EReadyz | EMetrics
| ESubmit | EGetJob | EGetResult | EGetAttempts | ECancel | EDepths | ESummary | EListDLQ
| ERequeueDLQ | EWorkers | EMeta | EControlWorkers | EDrain | EPause | EResume | ESetConcurrency.

(** A segment of a pattern: itself, or [{id}]. *)
Inductive seg := Lit (s : string) | Id.

Record route := { rt_Method : string; rt_Path : list seg; rt_Authed : bool; rt_Endpoint : endpoint }.

Definition open_route (p : list seg) (e : endpoint) : route :=
  {| rt_Method := "GET"; rt_Path := p; rt_Authed := false; rt_Endpoint := e |}.
Definition authed (m : string) (p : list seg) (e : endpoint) : route :=
  {| rt_Method := m; rt_Path := Lit "api" :: Lit "v1" :: p; rt_Authed := true; rt_Endpoint := e |}.

Definition routes (meters : bool) : list route :=
  [open_route [Lit "healthz"] EHealthz; open_route [Lit "readyz"] EReadyz] ++
  (if meters then [open_route [Lit "metrics"] EMetrics] else []) ++
  [authed "POST" [Lit "jobs"] ESubmit;
   authed "GET" [Lit "jobs"; Id] EGetJob;
   authed "GET" [Lit "jobs"; Id; Lit "result"] EGetResult;
   authed "GET" [Lit "jobs"; Id; Lit "attempts"] EGetAttempts;
   authed "DELETE" [Lit "jobs"; Id] ECancel;
   authed "GET" [Lit "queues"; Lit "depths"] EDepths;
   authed "GET" [Lit "stats"; Lit "summary"] ESummary;
   authed "GET" [Lit "dlq"] EListDLQ;
   authed "POST" [Lit "dlq"; Id; Lit "requeue"] ERequeueDLQ;
   authed "GET" [Lit "workers"] EWorkers;
   authed "GET" [Lit "meta"] EMeta;
   authed "GET" [Lit "control"; Lit "workers"] EControlWorkers;
   authed "POST" [Lit "control"; Lit "workers"; Id; Lit "drain"] EDrain;
   authed "POST" [Lit "control"; Lit "workers"; Id; Lit "pause"] EPause;
   authed "POST" [Lit "control"; Lit "workers"; Id; Lit "resume"] EResume;
   authed "POST" [Lit "control"; Lit "workers"; Id; Lit "concurrency"] ESetConcurrency].

(** The value of [{id}] when the path fits; a wildcard takes no empty segment. *)
Fixpoint match_path (ps : list seg) (path : list string) (id : string) : option string :=
  match ps, path with
  | [], [] => Some id
  | Lit a :: ps', b :: path' => if bool_decide (a = b) then match_path ps' path' id else None
  | Id :: ps', b :: path' => if bool_decide (b = EmptyString) then None else match_path ps' path' b
  | _, _ => None
  end.
(** A GET pattern serves HEAD too. *)
Definition method_fits (pattern m : string) : bool :=
  bool_decide (pattern = m) || (bool_decide (pattern = "GET") && bool_decide (m = "HEAD")).

Definition path_fits (path : list string) (rt : route) : bool :=
  bool_decide (is_Some (match_path (rt_Path rt) path EmptyString)).

Inductive mux_choice := Chosen (rt : route) (id : string) | MethodNotAllowed | NoRoute.

Definition mux (meters : bool) (m : string) (path : list string) : mux_choice :=
  match filter (fun rt => path_fits path rt = true) (routes meters) with
  | [] => NoRoute
  | rts =>
      match filter (fun rt => method_fits (rt_Method rt) m = true) rts with
      | [] => MethodNotAllowed
      | rt :: _ => Chosen rt (default EmptyString (match_path (rt_Path rt) path EmptyString))
      end
  end.

(** ** Requests *)

Record request := {
  req_Method : string; req_Path : list string; req_Authorization : string;
  req_Since : string; req_Body : string
}.

Section routes.
Context `{EnvelopeJSON} `{GoText} (q : queue) (s : Server).
(** The job ids [job.New] draws, the drivers' pings, the page of the Prometheus
    handler, and what [runtime] reports. *)
Context (uuid : string) (pgPing rdPing : prog (result error unit)) (metricsPage : string).
Context (version goVersion goos goarch : string) (numCPU : Z).

Definition handleSummary (since_text : string) : prog response :=
  now <- time_Now ;;
  match parse_since since_text with
  | BadSince => Ret (writeErr StatusBadRequest "invalid_since" (Text "since must be RFC3339."))
  | p =>
      let since := match p with Since t => t | _ => now - Hour end in
      sum <- ReadSummary since ;;
      match sum with
      | Err e => Ret (writeErr StatusServiceUnavailable "storage_unavailable" (Text (Error e)))
      | Ok x => Ret (writeJSON StatusOK (BodySummary x))
      end
  end.

Definition handleMeta : prog response :=
  Ret (writeJSON StatusOK (BodyMeta version goVersion goos goarch numCPU)).

Definition handleHealthz : prog response := Ret (writeJSON StatusOK (BodyStatus "ok")).

Definition handleReadyz : prog response :=
  d <- pgPing ;;
  match d with
  | Err _ => Ret (writeErr StatusServiceUnavailable "not_ready" (Text "database unreachable"))
  | Ok _ =>
      r <- rdPing ;;
      match r with
      | Err _ => Ret (writeErr StatusServiceUnavailable "not_ready" (Text "redis unreachable"))
      | Ok _ => Ret (writeJSON StatusOK (BodyStatus "ready"))
      end
  end.

(** A handler that does not touch the hub, and one that does at some instant. *)
Definition apart (hub : option Hub) (p : prog response) : prog (response * option Hub) :=
  re <- p ;; Ret (re, hub).
Definition commanded (f : Time -> response * option Hub) : prog (response * option Hub) :=
  now <- time_Now ;; Ret (f now).

Definition serve (e : endpoint) (id : string) (rq : request) (hub : option Hub)
    : prog (response * option Hub) :=
  match e with
  | EHealthz => apart hub handleHealthz
  | EReadyz => apart hub handleReadyz
  | EMetrics => apart hub (Ret (writeJSON StatusOK (BodyText metricsPage)))
  | ESubmit => apart hub (handleSubmit q s uuid (req_Body rq))
  | EGetJob => apart hub (handleGetJob id)
  | EGetResult => apart hub (handleGetResult id)
  | EGetAttempts => apart hub (handleGetAttempts id)
  | ECancel => apart hub (handleCancel q id)
  | EDepths => apart hub (handleDepths q)
  | ESummary => apart hub (handleSummary (req_Since rq))
  | EListDLQ => apart hub handleListDLQ
  | ERequeueDLQ => apart hub (handleRequeueDLQ q id)
  | EWorkers => apart hub handleWorkers
  | EMeta => apart hub handleMeta
  | EControlWorkers => apart hub (Ret (handleControlWorkers hub))
  | EDrain => commanded (fun now => controlCmd (fun id h => Drain id now h) hub id)
  | EPause => commanded (fun now => controlCmd (fun id h => Hub_Pause id now h) hub id)
  | EResume => commanded (fun now => controlCmd (fun id h => Hub_Resume id now h) hub id)
  | ESetConcurrency => commanded (handleSetConcurrency hub id (req_Body rq))
  end.

(** [Handler]: the mux, then authentication, then the endpoint. *)
Definition Handler (rq : request) (hub : option Hub) : prog (response * option Hub) :=
  match mux (srv_Meters s) (req_Method rq) (req_Path rq) with
  | NoRoute => Ret (writeJSON StatusNotFound (BodyText "404 page not found"), hub)
  | MethodNotAllowed => Ret (writeJSON StatusMethodNotAllowed (BodyText "Method Not Allowed"), hub)
  | Chosen rt id =>
      if rt_Authed rt then
        match auth_check s (req_Authorization rq) with
        | Some re => Ret (re, hub)
        | None => serve (rt_Endpoint rt) id rq hub
        end
      else serve (rt_Endpoint rt) id rq hub
  end.
End routes.

(** ** No two routes compete *)

(** Some path fits both patterns. *)
Fixpoint compatible (p1 p2 : list seg) : bool :=
  match p1, p2 with
  | [], [] => true
  | Lit a :: p1', Lit b :: p2' => bool_decide (a = b) && compatible p1' p2'
  | _ :: p1', _ :: p2' => compatible p1' p2'
  | _, _ => false
  end.

Lemma match_path_nil a p i : match_path (a :: p) [] i = None.
Proof. by destruct a. Qed.

Lemma match_compatible p1 : forall p2 path i1 i2,
  is_Some (match_path p1 path i1) -> is_Some (match_path p2 path i2) -> compatible p1 p2 = true.
Proof.
  induction p1 as [|a p1 IH]; intros p2 path i1 i2 H1 H2.
  - destruct p2 as [|b p2]; [done|]. destruct path; [|by destruct H1].
    rewrite match_path_nil in H2. by destruct H2.
  - destruct path as [|c path]; [rewrite match_path_nil in H1; by destruct H1|].
    destruct p2 as [|b p2]; [by destruct H2|].
    destruct a as [a|], b as [b|]; simpl in H1, H2 |- *; repeat case_bool_decide; subst; simpl;
      try (by destruct H1); try (by destruct H2); eauto.
Qed.

(** Two methods that some request method fits. *)
Definition methods_meet (a b : string) : bool :=
  existsb (fun m => method_fits a m && method_fits b m) ["GET"; "HEAD"; "POST"; "DELETE"].

Lemma methods_meet_spec meters rt1 rt2 m :
  rt1 ∈ routes meters -> method_fits (rt_Method rt1) m = true -> method_fits (rt_Method rt2) m = true ->
  methods_meet (rt_Method rt1) (rt_Method rt2) = true.
Proof.
  intros Hin H1 H2. assert (Hm : m ∈ ["GET"; "HEAD"; "POST"; "DELETE"]).
  { unfold method_fits in H1. apply orb_true_iff in H1 as [Hm|[_ Hm]%andb_true_iff];
      apply bool_decide_eq_true in Hm; subst; [|set_solver].
    apply list_elem_of_In in Hin. destruct meters; simpl in Hin; intuition (subst; set_solver). }
  unfold methods_meet. apply existsb_exists. exists m.
  split; [by apply list_elem_of_In|]. by rewrite H1, H2.
Qed.

(** Checked over all pairs of the table. *)
Definition apart_in_table (meters : bool) : bool :=
  let n := length (routes meters) in
  forallb (fun i => forallb (fun j =>
    match routes meters !! i, routes meters !! j with
    | Some a, Some b => bool_decide (i = j) || negb (methods_meet (rt_Method a) (rt_Method b))
                        || negb (compatible (rt_Path a) (rt_Path b))
    | _, _ => true
    end) (seq 0 n)) (seq 0 n).

Lemma table_apart meters : apart_in_table meters = true.
Proof. destruct meters; vm_compute; reflexivity. Qed.

Lemma route_unique meters m path i j a b :
  routes meters !! i = Some a -> routes meters !! j = Some b ->
  path_fits path a = true -> path_fits path b = true ->
  method_fits (rt_Method a) m = true -> method_fits (rt_Method b) m = true -> i = j.
Proof.
  intros Hi Hj Pa Pb Ma Mb. pose proof (table_apart meters) as Ht. unfold apart_in_table in Ht.
  rewrite forallb_forall in Ht. specialize (Ht i). rewrite in_seq in Ht.
  assert (Hin : forall k x, routes meters !! k = Some x -> (0 <= k < 0 + length (routes meters))%nat).
  { intros k x Hk. apply lookup_lt_Some in Hk. lia. }
  specialize (Ht (Hin _ _ Hi)). rewrite forallb_forall in Ht. specialize (Ht j).
  rewrite in_seq in Ht. specialize (Ht (Hin _ _ Hj)). rewrite Hi, Hj in Ht.
  unfold path_fits in Pa, Pb. apply bool_decide_eq_true in Pa, Pb.
  rewrite (match_compatible _ _ _ _ _ Pa Pb) in Ht.
  rewrite (methods_meet_spec meters a b m) in Ht by (try done; by eapply list_elem_of_lookup_2).
  rewrite orb_false_r, orb_false_r in Ht. by apply bool_decide_eq_true in Ht.
Qed.

(** So the mux picks the route that fits, whichever it is. *)
Lemma mux_chooses meters m path rt :
  rt ∈ routes meters -> path_fits path rt = true -> method_fits (rt_Method rt) m = true ->
  mux meters m path = Chosen rt (default EmptyString (match_path (rt_Path rt) path EmptyString)).
Proof.
  intros Hin Hp Hm. unfold mux.
  assert (Hf : rt ∈ filter (fun x => path_fits path x = true) (routes meters)) by (by apply list_elem_of_filter).
  assert (Hff : rt ∈ filter (fun x => method_fits (rt_Method x) m = true)
    (filter (fun x => path_fits path x = true) (routes meters))) by (by apply list_elem_of_filter).
  destruct (filter (fun x => path_fits path x = true) (routes meters)) as [|x0 rts] eqn:E1;
    [by apply elem_of_nil in Hf|]. rewrite <-E1 in *.
  destruct (filter (fun x => method_fits (rt_Method x) m = true) _) as [|x rest] eqn:E2;
    [by apply elem_of_nil in Hff|].
  assert (Hx : x ∈ filter (fun x => method_fits (rt_Method x) m = true)
    (filter (fun x => path_fits path x = true) (routes meters))) by (rewrite E2; by left).
  apply list_elem_of_filter in Hx as [Hxm [Hxp Hxin]%list_elem_of_filter].
  apply list_elem_of_lookup_1 in Hin as [i Hi]. apply list_elem_of_lookup_1 in Hxin as [j Hj].
  assert (i = j) as <- by (eapply route_unique; eauto). rewrite Hi in Hj. by injection Hj as <-.
Qed.

(** ** Who gets in *)

Definition open_paths : list (list string) := [["healthz"]; ["readyz"]; ["metrics"]].

Lemma unauthed_open meters rt path :
  rt ∈ routes meters -> rt_Authed rt = false -> path_fits path rt = true -> path ∈ open_paths.
Proof.
  assert (Hone : forall a, is_Some (match_path [Lit a] path EmptyString) -> path = [a]).
  { intros a. destruct path as [|b [|c path]]; simpl; [by intros [? ?]|..];
      case_bool_decide; subst; [done|by intros [? ?]..]. }
  intros Hin Ha Hp. unfold path_fits in Hp. apply bool_decide_eq_true in Hp.
  apply list_elem_of_In in Hin. unfold open_paths.
  destruct meters; simpl in Hin; repeat (destruct Hin as [<-|Hin]; [first [discriminate Ha|apply Hone in Hp; set_solver]|]); done.
Qed.

Lemma mux_sound meters m path rt id :
  mux meters m path = Chosen rt id -> rt ∈ routes meters /\ path_fits path rt = true.
Proof.
  unfold mux. destruct (filter (fun x => path_fits path x = true) (routes meters)) as [|x0 rts] eqn:E1; [done|].
  rewrite <-E1. destruct (filter (fun x => method_fits (rt_Method x) m = true) _) as [|x rest] eqn:E2; [done|].
  intros [= <- _].
  assert (Hx : x ∈ filter (fun x => method_fits (rt_Method x) m = true)
    (filter (fun x => path_fits path x = true) (routes meters))) by (rewrite E2; by left).
  apply list_elem_of_filter in Hx as [_ [? ?]%list_elem_of_filter]. done.
Qed.

Section guards.
Context `{EnvelopeJSON} `{GoText} (q : queue) (tokens known : list string) (max : Z) (meters : bool).
Context (uuid : string) (pgPing rdPing : prog (result error unit)) (metricsPage : string).
Context (version goVersion goos goarch : string) (numCPU : Z).
Abbreviation server := (NewServer tokens known max meters).
Abbreviation Handle := (Handler q server uuid pgPing rdPing metricsPage version goVersion goos goarch numCPU).
Abbreviation Serve := (serve q server uuid pgPing rdPing metricsPage version goVersion goos goarch numCPU).

Lemma Handler_serves (rq : request) (hub : option Hub) rt id :
  credentials tokens (req_Authorization rq) -> rt ∈ routes meters ->
  match_path (rt_Path rt) (req_Path rq) EmptyString = Some id ->
  method_fits (rt_Method rt) (req_Method rq) = true ->
  Handle rq hub = Serve (rt_Endpoint rt) id rq hub.
Proof.
  intros Hcred Hin Hmatch Hm. unfold Handler. simpl.
  rewrite (mux_chooses meters (req_Method rq) (req_Path rq) rt); [|done| |done].
  - rewrite Hmatch. simpl. rewrite auth_check_accepts by done. by destruct (rt_Authed rt).
  - unfold path_fits. apply bool_decide_eq_true. by eexists.
Qed.

(** C25. The door. A request to anything but the two probes and the metrics page
    without the credentials the server was configured with is answered 401,
    404 or 405, and neither the store nor the queue is called nor the hub
    touched. A request with them goes to exactly the handler of the one route
    its method and path fit - no two routes compete - with the segment of the
    path that stands for [{id}]. *)
Theorem Handler_guards (rq : request) (hub : option Hub) :
  (~ credentials tokens (req_Authorization rq) -> req_Path rq ∉ open_paths ->
   exists re, Handle rq hub = Ret (re, hub) /\
     re_Status re ∈ [StatusUnauthorized; StatusNotFound; StatusMethodNotAllowed]) /\
  (credentials tokens (req_Authorization rq) ->
   forall rt id, rt ∈ routes meters -> match_path (rt_Path rt) (req_Path rq) EmptyString = Some id ->
     method_fits (rt_Method rt) (req_Method rq) = true ->
     Handle rq hub = Serve (rt_Endpoint rt) id rq hub).
Proof.
  split.
  - intros Hno Hpath. unfold Handler. simpl. destruct (mux meters _ _) as [rt id| |] eqn:Hmux.
    + destruct (mux_sound _ _ _ _ _ Hmux) as [Hin Hp]. destruct (rt_Authed rt) eqn:Ha.
      * destruct (auth_check_refuses tokens known max meters _ Hno) as [msg ->].
        eexists. split; [done|]. simpl. set_solver.
      * exfalso. apply Hpath. by eapply unauthed_open.
    + eexists. split; [done|]. simpl. set_solver.
    + eexists. split; [done|]. simpl. set_solver.
  - intros Hcred rt id. by apply Handler_serves.
Qed.
End guards.

(** ** Witness *)

Definition demo_get (auth : string) : request :=
  {| req_Method := "GET"; req_Path := ["api"; "v1"; "jobs"; "j1"; "result"]; req_Authorization := auth;
     req_Since := EmptyString; req_Body := EmptyString |}.

Lemma Handler_guards_witness :
  Handler (H:=DemoJSON) (H0:=DemoText) demo_queue (NewServer ["k1"] [] 1 false) "u" (Ret (Ok tt)) (Ret (Ok tt))
    "" "" "" "" "" 1 (demo_get "Bearer k1") None
  = apart None (handleGetResult "j1").
Proof.
  destruct (Handler_guards (H:=DemoJSON) (H0:=DemoText) demo_queue ["k1"] [] 1 false "u" (Ret (Ok tt)) (Ret (Ok tt))
    "" "" "" "" "" 1 (demo_get "Bearer k1") None) as [_ Hok].
  apply (Hok ltac:(right; exists "k1", "k1"; split_and!; [reflexivity|discriminate|by left|reflexivity])
    (authed "GET" [Lit "jobs"; Id; Lit "result"] EGetResult)); [|reflexivity|reflexivity].
  apply list_elem_of_In. simpl. tauto.
Defined.
