(* ===== verification/Middleware.v ===== *)
(** * Middleware: the wrappers around the routes

    Models [recoverMW], [logMW] and [statusRecorder] of [internal/api/server.go]:
    what a client gets of a handler that answers, answers twice or panics, and
    what the log says of it.  A handler is the calls it makes of its
    [http.ResponseWriter], and whether it panics after them. *)

From S2P Require Import Prelude Errors Api Routes.
Local Open Scope list_scope.
Local Open Scope Z_scope.

(** ** Writers *)

Inductive wcall := WriteHeader (code : Z) | Write (b : body).
Record handling := { hd_calls : list wcall; hd_panics : bool }.

(** The writer of [net/http]: the first status stands, and writing sends 200. *)
Record sent := { sn_status : option Z; sn_body : list body }.
Definition unsent : sent := {| sn_status := None; sn_body := [] |}.
Definition put (w : sent) (c : wcall) : sent :=
  match c with
  | WriteHeader code => {| sn_status := Some (default code (sn_status w)); sn_body := sn_body w |}
  | Write b => {| sn_status := Some (default StatusOK (sn_status w)); sn_body := sn_body w ++ [b] |}
  end.
Definition puts (w : sent) (cs : list wcall) : sent := foldl put w cs.

(** [statusRecorder]: the last code a handler asked for. *)
Definition recorder_status (cs : list wcall) : Z :=
  foldl (fun st c => match c with WriteHeader code => code | Write _ => st end) StatusOK cs.

(** ** Wrappers *)

Definition probe (path : list string) : bool := bool_decide (path ∈ open_paths).

(** [logMW]: the line is written when the handler returns. *)
Record served := { sv_writer : sent; sv_panics : bool; sv_log : option Z }.
Definition logMW (path : list string) (h : handling) (w : sent) : served :=
  {| sv_writer := puts w (hd_calls h); sv_panics := hd_panics h;
     sv_log := if probe path || hd_panics h then None else Some (recorder_status (hd_calls h)) |}.

(** [writeErr] as calls of the writer. *)
Definition written (re : response) : list wcall := [WriteHeader (re_Status re); Write (re_Body re)].
Definition panic_answer : response := writeErr 500 "internal_error" (Text "Something went wrong.").
Definition recoverMW (s : served) : served :=
  if sv_panics s then {| sv_writer := puts (sv_writer s) (written panic_answer); sv_panics := false; sv_log := sv_log s |}
  else s.

Definition wrapped (path : list string) (h : handling) : served := recoverMW (logMW path h unsent).

(** The handlers of [Api.v] and [Routes.v] answer once. *)
Definition answering (re : response) : handling := {| hd_calls := written re; hd_panics := false |}.

(** ** What comes out *)

(** An answer goes through unchanged, and is logged with its status unless it is
    for a probe; a panic before anything was written is a 500 and not logged as a
    request; and nothing escapes. *)
Theorem wrapped_answers (path : list string) :
  (forall re, wrapped path (answering re) =
     {| sv_writer := {| sn_status := Some (re_Status re); sn_body := [re_Body re] |}; sv_panics := false;
        sv_log := if probe path then None else Some (re_Status re) |}) /\
  (forall h, sv_panics (wrapped path h) = false) /\
  (wrapped path {| hd_calls := []; hd_panics := true |} =
     {| sv_writer := {| sn_status := Some 500; sn_body := [re_Body panic_answer] |}; sv_panics := false; sv_log := None |}) /\
  (forall h code cs, hd_calls h = WriteHeader code :: cs -> sn_status (sv_writer (wrapped path h)) = Some code).
Proof.
  split_and!.
  - intros re. unfold wrapped, recoverMW, logMW. simpl. by rewrite orb_false_r.
  - intros h. unfold wrapped, recoverMW, logMW. simpl. by destruct (hd_panics h).
  - unfold wrapped, recoverMW, logMW. simpl. by rewrite orb_true_r.
  - intros h code cs Hh. unfold wrapped, recoverMW, logMW. simpl.
    assert (Hp : forall cs w, sn_status w = Some code -> sn_status (puts w cs) = Some code).
    { clear. induction cs as [|c cs IH]; intros w Hw; [done|]. apply IH. destruct c; simpl; by rewrite Hw. }
    destruct (hd_panics h); simpl; rewrite Hh; [apply (Hp (written panic_answer))|]; by apply (Hp cs).
Qed.
