(* ===== verification/Http.v ===== *)
(** * Http: what the command-line tools send, and how the server reads it

    The client half that [cmd/calligraphyctl/main.go] and
    [cmd/calligraphy-bench/main.go] share: the request a [client] makes of a
    method, a path and a body, and what [net/http] makes of it at the server -
    segments of the path, query, headers.  Paths are those that need no escaping:
    a byte of the path arrives as it was sent. *)

From S2P Require Import Prelude Json Decode Rfc3339 Job Api Routes.
Local Open Scope string_scope.
Local Open Scope list_scope.
Local Open Scope Z_scope.

(** ** Splitting *)

Fixpoint split_on (c : ascii) (s : string) : list string :=
  match s with
  | EmptyString => [EmptyString]
  | String d s' =>
      if Ascii.eqb d c then EmptyString :: split_on c s'
      else match split_on c s' with
           | x :: xs => String d x :: xs
           | [] => [String d EmptyString]
           end
  end.

(** [strings.Cut]. *)
Fixpoint cut (c : ascii) (s : string) : string * string :=
  match s with
  | EmptyString => (EmptyString, EmptyString)
  | String d s' => if Ascii.eqb d c then (EmptyString, s') else let '(a, b) := cut c s' in (String d a, b)
  end.

Definition absent (c : ascii) (s : string) : bool :=
  forallb (fun d => negb (Ascii.eqb d c)) (list_ascii_of_string s).

Lemma absent_app c a b : absent c (a +:+ b) = absent c a && absent c b.
Proof. unfold absent. induction a as [|d a IH]; [done|]. rewrite sapp_cons. cbn. by rewrite IH, andb_assoc. Qed.

Lemma absent_cons c d s : absent c (String d s) = negb (Ascii.eqb d c) && absent c s.
Proof. done. Qed.

Lemma split_on_absent c s : absent c s = true -> split_on c s = [s].
Proof.
  induction s as [|d s IH]; [done|]. rewrite absent_cons. intros [Hd%negb_true_iff Hs]%andb_true_iff.
  cbn [split_on]. by rewrite Hd, IH.
Qed.

Lemma split_on_app c a b : split_on c (a +:+ String c b) = split_on c a ++ split_on c b.
Proof.
  induction a as [|d a IH].
  - change (EmptyString +:+ ?x) with x. cbn [split_on]. by rewrite Ascii.eqb_refl.
  - rewrite sapp_cons. cbn [split_on]. rewrite IH. destruct (Ascii.eqb d c); [done|].
    by destruct (split_on c a) as [|x xs] eqn:E; [destruct a as [|e a]; cbn in E; [done|]; repeat case_match|].
Qed.

Lemma cut_absent c a : absent c a = true -> cut c a = (a, EmptyString).
Proof.
  induction a as [|d a IH]; [done|]. rewrite absent_cons. intros [Hd%negb_true_iff Hs]%andb_true_iff.
  cbn [cut]. by rewrite Hd, IH.
Qed.

Lemma cut_at c a b : absent c a = true -> cut c (a +:+ String c b) = (a, b).
Proof.
  induction a as [|d a IH]; [intros _; simpl; by rewrite Ascii.eqb_refl|]. rewrite absent_cons.
  intros [Hd%negb_true_iff Hs]%andb_true_iff. rewrite sapp_cons. cbn [cut]. by rewrite Hd, IH.
Qed.

(** ** A request on its way *)

(** A nil body is [None]. *)
Record outgoing := { o_Method : string; o_Path : string; o_Body : option string }.

(** [query.Get(key)]: the first value of the key, or nothing. *)
Definition query_get (key query : string) : string :=
  match filter (fun kv => (cut "=" kv).1 = key) (split_on "&" query) with
  | kv :: _ => (cut "=" kv).2
  | [] => EmptyString
  end.

(** [client.do] sets the header when it has a token; the path and the query are
    those of [req.URL]. *)
Definition incoming (token : string) (o : outgoing) : request :=
  let '(path, query) := cut "?" (o_Path o) in
  {| req_Method := o_Method o;
     req_Path := tail (split_on "/" path);
     req_Authorization := if bool_decide (token = EmptyString) then EmptyString else bearer +:+ token;
     req_Since := query_get "since" query;
     req_Body := default EmptyString (o_Body o) |}.

(** The token of a client the server knows. *)
Definition admitted (tokens : list string) (token : string) : Prop :=
  tokens = [] \/ (token <> EmptyString /\ token ∈ tokens).

Lemma admitted_credentials tokens token o :
  admitted tokens token -> credentials tokens (req_Authorization (incoming token o)).
Proof.
  intros Ht. unfold incoming. destruct (cut _ _) as [path query]. cbn [req_Authorization].
  destruct Ht as [-> |[Hne Hin]]; [by left|]. right. rewrite bool_decide_false by done. by exists token, token.
Qed.

(** Names need no escaping and stay one segment. *)
Lemma ValidName_absent c s : ValidName s = true -> isNameByte c = false -> absent c s = true.
Proof.
  intros Hs Hc. destruct s as [|d s]; [done|]. cbn in Hs. apply andb_true_iff in Hs as [[Hd Hs]%andb_true_iff _].
  rewrite absent_cons. apply andb_true_iff. split.
  - apply negb_true_iff. destruct (Ascii.eqb_spec d c) as [->|]; [|done].
    unfold isNameByte in Hc. by rewrite Hd in Hc.
  - unfold absent. rewrite forallb_forall in Hs |- *. intros e He%Hs. apply negb_true_iff.
    destruct (Ascii.eqb_spec e c) as [->|]; congruence.
Qed.

(** ** Indentation: [json.Indent(&pretty, raw, "", "  ")] *)

Definition newline : ascii := ascii_of_nat 10.
Fixpoint spaces (n : nat) : string := match n with O => EmptyString | S n' => String " " (spaces n') end.
Definition appendNewline (depth : nat) : string := String newline (spaces (2 * depth)).

Definition in_string (s : scan_state) : bool :=
  match s with InString | InStringEsc | InStringEscU _ => true | _ => false end.

Definition is_closing (c : ascii) : bool := Ascii.eqb c "}" || Ascii.eqb c "]".
Definition prepended (p : string) (x : option string) : option string := s ← x; Some (p +:+ s).

(** From a state of the scanner on: what is appended for the rest of the text;
    [need] is [needIndent].  A byte that the scanner skips is dropped; those in a
    string, a number or a literal are copied. *)
Fixpoint indent_from (s : scan_state) (st : list parse_state) (need : bool) (depth : nat) (text : string) : option string :=
  match text with
  | EmptyString =>
      match step s st " " with Some (EndTop, _) => Some EmptyString | _ => None end
  | String c text' =>
      match step s st c with
      | None => None
      | Some (s', st') =>
          if isSpace c && negb (in_string s) && negb (bool_decide (s' = EndTop)) then indent_from s' st' need depth text'
          else
            let closing := negb (in_string s) && is_closing c in
            let '(pre, depth1) :=
              if need && negb closing then (appendNewline (S depth), S depth) else (EmptyString, depth) in
            let need1 := need && closing in
            if in_string s then prepended (pre +:+ String c EmptyString) (indent_from s' st' false depth1 text')
            else match c with
            | "{"%char | "["%char => prepended (pre +:+ String c EmptyString) (indent_from s' st' true depth1 text')
            | ","%char =>
                prepended (pre +:+ String c (appendNewline depth1)) (indent_from s' st' false depth1 text')
            | ":"%char => prepended (pre +:+ ": ") (indent_from s' st' false depth1 text')
            | "}"%char | "]"%char =>
                if need1 then prepended (String c EmptyString) (indent_from s' st' false depth1 text')
                else prepended (appendNewline (depth1 - 1) +:+ String c EmptyString)
                       (indent_from s' st' false (depth1 - 1) text')
            | _ => prepended (pre +:+ String c EmptyString) (indent_from s' st' false depth1 text')
            end
      end
  end.

Definition Indent (raw : string) : option string := indent_from BeginValue [] false 0 raw.

Example Indent_examples :
  Indent (dquoted "{'a':[1, {}],'b, ':[ ] , 'c': {'d' :null}} ") =
    Some (String.concat (String newline EmptyString)
      (map dquoted ["{"; "  'a': ["; "    1,"; "    {}"; "  ],"; "  'b, ': [],"; "  'c': {"; "    'd': null"; "  }"; "} "])) /\
  Indent "[1" = None /\ Indent "7" = Some "7".
Proof. by vm_compute. Qed.

(** Exactly valid JSON is indented. *)
Lemma indent_from_finishes text : forall s st need depth,
  (exists x, indent_from s st need depth text = Some x) <-> finish s st text = true.
Proof.
  assert (Hp : forall p o, (exists x, prepended p o = Some x) <-> exists x, o = Some x).
  { intros p [y|]; unfold prepended; cbn; split; intros [x Hx]; try done; eauto. }
  induction text as [|c text IH]; intros s st need depth; cbn [indent_from finish].
  - assert (He : (match s with EndTop => true | _ => match step s st " " with Some (EndTop, _) => true | _ => false end end)
      = match step s st " " with Some (EndTop, _) => true | _ => false end) by (by destruct s).
    rewrite He. destruct (step s st " ") as [[s' ?]|]; [|split; [by intros [? ?]|done]].
    destruct s'; split; try done; try (by intros [? ?]); eauto.
  - destruct (step s st c) as [[s' st']|]; [|split; [by intros [? ?]|done]].
    destruct (isSpace c && _ && _); [apply IH|].
    destruct (need && negb _); cbv zeta iota beta;
    (destruct (in_string s); [by rewrite Hp, IH|]);
    destruct c as [[] [] [] [] [] [] [] []]; try (by rewrite Hp, IH); destruct (need && _); by rewrite Hp, IH.
Qed.

Lemma Indent_Valid raw : (exists x, Indent raw = Some x) <-> Valid raw = true.
Proof. unfold Indent. rewrite indent_from_finishes, finish_Valid. done. Qed.
