(* ===== verification/Flags.v ===== *)
(** * Flags: the options of a command line

    [flag.Parse] of the standard library for flags that take a value, as
    [cmd/calligraphyctl/main.go] and [cmd/calligraphy-bench/main.go] declare
    them, over the words of the command line. *)

From S2P Require Import Prelude Rfc3339.
Local Open Scope string_scope.
Local Open Scope list_scope.

(** A word: not a flag, the two minuses that end the flags, a malformed one, or a
    name with the value behind its [=]. *)
Inductive word := NotFlag | Terminator | BadSyntax | Named (name : string) (value : option string).

(** The name runs up to the first [=], which does not come first. *)
Fixpoint split_value (s : string) : string * option string :=
  match s with
  | EmptyString => (EmptyString, None)
  | String c s' =>
      if Ascii.eqb c "=" then (EmptyString, Some s')
      else let '(n, v) := split_value s' in (String c n, v)
  end.
Definition flag_name (s : string) : word :=
  match s with
  | EmptyString => BadSyntax
  | String c _ =>
      if Ascii.eqb c "-" || Ascii.eqb c "=" then BadSyntax
      else let '(n, v) := split_value s in Named n v
  end.
Definition word_of (s : string) : word :=
  match s with
  | String a (String b s') =>
      if Ascii.eqb a "-" then
        if Ascii.eqb b "-" then (if bool_decide (s' = EmptyString) then Terminator else flag_name s')
        else flag_name (String b s')
      else NotFlag
  | _ => NotFlag
  end.

(** [flag.ExitOnError]: help exits with 0, an error with 2. *)
Inductive parsing (A : Type) := Parsed (x : A) (args : list string) | Helped | BadFlag.
Arguments Parsed {A} x args.
Arguments Helped {A}.
Arguments BadFlag {A}.

Section parse.
Context {A : Type} (formal : string -> option (A -> string -> option A)).

Definition set_flag (name value : string) (x : A) (k : A -> parsing A) : parsing A :=
  match formal name with
  | None => if bool_decide (name ∈ ["help"; "h"]) then Helped else BadFlag
  | Some set => match set x value with Some x' => k x' | None => BadFlag end
  end.

Fixpoint parse_flags (x : A) (args : list string) : parsing A :=
  match args with
  | [] => Parsed x []
  | s :: rest =>
      match word_of s with
      | NotFlag => Parsed x args
      | Terminator => Parsed x rest
      | BadSyntax => BadFlag
      | Named name (Some v) => set_flag name v x (fun x' => parse_flags x' rest)
      | Named name None =>
          match rest with
          | v :: rest' => set_flag name v x (fun x' => parse_flags x' rest')
          | [] => if formal name is Some _ then BadFlag else set_flag name EmptyString x (fun _ => BadFlag)
          end
      end
  end.

Lemma parse_flags_stop x s rest : word_of s = NotFlag -> parse_flags x (s :: rest) = Parsed x (s :: rest).
Proof. intros Hs. cbn [parse_flags]. by rewrite Hs. Qed.

(** [-name value] sets the flag, whatever the value looks like. *)
Lemma parse_flags_set x name v rest set x' :
  word_of (String "-" name) = Named name None -> formal name = Some set -> set x v = Some x' ->
  parse_flags x (String "-" name :: v :: rest) = parse_flags x' rest.
Proof. intros Hw Hf Hs. cbn [parse_flags]. rewrite Hw. unfold set_flag. by rewrite Hf, Hs. Qed.
End parse.
