(* ===== verification/Ctl.v ===== *)
(** * Ctl: the operator's command line

    Models [cmd/calligraphyctl/main.go]: the flags, the command with its
    arguments, the request it makes, and what comes out of the process.  The
    exchange with the server is an argument; what the server does with the request
    is [Routes.Handler]. *)

From S2P Require Import Prelude Errors Json Decode Strconv Rfc3339 Encode Job Wire Requests Redis Effects Store Queue.
From S2P Require Import Control Api Routes Http Flags.
Local Open Scope string_scope.
Local Open Scope list_scope.
Local Open Scope Z_scope.

(** ** Commands *)

(** What a command line comes to before anything is sent. *)
Inductive complaint := MissingArgument | UsageConcurrency | UnknownCommand (cmd : string).

Definition get (path : string) : outgoing := {| o_Method := "GET"; o_Path := path; o_Body := None |}.
Definition post (path : string) (body : option string) : outgoing :=
  {| o_Method := "POST"; o_Path := path; o_Body := body |}.
Definition delete_ (path : string) : outgoing := {| o_Method := "DELETE"; o_Path := path; o_Body := None |}.

Definition withArg (args : list string) (n : nat) (f : string -> outgoing) : result complaint outgoing :=
  match args !! n with Some a => Ok (f a) | None => Err MissingArgument end.

Definition worker_path (w what : string) : string := "/api/v1/control/workers/" +:+ w +:+ what.

(** The switch of [main], for a non-empty list of arguments. *)
Definition command (now : Time) (args : list string) : result complaint outgoing :=
  match args with
  | [] => Err (UnknownCommand EmptyString)
  | cmd :: _ =>
      if bool_decide (cmd = "stats") then
        Ok (get ("/api/v1/stats/summary?since=" +:+ FormatRFC3339 (now - Hour)))
      else if bool_decide (cmd = "depths") then Ok (get "/api/v1/queues/depths")
      else if bool_decide (cmd = "workers") then Ok (get "/api/v1/workers")
      else if bool_decide (cmd = "live") then Ok (get "/api/v1/control/workers")
      else if bool_decide (cmd = "job") then withArg args 1 (fun id => get ("/api/v1/jobs/" +:+ id))
      else if bool_decide (cmd = "attempts") then
        withArg args 1 (fun id => get ("/api/v1/jobs/" +:+ id +:+ "/attempts"))
      else if bool_decide (cmd = "cancel") then withArg args 1 (fun id => delete_ ("/api/v1/jobs/" +:+ id))
      else if bool_decide (cmd = "dlq") then Ok (get "/api/v1/dlq")
      else if bool_decide (cmd = "requeue") then
        withArg args 1 (fun id => post ("/api/v1/dlq/" +:+ id +:+ "/requeue") None)
      else if bool_decide (cmd = "drain") then withArg args 1 (fun w => post (worker_path w "/drain") None)
      else if bool_decide (cmd = "pause") then withArg args 1 (fun w => post (worker_path w "/pause") None)
      else if bool_decide (cmd = "resume") then withArg args 1 (fun w => post (worker_path w "/resume") None)
      else if bool_decide (cmd = "concurrency") then
        match args with
        | _ :: w :: n :: _ =>
            Ok (post (worker_path w "/concurrency") (Some ("{" +:+ in_quotes "target" +:+ ":" +:+ n +:+ "}")))
        | _ => Err UsageConcurrency
        end
      else Err (UnknownCommand cmd)
  end.

(** ** The process *)

Record settings := { c_base : string; c_token : string }.

Definition ctl_flags (name : string) : option (settings -> string -> option settings) :=
  if bool_decide (name = "api") then Some (fun c v => Some {| c_base := v; c_token := c_token c |})
  else if bool_decide (name = "token") then Some (fun c v => Some {| c_base := c_base c; c_token := v |})
  else None.

Definition envOr (getenv : string -> string) (key def : string) : string :=
  if bool_decide (getenv key = EmptyString) then def else getenv key.
Definition default_settings (getenv : string -> string) : settings :=
  {| c_base := envOr getenv "CALLIGRAPHY_API_URL" "http://127.0.0.1:8080";
     c_token := getenv "CALLIGRAPHY_API_TOKEN" |}.

(** What went wrong, as the last line of standard error says it. *)
Inductive failure := Complains (c : complaint) | Transport (err : string) | Refused (method path : string) (status : Z).

(** [client.do], given what the exchange came to: the response's status and body,
    or why there is none.  At most a mebibyte is read. *)
Definition client_do (o : outgoing) (answer : result string (Z * string)) : string * option failure :=
  match answer with
  | Err e => (EmptyString, Some (Transport e))
  | Ok (status, body) =>
      let raw := stake (2 ^ 20) body in
      (match Indent raw with Some pretty => pretty +:+ String newline EmptyString | None => raw end,
       if 400 <=? status then Some (Refused (o_Method o) (o_Path o) status) else None)
  end.

Record exit := { x_code : Z; x_stdout : string; x_failure : option failure; x_sent : option (settings * outgoing) }.
Definition usage (code : Z) : exit := {| x_code := code; x_stdout := EmptyString; x_failure := None; x_sent := None |}.
Definition exits (out : string) (f : option failure) (sent : option (settings * outgoing)) : exit :=
  {| x_code := if f is Some _ then 1 else 0; x_stdout := out; x_failure := f; x_sent := sent |}.

Definition ctl_main (getenv : string -> string) (now : Time)
    (exchange : settings -> outgoing -> result string (Z * string)) (argv : list string) : exit :=
  match parse_flags ctl_flags (default_settings getenv) argv with
  | Helped => usage 0
  | BadFlag | Parsed _ [] => usage 2
  | Parsed c args =>
      match command now args with
      | Err e => exits EmptyString (Some (Complains e)) None
      | Ok o => let '(out, f) := client_do o (exchange c o) in exits out f (Some (c, o))
      end
  end.

(** ** What the commands are for *)

(** The endpoint and the [{id}] that the usage text promises. *)
Definition promised (args : list string) : option (endpoint * string) :=
  match args with
  | cmd :: rest =>
      let nullary e := Some (e, EmptyString) in
      let unary e := match rest with id :: _ => Some (e, id) | [] => None end in
      if bool_decide (cmd = "stats") then nullary ESummary
      else if bool_decide (cmd = "depths") then nullary EDepths
      else if bool_decide (cmd = "workers") then nullary EWorkers
      else if bool_decide (cmd = "live") then nullary EControlWorkers
      else if bool_decide (cmd = "job") then unary EGetJob
      else if bool_decide (cmd = "attempts") then unary EGetAttempts
      else if bool_decide (cmd = "cancel") then unary ECancel
      else if bool_decide (cmd = "dlq") then nullary EListDLQ
      else if bool_decide (cmd = "requeue") then unary ERequeueDLQ
      else if bool_decide (cmd = "drain") then unary EDrain
      else if bool_decide (cmd = "pause") then unary EPause
      else if bool_decide (cmd = "resume") then unary EResume
      else if bool_decide (cmd = "concurrency") then
        match rest with w :: _ :: _ => Some (ESetConcurrency, w) | _ => None end
      else None
  | [] => None
  end.

(** A request that the table sends to this endpoint. *)
Definition goes_to (meters : bool) (token : string) (o : outgoing) (e : endpoint) (id : string) : Prop :=
  exists rt, rt ∈ routes meters /\ rt_Endpoint rt = e /\
    match_path (rt_Path rt) (req_Path (incoming token o)) EmptyString = Some id /\
    method_fits (rt_Method rt) (req_Method (incoming token o)) = true.

(** A path of segments. *)
Fixpoint slashed (l : list string) : string :=
  match l with [] => EmptyString | x :: l' => "/" +:+ x +:+ slashed l' end.
Definition segment (s : string) : bool := absent "/" s && absent "?" s.

Lemma slashed_split l : forallb segment l = true ->
  split_on "/" (slashed l) = EmptyString :: l /\ absent "?" (slashed l) = true.
Proof.
  induction l as [|x l IH]; [done|]. cbn [forallb]. intros [[Hs Hq]%andb_true_iff [IH1 IH2]%IH]%andb_true_iff.
  change (slashed (x :: l)) with (String "/" (x +:+ slashed l)). split.
  - cbn [split_on]. rewrite Ascii.eqb_refl. f_equal. destruct l as [|y l].
    + cbn [slashed]. rewrite sapp_nil_r. by apply split_on_absent.
    + change (slashed (y :: l)) with (String "/" (y +:+ slashed l)) in *. rewrite split_on_app, split_on_absent by done.
      cbn [split_on] in IH1. rewrite Ascii.eqb_refl in IH1. by injection IH1 as ->.
  - rewrite absent_cons, absent_app, Hq. done.
Qed.

Lemma segment_name s : ValidName s = true -> segment s = true.
Proof. intros Hs. unfold segment. by rewrite !ValidName_absent. Qed.

Lemma goes_to_route meters token o rt l id :
  rt ∈ routes false -> rt_Method rt = o_Method o -> o_Path o = slashed l -> forallb segment l = true ->
  match_path (rt_Path rt) l EmptyString = Some id -> goes_to meters token o (rt_Endpoint rt) id.
Proof.
  intros Hin Hmeth Hp Hl Hm. destruct (slashed_split l Hl) as [Hs Hq]. exists rt. unfold incoming.
  rewrite Hp, cut_absent, Hs by done. cbn [req_Path req_Method tail].
  split_and!; [|done|done|unfold method_fits; by rewrite bool_decide_true].
  apply list_elem_of_In in Hin. apply list_elem_of_In. destruct meters; simpl in *; tauto.
Qed.

(** The three shapes of a path. *)
Lemma match_lits ps id bs x : ValidName id = true ->
  match_path (map Lit ps ++ Id :: map Lit bs) (ps ++ id :: bs) x = Some id.
Proof.
  intros Hid. induction ps as [|p ps IH]; [|by simpl; rewrite bool_decide_true].
  simpl. rewrite bool_decide_false by (by intros ->).
  clear Hid. induction bs as [|b bs IH]; [done|]. simpl. by rewrite bool_decide_true.
Qed.

Lemma named_reached meters token m ps id bs e o :
  ValidName id = true -> authed m (map Lit ps ++ Id :: map Lit bs) e ∈ routes false -> o_Method o = m ->
  o_Path o = slashed ("api" :: "v1" :: ps ++ id :: bs) -> forallb segment (ps ++ bs) = true ->
  goes_to meters token o e id.
Proof.
  intros Hid Hin Hm Hp Hs. apply (goes_to_route _ _ _ _ ("api" :: "v1" :: ps ++ id :: bs) _ Hin); [done|done| |].
  - change (forallb segment (ps ++ id :: bs) = true). rewrite forallb_app in Hs |- *. cbn [forallb].
    by rewrite segment_name, andb_true_l.
  - by apply (match_lits ("api" :: "v1" :: ps)).
Qed.

Ltac in_table := apply list_elem_of_In; simpl; tauto.

(** Every command reaches what it is for. *)
Lemma command_reaches meters token now args o :
  command now args = Ok o -> Forall (fun a => ValidName a = true) (take 1 (tail args)) ->
  exists e id, promised args = Some (e, id) /\ goes_to meters token o e id.
Proof.
  destruct args as [|cmd rest]; [done|]. intros Hc Hv.
  assert (Harg : forall f, withArg (cmd :: rest) 1 f = Ok o -> exists a rest', rest = a :: rest' /\ ValidName a = true /\ f a = o).
  { intros f. destruct rest as [|a rest']; [done|]. intros [= <-]. apply Forall_inv in Hv. by exists a, rest'. }
  unfold command, promised in *.
  case_bool_decide; [injection Hc as <-|].
  { eexists _, _. split; [done|]. exists (authed "GET" [Lit "stats"; Lit "summary"] ESummary).
    unfold incoming, get. cbn [o_Path].
    change ("/api/v1/stats/summary?since=" +:+ ?x) with ("/api/v1/stats/summary" +:+ String "?" ("since=" +:+ x)).
    rewrite cut_at by done. split_and!; [|done|done|done]. destruct meters; in_table. }
  repeat (case_bool_decide; [first
    [ injection Hc as <-; eexists _, _; split; [done|];
      first [ by apply (goes_to_route _ _ _ (authed "GET" [Lit "queues"; Lit "depths"] EDepths) ["api"; "v1"; "queues"; "depths"]); [in_table|..]
            | by apply (goes_to_route _ _ _ (authed "GET" [Lit "workers"] EWorkers) ["api"; "v1"; "workers"]); [in_table|..]
            | by apply (goes_to_route _ _ _ (authed "GET" [Lit "control"; Lit "workers"] EControlWorkers) ["api"; "v1"; "control"; "workers"]); [in_table|..]
            | by apply (goes_to_route _ _ _ (authed "GET" [Lit "dlq"] EListDLQ) ["api"; "v1"; "dlq"]); [in_table|..] ]
    | apply Harg in Hc as (a & rest' & -> & Ha & <-); eexists _, _; split; [done|];
      first [ apply (named_reached _ _ "GET" ["jobs"] a [] EGetJob _ Ha)
            | apply (named_reached _ _ "DELETE" ["jobs"] a [] ECancel _ Ha)
            | apply (named_reached _ _ "GET" ["jobs"] a ["attempts"] EGetAttempts _ Ha)
            | apply (named_reached _ _ "POST" ["dlq"] a ["requeue"] ERequeueDLQ _ Ha)
            | apply (named_reached _ _ "POST" ["control"; "workers"] a ["drain"] EDrain _ Ha)
            | apply (named_reached _ _ "POST" ["control"; "workers"] a ["pause"] EPause _ Ha)
            | apply (named_reached _ _ "POST" ["control"; "workers"] a ["resume"] EResume _ Ha) ];
      [in_table|done|by simpl; rewrite ?sapp_nil_r|done]
    | destruct rest as [|w [|n rest']]; [done..|]; injection Hc as <-; apply Forall_inv in Hv;
      eexists _, _; split; [done|];
      by apply (named_reached _ _ "POST" ["control"; "workers"] w ["concurrency"] ESetConcurrency _ Hv); [in_table|..] ]|]).
  done.
Qed.

(** The text of an instant does not end the value in a query. *)
Lemma fixed_digits_absent k : forall n, absent "&" (fixed_digits k n) = true.
Proof.
  induction k as [|k IH]; intros n; [done|]. cbn [fixed_digits]. rewrite absent_app, IH. cbn [andb].
  unfold dig. pose proof (Z.mod_pos_bound n 10 ltac:(lia)).
  assert (Hk : (Z.to_nat (n mod 10) < 10)%nat) by lia. revert Hk. generalize (Z.to_nat (n mod 10)). intros j Hj.
  do 10 (destruct j as [|j]; [reflexivity|]). lia.
Qed.
Lemma Format_absent t : in_years t = true -> absent "&" (FormatRFC3339 t) = true.
Proof.
  unfold FormatRFC3339, in_years, year_of, date_time. destruct (civil_from_days _) as [[y m] d]. cbn [fst].
  intros [H1%Z.leb_le H2%Z.leb_le]%andb_true_iff. unfold four_digits.
  destruct (Z.ltb_spec y 0); [lia|]. destruct (Z.ltb_spec y 10000); [|lia].
  unfold two_digits. by rewrite !absent_app, !fixed_digits_absent.
Qed.

Lemma query_since t : in_years t = true -> query_get "since" ("since=" +:+ FormatRFC3339 t) = FormatRFC3339 t.
Proof.
  intros Ht. unfold query_get. rewrite split_on_absent.
  2: { rewrite absent_app, Format_absent by done. done. }
  assert (Hc : cut "=" ("since=" +:+ FormatRFC3339 t) = ("since", FormatRFC3339 t)).
  { change ("since=" +:+ ?x) with ("since" +:+ String "=" x). by rewrite cut_at. }
  rewrite filter_cons, decide_True by (by rewrite Hc). exact (f_equal snd Hc).
Qed.

Lemma FormatRFC3339_nonempty t : in_years t = true -> FormatRFC3339 t <> EmptyString.
Proof. intros Ht He. pose proof (parse_Format t Ht) as Hp. by rewrite He in Hp. Qed.

(** The window [stats] asks for, as the server reads it. *)
Lemma stats_window `{GoText} token now o :
  command now ["stats"] = Ok o -> in_years (now - Hour) = true ->
  parse_since (req_Since (incoming token o)) = Since ((now - Hour) / Second * Second).
Proof.
  intros [= <-] Ht. unfold incoming, get. cbn [o_Path].
  change ("/api/v1/stats/summary?since=" +:+ ?x) with ("/api/v1/stats/summary" +:+ String "?" ("since=" +:+ x)).
  rewrite cut_at by done. cbn [req_Since]. rewrite query_since by done. unfold parse_since.
  rewrite bool_decide_false by (by apply FormatRFC3339_nonempty). by rewrite parse_Format.
Qed.

(** The body [concurrency] sends, as the server reads it. *)
Lemma pretty_int_length n : int_range n = true -> slen (pretty n) <= 20.
Proof.
  unfold int_range, max_int64, slen. intros [H1%Z.leb_le H2%Z.leb_le]%andb_true_iff.
  assert (Hp : forall p : positive, Z.pos p <= 2 ^ 63 -> (String.length (pretty (N.pos p)) <= 19)%nat).
  { intros p Hp. apply (pretty_N_length 18). apply N2Z.inj_lt. rewrite N2Z.inj_pow. simpl. lia. }
  destruct n as [|p|p]; [done|..].
  - change (pretty (Z.pos p)) with (pretty (N.pos p)). specialize (Hp p ltac:(lia)). lia.
  - change (pretty (Z.neg p)) with (String "-" (pretty (N.pos p))). specialize (Hp p ltac:(lia)). cbn [String.length]. lia.
Qed.

Lemma target_arrives `{GoText} token now w n o :
  command now ["concurrency"; w; pretty n] = Ok o -> int_range n = true ->
  decode_target (req_Body (incoming token o)) = Decoded n.
Proof.
  intros [= <-] Hn. unfold incoming, post. destruct (cut _ _) as [path query]. cbn [req_Body o_Body default from_option].
  set (ms := [member "target" (VNum (pretty n))]).
  assert (Hr : forall x, "{" +:+ in_quotes "target" +:+ ":" +:+ x +:+ "}" = render (VObj [member "target" (VNum x)])).
  { intros x. cbn [render map fst snd member]. unfold enclosed. cbn [String.concat]. by rewrite !sapp_assoc. }
  rewrite Hr. fold ms. unfold decode_target.
  rewrite <-(sapp_nil_r (render (VObj ms))). cbv beta delta [id]. rewrite decode_body_object.
  - unfold ms. cbn [printed map member fst snd decode_struct]. rewrite (decode_member _ _ (at_int (fun _ x => x) id)) by done.
    unfold at_int, dec_int. unfold int_range in Hn. reflect_bools. by rewrite Atoi_pretty by done.
  - unfold ms. cbn [wf forallb member fst snd]. rewrite (proj1 (pretty_number n)). done.
  - unfold ms. rewrite <-Hr. pose proof (pretty_int_length n Hn) as Hl. revert Hl. generalize (pretty n) as x.
    intros x Hl. unfold slen, target_limit in *. rewrite !length_sapp. unfold in_quotes. cbn [String.length]. rewrite length_sapp.
    cbn [String.length Nat.add]. lia.
Qed.

(** ** What the operator gets *)

Section service.
Context `{EnvelopeJSON} `{GoText} (q : queue) (tokens known : list string) (max : Z) (meters : bool).
Context (uuid : string) (pgPing rdPing : prog (result error unit)) (metricsPage : string).
Context (version goVersion goos goarch : string) (numCPU : Z).
Abbreviation server := (NewServer tokens known max meters).
Abbreviation Handle := (Handler q server uuid pgPing rdPing metricsPage version goVersion goos goarch numCPU).
Abbreviation Serve := (serve q server uuid pgPing rdPing metricsPage version goVersion goos goarch numCPU).

(** C26. The operator's commands do what they say.  A command line is refused before
    anything is sent exactly when the usage text promises nothing for it; otherwise
    the one request it makes is, for names that need no escaping and a token the
    server knows, served by the promised endpoint with the named job or worker,
    and not by any other.  [stats] asks for the window of the last hour, to the
    second, and [concurrency w n] for [n] slots: server and client agree on the
    texts. *)
Theorem commands_served (token : string) (hub : option Hub) (now : Time) :
  admitted tokens token ->
  (forall args, is_Ok (command now args) = bool_decide (is_Some (promised args))) /\
  (forall args o, command now args = Ok o -> Forall (fun a => ValidName a = true) (take 1 (tail args)) ->
     exists e id, promised args = Some (e, id) /\
       Handle (incoming token o) hub = Serve e id (incoming token o) hub) /\
  (in_years (now - Hour) = true -> exists o, command now ["stats"] = Ok o /\
     parse_since (req_Since (incoming token o)) = Since ((now - Hour) / Second * Second)) /\
  (forall w n, int_range n = true -> exists o, command now ["concurrency"; w; pretty n] = Ok o /\
     decode_target (req_Body (incoming token o)) = Decoded n).
Proof.
  intros Ht. split_and!.
  - intros args. symmetry. unfold promised, command, withArg. destruct args as [|cmd rest]; [done|].
    repeat match goal with |- context [bool_decide (cmd = ?x)] =>
      destruct (bool_decide (cmd = x)); [by destruct rest as [|? [|? ?]]|] end. done.
  - intros args o Hc Hv. destruct (command_reaches meters token now args o Hc Hv) as (e & id & Hp & rt & Hin & <- & Hm & Hf).
    exists (rt_Endpoint rt), id. split; [done|]. by apply Handler_serves; [apply admitted_credentials|..].
  - intros Hy. eexists. split; [done|]. by eapply stats_window.
  - intros w n Hn. eexists. split; [done|]. by apply (target_arrives token now w).
Qed.
End service.

Lemma commands_served_witness :
  Handler (H:=DemoJSON) (H0:=DemoText) demo_queue (NewServer ["k1"] [] 1 false) "u" (Ret (Ok tt)) (Ret (Ok tt))
    "" "" "" "" "" 1 (incoming "k1" (post "/api/v1/control/workers/w-1/concurrency" (Some (dquoted "{'target':8}")))) None
  = commanded (handleSetConcurrency (H0:=DemoText) None "w-1" (dquoted "{'target':8}")) /\
  parse_since (H:=DemoText) "2024-02-29T11:34:56Z" = Since (1709206496 * Second) /\
  decode_target (H:=DemoText) (dquoted "{'target':8}") = Decoded 8.
Proof.
  destruct (commands_served (H:=DemoJSON) (H0:=DemoText) demo_queue ["k1"] [] 1 false "u" (Ret (Ok tt)) (Ret (Ok tt))
    "" "" "" "" "" 1 "k1" None (1709210096 * Second + 5) ltac:(right; split; [discriminate|by left])) as (_ & H1 & H2 & H3).
  split_and!.
  - destruct (H1 ["concurrency"; "w-1"; "8"] _ eq_refl ltac:(repeat constructor)) as (e & id & [= <- <-] & He). exact He.
  - destruct (H2 ltac:(reflexivity)) as (o & [= <-] & Ho). vm_compute in Ho. vm_compute. exact Ho.
  - destruct (H3 "w-1" 8 eq_refl) as (o & [= <-] & Ho). exact Ho.
Defined.
