(* ===== verification/Callback.v ===== *)
(** * Callback: delivering a job to an HTTP endpoint

    Models [internal/handlers/httpcallback/httpcallback.go]: what is sent, to
    whom, with which signature, and what the receiver's answer makes of the
    job.  The network, the URL parser, the encoder of the result, the texts of
    decoding errors and [%q] are arguments. *)

From S2P Require Import Prelude Errors Decode Encode Job Wire Handler Runner Execution Sha256.
Local Open Scope string_scope.
Local Open Scope list_scope.
Local Open Scope Z_scope.

(** ** Data *)

Definition Callback_Type : string := "http.callback".
Definition maxResponseSnippet : nat := 1024.

Record payload := { pl_URL : string; pl_Body : string; pl_Event : string; pl_TimeoutMs : Z }.

Definition payload_fields : fields payload :=
  [("url", at_string (fun p x => Build_payload x (pl_Body p) (pl_Event p) (pl_TimeoutMs p)) pl_URL);
   ("body", at_raw (fun p x => Build_payload (pl_URL p) x (pl_Event p) (pl_TimeoutMs p)));
   ("event", at_string (fun p x => Build_payload (pl_URL p) (pl_Body p) x (pl_TimeoutMs p)) pl_Event);
   ("timeoutMs", at_int (fun p x => Build_payload (pl_URL p) (pl_Body p) (pl_Event p) x) pl_TimeoutMs)].
(** [json.Unmarshal(j.Payload, &p)]; [bad] is the error of the library. *)
Definition read_payload {A} (bad : string -> error) (fs : fields A) (zero : A) (text : string) : result error A :=
  match unmarshal fs zero text with Some p => Ok p | None => Err (bad text) end.

(** What is configured at startup; the client refuses redirects. *)
Record CallbackHandler := { cb_Secret : string; cb_AllowedHosts : list string }.

Record http_request := {
  hr_URL : string; hr_Header : list (string * string); hr_Body : string; hr_Timeout : Duration
}.
Record http_response := { hs_StatusCode : Z; hs_Body : string }.

(** The value of a header that is set at most once. *)
Definition header (k : string) (r : http_request) : option string :=
  snd <$> head (filter (fun kv => kv.1 = k) (hr_Header r)).

(** ** Signing *)

(** The message under the MAC: ["%d."] of the timestamp, then the body. *)
Definition mac_message (ts : Z) (body : string) : string := pretty ts +:+ "." +:+ body.
Definition Sign (secret : string) (ts : Z) (body : string) : string :=
  hex_encode (HMAC (bytes_of secret) (bytes_of (mac_message ts body))).

(** ** Hosts *)

Definition is_ascii (s : string) : bool := forallb (fun c => (nat_of_ascii c <? 128)%nat) (list_ascii_of_string s).
Definition lower (c : ascii) : ascii :=
  let n := nat_of_ascii c in if ((65 <=? n) && (n <=? 90))%nat then ascii_of_nat (n + 32) else c.

Section callback.
(** Simple folding of strings that are not both ASCII; what [json.Unmarshal] says of
    a payload it cannot decode; [url.Parse] with [Hostname]; [json.Marshal] of the
    result; [%q]. *)
Context (unicode_fold : string -> string -> bool).
Context (decode_error : string -> error).
Context (Hostname : string -> result error string).
Context (Marshal_result : Z -> string -> Time -> result error string).
Context (quoted : string -> string).

Definition Unmarshal_payload (text : string) : result error payload :=
  read_payload decode_error payload_fields
    {| pl_URL := EmptyString; pl_Body := EmptyString; pl_Event := EmptyString; pl_TimeoutMs := 0 |} text.

(** [strings.EqualFold]. *)
Definition EqualFold (s t : string) : bool :=
  if is_ascii s && is_ascii t
  then bool_decide (map lower (list_ascii_of_string s) = map lower (list_ascii_of_string t))
  else unicode_fold s t.

Definition hostAllowed (host : string) (allowed : list string) : bool :=
  existsb (fun a => EqualFold host a) allowed.

(** ** Handle *)

Definition has_http_scheme (url : string) : bool :=
  String.prefix "http://" url || String.prefix "https://" url.

Definition delivery_timeout (ms : Z) : Duration :=
  let timeout := if 0 <? ms then wrap64 (ms * Millisecond) else 10 * Second in
  if 30 * Second <? timeout then 30 * Second else timeout.

Definition headers_of (h : CallbackHandler) (p : payload) (j : Job) (now : Time) : list (string * string) :=
  [("Content-Type", "application/json"); ("User-Agent", "calligraphy/1.0")] ++
  (if bool_decide (pl_Event p = EmptyString) then [] else [("X-Calligraphy-Event", pl_Event p)]) ++
  [("X-Calligraphy-Job-Id", ID j); ("X-Calligraphy-Attempt", pretty (AttemptCount j))] ++
  (if bool_decide (cb_Secret h = EmptyString) then []
   else let ts := now / Second in
        [("X-Calligraphy-Timestamp", pretty ts);
         ("X-Calligraphy-Signature", "v1=" +:+ Sign (cb_Secret h) ts (pl_Body p))]).

Local Open Scope go_scope.

Definition fatal (e : error) : error := ENonRetryable e.

(** Everything before [Client.Do], at the time [now]. *)
Definition prepare (h : CallbackHandler) (j : Job) (now : Time) : result error http_request :=
  match Unmarshal_payload (Payload j) with
  | Err e => Err (fatal (EWrap "httpcallback: bad payload: " e))
  | Ok p =>
      guard has_http_scheme (pl_URL p)
        else fatal (EMsg ("httpcallback: url must be http(s), got " +:+ quoted (pl_URL p))) in
      match Hostname (pl_URL p) with
      | Err e => Err (fatal (EWrap "httpcallback: building request: " e))
      | Ok host =>
          guard bool_decide (cb_AllowedHosts h = []) || hostAllowed host (cb_AllowedHosts h)
            else fatal (EMsg ("httpcallback: host " +:+ quoted host +:+ " not in allowlist")) in
          Ok {| hr_URL := pl_URL p; hr_Header := headers_of h p j now; hr_Body := pl_Body p;
                hr_Timeout := delivery_timeout (pl_TimeoutMs p) |}
      end
  end.

Definition between (lo hi code : Z) : bool := (lo <=? code) && (code <? hi).

(** What follows the answer of [Client.Do]. *)
Definition conclude (url : string) (answer : result error http_response) (now : Time) : string * option error :=
  match answer with
  | Err e => (EmptyString, Some (EWrap ("httpcallback: delivering to " +:+ url +:+ ": ") e))
  | Ok resp =>
      let code := hs_StatusCode resp in
      let snippet := stake maxResponseSnippet (hs_Body resp) in
      if between 200 300 code then
        match Marshal_result code snippet now with
        | Ok out => (out, None)
        | Err e => (EmptyString, Some (EWrap "httpcallback: encoding result: " e))
        end
      else if between 300 400 code then
        (EmptyString, NonRetryable (Some (EMsg ("httpcallback: endpoint redirected (" +:+ pretty code +:+
          "); callback URLs must be final destinations"))))
      else if (code =? 408) || (code =? 429) then
        (EmptyString, Some (EMsg ("httpcallback: receiver says try later (" +:+ pretty code +:+ ")")))
      else if between 400 500 code then
        (EmptyString, NonRetryable (Some (EMsg ("httpcallback: receiver rejected delivery (" +:+ pretty code +:+
          "): " +:+ snippet))))
      else (EmptyString, Some (EMsg ("httpcallback: receiver error (" +:+ pretty code +:+ "): " +:+ snippet)))
  end.

(** [Handle]: what was sent, and what is returned.  [now] is the clock before
    the request, [later] after its answer. *)
Definition Handle (h : CallbackHandler) (Do : http_request -> result error http_response)
    (now later : Time) (j : Job) : option http_request * (string * option error) :=
  match prepare h j now with
  | Err e => (None, (EmptyString, Some e))
  | Ok req => (Some req, conclude (hr_URL req) (Do req) later)
  end.

(** [New]: the registration, for a network that answers by the context. *)
Definition Callback_New (secret : string) (allowedHosts : list string)
    (Do : ctx -> http_request -> result error http_response) (now later : Time) : Registration :=
  let h := {| cb_Secret := secret; cb_AllowedHosts := allowedHosts |} in
  {| reg_Type := Callback_Type;
     reg_Handler := Some (fun c j => let r := (Handle h (Do c) now later j).2 in Returned r.1 r.2);
     reg_Options := {| ho_LeaseTTL := 0; ho_ExecTimeout := 45 * Second; ho_MaxAttempts := 0 |} |}.

(** ** What is sent *)

Lemma prepare_Ok h j now req :
  prepare h j now = Ok req ->
  exists p host, Unmarshal_payload (Payload j) = Ok p /\ has_http_scheme (pl_URL p) = true /\
    Hostname (pl_URL p) = Ok host /\
    (cb_AllowedHosts h = [] \/ exists a, a ∈ cb_AllowedHosts h /\ EqualFold host a = true) /\
    req = {| hr_URL := pl_URL p; hr_Header := headers_of h p j now; hr_Body := pl_Body p;
             hr_Timeout := delivery_timeout (pl_TimeoutMs p) |}.
Proof.
  unfold prepare. destruct (Unmarshal_payload (Payload j)) as [p|]; [|done].
  destruct (has_http_scheme (pl_URL p)) eqn:Hs; [|done].
  destruct (Hostname (pl_URL p)) as [host|] eqn:Hh; [|done].
  destruct (bool_decide _ || _) eqn:Ha; [|done]. intros [= <-]. exists p, host. split_and!; try done.
  apply orb_true_iff in Ha as [Ha|Ha]; [left; by apply bool_decide_eq_true in Ha|right].
  apply existsb_exists in Ha as (a & Hin & Ha). exists a. split; [by apply list_elem_of_In|done].
Qed.

(** An error of a decoder or a parser: it carries none of the job markers. *)
Definition plain (e : error) : Prop :=
  errors_Is (Some e) ErrCancelRequested = false /\ IsInterrupted (Some e) = false.

Lemma plain_fatal_fails e last : plain e -> verdict (finish_outcome (Some (ENonRetryable e)) None) last = StatusFailed.
Proof.
  intros [Hc Hi]. unfold finish_outcome, ClassifyError, errors_Is, IsInterrupted, errors_As in *. simpl in *.
  by rewrite Hc, Hi.
Qed.

Lemma prepare_Err h j now e :
  (forall s, plain (decode_error s)) -> (forall s e, Hostname s = Err e -> plain e) ->
  prepare h j now = Err e -> exists e', e = ENonRetryable e' /\ plain e'.
Proof.
  intros Hu Hh. unfold prepare. destruct (Unmarshal_payload (Payload j)) as [p|] eqn:Hp.
  2: { intros [= <-]. eexists. split; [done|]. unfold Unmarshal_payload, read_payload in Hp.
    destruct (unmarshal _ _ _); [done|]. injection Hp as <-. apply Hu. }
  destruct (has_http_scheme (pl_URL p)); [|intros [= <-]; by eexists].
  destruct (Hostname (pl_URL p)) as [host|] eqn:Hn.
  2: { intros [= <-]. eexists. split; [done|]. by apply Hh in Hn. }
  destruct (bool_decide _ || _); [done|intros [= <-]; by eexists].
Qed.

(** A decimal rendering has no dot, so a MAC input splits in one way. *)
Definition dot : ascii := ".".
Definition no_dot (s : string) : bool := forallb (fun c => negb (Ascii.eqb c dot)) (list_ascii_of_string s).

Lemma pretty_N_go_no_dot n : forall s, no_dot s = true -> no_dot (pretty_N_go n s) = true.
Proof.
  induction n as [n IH] using (well_founded_induction N.lt_wf_0). intros s Hs.
  destruct (decide (n = 0%N)) as [->|Hn]; [by rewrite pretty_N_go_0|].
  rewrite pretty_N_go_step by lia. apply IH; [apply N.div_lt; lia|].
  unfold no_dot in *. simpl. rewrite Hs, andb_true_r.
  assert (Hm : (n mod 10 < 10)%N) by (apply N.mod_lt; lia).
  destruct (n mod 10)%N as [|[[[|[]|]|[[]|[]|]|]|[[|[]|]|[[]|[]|]|]|]]; (done || (exfalso; lia)).
Qed.

Lemma pretty_no_dot (z : Z) : no_dot (pretty z) = true.
Proof.
  assert (HN : forall n : N, no_dot (pretty n) = true).
  { intros n. unfold pretty, pretty_N. case_decide; [done|by apply pretty_N_go_no_dot]. }
  destruct z as [|p|p]; [done| |].
  - apply (HN (N.pos p)).
  - change (pretty (Z.neg p)) with (String "-" (pretty (N.pos p))). apply (HN (N.pos p)).
Qed.

Lemma split_at_dot s1 : forall s2 b1 b2,
  no_dot s1 = true -> no_dot s2 = true -> s1 +:+ String dot b1 = s2 +:+ String dot b2 -> s1 = s2 /\ b1 = b2.
Proof.
  induction s1 as [|c s1 IH]; intros [|d s2] b1 b2 H1 H2 He; simpl in *.
  - by injection He as ->.
  - injection He as <- _. unfold no_dot in H2. simpl in H2. done.
  - injection He as -> _. unfold no_dot in H1. simpl in H1. done.
  - injection He as -> He. unfold no_dot in *. simpl in *. apply andb_true_iff in H1 as [_ H1], H2 as [_ H2].
    destruct (IH _ _ _ H1 H2 He) as [-> ->]. done.
Qed.

Lemma mac_message_inj ts1 b1 ts2 b2 : mac_message ts1 b1 = mac_message ts2 b2 -> ts1 = ts2 /\ b1 = b2.
Proof.
  intros He. destruct (split_at_dot _ _ _ _ (pretty_no_dot ts1) (pretty_no_dot ts2) He) as [Hp ->].
  split; [|done]. by apply (inj pretty).
Qed.

Lemma Sign_shape secret ts body :
  String.length (Sign secret ts body) = 64%nat /\
  Forall (fun c => is_hex c = true) (list_ascii_of_string (Sign secret ts body)).
Proof.
  unfold Sign, HMAC. destruct (Sum256_shape (map (Z.lxor 0x5c) (hmac_key (bytes_of secret)) ++
    Sum256 (map (Z.lxor 0x36) (hmac_key (bytes_of secret)) ++ bytes_of (mac_message ts body)))) as [Hl Hb].
  destruct (hex_encode_shape _ Hb) as [-> Hx]. by rewrite Hl.
Qed.

Lemma delivery_timeout_bounds ms :
  delivery_timeout ms <= 30 * Second /\ (ms <= max_int64 / Millisecond -> 0 < delivery_timeout ms).
Proof.
  unfold delivery_timeout. split; [destruct (30 * Second <? _) eqn:E; reflect_bools; lia|]. intros Hms.
  destruct (30 * Second <? _) eqn:E; [unfold Second; lia|]. destruct (0 <? ms) eqn:Hp; [|unfold Second; lia].
  reflect_bools. rewrite wrap64_id; [unfold Millisecond; lia|].
  unfold max_int64, Millisecond in *. change ((2 ^ 63 - 1) / 1000000) with 9223372036854 in Hms. lia.
Qed.

(** What a receiver checks: the MAC over the timestamp it was sent and the body. *)
Definition verifies (secret : string) (r : http_request) : bool :=
  match header "X-Calligraphy-Timestamp" r, header "X-Calligraphy-Signature" r with
  | Some ts, Some sig =>
      bool_decide (sig = "v1=" +:+ hex_encode (HMAC (bytes_of secret) (bytes_of (ts +:+ "." +:+ hr_Body r))))
  | _, _ => false
  end.

Lemma header_signed h p j now k :
  k ∈ ["X-Calligraphy-Timestamp"; "X-Calligraphy-Signature"] ->
  snd <$> head (filter (fun kv => kv.1 = k) (headers_of h p j now)) =
    if bool_decide (cb_Secret h = EmptyString) then None
    else if bool_decide (k = "X-Calligraphy-Timestamp") then Some (pretty (now / Second))
    else Some ("v1=" +:+ Sign (cb_Secret h) (now / Second) (pl_Body p)).
Proof.
  intros Hk. unfold headers_of.
  assert (Hc : k = "X-Calligraphy-Timestamp" \/ k = "X-Calligraphy-Signature") by set_solver.
  by destruct Hc as [-> | ->]; destruct (bool_decide (pl_Event p = EmptyString)),
    (bool_decide (cb_Secret h = EmptyString)).
Qed.

(** C33. What leaves the worker. A request is sent only for a payload that
    decodes, to an http(s) URL whose host is on the allowlist when there is one,
    with the payload's body, and waits at most thirty seconds (a positive time,
    unless the requested milliseconds overflow). With a secret it carries a
    signature the receiver accepts: 64 hex digits of a MAC over the timestamp
    and the body, and no other pair of an integer timestamp and a body has the
    same message under the MAC. Without one it carries no signature. *)
Theorem Handle_sends (h : CallbackHandler) (Do : http_request -> result error http_response)
    (now later : Time) (j : Job) (req : http_request) :
  (Handle h Do now later j).1 = Some req ->
  exists p host, Unmarshal_payload (Payload j) = Ok p /\ hr_URL req = pl_URL p /\ hr_Body req = pl_Body p /\
    has_http_scheme (hr_URL req) = true /\ Hostname (hr_URL req) = Ok host /\
    (cb_AllowedHosts h = [] \/ exists a, a ∈ cb_AllowedHosts h /\ EqualFold host a = true) /\
    hr_Timeout req <= 30 * Second /\ (pl_TimeoutMs p <= max_int64 / Millisecond -> 0 < hr_Timeout req) /\
    (cb_Secret h <> EmptyString ->
       verifies (cb_Secret h) req = true /\
       (exists sig, header "X-Calligraphy-Signature" req = Some ("v1=" +:+ sig) /\ String.length sig = 64%nat) /\
       forall ts body, mac_message ts body = mac_message (now / Second) (hr_Body req) ->
         ts = now / Second /\ body = hr_Body req) /\
    (cb_Secret h = EmptyString -> header "X-Calligraphy-Signature" req = None).
Proof.
  unfold Handle. destruct (prepare h j now) as [r|] eqn:Hp; [|done]. intros [= <-].
  apply prepare_Ok in Hp as (p & host & Hu & Hs & Hh & Ha & ->).
  destruct (delivery_timeout_bounds (pl_TimeoutMs p)) as [Hle Hpos].
  exists p, host. unfold verifies, header. simpl. rewrite !header_signed by set_solver. split_and!; try done.
  - intros Hsec. rewrite bool_decide_eq_false_2 by done. split_and!.
    + by apply bool_decide_eq_true.
    + eexists. split; [done|apply Sign_shape].
    + intros ts body. apply mac_message_inj.
  - intros Hsec. by rewrite bool_decide_eq_true_2.
Qed.

(** ** What the answer makes of the job *)

Lemma finish_outcome_wrap s e : finish_outcome (Some (EWrap s e)) None = finish_outcome (Some e) None.
Proof. done. Qed.

(** C32. The receiver decides, and only it. The job of a delivery ends
    [FAILED] when no request could be built (bad payload, no http(s) URL, host
    not allowed), when the receiver redirects, or rejects it with a 4xx;
    [COMPLETED] on any 2xx, with the encoded answer as its result; and is tried
    again - or dead-lettered, when that was its last attempt - when the receiver
    asks for it (408, 429), fails (5xx) or answers outside the protocol. A network
    error is classified as the error itself. (The errors of the JSON decoder and
    of the URL parser carry no marker of the job package.) *)
Theorem Handle_settles (h : CallbackHandler) (Do : http_request -> result error http_response)
    (now later : Time) (j : Job) (last : bool) :
  (forall s, plain (decode_error s)) -> (forall s e, Hostname s = Err e -> plain e) ->
  let '(sent, (res, err)) := Handle h Do now later j in
  let status := verdict (finish_outcome err None) last in
  match sent with
  | None => status = StatusFailed
  | Some req =>
      match Do req with
      | Err e => finish_outcome err None = finish_outcome (Some e) None
      | Ok resp =>
          let code := hs_StatusCode resp in
          (200 <= code < 300 -> forall out,
             Marshal_result code (stake maxResponseSnippet (hs_Body resp)) later = Ok out ->
             status = StatusCompleted /\ res = out) /\
          (300 <= code < 500 -> code <> 408 -> code <> 429 -> status = StatusFailed) /\
          (code = 408 \/ code = 429 \/ code < 200 \/ 500 <= code ->
             status = if last then StatusDeadLetter else StatusRetrying)
      end
  end.
Proof.
  intros Hu Hh. unfold Handle. destruct (prepare h j now) as [req|e] eqn:Hp.
  - unfold conclude. destruct (Do req) as [resp|e]; [|done]. set (code := hs_StatusCode resp).
    unfold between. destruct ((200 <=? code) && (code <? 300)) eqn:H2.
    { reflect_bools. destruct (Marshal_result _ _ _) as [out|] eqn:Hm;
        (split_and!; [intros _ out' Ho; by simplify_eq|lia|lia]). }
    destruct ((300 <=? code) && (code <? 400)) eqn:H3; [reflect_bools; split_and!; [lia|done|lia]|].
    destruct ((code =? 408) || (code =? 429)) eqn:H4; [split_and!; [|lia|by destruct last]; lia|].
    destruct ((400 <=? code) && (code <? 500)) eqn:H5; [split_and!; [lia|done|lia]|].
    split_and!; [lia|lia|by destruct last].
  - apply prepare_Err in Hp as (e' & -> & He); [|done|done]. by apply plain_fatal_fails.
Qed.
End callback.

(** ** Witnesses *)

(** The host is what follows the scheme here. *)
Definition demo_decode_error (_ : string) : error := EMsg "unexpected end of JSON input".
Definition demo_hostname (url : string) : result error string :=
  Ok (String.substring 7 (String.length url - 7) url).
Definition demo_result (code : Z) (snippet : string) (_ : Time) : result error string := Ok snippet.
Definition demo_callback : CallbackHandler := {| cb_Secret := "key"; cb_AllowedHosts := ["Example.com"] |}.
Definition demo_callback_job : Job :=
  {| ID := "j1"; Type_ := Callback_Type; Queue := "default"; Status_ := StatusRunning; Priority_ := PriorityHigh;
     Payload := Json.dquoted "{'url':'http://example.COM','body': {}}"; Result := EmptyString; Error_ := EmptyString; IdempotencyKey := EmptyString;
     AttemptCount := 1; MaxAttempts := 3; LeaseEpoch := 1; LeaseExpiresAt := None; WorkerID := "w1";
     CreatedAt := 0; ScheduledAt := 0; StartedAt := None; CompletedAt := None |}.

Abbreviation demo_handle answer :=
  (Handle (fun _ _ => false) demo_decode_error demo_hostname demo_result (fun s => s) demo_callback
     (fun _ => answer) (1700000000 * Second) 5 demo_callback_job).

Lemma Handle_sends_witness :
  exists req, (demo_handle (Err (EMsg "refused"))).1 = Some req /\ verifies "key" req = true /\
    0 < hr_Timeout req <= 30 * Second.
Proof.
  eexists. split; [vm_compute; reflexivity|].
  edestruct (Handle_sends (fun _ _ => false) demo_decode_error demo_hostname demo_result (fun s => s) demo_callback
    (fun _ => Err (EMsg "refused")) (1700000000 * Second) 5 demo_callback_job)
    as (p & host & Hp & _ & _ & _ & _ & _ & Hle & Hpos & Hsig & _); [vm_compute; reflexivity|].
  vm_compute in Hp. injection Hp as <-. split.
  - apply Hsig. discriminate.
  - split; [apply Hpos; vm_compute; discriminate|exact Hle].
Defined.

Lemma Handle_settles_witness :
  (demo_handle (Ok {| hs_StatusCode := 503; hs_Body := "busy" |})).2 =
    (EmptyString, Some (EMsg "httpcallback: receiver error (503): busy")) /\
  verdict (finish_outcome (demo_handle (Ok {| hs_StatusCode := 503; hs_Body := "busy" |})).2.2 None) false
    = StatusRetrying.
Proof.
  split; [vm_compute; reflexivity|].
  pose proof (Handle_settles (fun _ _ => false) demo_decode_error demo_hostname demo_result (fun s => s) demo_callback
    (fun _ => Ok {| hs_StatusCode := 503; hs_Body := "busy" |}) (1700000000 * Second) 5 demo_callback_job false
    ltac:(intros s; split; reflexivity) ltac:(intros s e; discriminate)) as H.
  destruct (demo_handle (Ok {| hs_StatusCode := 503; hs_Body := "busy" |})) as [sent [res err]] eqn:E.
  destruct sent as [req|]; [|vm_compute in E; discriminate E]. destruct H as (_ & _ & H). apply H.
  right. right. right. vm_compute. discriminate.
Defined.

(** The number of milliseconds is not bounded before it is multiplied: a large
    one becomes a negative timeout, which the cap at thirty seconds lets pass,
    and the delivery has timed out before it starts. *)
Example timeout_overflows : delivery_timeout 9300000000000 < 0.
Proof. by vm_compute. Qed.
