(* ===== verification/Bench.v ===== *)
(** * Bench: the handlers of the benchmark, and the built-in registry

    Models [internal/handlers/bench/bench.go] - sleeping, hashing, failing at a
    given rate - and [internal/handlers/handlers.go].  A timer that races with
    the context is given by what the [select] saw; a float64 is a mantissa and a
    binary exponent, and the division that makes a draw is rounded to 53 bits. *)

From S2P Require Import Prelude Errors Decode Job Wire Handler Sha256 Callback.
Local Open Scope string_scope.
Local Open Scope list_scope.
Local Open Scope Z_scope.

Definition dquote : string := String (ascii_of_nat 34) EmptyString.
(** A JSON object with one member, its value already encoded. *)
Definition json_field (k v : string) : string := dquote +:+ k +:+ dquote +:+ ":" +:+ v.

Definition TypeSleep : string := "bench.sleep".
Definition TypeCPU : string := "bench.cpu".
Definition TypeFlaky : string := "bench.flaky".

Definition bad_payload (t : string) (e : error) : string * option error :=
  (EmptyString, NonRetryable (Some (EWrap (t +:+ ": bad payload: ") e))).

(** ** Sleep *)

Record sleepPayload := { sp_Ms : Z; sp_JitterMs : Z }.

Definition sleep_fields : fields sleepPayload :=
  [("ms", at_int (fun p x => {| sp_Ms := x; sp_JitterMs := sp_JitterMs p |}) sp_Ms);
   ("jitterMs", at_int (fun p x => {| sp_Ms := sp_Ms p; sp_JitterMs := x |}) sp_JitterMs)].
Definition read_sleep (bad : string -> error) (payload : string) : result error sleepPayload :=
  read_payload bad sleep_fields {| sp_Ms := 0; sp_JitterMs := 0 |} payload.

(** [draw] stands for [rand.IntN(p.JitterMs)]. *)
Definition sleep_for (p : sleepPayload) (draw : Z) : Duration :=
  let ms := if sp_Ms p <=? 0 then 50 else sp_Ms p in
  let d := wrap64 (ms * Millisecond) in
  if 0 <? sp_JitterMs p then wrap64 (d + wrap64 (draw * Millisecond)) else d.

(** [done]: the context ended before the timer, with this error. *)
Definition handleSleep (p : result error sleepPayload) (draw : Z) (done : option error)
    : string * option error :=
  match p with
  | Err e => bad_payload TypeSleep e
  | Ok p =>
      match done with
      | Some e => (EmptyString, Some e)
      | None => ("{" +:+ json_field "sleptMs" (pretty (sleep_for p draw ÷ Millisecond)) +:+ "}", None)
      end
  end.

(** ** CPU *)

Definition cpu_fields : fields Z := [("iterations", at_int (fun _ x => x) (fun x => x))].
Definition read_cpu (bad : string -> error) (payload : string) : result error Z := read_payload bad cpu_fields 0 payload.

(** [n] rounds from round [i] on; [ctxErr i] is [ctx.Err()] in round [i]. *)
Fixpoint cpu_rounds (ctxErr : Z -> option error) (n : nat) (i : Z) (sum : list Z) : result error (list Z) :=
  match n with
  | O => Ok sum
  | S n' =>
      let sum := Sum256 sum in
      match (if i mod 50000 =? 0 then ctxErr i else None) with
      | Some e => Err e
      | None => cpu_rounds ctxErr n' (i + 1) sum
      end
  end.

Definition handleCPU (iterations : result error Z) (ctxErr : Z -> option error) (j : Job)
    : string * option error :=
  match iterations with
  | Err e => bad_payload TypeCPU e
  | Ok n =>
      let n := if n <=? 0 then 100000 else n in
      match cpu_rounds ctxErr (Z.to_nat n) 0 (Sum256 (bytes_of (ID j))) with
      | Err e => (EmptyString, Some e)
      | Ok sum => ("{" +:+ json_field "iterations" (pretty n) +:+ "," +:+
                   json_field "digest" (dquote +:+ hex_encode (take 8 sum) +:+ dquote) +:+ "}", None)
      end
  end.

(** ** Flaky *)

(** FNV-1a, 64 bits. *)
Definition fnv1a (bs : list Z) : Z :=
  fold_left (fun h b => (Z.lxor h b * 1099511628211) mod 2 ^ 64) bs 14695981039346656037.

Example fnv1a_vectors : fnv1a [] = 0xcbf29ce484222325 /\ fnv1a (bytes_of "a") = 0xaf63dc4c8601ec8c.
Proof. by vm_compute. Qed.

(** [draw]: a number of hundred-thousandths. *)
Definition draw (label id : string) (attempt : Z) : Z :=
  fnv1a (bytes_of label ++ bytes_of id ++ rev (be_bytes 8 (attempt mod 2 ^ 64))) mod 100000.

(** [m * 2 ^ e]. *)
Record float64 := { f_mant : Z; f_exp : Z }.
Definition float_lt (x y : float64) : bool :=
  let e := Z.min (f_exp x) (f_exp y) in
  f_mant x * 2 ^ (f_exp x - e) <? f_mant y * 2 ^ (f_exp y - e).

(** [a / b] to the nearest integer, ties to even, for [0 < b]. *)
Definition round_div (a b : Z) : Z :=
  let q := a / b in
  let r := 2 * (a mod b) in
  if (r <? b) || ((r =? b) && Z.even q) then q else q + 1.
(** [float64(n) / float64(d)] for [0 <= n] and [0 < d]. *)
Definition float_div (n d : Z) : float64 :=
  if n =? 0 then {| f_mant := 0; f_exp := 0 |} else
  let k0 := Z.log2 n - Z.log2 d in
  let k := if n * 2 ^ Z.max 0 (- k0) <? d * 2 ^ Z.max 0 k0 then k0 - 1 else k0 in
  {| f_mant := round_div (n * 2 ^ Z.max 0 (52 - k)) (d * 2 ^ Z.max 0 (k - 52)); f_exp := k - 52 |}.

Record flakyPayload := { fp_FailRate : float64; fp_PermanentRate : float64; fp_SleepMs : Z }.

(** [number] is [strconv.ParseFloat] on a JSON number, as the record has it. *)
Definition at_float {A} (number : string -> option float64) (set : A -> float64 -> A) : A -> string -> value -> option A :=
  fun x _ v => match v with VNum lit => set x <$> number lit | VNull => Some x | _ => None end.
Definition flaky_fields (number : string -> option float64) : fields flakyPayload :=
  [("failRate", at_float number (fun p x =>
      {| fp_FailRate := x; fp_PermanentRate := fp_PermanentRate p; fp_SleepMs := fp_SleepMs p |}));
   ("permanentRate", at_float number (fun p x =>
      {| fp_FailRate := fp_FailRate p; fp_PermanentRate := x; fp_SleepMs := fp_SleepMs p |}));
   ("sleepMs", at_int (fun p x =>
      {| fp_FailRate := fp_FailRate p; fp_PermanentRate := fp_PermanentRate p; fp_SleepMs := x |}) fp_SleepMs)].
Definition zero_float : float64 := {| f_mant := 0; f_exp := 0 |}.
Definition read_flaky (number : string -> option float64) (bad : string -> error) (payload : string) : result error flakyPayload :=
  read_payload bad (flaky_fields number)
    {| fp_FailRate := zero_float; fp_PermanentRate := zero_float; fp_SleepMs := 0 |} payload.

Definition handleFlaky (p : result error flakyPayload) (done : option error) (j : Job) : string * option error :=
  match p with
  | Err e => bad_payload TypeFlaky e
  | Ok p =>
      match (if 0 <? fp_SleepMs p then done else None) with
      | Some e => (EmptyString, Some e)
      | None =>
          if float_lt (float_div (draw "permanent" (ID j) 0) 100000) (fp_PermanentRate p) then
            (EmptyString, NonRetryable (Some (EMsg ("bench.flaky: job " +:+ ID j +:+
              " is permanently unprocessable (injected)"))))
          else if float_lt (float_div (draw "transient" (ID j) (AttemptCount j)) 100000) (fp_FailRate p) then
            (EmptyString, Some (EMsg ("bench.flaky: injected transient failure (attempt " +:+
              pretty (AttemptCount j) +:+ ")")))
          else ("{" +:+ json_field "attempt" (pretty (AttemptCount j)) +:+ "}", None)
      end
  end.

(** A draw lies in the unit interval, so a rate of one or more always hits, and
    one of zero or less never does. *)
Lemma round_div_le a b : 0 < b -> round_div a b <= a / b + 1.
Proof. intros Hb. unfold round_div. destruct (_ || _); lia. Qed.

Lemma round_div_nonneg a b : 0 <= a -> 0 < b -> 0 <= round_div a b.
Proof.
  intros Ha Hb. pose proof (Z.div_pos a b Ha Hb). unfold round_div. destruct (_ || _); lia.
Qed.

Definition one : float64 := {| f_mant := 1; f_exp := 0 |}.

Lemma float_div_unit n d :
  0 <= n < d -> d < 2 ^ 51 ->
  0 <= f_mant (float_div n d) /\ float_lt (float_div n d) one = true.
Proof.
  intros Hn Hd. unfold float_div. destruct (n =? 0) eqn:H0; [by split|]. reflect_bools.
  assert (Hlog : Z.log2 n <= Z.log2 d) by (apply Z.log2_le_mono; lia).
  match goal with |- context [if ?b then ?x else ?y] => set (k := if b then x else y) end. assert (Hk : k <= 0) by (unfold k; destruct (_ <? _); lia). clearbody k.
  rewrite (Z.max_r 0 (52 - k)), (Z.max_l 0 (k - 52)), Z.mul_1_r by lia.
  set (P := 2 ^ (52 - k)).
  assert (HP : 2 ^ 52 <= P) by (apply Z.pow_le_mono_r; lia). split; simpl.
  - apply round_div_nonneg; nia.
  - unfold float_lt. simpl. rewrite Z.min_l by lia. replace (k - 52 - (k - 52)) with 0 by lia.
    replace (0 - (k - 52)) with (52 - k) by lia. fold P. apply Z.ltb_lt.
    pose proof (round_div_le (n * P) d ltac:(lia)).
    assert (n * P / d <= P - 2); [|nia]. apply Z.div_le_upper_bound; [lia|nia].
Qed.

Lemma draw_range label id attempt : 0 <= draw label id attempt < 100000.
Proof. apply Z.mod_pos_bound. lia. Qed.

Lemma draw_hits label id attempt m :
  1 <= m -> float_lt (float_div (draw label id attempt) 100000) {| f_mant := m; f_exp := 0 |} = true.
Proof.
  intros Hm. destruct (float_div_unit (draw label id attempt) 100000) as [_ H];
    [apply draw_range|lia|].
  unfold float_lt in *. simpl in *. apply Z.ltb_lt. apply Z.ltb_lt in H.
  pose proof (Z.pow_nonneg 2 (0 - Z.min (f_exp (float_div (draw label id attempt) 100000)) 0)). nia.
Qed.

Lemma draw_misses label id attempt m e :
  m <= 0 -> float_lt (float_div (draw label id attempt) 100000) {| f_mant := m; f_exp := e |} = false.
Proof.
  intros Hm. destruct (float_div_unit (draw label id attempt) 100000) as [H _];
    [apply draw_range|lia|].
  unfold float_lt. simpl. apply Z.ltb_ge.
  set (x := float_div _ _) in *.
  pose proof (Z.pow_nonneg 2 (e - Z.min (f_exp x) e)). pose proof (Z.pow_nonneg 2 (f_exp x - Z.min (f_exp x) e)). nia.
Qed.

(** A permanently unprocessable job fails for good at every attempt; with both
    rates at zero a job always succeeds. *)
Lemma flaky_permanent p j j' :
  ID j' = ID j -> fp_SleepMs p <= 0 ->
  IsNonRetryable (handleFlaky (Ok p) None j).2 = IsNonRetryable (handleFlaky (Ok p) None j').2.
Proof.
  intros Hid Hs. unfold handleFlaky. rewrite (proj2 (Z.ltb_ge _ _) Hs), Hid.
  destruct (float_lt _ _); [done|]. by repeat destruct (float_lt _ _).
Qed.

Lemma flaky_never p j :
  f_mant (fp_PermanentRate p) <= 0 -> f_mant (fp_FailRate p) <= 0 -> (handleFlaky (Ok p) None j).2 = None.
Proof.
  intros H1 H2. unfold handleFlaky. destruct p as [[m1 e1] [m2 e2] ms]. simpl in *.
  destruct (0 <? ms); by rewrite !draw_misses.
Qed.

(** ** The registry *)

Lemma MustRegister_fresh (r : Registry) reg :
  ValidName (reg_Type reg) = true -> is_Some (reg_Handler reg) -> r !! reg_Type reg = None ->
  MustRegister r reg = Some (<[reg_Type reg := reg]> r).
Proof. intros Hn [f Hf] Hr. unfold MustRegister, Register. by rewrite Hn, Hf, Hr. Qed.

Definition no_options : HandlerOptions := {| ho_LeaseTTL := 0; ho_ExecTimeout := 0; ho_MaxAttempts := 0 |}.

Section registry.
(** The handlers that the bench types and the text analysis register, and the
    registration of the callback. *)
Context (sleep cpu flaky analysis : ctx -> Job -> handler_return) (callback : Registration).

Definition bench_registration (t : string) (f : ctx -> Job -> handler_return) : Registration :=
  {| reg_Type := t; reg_Handler := Some (Func f); reg_Options := no_options |}.

Definition RegisterAll (r : Registry) : option Registry :=
  match MustRegister r (bench_registration TypeSleep sleep) with
  | None => None
  | Some r =>
      match MustRegister r (bench_registration TypeCPU cpu) with
      | None => None
      | Some r => MustRegister r (bench_registration TypeFlaky flaky)
      end
  end.

Definition analysis_registration : Registration :=
  {| reg_Type := "article.analysis"; reg_Handler := Some (Func analysis);
     reg_Options := {| ho_LeaseTTL := 0; ho_ExecTimeout := Minute; ho_MaxAttempts := 0 |} |}.

(** [handlers.NewRegistry]; [None] is a panic at startup. *)
Definition builtin_registry : option Registry :=
  match MustRegister Handler.NewRegistry analysis_registration with
  | None => None
  | Some r => match MustRegister r callback with None => None | Some r => RegisterAll r end
  end.

(** Startup does not panic, and the registry serves the five types. *)
Lemma builtin_registry_total :
  reg_Type callback = Callback_Type -> is_Some (reg_Handler callback) ->
  exists r, builtin_registry = Some r /\
    (forall t, is_Some (Get r t) <->
       t ∈ ["article.analysis"; Callback_Type; TypeSleep; TypeCPU; TypeFlaky]) /\
    Get r Callback_Type = Some callback.
Proof.
  intros Ht Hf. unfold builtin_registry, RegisterAll.
  rewrite MustRegister_fresh; [|done|done|done].
  rewrite (MustRegister_fresh _ callback); [|by rewrite Ht|done|by rewrite Ht].
  do 3 (rewrite MustRegister_fresh; [|done|done|simpl; rewrite !lookup_insert_ne; rewrite ?Ht; done]).
  eexists. split; [done|]. simpl. rewrite Ht. unfold Get. split.
  - intros t. unfold NewRegistry. rewrite <-elem_of_dom, !dom_insert, dom_empty. set_solver.
  - rewrite !lookup_insert_ne by done. apply lookup_insert_eq.
Qed.
End registry.
