(* ===== verification/Analyzer.v ===== *)
(** * Analyzer: the text analysis handler

    Models [internal/handlers/articleanalysis]: tokens, sentences, paragraphs,
    syllables, the language vote, and TextRank over binary64 numbers (Stdlib's
    [SpecFloat], without fused multiply-add).  A text is the list of its runes,
    words and sentences are UTF-8 strings; the Unicode tables, [math.Log] and the
    order in which Go visits a map are arguments. *)

From Stdlib Require Import SpecFloat.
From stdpp Require Import sorting.
From S2P Require Import Prelude Errors Decode Job Wire Handler.
From S2P Require Encode.
Local Open Scope string_scope.
Local Open Scope list_scope.
Local Open Scope Z_scope.

(** ** Runes and strings *)

Abbreviation rune := Z (only parsing).

Definition byte (z : Z) : ascii := ascii_of_nat (Z.to_nat z).
Definition str (l : list ascii) : string := string_of_list_ascii l.
(** [strings.Builder.WriteRune]. *)
Definition utf8 (r : rune) : list ascii :=
  if r <? 128 then [byte r]
  else if r <? 2048 then [byte (192 + r / 64); byte (128 + r mod 64)]
  else if r <? 65536 then [byte (224 + r / 4096); byte (128 + r / 64 mod 64); byte (128 + r mod 64)]
  else [byte (240 + r / 262144); byte (128 + r / 4096 mod 64); byte (128 + r / 64 mod 64); byte (128 + r mod 64)].
Definition encoded (rs : list rune) : string := str (concat (map utf8 rs)).

(** The runes of a string that [utf8] made: [need] more bytes belong to the rune
    under construction, [acc] so far. *)
Fixpoint decoded_runes (bs : list Z) (need : nat) (acc : Z) : list rune :=
  match bs with
  | [] => []
  | b :: bs' =>
      match need with
      | O =>
          if b <? 128 then b :: decoded_runes bs' 0 0
          else if b <? 224 then decoded_runes bs' 1 (b - 192)
          else if b <? 240 then decoded_runes bs' 2 (b - 224)
          else decoded_runes bs' 3 (b - 240)
      | S O => acc * 64 + b mod 64 :: decoded_runes bs' 0 0
      | S need' => decoded_runes bs' need' (acc * 64 + b mod 64)
      end
  end.

Definition rune_of (c : ascii) : rune := Z.of_nat (nat_of_ascii c).
Definition runes_of (s : string) : list rune := decoded_runes (map rune_of (list_ascii_of_string s)) 0 0.
Definition newline : rune := 10.
Definition quote_mark : rune := 34.
Definition left_quote : rune := 8220.
Definition is_terminator (r : rune) : bool := (r =? 46) || (r =? 33) || (r =? 63).
(** [\s] of the regular expression, and the blanks the sentence scanner skips. *)
Definition re_space (r : rune) : bool := existsb (Z.eqb r) [9; 10; 12; 13; 32].
Definition skipped (r : rune) : bool := existsb (Z.eqb r) [32; 10; 9; 13].

Fixpoint span {A} (f : A -> bool) (l : list A) : list A * list A :=
  match l with
  | x :: l' => if f x then let '(a, b) := span f l' in (x :: a, b) else ([], l)
  | [] => ([], [])
  end.
Definition trim_left {A} (f : A -> bool) (l : list A) : list A := (span f l).2.
Definition trim_right {A} (f : A -> bool) (l : list A) : list A := rev (trim_left f (rev l)).
Definition trim {A} (f : A -> bool) (l : list A) : list A := trim_right f (trim_left f l).

(** [strings.Fields] of an ASCII-separated list of words. *)
Fixpoint fields_of (l cur : list ascii) : list string :=
  let emit := match cur with [] => [] | _ => [str (rev cur)] end in
  match l with
  | [] => emit
  | c :: l' => if Ascii.eqb c " " then emit ++ fields_of l' [] else fields_of l' (c :: cur)
  end.
Definition wordSet (s : string) : gset string := list_to_set (fields_of (list_ascii_of_string s) []).

Definition stopwordsEN : gset string := wordSet "the a an and or but if then else when while of to in on at by for with about as into from up down out off over under around again is are was were be been being have has had do does did will would can cannot could should must not no nor this that these those it its i you he she we they them his her their my your our me him us what which who whom where why how all any both each few more most other some such only own same so than too very just there here once during rather before after above below within without s t don now".
Definition stopwordsES : gset string := wordSet "el la los las un una unos unas y o pero si de del en a al por para con sobre como desde hasta es son era eran ser está están fue fueron hay que no ni este esta estos estas ese esa eso aquellos yo tú él ella nosotros ellos ellas su sus mi mis tu tus lo le les se me te nos os cuando donde porque qué cómo todo toda todos todas más menos muy ya también entre sin".
Definition stopwordsFR : gset string := wordSet "le la les un une des et ou mais si de du en à au aux par pour avec sur comme depuis est sont était étaient être été a ont il elle nous vous ils elles son sa ses mon ma mes ton ta tes ce cette ces cela qui que quoi où quand pourquoi comment tout toute tous toutes plus moins très déjà aussi entre sans dans ne pas".
Definition stopwordsDE : gset string := wordSet "der die das ein eine einer eines dem den und oder aber wenn dann von zu in auf an bei für mit über unter als aus nach vor ist sind war waren sein gewesen hat haben hatte werden wird nicht kein keine dieser diese dieses jener ich du er sie wir ihr mein dein sein ihre was welche wer wo warum wie alle jeder mehr sehr auch zwischen ohne durch noch schon".

Definition abbreviations : gset string :=
  list_to_set ["mr"; "mrs"; "ms"; "dr"; "prof"; "sr"; "jr"; "st"; "vs"; "etc"; "e.g"; "i.e"; "fig"; "no"; "vol"].

Section text.
(** [unicode.IsLetter], [IsDigit], [IsUpper], [IsSpace], [ToLower]. *)
Context (IsLetter IsDigit IsUpper IsSpace : rune -> bool) (ToLower : rune -> rune).

(** [strings.TrimSpace] on runes. *)
Definition TrimSpace (rs : list rune) : list rune := trim IsSpace rs.

(** ** Paragraphs *)

(** A match of [\n\s*\n] at the head: what follows it.  The match is greedy: it
    ends at the last newline of the blanks. *)
Definition para_break (rs : list rune) : option (list rune) :=
  match rs with
  | r :: rs' =>
      if r =? newline then
        let '(ws, rest) := span re_space rs' in
        let tail := trim_right (fun x => negb (x =? newline)) ws in
        match tail with
        | [] => None
        | _ => Some (drop (length tail) ws ++ rest)
        end
      else None
  | [] => None
  end.

(** [paragraphRe.Split(text, -1)]; [fuel] is at least the length. *)
Fixpoint split_breaks (fuel : nat) (rs cur : list rune) : list (list rune) :=
  match fuel with
  | O => [rev cur]
  | S fuel' =>
      match rs with
      | [] => [rev cur]
      | r :: rs' =>
          match para_break rs with
          | Some rest => rev cur :: split_breaks fuel' rest []
          | None => split_breaks fuel' rs' (r :: cur)
          end
      end
  end.
Definition splitParagraphs (text : list rune) : list (list rune) :=
  filter (fun p => TrimSpace p <> []) (split_breaks (length text) text []).

(** ** Sentences *)

Definition is_sep (r : rune) : bool := existsb (Z.eqb r) [32; 10; 9].
Definition lastWord (rs : list rune) : list rune :=
  let rs := trim_right (fun r => (r =? 46) || (r =? 32)) rs in
  rev (span (fun r => negb (is_sep r)) (rev rs)).1.

(** [strings.TrimSuffix(w, ".")]. *)
Definition trim_dot (rs : list rune) : list rune :=
  match rev rs with r :: rs' => if r =? 46 then rev rs' else rs | [] => [] end.
Definition is_abbreviation (rs : list rune) : bool :=
  bool_decide (encoded (map ToLower (trim_dot (lastWord rs))) ∈ abbreviations).

(** Is there a sentence boundary after [cur] (which a terminator [r], and its
    run, ends), before [rest]? *)
Definition boundary (r : rune) (cur rest : list rune) : bool :=
  if (r =? 46) && (is_abbreviation cur || match rest with x :: _ => IsDigit x | [] => false end)
  then false
  else
    let '(ws, after) := span skipped rest in
    match after with
    | [] => true
    | x :: _ =>
        match ws with
        | [] => false
        | _ => IsUpper x || IsDigit x || (x =? quote_mark) || (x =? left_quote)
        end
    end.

(** The pieces of the text, cut at the boundaries; [fuel] is at least the
    length, [cur] what is pending. *)
Fixpoint scan_sentences (fuel : nat) (rs cur : list rune) : list (list rune) :=
  match fuel, rs with
  | S fuel', r :: rs' =>
      if is_terminator r then
        let '(run, rest) := span is_terminator rs' in
        let cur := cur ++ r :: run in
        if boundary r cur rest then cur :: scan_sentences fuel' rest [] else scan_sentences fuel' rest cur
      else scan_sentences fuel' rs' (cur ++ [r])
  | _, _ => [cur]
  end.
Definition splitSentences (text : list rune) : list (list rune) :=
  filter (fun s => s <> []) (map TrimSpace (scan_sentences (length text) text [])).

(** ** Tokens *)

Definition is_word_rune (r : rune) : bool := IsLetter r || IsDigit r.
Definition is_joiner (r : rune) : bool := (r =? 39) || (r =? 45).

Definition finished_word (cur : list rune) : list string :=
  match cur with [] => [] | _ => [encoded (trim_right is_joiner cur)] end.

(** The loop of [tokenize], with the word that is open. *)
Fixpoint tokens (rs cur : list rune) : list string :=
  match rs with
  | [] => finished_word cur
  | r :: rs' =>
      if is_word_rune r then tokens rs' (cur ++ [ToLower r])
      else if is_joiner r && negb (bool_decide (cur = [])) then tokens rs' (cur ++ [r])
      else finished_word cur ++ tokens rs' []
  end.
Definition tokenize (text : list rune) : list string := tokens text [].
End text.

(** ** Syllables *)

Definition is_vowel (c : ascii) : bool := existsb (Ascii.eqb c) (list_ascii_of_string "aeiouy").
(** Groups of vowels. *)
Fixpoint vowel_groups (l : list ascii) (prev : bool) : Z :=
  match l with
  | [] => 0
  | c :: l' => (if is_vowel c && negb prev then 1 else 0) + vowel_groups l' (is_vowel c)
  end.
Definition has_suffix (suf w : list ascii) : bool :=
  bool_decide ((length suf <= length w)%nat /\ drop (length w - length suf) w = suf).
(** The words it counts are in lower case already. *)
Definition countSyllables (word : string) : Z :=
  let w := list_ascii_of_string word in
  if (Z.of_nat (length w) <=? 2) then 1
  else
    let count := vowel_groups w false in
    let count := if has_suffix ["e"%char] w && negb (has_suffix ["l"%char; "e"%char] w) && (1 <? count)
                 then count - 1 else count in
    if count =? 0 then 1 else count.

(** ** Numbers *)

Abbreviation float := spec_float (only parsing).
Definition fadd (x y : float) : float := SFadd 53 1024 x y.
Definition fsub (x y : float) : float := SFsub 53 1024 x y.
Definition fmul (x y : float) : float := SFmul 53 1024 x y.
Definition fdiv (x y : float) : float := SFdiv 53 1024 x y.
Definition of_Z (z : Z) : float := binary_normalize 53 1024 z 0 false.
(** A decimal constant, rounded once. *)
Definition ratio (n d : Z) : float := fdiv (of_Z n) (of_Z d).
Definition fzero : float := S754_zero false.

(** [math.Round]: half away from zero. *)
Definition Round (x : float) : float :=
  match x with
  | S754_finite s m e =>
      if 0 <=? e then x
      else
        let q := (2 * Z.pos m + 2 ^ (- e)) / 2 ^ (1 - e) in
        if q =? 0 then S754_zero s else of_Z (if s then - q else q)
  | _ => x
  end.
Definition round1 (x : float) : float := fdiv (Round (fmul x (of_Z 10))) (of_Z 10).

Definition damping : float := ratio 85 100.
Definition one_minus_damping : float := ratio 15 100.
Definition iterations : nat := 30.
Definition coocWindow : nat := 4.
Definition maxGraphSentences : nat := 600.
Definition wordsPerMinute : Z := 200.

Record Keyword := { kw_Term : string; kw_Score : float }.

(** [String.ltb] compares bytes, as Go does. *)
Definition kw_less (a b : Keyword) : bool :=
  if SFeqb (kw_Score a) (kw_Score b) then String.ltb (kw_Term a) (kw_Term b)
  else SFltb (kw_Score b) (kw_Score a).
Definition kw_le (a b : Keyword) : Prop := kw_less b a = false.
#[export] Instance kw_le_dec : RelDecision kw_le.
Proof. intros a b. unfold kw_le. apply _. Defined.

Record scored := { sco_idx : nat; sco_score : float }.
Definition sco_less (a b : scored) : bool :=
  if SFeqb (sco_score a) (sco_score b) then bool_decide (sco_idx a < sco_idx b)%nat
  else SFltb (sco_score b) (sco_score a).
Definition sco_le (a b : scored) : Prop := sco_less b a = false.
#[export] Instance sco_le_dec : RelDecision sco_le.
Proof. intros a b. unfold sco_le. apply _. Defined.
Definition idx_le (a b : scored) : Prop := (sco_idx a <= sco_idx b)%nat.
#[export] Instance idx_le_dec : RelDecision idx_le.
Proof. intros a b. unfold idx_le. apply _. Defined.
#[export] Instance idx_le_total : Total idx_le.
Proof. intros a b. unfold idx_le. lia. Qed.
#[export] Instance idx_le_trans : Transitive idx_le.
Proof. intros a b c. unfold idx_le. lia. Qed.

Record Analysis := {
  an_ArticleID : string; an_Language : string; an_Words : Z; an_Sentences : Z; an_Paragraphs : Z;
  an_ReadingTimeMinutes : Z; an_FleschReadingEase : float; an_FleschKincaidGrade : float;
  an_Keywords : list Keyword; an_Summary : list (list Z)
}.

Abbreviation graph := (list (gmap nat float)) (only parsing).

Section analysis.
Context (IsLetter IsDigit IsUpper IsSpace : Z -> bool) (ToLower : Z -> Z).
(** [math.Log]; the order of one [range] over a row of a graph (in pass [n], of
    row [i]) and over the votes. *)
Context (Log : float -> float).
Context (visit : nat -> nat -> gmap nat float -> list (nat * float)).
Context (visit_votes : list (string * Z) -> list (string * Z)).

(** ** The language vote *)

Definition votes (words : list string) : list (string * Z) :=
  let count ws := Z.of_nat (length (filter (fun w => w ∈ ws) words)) in
  filter (fun v => v.2 <> 0)
    [("en", count stopwordsEN); ("es", count stopwordsES); ("fr", count stopwordsFR); ("de", count stopwordsDE)].

Definition leading (best : string * Z) (v : string * Z) : string * Z := if best.2 <? v.2 then v else best.
Definition detectLanguage (words : list string) : string :=
  if Z.of_nat (length words) <? 10 then "unknown"
  else
    let '(best, bestN) := foldl leading ("unknown", 0) (visit_votes (votes words)) in
    if bestN * 100 <? Z.of_nat (length words) * 8 then "unknown" else best.

(** ** PageRank *)

Definition out_sums (adj : graph) : list float :=
  imap (fun i row => foldl (fun acc e => fadd acc e.2) fzero (visit 0 i row)) adj.

(** What node [j], of rank [r] and out-sum [o], adds to the next ranks. *)
Definition spread (pass j : nat) (row : gmap nat float) (r o : float) (next : list float) : list float :=
  if SFeqb o fzero then next
  else
    let share := fdiv (fmul damping r) o in
    foldl (fun next e => alter (fun x => fadd x (fmul share e.2)) e.1 next) next (visit pass j row).

Definition rank_pass (adj : graph) (outs : list float) (pass : nat) (rank : list float) : list float :=
  let start := replicate (length adj) (fdiv one_minus_damping (of_Z (Z.of_nat (length adj)))) in
  foldl (fun next j =>
           match adj !! j, rank !! j, outs !! j with
           | Some row, Some r, Some o => spread pass j row r o next
           | _, _, _ => next
           end) start (seq 0 (length adj)).

Definition pagerank (adj : graph) (iters : nat) : list float :=
  match adj with
  | [] => []
  | _ =>
      let start := replicate (length adj) (fdiv (of_Z 1) (of_Z (Z.of_nat (length adj)))) in
      foldl (fun rank pass => rank_pass adj (out_sums adj) pass rank) start (seq 1 iters)
  end.

(** ** Keywords *)

Definition isNumeric (w : string) : bool :=
  forallb IsDigit (runes_of w) && negb (bool_decide (w = EmptyString)).

Definition candidate (w : string) : bool :=
  negb (bool_decide (String.length w < 3)%nat || bool_decide (w ∈ stopwordsEN) || isNumeric w).

(** The vocabulary so far and the sequence of its indices. *)
Definition index_word (st : list string * list (option nat)) (w : string) : list string * list (option nat) :=
  let '(vocab, ids) := st in
  if candidate w then
    match list_find (fun v => v = w) vocab with
    | Some (id, _) => (vocab, ids ++ [Some id])
    | None => (vocab ++ [w], ids ++ [Some (length vocab)])
    end
  else (vocab, ids ++ [None]).

(** [adj[a][b]++]. *)
Definition bump (a b : nat) (adj : graph) : graph :=
  alter (fun row => <[b := fadd (default fzero (row !! b)) (of_Z 1)]> row) a adj.
Definition pair_up (a b : nat) (adj : graph) : graph :=
  if bool_decide (a = b) then adj else bump b a (bump a b adj).
Fixpoint cooccur (ids : list (option nat)) (adj : graph) : graph :=
  match ids with
  | [] => adj
  | None :: ids' => cooccur ids' adj
  | Some a :: ids' =>
      cooccur ids'
        (foldl (fun adj b => match b with Some b => pair_up a b adj | None => adj end) adj (take coocWindow ids'))
  end.

Definition score4 (x : float) : float := fdiv (Round (fmul x (of_Z 10000))) (of_Z 10000).

Definition keywordTextRank (words : list string) (topK : Z) : list Keyword :=
  let topK := if topK <=? 0 then 10 else topK in
  let '(vocab, ids) := foldl index_word ([], []) words in
  match vocab with
  | [] => []
  | _ =>
      let rank := pagerank (cooccur ids (replicate (length vocab) ∅)) iterations in
      let kws := imap (fun i term => {| kw_Term := term; kw_Score := nth i rank fzero |}) vocab in
      map (fun k => {| kw_Term := kw_Term k; kw_Score := score4 (kw_Score k) |})
        (take (Z.to_nat topK) (merge_sort kw_le kws))
  end.

(** ** Summary *)

Definition content (sentence : list Z) : gset string :=
  list_to_set (filter (fun w => (3 <= String.length w)%nat /\ w ∉ stopwordsEN)
    (tokenize IsLetter IsDigit ToLower sentence)).

Definition similarity (a b : gset string) : option float :=
  if bool_decide (size a = 0%nat) || bool_decide (size b = 0%nat) then None
  else
    let overlap := size (a ∩ b) in
    if bool_decide (overlap = 0%nat) then None
    else
      let log_size (s : gset string) := Log (fadd (of_Z (Z.of_nat (size s))) (of_Z 1)) in
      Some (fdiv (of_Z (Z.of_nat overlap)) (fadd (log_size a) (log_size b))).

(** Row [i] of the similarity graph: the weights are symmetric. *)
Definition similarity_graph (sets : list (gset string)) : graph :=
  imap (fun i a =>
    list_to_map (omap (fun '(j, b) =>
      if bool_decide (i = j) then None
      else (fun w => (j, w)) <$> (if bool_decide (i < j)%nat then similarity a b else similarity b a))
      (imap (fun j b => (j, b)) sets))) sets.

Definition summaryTextRank (sentences : list (list Z)) (summaryLen : Z) : list (list Z) :=
  let summaryLen := if summaryLen <=? 0 then 3 else summaryLen in
  if bool_decide (sentences = []) then []
  else if Z.of_nat (length sentences) <=? summaryLen then sentences
  else
    let n := Nat.min maxGraphSentences (length sentences) in
    let rank := pagerank (similarity_graph (map content (take n sentences))) iterations in
    let order := map (fun i => {| sco_idx := i; sco_score := nth i rank fzero |}) (seq 0 n) in
    let picked := take (Z.to_nat summaryLen) (merge_sort sco_le order) in
    omap (fun s => sentences !! sco_idx s) (merge_sort idx_le picked).

(** ** Analyze *)

Definition Analyze (text : list Z) (topKeywords summaryLen : Z) : Analysis :=
  let paragraphs := splitParagraphs IsSpace text in
  let sentences := splitSentences IsDigit IsUpper IsSpace ToLower text in
  let words := tokenize IsLetter IsDigit ToLower text in
  let nw := Z.of_nat (length words) in
  let ns := Z.of_nat (length sentences) in
  let syl := foldl Z.add 0 (map countSyllables words) in
  let wps := fdiv (of_Z nw) (of_Z ns) in
  let spw := fdiv (of_Z syl) (of_Z nw) in
  let readable := (0 <? nw) && (0 <? ns) in
  {| an_ArticleID := EmptyString; an_Language := detectLanguage words; an_Words := nw; an_Sentences := ns;
     an_Paragraphs := Z.of_nat (length paragraphs);
     an_ReadingTimeMinutes := Z.quot (nw + wordsPerMinute - 1) wordsPerMinute;
     an_FleschReadingEase :=
       if readable then round1 (fsub (fsub (ratio 206835 1000) (fmul (ratio 1015 1000) wps)) (fmul (ratio 846 10) spw))
       else fzero;
     an_FleschKincaidGrade :=
       if readable then round1 (fsub (fadd (fmul (ratio 39 100) wps) (fmul (ratio 118 10) spw)) (ratio 1559 100))
       else fzero;
     an_Keywords := keywordTextRank words topKeywords; an_Summary := summaryTextRank sentences summaryLen |}.
End analysis.

(** ** The handler *)

Record analysisPayload := {
  ap_ArticleID : string; ap_Text : list Z; ap_TopKeywords : Z; ap_SummarySentences : Z
}.
Definition analysis_fields : fields analysisPayload :=
  [("articleId", at_string (fun p x => Build_analysisPayload x (ap_Text p) (ap_TopKeywords p) (ap_SummarySentences p)) ap_ArticleID);
   ("text", fun p _ v => match v with
      | VStr raw => Some (Build_analysisPayload (ap_ArticleID p) (runes_of (Encode.unquote raw)) (ap_TopKeywords p) (ap_SummarySentences p))
      | VNull => Some p
      | _ => None
      end);
   ("topKeywords", at_int (fun p x => Build_analysisPayload (ap_ArticleID p) (ap_Text p) x (ap_SummarySentences p)) ap_TopKeywords);
   ("summarySentences", at_int (fun p x => Build_analysisPayload (ap_ArticleID p) (ap_Text p) (ap_TopKeywords p) x) ap_SummarySentences)].
(** [json.Unmarshal(j.Payload, &p)]; the text it leaves is UTF-8. *)
Definition read_analysis (bad : string -> error) (payload : string) : result error analysisPayload :=
  match unmarshal analysis_fields {| ap_ArticleID := EmptyString; ap_Text := []; ap_TopKeywords := 0; ap_SummarySentences := 0 |} payload with
  | Some p => Ok p
  | None => Err (bad payload)
  end.

Definition capped (v def cap : Z) : Z :=
  let v := if v <=? 0 then def else v in if cap <? v then cap else v.
Definition with_article (id : string) (a : Analysis) : Analysis :=
  {| an_ArticleID := id; an_Language := an_Language a; an_Words := an_Words a; an_Sentences := an_Sentences a;
     an_Paragraphs := an_Paragraphs a; an_ReadingTimeMinutes := an_ReadingTimeMinutes a;
     an_FleschReadingEase := an_FleschReadingEase a; an_FleschKincaidGrade := an_FleschKincaidGrade a;
     an_Keywords := an_Keywords a; an_Summary := an_Summary a |}.

(** [handle], given [ctx.Err()], the analyser and the encoder of its result. *)
Definition analysis_handle (ctxErr : option error) (analyze : list Z -> Z -> Z -> Analysis)
    (Marshal_analysis : Analysis -> result error string) (p : result error analysisPayload)
    : string * option error :=
  match p with
  | Err e => (EmptyString, NonRetryable (Some (EWrap "articleanalysis: bad payload: " e)))
  | Ok p =>
      if bool_decide (ap_Text p = []) then
        (EmptyString, NonRetryable (Some (EMsg "articleanalysis: payload.text is required")))
      else
        match ctxErr with
        | Some e => (EmptyString, Some e)
        | None =>
            let a := analyze (ap_Text p) (capped (ap_TopKeywords p) 10 50) (capped (ap_SummarySentences p) 3 10) in
            match Marshal_analysis (with_article (ap_ArticleID p) a) with
            | Ok out => (out, None)
            | Err e => (EmptyString, Some (EWrap "articleanalysis: encoding result: " e))
            end
        end
  end.

(** ** Test cases *)

Definition ascii_lower (r : Z) : Z := if (65 <=? r) && (r <=? 90) then r + 32 else r.
Definition ascii_letter (r : Z) : bool := (65 <=? r) && (r <=? 90) || (97 <=? r) && (r <=? 122).
Definition ascii_upper (r : Z) : bool := (65 <=? r) && (r <=? 90).
Definition ascii_digit (r : Z) : bool := (48 <=? r) && (r <=? 57).
Definition ascii_space (r : Z) : bool := existsb (Z.eqb r) [9; 10; 11; 12; 13; 32].
Definition runes (s : string) : list Z := map rune_of (list_ascii_of_string s).

Example test_sentences :
  map encoded (splitSentences ascii_digit ascii_upper ascii_space ascii_lower
    (runes "Dr. Smith paid 3.14 dollars. He left! Did he?! Yes... no.")) =
  ["Dr. Smith paid 3.14 dollars."; "He left!"; "Did he?!"; "Yes... no."].
Proof. by vm_compute. Qed.
Example test_tokens :
  tokenize ascii_letter ascii_digit ascii_lower (runes "Don't stop the state-machine -- it's 9 o'clock!") =
  ["don't"; "stop"; "the"; "state-machine"; "it's"; "9"; "o'clock"].
Proof. by vm_compute. Qed.
Example test_syllables : map countSyllables ["table"; "make"; "the"; "reading"; "rhythm"; "queue"] = [2; 1; 1; 2; 1; 1].
Proof. by vm_compute. Qed.
Example test_paragraphs :
  length (splitParagraphs ascii_space (runes "One.") ) = 1%nat.
Proof. by vm_compute. Qed.

(** ** Nothing is lost between sentences *)

Lemma span_app {A} (f : A -> bool) l : (span f l).1 ++ (span f l).2 = l.
Proof.
  induction l as [|x l IH]; simpl; [done|]. destruct (f x); [|done].
  destruct (span f l) as [a b]. simpl in *. by f_equal.
Qed.

Lemma scan_sentences_cut IsDigit IsUpper ToLower fuel : forall rs cur,
  (length rs <= fuel)%nat -> concat (scan_sentences IsDigit IsUpper ToLower fuel rs cur) = cur ++ rs.
Proof.
  induction fuel as [|fuel IH]; intros [|r rs] cur Hf; simpl in *; try (by rewrite !app_nil_r); [lia|].
  destruct (is_terminator r); [|rewrite IH by lia; by rewrite <-app_assoc].
  pose proof (span_app is_terminator rs) as Hs. destruct (span is_terminator rs) as [run rest] eqn:Hsp.
  simpl in Hs. assert (Hl : (length rest <= fuel)%nat) by (rewrite <-Hs, length_app in Hf; lia).
  destruct (boundary _ _ _ _ _ _); simpl; rewrite IH by done; subst rs; simpl;
    by rewrite <-?app_assoc, ?app_nil_l.
Qed.

(** ** Syllables *)

Lemma vowel_groups_bounds l : forall prev, 0 <= vowel_groups l prev <= Z.of_nat (length l).
Proof.
  induction l as [|c l IH]; intros prev; cbn [vowel_groups length]; [lia|].
  specialize (IH (is_vowel c)). destruct (is_vowel c && negb prev); lia.
Qed.

Lemma countSyllables_bounds w : 1 <= countSyllables w <= Z.max 1 (Z.of_nat (String.length w)).
Proof.
  unfold countSyllables.
  assert (Hl : length (list_ascii_of_string w) = String.length w) by (induction w; simpl; auto).
  pose proof (vowel_groups_bounds (list_ascii_of_string w) false) as Hb. rewrite Hl in *.
  destruct (_ <=? 2); [lia|]. match goal with |- context [if ?b =? 0 then _ else _] => set (count := b) end.
  assert (Hc : 0 <= count <= Z.of_nat (String.length w)).
  { unfold count. destruct (_ && _) eqn:E; [|lia]. reflect_bools. lia. }
  destruct (count =? 0) eqn:E; reflect_bools; lia.
Qed.

(** ** Strictly increasing positions pick a sublist *)

Lemma omap_pred {A} (x : A) l is_ :
  Forall (fun i => 0 < i)%nat is_ ->
  omap (fun i => (x :: l) !! i) is_ = omap (fun i => l !! i) (map pred is_).
Proof.
  induction 1 as [|[|i] is_ Hi _ IH]; [done|lia|]. cbn. destruct (l !! i); [f_equal|]; exact IH.
Qed.

Lemma increasing_sublist {A} (l : list A) : forall is_,
  StronglySorted lt is_ -> omap (fun i => l !! i) is_ `sublist_of` l.
Proof.
  induction l as [|x l IH]; intros is_ Hs.
  { induction is_ as [|i is_ IHi]; [constructor|]. cbn. apply IHi. by inversion Hs. }
  assert (Hpred : forall is_, Forall (fun i => 0 < i)%nat is_ -> StronglySorted lt is_ ->
    StronglySorted lt (map pred is_)).
  { clear. intros is_ Hp Hs. induction Hs as [|i is_ Hs IHs Hi]; simpl; constructor.
    - apply IHs. by inversion Hp.
    - apply Forall_map. inversion Hp. rewrite !Forall_forall in *. intros k Hk. simpl.
      specialize (Hi k Hk). specialize (H2 k Hk). lia. }
  destruct is_ as [|[|i] is_]; [apply sublist_nil_l|..].
  - inversion Hs as [|? ? Hs' Hall]; subst.
    change (omap (fun i => (x :: l) !! i) (0%nat :: is_)) with (x :: omap (fun i => (x :: l) !! i) is_).
    rewrite omap_pred by done. by apply sublist_skip, IH, Hpred.
  - assert (Hp : Forall (fun k => 0 < k)%nat (S i :: is_)).
    { constructor; [lia|]. inversion Hs as [|? ? _ Hall]; subst. eapply Forall_impl; [exact Hall|]. simpl. lia. }
    rewrite omap_pred by done. by apply sublist_cons, IH, Hpred.
Qed.

Lemma omap_all {A B} (f : A -> option B) l : Forall (fun x => is_Some (f x)) l -> length (omap f l) = length l.
Proof. induction 1 as [|x l [y Hy] _ IH]; [done|]. cbn. rewrite Hy. cbn. f_equal. exact IH. Qed.

Section sound.
Context (IsLetter IsDigit IsUpper IsSpace : Z -> bool) (ToLower : Z -> Z).
Context (Log : float -> float).
Context (visit : nat -> nat -> gmap nat float -> list (nat * float)).
Context (visit_votes : list (string * Z) -> list (string * Z)).

(** ** Keywords *)

Definition vocabulary (words : list string) : list string := (foldl (index_word IsDigit) ([], []) words).1.

Lemma index_word_vocab ws : forall vocab ids,
  NoDup vocab -> (forall v, v ∈ vocab -> candidate IsDigit v = true) ->
  let vocab' := (foldl (index_word IsDigit) (vocab, ids) ws).1 in
  NoDup vocab' /\ (forall v, v ∈ vocab' -> candidate IsDigit v = true) /\
  (forall v, v ∈ vocab' -> v ∈ vocab \/ v ∈ ws).
Proof.
  induction ws as [|w ws IH]; intros vocab ids Hnd Hc; simpl; [split_and!; auto|].
  destruct (candidate IsDigit w) eqn:Hw.
  2: { destruct (IH vocab (ids ++ [None]) Hnd Hc) as (H1 & H2 & H3). split_and!; [done|done|].
       intros v Hv. destruct (H3 v Hv); [by left|right; by right]. }
  destruct (list_find (fun v => v = w) vocab) as [[id v0]|] eqn:Hf.
  - destruct (IH vocab (ids ++ [Some id]) Hnd Hc) as (H1 & H2 & H3). split_and!; [done|done|].
    intros v Hv. destruct (H3 v Hv); [by left|right; by right].
  - apply list_find_None in Hf. rewrite Forall_forall in Hf.
    assert (Hnew : w ∉ vocab) by (intros Hin; by apply (Hf w Hin)).
    destruct (IH (vocab ++ [w]) (ids ++ [Some (length vocab)])) as (H1 & H2 & H3).
    + apply NoDup_app. split_and!; [done|set_solver|apply NoDup_singleton].
    + intros v [Hv|Hv]%elem_of_app; [by apply Hc|]. apply list_elem_of_singleton in Hv as ->. done.
    + split_and!; [done|done|]. intros v Hv. destruct (H3 v Hv) as [Hin|Hin]; [|right; by right].
      apply elem_of_app in Hin as [Hin|Hin]; [by left|right]. apply list_elem_of_singleton in Hin as ->. by left.
Qed.

Lemma keywords_terms words topK :
  exists terms, terms ≡ₚ vocabulary words /\
    map kw_Term (keywordTextRank IsDigit visit words topK) =
      take (Z.to_nat (if topK <=? 0 then 10 else topK)) terms.
Proof.
  unfold keywordTextRank, vocabulary. destruct (foldl _ _ words) as [vocab ids]. simpl.
  destruct vocab as [|v vocab]; [exists []; split; [done|by rewrite take_nil]|].
  set (kws := imap _ _). exists (map kw_Term (merge_sort kw_le kws)). split.
  - rewrite (fmap_Permutation kw_Term _ _ (merge_sort_Permutation kw_le kws)).
    assert (Hk : kw_Term <$> kws = v :: vocab); [|by rewrite Hk].
    apply list_eq. intros i. unfold kws. rewrite list_lookup_fmap, list_lookup_imap.
    by destruct ((v :: vocab) !! i).
  - rewrite map_map. simpl. by rewrite <-firstn_map.
Qed.

(** ** Summary *)

Lemma picked_increasing (k n : nat) (rank : list float) :
  let order := map (fun i => {| sco_idx := i; sco_score := nth i rank fzero |}) (seq 0 n) in
  let picked := merge_sort idx_le (take k (merge_sort sco_le order)) in
  length picked = Nat.min k n /\ StronglySorted lt (map sco_idx picked) /\
  Forall (fun i => i < n)%nat (map sco_idx picked).
Proof.
  intros order picked.
  assert (Hord : map sco_idx order = seq 0 n) by (unfold order; rewrite map_map; apply map_id).
  assert (Hsub : exists rest, map sco_idx picked ++ rest ≡ₚ seq 0 n).
  { exists (map sco_idx (drop k (merge_sort sco_le order))). unfold picked.
    rewrite (fmap_Permutation sco_idx _ _ (merge_sort_Permutation idx_le (take k (merge_sort sco_le order)))).
    change (sco_idx <$> ?l) with (map sco_idx l). rewrite <-map_app, take_drop, <-Hord.
    apply (fmap_Permutation sco_idx), merge_sort_Permutation. }
  destruct Hsub as [rest Hperm]. split_and!.
  - unfold picked. rewrite (Permutation_length (merge_sort_Permutation _ _)), length_take,
      (Permutation_length (merge_sort_Permutation _ _)). unfold order. by rewrite length_map, length_seq.
  - assert (Hnd : NoDup (map sco_idx picked)).
    { eapply (NoDup_app _ rest). rewrite Hperm. apply NoDup_seq. }
    assert (Hs : StronglySorted idx_le picked).
    { apply (StronglySorted_merge_sort idx_le). }
    clear Hperm. induction Hs as [|x l Hs IH Hx]; simpl in *; constructor.
    + apply IH. by inversion Hnd.
    + apply Forall_map. inversion Hnd as [|? ? Hni _]; subst. rewrite Forall_forall in *. intros y Hy.
      specialize (Hx y Hy). unfold idx_le in Hx. assert (sco_idx x <> sco_idx y); [|lia].
      intros He. apply Hni. rewrite He. apply list_elem_of_In, in_map. by apply list_elem_of_In.
  - apply Forall_forall. intros i Hi.
    assert (Hin : i ∈ seq 0 n) by (rewrite <-Hperm; apply elem_of_app; by left).
    apply elem_of_seq in Hin. lia.
Qed.

Lemma summary_sublist sentences summaryLen :
  let want := if summaryLen <=? 0 then 3 else summaryLen in
  want <= Z.of_nat maxGraphSentences ->
  let s := summaryTextRank IsLetter IsDigit ToLower Log visit sentences summaryLen in
  s `sublist_of` sentences /\ Z.of_nat (length s) = Z.min want (Z.of_nat (length sentences)).
Proof.
  intros want Hw s. unfold s, summaryTextRank. fold want.
  assert (Hpos : 0 < want) by (unfold want; destruct (summaryLen <=? 0) eqn:?; reflect_bools; lia).
  case_bool_decide as Hnil; [subst; simpl; split; [done|lia]|].
  destruct (Z.of_nat (length sentences) <=? want) eqn:Hle; reflect_bools; [split; [done|lia]|].
  set (n := Nat.min maxGraphSentences (length sentences)). cbv zeta.
  set (rank := pagerank _ _ _).
  destruct (picked_increasing (Z.to_nat want) n rank) as (Hlen & Hinc & Hlt).
  set (picked := merge_sort idx_le _) in *.
  assert (Hmap : omap (fun s => sentences !! sco_idx s) picked = omap (fun i => sentences !! i) (map sco_idx picked)).
  { clear. induction picked as [|x l IH]; [done|]. cbn. destruct (sentences !! sco_idx x); [f_equal|]; exact IH. }
  rewrite Hmap. split; [by apply increasing_sublist|].
  rewrite omap_all, length_map, Hlen; [unfold n; lia|].
  eapply Forall_impl; [exact Hlt|]. intros i Hi. apply lookup_lt_is_Some. unfold n in Hi. lia.
Qed.

(** ** Language *)

Lemma leading_max l : forall b0,
  let b := foldl leading b0 l in (b = b0 \/ b ∈ l) /\ b0.2 <= b.2 /\ forall v, v ∈ l -> v.2 <= b.2.
Proof.
  induction l as [|v l IH]; intros b0; simpl; [split_and!; [by left|lia|by intros v ?%elem_of_nil]|].
  destruct (IH (leading b0 v)) as (H1 & H2 & H3).
  assert (Hl : (leading b0 v = b0 \/ leading b0 v = v) /\ b0.2 <= (leading b0 v).2 /\ v.2 <= (leading b0 v).2).
  { unfold leading. destruct (b0.2 <? v.2) eqn:E; reflect_bools; (split_and!; [tauto|lia|lia]). }
  destruct Hl as (Hc & Hb & Hv). split_and!; [|lia|].
  - destruct H1 as [->|H1]; [|right; by right]. destruct Hc as [->| ->]; [by left|right; by left].
  - intros x [->|Hx]%elem_of_cons; [lia|by apply H3].
Qed.

(** What a vote other than "unknown" means. *)
Definition elected (words : list string) (lang : string) : Prop := exists m,
  (lang, m) ∈ votes words /\ (forall v, v ∈ votes words -> v.2 <= m) /\
  Z.of_nat (length words) * 8 <= m * 100 /\ 10 <= Z.of_nat (length words).

Lemma detectLanguage_elected words :
  (forall l, visit_votes l ≡ₚ l) ->
  detectLanguage visit_votes words = "unknown" \/ elected words (detectLanguage visit_votes words).
Proof.
  intros Hv. unfold detectLanguage. destruct (_ <? 10) eqn:H10; [by left|]. reflect_bools.
  destruct (leading_max (visit_votes (votes words)) ("unknown", 0)) as (Hb & _ & Hmax).
  destruct (foldl leading _ _) as [best m]. simpl in *.
  destruct (m * 100 <? _) eqn:Hm; [by left|]. reflect_bools.
  destruct Hb as [[= -> ->]|Hin]; [by left|right]. exists m. rewrite Hv in Hin. split_and!; try done.
  intros v Hvin. apply Hmax. by rewrite Hv.
Qed.

(** ** The theorem *)

Lemma capped_bounds v def cap : 1 <= def <= cap -> 1 <= capped v def cap <= cap.
Proof.
  intros Hd. unfold capped. destruct (v <=? 0) eqn:?; reflect_bools;
    destruct (cap <? _) eqn:?; reflect_bools; lia.
Qed.

(** C34. The analysis says what the text says. For every text, every Unicode
    table, and every order in which maps are visited, with the caps the handler
    puts on its two numbers: cutting the text into sentences loses nothing; the
    reading time is the word count over two hundred, rounded up; a language is
    named only if no other has more stopwords in the text, and these are at
    least 8 % of at least ten words; the keywords are at most as many as asked
    for, all different, each a word of the text of three bytes or more that is
    neither a stopword nor a number; and the summary is a selection of the text's
    sentences in reading order, as many as asked for or all there are. *)
Theorem Analyze_sound (text : list Z) (topKeywords summarySentences : Z) :
  (forall l, visit_votes l ≡ₚ l) ->
  let k := capped topKeywords 10 50 in
  let n := capped summarySentences 3 10 in
  let words := tokenize IsLetter IsDigit ToLower text in
  let sentences := splitSentences IsDigit IsUpper IsSpace ToLower text in
  let a := Analyze IsLetter IsDigit IsUpper IsSpace ToLower Log visit visit_votes text k n in
  concat (scan_sentences IsDigit IsUpper ToLower (length text) text []) = text /\
  200 * (an_ReadingTimeMinutes a - 1) < an_Words a <= 200 * an_ReadingTimeMinutes a /\
  (an_Language a = "unknown" \/ elected words (an_Language a)) /\
  (Z.of_nat (length (an_Keywords a)) <= k /\ NoDup (map kw_Term (an_Keywords a)) /\
   forall t, t ∈ map kw_Term (an_Keywords a) -> t ∈ words /\ candidate IsDigit t = true) /\
  (an_Summary a `sublist_of` sentences /\
   Z.of_nat (length (an_Summary a)) = Z.min n (Z.of_nat (length sentences))).
Proof.
  intros Hv k n words sentences a.
  pose proof (capped_bounds topKeywords 10 50 ltac:(lia)) as Hk. fold k in Hk.
  pose proof (capped_bounds summarySentences 3 10 ltac:(lia)) as Hn. fold n in Hn.
  split_and!.
  - by rewrite scan_sentences_cut.
  - unfold a, Analyze, wordsPerMinute. cbn [an_ReadingTimeMinutes an_Words]. Z.to_euclidean_division_equations. lia.
  - unfold a, Analyze, wordsPerMinute. cbn [an_ReadingTimeMinutes an_Words]. Z.to_euclidean_division_equations. lia.
  - by apply detectLanguage_elected.
  - destruct (keywords_terms words k) as (terms & _ & Ht). rewrite <-length_map with (f := kw_Term).
    unfold a, Analyze. simpl. fold words. rewrite Ht, length_take.
    replace (k <=? 0) with false by (symmetry; apply Z.leb_gt; lia). lia.
  - destruct (keywords_terms words k) as (terms & Hp & Ht). unfold a, Analyze. simpl. fold words. rewrite Ht.
    eapply sublist_NoDup; [|apply sublist_take]. rewrite Hp.
    by destruct (index_word_vocab words [] [] (NoDup_nil_2)) as (Hnd & _ & _); [intros v ?%elem_of_nil|].
  - destruct (keywords_terms words k) as (terms & Hp & Ht). unfold a, Analyze. simpl. fold words. rewrite Ht.
    intros t Ht'. assert (Hin : t ∈ terms).
    { rewrite <-(take_drop (Z.to_nat (if k <=? 0 then 10 else k)) terms). apply elem_of_app. by left. }
    rewrite Hp in Hin.
    destruct (index_word_vocab words [] [] (NoDup_nil_2)) as (_ & Hc & Hw); [by intros v ?%elem_of_nil|].
    split; [|by apply Hc]. by destruct (Hw t Hin) as [?%elem_of_nil|].
  - apply summary_sublist. unfold maxGraphSentences. destruct (n <=? 0) eqn:?; reflect_bools; lia.
  - destruct (summary_sublist sentences n) as [_ Hlen].
    + unfold maxGraphSentences. destruct (n <=? 0) eqn:?; reflect_bools; lia.
    + replace (n <=? 0) with false in Hlen by (symmetry; apply Z.leb_gt; lia). exact Hlen.
Qed.
End sound.

(** ** Witness, and the order of maps *)

Abbreviation demo_analyze :=
  (Analyze ascii_letter ascii_digit ascii_upper ascii_space ascii_lower (fun x => x)
     (fun _ _ row => map_to_list row) (fun l => l)).
Definition demo_text : list Z := runes "Queues move jobs. Workers run jobs! Queues keep jobs. Jobs finish?".

Lemma Analyze_sound_witness :
  let a := demo_analyze demo_text (capped 2 10 50) (capped 2 3 10) in
  an_Words a = 11 /\ an_Sentences a = 4 /\ NoDup (map kw_Term (an_Keywords a)) /\
  Z.of_nat (length (an_Summary a)) = 2.
Proof.
  destruct (Analyze_sound ascii_letter ascii_digit ascii_upper ascii_space ascii_lower (fun x => x)
    (fun _ _ row => map_to_list row) (fun l => l) demo_text 2 2) as (_ & _ & _ & (_ & Hnd & _) & _ & Hlen);
    [intros l; reflexivity|].
  split; [vm_compute; reflexivity|]. split; [vm_compute; reflexivity|]. split; [exact Hnd|exact Hlen].
Defined.

(** The vote is taken over a map in the order Go visits it, and a tie goes to
    the first: the same words can be Spanish or French. *)
Example language_depends_on_map_order :
  let words := replicate 10 "la" in
  detectLanguage (fun l => l) words = "es" /\ detectLanguage (@rev _) words = "fr".
Proof. by vm_compute. Qed.

(** And the weights of a sentence are added in that order, so the last bit of a
    rank can differ. *)
Example out_sums_depend_on_map_order :
  let row : gmap nat float := list_to_map [(0%nat, ratio 1 10); (1%nat, ratio 2 10); (2%nat, ratio 3 10)] in
  out_sums (fun _ _ r => map_to_list r) [row] <> out_sums (fun _ _ r => rev (map_to_list r)) [row].
Proof. by vm_compute. Qed.
