(* ===== verification/Boot.v ===== *)
(** * Boot: how the two servers start, and how they stop

    Models [run] of [cmd/calligraphy-api/main.go] and of
    [cmd/calligraphy-worker/main.go], with what they call to open and close the
    connections: [Open] and [Close] of [internal/store/store.go], [New], [Close] and
    [EnsureGroup] of [internal/queue/queue.go], [New] of
    [internal/worker/worker.go].  A run is the list of the calls it makes of
    drivers, listeners and background loops, in order, given which of them fail. *)

From S2P Require Import Prelude Errors Job Redis Effects Queue Handler Recovery Retry Scale Config Pool Worker Api Bench.
Local Open Scope string_scope.
Local Open Scope list_scope.
Local Open Scope prog_scope.

(** ** Calls *)

Inductive act :=
| ParseDSN (dsn : string) | OpenPool (maxConns : Z) | PingPool | ClosePool
| MigrateSchema
| ParseURL (addr : string) | OpenClient (addr : string) (poolSize : option Z) | PingRedis | CloseClient
| CreateGroup (stream : string)
| ListenGRPC (addr : string) | ServeGRPC | StopGRPC
| StartLeader | JoinLeader
| ServeHTTP (addr : string)   (* the API *)
| ShutdownHTTP                (* an error: it timed out, and requests are left *)
| AwaitSignal                 (* until SIGINT or SIGTERM; or until a server fails *)
| StartControl (addr : string) | StartScaler (min max : Z)
| ServeMetrics (addr : string) | ShutdownMetrics
| RunWorker                   (* [Worker.Run] up to its last heartbeat; an error: it left jobs to the reaper *)
| StopSignals.

#[export] Instance act_eq_dec : EqDecision act.
Proof. solve_decision. Defined.

Inductive sys : Type -> Type := Try (a : act) : sys (option error).
Definition script := free sys.
Definition attempt (a : act) : script (option error) := Vis (Try a) Ret.
Definition run_act (a : act) : script unit := _ <- attempt a ;; Ret tt.

(** [defer]: at the end of what follows, however that ends. *)
Definition deferring {A} (a : act) (body : script A) : script A := x <- body ;; _ <- attempt a ;; Ret x.

(** [if err := ...; err != nil { return err' }]. *)
Definition must {A} (a : act) (fail : error -> script A) (next : script A) : script A :=
  e <- attempt a ;; match e with Some e => fail e | None => next end.

(** Which calls fail, and how. *)
Abbreviation faults := (act -> option error) (only parsing).
Fixpoint trace (fault : faults) {A} (p : script A) : list act * A :=
  match p with
  | Ret a => ([], a)
  | Vis c k =>
      match c in sys B return (B -> script A) -> list act * A with
      | Try a => fun k => let '(t, x) := trace fault (k (fault a)) in (a :: t, x)
      end k
  end.

(** ** The connections *)

(** [store.Open]. *)
Definition store_Open (dsn : string) (maxConns : Z) : script (option error) :=
  must (ParseDSN dsn) (fun e => Ret (Some (EWrap "store: parsing DSN: " e)))
  (must (OpenPool (int32 maxConns)) (fun e => Ret (Some (EWrap "store: connecting: " e)))
  (must PingPool (fun e => run_act ClosePool ;;; Ret (Some (EWrap "store: ping: " e)))
  (Ret None))).

(** [strings.Contains]. *)
Fixpoint contains (s sub : string) : bool :=
  String.prefix sub s || match s with EmptyString => false | String _ s' => contains s' sub end.

(** [queue.New], up to the names it defaults ([queue_New]). *)
Definition queue_Open (addr : string) (poolSize : Z) : script (option error) :=
  let open :=
    run_act (OpenClient addr (if (0 <? poolSize)%Z then Some poolSize else None)) ;;;
    must PingRedis (fun e => Ret (Some (EWrap "queue: ping: " e))) (Ret None) in
  if contains addr "://" then must (ParseURL addr) (fun e => Ret (Some (EWrap "queue: parsing redis URL: " e))) open
  else open.

(** [Queue.EnsureGroup]: a group that is there already is no error. *)
Definition busy (e : error) : bool := contains (Error e) "BUSYGROUP".
Fixpoint ensure_groups (q : queue) (ps : list Priority) : script (option error) :=
  match ps with
  | [] => Ret None
  | p :: ps' =>
      e <- attempt (CreateGroup (streamKey q p)) ;;
      match e with
      | Some e => if busy e then ensure_groups q ps'
                  else Ret (Some (EWrap ("queue: creating group on " +:+ streamKey q p +:+ ": ") e))
      | None => ensure_groups q ps'
      end
  end.
Definition EnsureGroup (q : queue) : script (option error) := ensure_groups q PriorityOrder.

(** A phase that may fail, and what follows when it does not. *)
Definition then_ {A} (phase : script (option error)) (fail : error -> script A) (next : script A) : script A :=
  e <- phase ;; match e with Some e => fail e | None => next end.

(** ** calligraphy-api *)

(** The parts [run] wires from the settings. *)
Definition leader_of (cfg : Config) (host : string) (pid : Z) : Leader :=
  {| ld_ReapMinIdle := ReapMinIdle cfg; ld_SweepGrace := SweepGrace cfg; ld_OrphanAge := OrphanAge cfg;
     ld_Backoff := {| base := RetryBase cfg; cap := RetryCap cfg |}; ld_ID := host +:+ "-" +:+ pretty pid |}.
Definition server_of (cfg : Config) (reg : Registry) : Server :=
  NewServer (APITokens cfg) (Types reg) (cfg_MaxPayloadBytes cfg) true.

(** The tail of [run], once the listeners and loops are up: either a server failed,
    or a signal came and the process drains. *)
Definition api_serve : script (option error) :=
  e <- attempt AwaitSignal ;;
  match e with
  | Some e => Ret (Some e)
  | None => run_act ShutdownHTTP ;;; run_act StopGRPC ;;; run_act JoinLeader ;;; Ret None
  end.

Definition api_run (load : Config * option error) : script (option error) :=
  match load with
  | (_, Some e) => Ret (Some e)
  | (cfg, None) =>
      let fail e := Ret (Some e) in
      deferring StopSignals
        (then_ (store_Open (DatabaseURL cfg) (DBMaxConns cfg)) fail
        (deferring ClosePool
          (must MigrateSchema fail
          (then_ (queue_Open (RedisAddr cfg) (RedisPoolSize cfg)) fail
          (deferring CloseClient
            (then_ (EnsureGroup (queue_of cfg)) fail
            (must (ListenGRPC (GRPCAddr cfg)) (fun e => fail (EWrap "grpc listen: " e))
            (run_act ServeGRPC ;;; run_act StartLeader ;;; run_act (ServeHTTP (HTTPAddr cfg)) ;;;
             api_serve))))))))
  end.

(** ** calligraphy-worker *)

(** [worker.New], as far as it opens and closes. *)
Definition worker_Open (cfg : Config) : script (option error) :=
  let fail e := Ret (Some e) in
  then_ (store_Open (DatabaseURL cfg) (DBMaxConns cfg)) fail
  (must MigrateSchema (fun e => run_act ClosePool ;;; fail e)
  (then_ (queue_Open (RedisAddr cfg) (RedisPoolSize cfg)) (fun e => run_act ClosePool ;;; fail e)
  (then_ (EnsureGroup (queue_of cfg)) (fun e => run_act ClosePool ;;; run_act CloseClient ;;; fail e)
  (Ret None)))).

Definition optionally (b : bool) (a : act) : script unit := if b then run_act a else Ret tt.

(** [Worker.Run] drains when the signal comes (or an operator's drain, which is
    the same to it), then closes the queue and the store. *)
Definition main_run (load : Config * option error) : script (option error) :=
  match load with
  | (_, Some e) => Ret (Some e)
  | (cfg, None) =>
      deferring StopSignals
        (then_ (worker_Open cfg) (fun e => Ret (Some e))
          (optionally (negb (bool_decide (ControlAddr cfg = EmptyString))) (StartControl (ControlAddr cfg)) ;;;
           optionally (AutoscaleEnabled cfg) (StartScaler (MinConcurrency cfg) (MaxConcurrency cfg)) ;;;
           run_act (ServeMetrics (MetricsAddr cfg)) ;;;
           run_act RunWorker ;;; run_act CloseClient ;;; run_act ClosePool ;;;
           run_act ShutdownMetrics ;;; Ret None))
  end.

(** ** Traces *)

Section traces.
Context (fault : faults).
Abbreviation T p := (trace fault p).

Lemma trace_bind {A B} (p : script A) (f : A -> script B) :
  T (free_bind p f) = ((T p).1 ++ (T (f (T p).2)).1, (T (f (T p).2)).2).
Proof.
  induction p as [a|B' c k IH]; simpl; [by destruct (T (f a))|]. destruct c as [a]. rewrite IH.
  by destruct (T (k (fault a))).
Qed.

Lemma trace_attempt a : T (attempt a) = ([a], fault a).
Proof. done. Qed.
Lemma trace_run_act a : T (run_act a) = ([a], tt).
Proof. done. Qed.
Lemma trace_deferring {A} a (p : script A) : T (deferring a p) = ((T p).1 ++ [a], (T p).2).
Proof. unfold deferring. by rewrite trace_bind. Qed.
Lemma trace_must {A} a (f : error -> script A) (n : script A) :
  T (must a f n) = let r := match fault a with Some e => T (f e) | None => T n end in (a :: r.1, r.2).
Proof. unfold must. rewrite trace_bind, trace_attempt. cbn. by destruct (fault a). Qed.
Lemma trace_then {A} ph (f : error -> script A) (n : script A) :
  T (then_ ph f n) = let r := match (T ph).2 with Some e => T (f e) | None => T n end in ((T ph).1 ++ r.1, r.2).
Proof. unfold then_. rewrite trace_bind. by destruct (T ph).2. Qed.
End traces.

(** ** What must hold along the way *)

(** What runs beside [run] and uses the connections: the leader's duties, the
    requests being served, the autoscaler, the jobs. (The control connections
    and the worker's metrics use neither.) *)
Inductive user := Leading | Requesting | Scaling | Working.
Definition uses (c : conn) (u : user) : bool := match u, c with Scaling, StoreConn => false | _, _ => true end.
#[export] Instance user_eq_dec : EqDecision user.
Proof. solve_decision. Defined.

(** What a process holds: an open pool, an open client, a migrated schema, the
    number of its groups; whether the signal has come; who may still use the
    connections; and who was using one when it was closed. *)
Record held := {
  h_pool : bool; h_client : bool; h_schema : bool; h_groups : nat;
  h_told : bool; h_users : list user; h_cut : list (user * conn)
}.
Definition nothing : held :=
  {| h_pool := false; h_client := false; h_schema := false; h_groups := 0; h_told := false; h_users := []; h_cut := [] |}.

Definition set_pool (b : bool) (h : held) : held :=
  {| h_pool := b; h_client := h_client h; h_schema := h_schema h; h_groups := h_groups h; h_told := h_told h;
     h_users := h_users h; h_cut := h_cut h |}.
Definition set_client (b : bool) (h : held) : held :=
  {| h_pool := h_pool h; h_client := b; h_schema := h_schema h; h_groups := h_groups h; h_told := h_told h;
     h_users := h_users h; h_cut := h_cut h |}.
Definition set_schema (b : bool) (h : held) : held :=
  {| h_pool := h_pool h; h_client := h_client h; h_schema := b; h_groups := h_groups h; h_told := h_told h;
     h_users := h_users h; h_cut := h_cut h |}.
Definition set_groups (n : nat) (h : held) : held :=
  {| h_pool := h_pool h; h_client := h_client h; h_schema := h_schema h; h_groups := n; h_told := h_told h;
     h_users := h_users h; h_cut := h_cut h |}.
Definition set_told (h : held) : held :=
  {| h_pool := h_pool h; h_client := h_client h; h_schema := h_schema h; h_groups := h_groups h; h_told := true;
     h_users := h_users h; h_cut := h_cut h |}.
Definition set_users (us : list user) (h : held) : held :=
  {| h_pool := h_pool h; h_client := h_client h; h_schema := h_schema h; h_groups := h_groups h; h_told := h_told h;
     h_users := us; h_cut := h_cut h |}.
(** A connection is closed under those that still use it. *)
Definition cut_off (c : conn) (h : held) : held :=
  {| h_pool := h_pool h; h_client := h_client h; h_schema := h_schema h; h_groups := h_groups h; h_told := h_told h;
     h_users := h_users h; h_cut := h_cut h ++ map (fun u => (u, c)) (List.filter (uses c) (h_users h)) |}.

Definition joins (u : user) (h : held) : held := set_users (h_users h ++ [u]) h.
Definition leaves (u : user) (h : held) : held :=
  set_users (List.filter (fun x => negb (bool_decide (x = u))) (h_users h)) h.

Definition ready (h : held) : bool := h_pool h && h_client h && h_schema h && Nat.eqb (h_groups h) (length PriorityOrder).
Definition ok_ (e : option error) : bool := if e is Some _ then false else true.

(** A call that is out of place has no next state: a connection used or closed that
    is not open, or opened again; jobs served or run, or duties done, before the
    schema and all the groups are there; the leader waited for before it is told
    to stop. *)
Definition use (fault : act -> option error) (h : held) (a : act) : option held :=
  let went := ok_ (fault a) in
  let need (b : bool) (h' : held) := if b then Some h' else None in
  match a with
  | OpenPool _ => need (negb (h_pool h)) (set_pool went h)
  | PingPool => need (h_pool h) h
  | MigrateSchema => need (h_pool h) (set_schema went h)
  | ClosePool => need (h_pool h) (set_pool false (cut_off StoreConn h))
  | OpenClient _ _ => need (negb (h_client h)) (set_client true h)
  | PingRedis => need (h_client h) h
  | CreateGroup _ => need (h_client h)
      (if went || (if fault a is Some e then busy e else false) then set_groups (S (h_groups h)) h else h)
  | CloseClient => need (h_client h) (set_client false (cut_off QueueConn h))
  | StartLeader => need (ready h) (joins Leading h)
  | JoinLeader => need (h_told h) (leaves Leading h)
  | ServeHTTP _ => need (ready h) (joins Requesting h)
  | ShutdownHTTP => Some (if went then leaves Requesting h else h)
  | AwaitSignal => Some (if went then set_told h else h)
  | StartScaler _ _ => need (ready h) (joins Scaling h)
  | RunWorker => need (ready h) (set_told (if went then h else joins Working h))
  | ServeGRPC | StartControl _ | ServeMetrics _ => need (ready h) h
  | _ => Some h
  end.
Fixpoint observe (fault : act -> option error) (h : held) (t : list act) : option held :=
  match t with
  | [] => Some h
  | a :: t' => match use fault h a with Some h' => observe fault h' t' | None => None end
  end.

(** What a server does before it serves. *)
Definition startup (cfg : Config) : list act :=
  [ParseDSN (DatabaseURL cfg); OpenPool (int32 (DBMaxConns cfg)); PingPool; MigrateSchema] ++
  (if contains (RedisAddr cfg) "://" then [ParseURL (RedisAddr cfg)] else []) ++
  [OpenClient (RedisAddr cfg) (if (0 <? RedisPoolSize cfg)%Z then Some (RedisPoolSize cfg) else None); PingRedis] ++
  map (fun p => CreateGroup (streamKey (queue_of cfg) p)) PriorityOrder.
Definition when (b : bool) (a : act) : list act := if b then [a] else [].

(** The process is through with what it opened - only a client that did not answer
    the first ping is left - and closed connections under these users. *)
Definition let_go (fault : act -> option error) (t : list act) (cut : list (user * conn)) : Prop :=
  exists h, observe fault nothing t = Some h /\ h_pool h = false /\
    (h_client h = true -> is_Some (fault PingRedis)) /\ h_cut h = cut.

Definition serves_http (t : list act) : bool := existsb (fun a => if a is ServeHTTP _ then true else false) t.
Definition runs_jobs (t : list act) : bool := existsb (fun a => if a is RunWorker then true else false) t.
Definition failed (e : option error) : bool := negb (ok_ e).

(** An API server closes its connections under the leader and the requests when
    a server failed, and under the requests that outlast the shutdown; a worker,
    under the jobs that ignored their cancellation, and its client under the
    autoscaler, which is told to stop and not waited for. *)
Definition api_cut (fault : act -> option error) : list (user * conn) :=
  if failed (fault AwaitSignal) then
    [(Leading, QueueConn); (Requesting, QueueConn); (Leading, StoreConn); (Requesting, StoreConn)]
  else if failed (fault ShutdownHTTP) then [(Requesting, QueueConn); (Requesting, StoreConn)] else [].
Definition worker_cut (cfg : Config) (fault : act -> option error) : list (user * conn) :=
  (if AutoscaleEnabled cfg then [(Scaling, QueueConn)] else []) ++
  (if failed (fault RunWorker) then [(Working, QueueConn); (Working, StoreConn)] else []).

(** Every call either way. *)
Ltac each_fault :=
  repeat (first
    [ match goal with H : ?f ?a = _ |- context [?f ?a] => rewrite H end
    | match goal with |- context [?f ?a] =>
        match type of f with act -> option error => destruct (f a) eqn:? end end
    | match goal with |- context [busy ?e] => destruct (busy e) eqn:? end ]; simpl).

(** The trace is worked out before what is said of it is looked at. *)
Ltac once_traced x :=
  match goal with x := ?t |- _ => let E := fresh in
    assert (E : t = x) by reflexivity; clearbody x; revert x E end.

Ltac through_calls :=
  unfold api_run, main_run, worker_Open, store_Open, queue_Open, EnsureGroup, api_serve, optionally,
    deferring, then_, must, run_act, attempt;
  simpl; each_fault.

Lemma observe_cons fault h a h' t : use fault h a = Some h' -> observe fault h (a :: t) = observe fault h' t.
Proof. simpl. by intros ->. Qed.

(** A run whose faults are known is followed call by call. *)
Ltac known :=
  repeat match goal with
    | H : ?f ?a = _ |- context [?f ?a] => match type of f with act -> option error => rewrite H end
    | H : busy ?e = _ |- context [busy ?e] => rewrite H
    end.
Ltac follow :=
  eexists; split; [repeat (erewrite observe_cons; [|cbn [use]; known; cbv; reflexivity]); reflexivity|];
  known; by split_and!.

Lemma api_lets_go fault load : let x := trace fault (api_run load) in
  let_go fault x.1 (if serves_http x.1 then api_cut fault else []).
Proof.
  intros x. once_traced x. destruct load as [cfg [e|]]; [intros x <-; by exists nothing|].
  destruct (contains (RedisAddr cfg) "://") eqn:Hc; through_calls; rewrite ?Hc; through_calls; intros x <-;
    unfold api_cut; simpl; each_fault; follow.
Qed.

Lemma worker_lets_go fault cfg e : let x := trace fault (main_run (cfg, e)) in
  let_go fault x.1 (if runs_jobs x.1 then worker_cut cfg fault else []).
Proof.
  intros x. once_traced x. destruct e as [e|]; [intros x <-; by exists nothing|].
  destruct (contains (RedisAddr cfg) "://") eqn:Hc; through_calls; rewrite ?Hc; through_calls;
  destruct (bool_decide (ControlAddr cfg = EmptyString)); destruct (AutoscaleEnabled cfg) eqn:Ha; intros x <-;
  unfold worker_cut; rewrite ?Ha; simpl; each_fault; follow.
Qed.

(** Serving comes last, and what follows it is known. *)
Definition api_stop (fault : act -> option error) : list act :=
  (if fault AwaitSignal is Some _ then [] else [ShutdownHTTP; StopGRPC; JoinLeader]) ++ [CloseClient; ClosePool; StopSignals].
Definition worker_stop : list act := [CloseClient; ClosePool; ShutdownMetrics; StopSignals].

Definition api_serving (cfg : Config) : list act :=
  [ListenGRPC (GRPCAddr cfg); ServeGRPC; StartLeader; ServeHTTP (HTTPAddr cfg); AwaitSignal].
Definition worker_serving (cfg : Config) : list act :=
  when (negb (bool_decide (ControlAddr cfg = EmptyString))) (StartControl (ControlAddr cfg)) ++
  when (AutoscaleEnabled cfg) (StartScaler (MinConcurrency cfg) (MaxConcurrency cfg)) ++
  [ServeMetrics (MetricsAddr cfg); RunWorker].

Lemma serves_http_spec t : (exists a, ServeHTTP a ∈ t) <-> serves_http t = true.
Proof.
  unfold serves_http. rewrite existsb_exists. setoid_rewrite <-list_elem_of_In. split.
  - intros [a Ha]. by exists (ServeHTTP a).
  - intros ([] & ? & ?); try done. eauto.
Qed.
Lemma runs_jobs_spec t : RunWorker ∈ t <-> runs_jobs t = true.
Proof.
  unfold runs_jobs. rewrite existsb_exists. setoid_rewrite <-list_elem_of_In. split; [by exists RunWorker|].
  intros ([] & ? & ?); done.
Qed.

Lemma api_served fault cfg : let x := trace fault (api_run (cfg, None)) in
  (serves_http x.1 = true -> x.1 = startup cfg ++ api_serving cfg ++ api_stop fault) /\
  (x.2 = None <-> serves_http x.1 = true /\ fault AwaitSignal = None).
Proof.
  intros x. once_traced x. unfold api_stop, startup.
  destruct (contains (RedisAddr cfg) "://") eqn:Hc; through_calls; rewrite ?Hc; through_calls;
    intros x <-; (split; [done|split; [done|by intros []]]).
Qed.

Lemma worker_served fault cfg : let x := trace fault (main_run (cfg, None)) in
  (runs_jobs x.1 = true -> x.1 = startup cfg ++ worker_serving cfg ++ worker_stop) /\
  (x.2 = None <-> runs_jobs x.1 = true).
Proof.
  intros x. once_traced x. unfold worker_stop, worker_serving, startup.
  destruct (contains (RedisAddr cfg) "://") eqn:Hc; through_calls; rewrite ?Hc; through_calls;
  destruct (bool_decide (ControlAddr cfg = EmptyString)), (AutoscaleEnabled cfg); intros x <-; simpl; done.
Qed.

(** [Worker.v] builds the worker from what these phases return, and holds the same
    connections. *)
Definition phase_of (fault : act -> option error) (p : script (option error)) : option error := (trace fault p).2.
Definition conns_of (h : held) : list conn :=
  (if h_client h then [QueueConn] else []) ++ (if h_pool h then [StoreConn] else []).

Lemma worker_Open_New fault cfg :
  let new := New cfg (phase_of fault (store_Open (DatabaseURL cfg) (DBMaxConns cfg))) (fault MigrateSchema)
    (phase_of fault (queue_Open (RedisAddr cfg) (RedisPoolSize cfg))) (phase_of fault (EnsureGroup (queue_of cfg))) in
  let x := trace fault (worker_Open cfg) in
  match x.2 with Some e => new.1 = Err e | None => new.1 = Ok (fresh cfg) end /\
  exists h, observe fault nothing x.1 = Some h /\ h_pool h = bool_decide (StoreConn ∈ new.2) /\
    (fault PingRedis = None -> h_client h = bool_decide (QueueConn ∈ new.2)).
Proof.
  intros new x. once_traced x. unfold new, phase_of, New. clear new.
  destruct (contains (RedisAddr cfg) "://") eqn:Hc; through_calls; rewrite ?Hc; through_calls; intros x <-; simpl; each_fault; (split; [done|eexists; split_and!; [done|done|by intros]]).
Qed.

(** C31. The servers start and stop in order, whatever fails.  Bad settings open
    nothing.  Otherwise [run] makes every call when it can: a connection is open
    when [run] uses it, the schema is migrated and all consumer groups are there
    before a request is served, a duty done or a job run - and in the end the pool
    is closed, once, and so is the client, unless it never answered its first
    ping.  Who else may be using a connection when it is closed is known exactly:
    in an API server that was told to stop, only requests that outlast the
    shutdown; in one whose server failed, the leader and the requests too; in a
    worker, the jobs that ignored their cancellation, and the autoscaler, which is
    not waited for.  A server that serves has gone through exactly the startup,
    and, as its calls return, goes through its whole shutdown: an API server that
    was told to stop lets the requests finish, then the streams, then the leader,
    and closes the connections last; a worker closes them when it has drained.
    The exit code is zero exactly after such an end. *)
Theorem servers_start_and_stop (fault : act -> option error) :
  (forall cfg e, trace fault (api_run (cfg, Some e)) = ([], Some e) /\ trace fault (main_run (cfg, Some e)) = ([], Some e)) /\
  (forall cfg e, let a := trace fault (api_run (cfg, e)) in let w := trace fault (main_run (cfg, e)) in
     let_go fault a.1 (if serves_http a.1 then api_cut fault else []) /\
     let_go fault w.1 (if runs_jobs w.1 then worker_cut cfg fault else [])) /\
  (forall cfg, let x := trace fault (api_run (cfg, None)) in
     (forall a, ServeHTTP a ∈ x.1 -> x.1 = startup cfg ++ api_serving cfg ++ api_stop fault) /\
     (x.2 = None <-> (exists a, ServeHTTP a ∈ x.1) /\ fault AwaitSignal = None)) /\
  (forall cfg, let x := trace fault (main_run (cfg, None)) in
     (RunWorker ∈ x.1 -> x.1 = startup cfg ++ worker_serving cfg ++ worker_stop) /\
     (x.2 = None <-> RunWorker ∈ x.1)).
Proof.
  split_and!; [done|intros cfg e a w; split; [apply api_lets_go|apply worker_lets_go]|..]; intros cfg x.
  - destruct (api_served fault cfg) as [H1 H2]. rewrite serves_http_spec. split; [|exact H2].
    intros a Ha. apply H1, serves_http_spec. by exists a.
  - destruct (worker_served fault cfg) as [H1 H2]. rewrite runs_jobs_spec. done.
Qed.

(** An API server whose listener fails closes the connections under a leader that
    still runs. *)
Example listener_failure cfg : contains (RedisAddr cfg) "://" = false ->
  let fault a := if bool_decide (a = AwaitSignal) then Some (EMsg "address already in use") else None in
  let x := trace fault (api_run (cfg, None)) in
  x.1 = startup cfg ++ api_serving cfg ++ [CloseClient; ClosePool; StopSignals] /\
  exists cut, let_go fault x.1 cut /\ (Leading, StoreConn) ∈ cut.
Proof.
  intros Hc fault x. assert (E : x.1 = startup cfg ++ api_serving cfg ++ [CloseClient; ClosePool; StopSignals]).
  { unfold x, startup. simpl. unfold queue_Open. rewrite Hc. through_calls. reflexivity. }
  split; [exact E|]. eexists. split; [apply (api_lets_go fault (cfg, None))|]. fold x. rewrite E.
  unfold startup. rewrite Hc. apply (bool_decide_unpack _). reflexivity.
Qed.
(** A client that fails its first ping is not closed. *)
Example ping_failure cfg : contains (RedisAddr cfg) "://" = false ->
  let fault a := if bool_decide (a = PingRedis) then Some (EMsg "connection refused") else None in
  CloseClient ∉ (trace fault (api_run (cfg, None))).1.
Proof. intros Hc. simpl. unfold queue_Open. rewrite Hc. through_calls. intros Hin%list_elem_of_In. simpl in Hin. intuition discriminate. Qed.
