(* ===== verification/Load.v ===== *)
(** * Load: the benchmark driver

    Models [cmd/calligraphy-bench/main.go]: the flags, the preflight, the
    submitters, the wait for the drain and the report.  The driver is a client:
    what the server answers, the clock, the operating system and the file system
    are arguments.  The submitters run interleaved.  A float64 is a
    [spec_float]; its text is an argument. *)

From Stdlib Require Import SpecFloat.
From stdpp Require Import relations.
From S2P Require Import Prelude Errors Json Decode Strconv Rfc3339 Encode Job Wire Requests Database Rows Rely Store Summary Config Callback Bench.
From S2P Require Import Routes Http Flags Ctl.
From S2P Require Analyzer.
Local Open Scope string_scope.
Local Open Scope list_scope.
Local Open Scope Z_scope.

(** ** Payloads *)

(** [%q] of a text whose bytes from 128 on are printable runes. *)
Definition hex2 (n : Z) : string := String (hex_digit (n / 16)) (String (hex_digit (n mod 16)) EmptyString).
Definition quoted_byte (c : ascii) : string :=
  if is_one_of [Json.dquote; "\"]%char c then String "\" (String c EmptyString)
  else if code c =? 7 then "\a" else if code c =? 8 then "\b" else if code c =? 9 then "\t"
  else if code c =? 10 then "\n" else if code c =? 11 then "\v" else if code c =? 12 then "\f"
  else if code c =? 13 then "\r"
  else if (code c <? 32) || (code c =? 127) then "\x" +:+ hex2 (code c)
  else String c EmptyString.
Fixpoint quoted (s : string) : string :=
  match s with EmptyString => EmptyString | String c s' => quoted_byte c +:+ quoted s' end.
Definition Quote (s : string) : string := in_quotes (quoted s).

(** The prose: sentence after sentence, a paragraph every four. *)
Definition sentences : list string :=
  ["Distributed systems fail in ways that single machines never see.";
   "A queue that cannot survive a crash is a list with ambitions.";
   "The database records what happened, and the stream moves what happens next.";
   "Backpressure is not a feature you add but a property you refuse to lose.";
   "Every retry policy is a bet about the shape of failure.";
   "Leases expire because workers cannot be trusted to say goodbye.";
   "A fencing token turns a race into a decision made exactly once.";
   "Idempotency is the tax that at-least-once delivery collects.";
   "Observability means the dashboard answers the question you did not think to ask.";
   "Throughput without a latency distribution is a marketing number."].
Definition paragraph_end : string := String newline (String newline EmptyString).
Definition piece (i : nat) : string :=
  nth (i mod 10) sentences EmptyString +:+ " " +:+ (if Nat.eqb (i mod 4) 3 then paragraph_end else EmptyString).
Fixpoint article_loop (fuel : nat) (n : Z) (i : nat) (b : string) : option string :=
  match fuel with
  | O => None
  | S fuel' => if slen b <? n then article_loop fuel' n (S i) (b +:+ piece i) else Some b
  end.
(** Each round adds a byte at least. *)
Definition syntheticArticle (n : Z) : string :=
  default EmptyString (article_loop (S (Z.to_nat n)) n 0 EmptyString).

Record flags := {
  f_api : string; f_token : string; f_name : string; f_out : string;
  f_jobs : Z; f_submitters : Z; f_jobType : string; f_sleepMs : Z; f_jitterMs : Z; f_cpuIters : Z;
  f_textBytes : Z; f_failRate : spec_float; f_permRate : spec_float; f_timeout : Duration;
  f_sha : string; f_note : string
}.

Section driver.
(** [%g], [strconv.ParseFloat], and [strconv.ParseInt] with the base read off the
    prefix. *)
Context (FormatG : spec_float -> string) (ParseFloat : string -> option spec_float) (ParseInt0 : string -> option Z).

Definition key (k : string) : string := in_quotes k +:+ ":".

Definition buildPayload (f : flags) : string :=
  if bool_decide (f_jobType f = "bench.sleep") then
    "{" +:+ key "ms" +:+ pretty (f_sleepMs f) +:+ "," +:+ key "jitterMs" +:+ pretty (f_jitterMs f) +:+ "}"
  else if bool_decide (f_jobType f = "bench.cpu") then "{" +:+ key "iterations" +:+ pretty (f_cpuIters f) +:+ "}"
  else if bool_decide (f_jobType f = "bench.flaky") then
    "{" +:+ key "failRate" +:+ FormatG (f_failRate f) +:+ "," +:+ key "permanentRate" +:+ FormatG (f_permRate f) +:+
    "," +:+ key "sleepMs" +:+ pretty (f_sleepMs f) +:+ "}"
  else if bool_decide (f_jobType f = "article.analysis") then
    "{" +:+ key "articleId" +:+ in_quotes "bench" +:+ "," +:+ key "text" +:+ Quote (syntheticArticle (f_textBytes f)) +:+ "}"
  else "{}".

(** The body every submitter sends. *)
Definition submit_body (f : flags) : string :=
  "{" +:+ key "type" +:+ Quote (f_jobType f) +:+ "," +:+ key "payload" +:+ buildPayload f +:+ "}".

(** ** Flags *)

(** [gitSHA()], given what [git rev-parse --short HEAD] printed. *)
Definition gitSHA (out : option string) : string :=
  match out with Some s => TrimSpace s | None => "unknown" end.

Definition default_flags (getenv : string -> string) (sha : string) : flags :=
  {| f_api := envOr getenv "CALLIGRAPHY_API_URL" "http://127.0.0.1:8080"; f_token := getenv "CALLIGRAPHY_API_TOKEN";
     f_name := "adhoc"; f_out := "bench/results"; f_jobs := 1000; f_submitters := 16; f_jobType := "bench.sleep";
     f_sleepMs := 50; f_jitterMs := 20; f_cpuIters := 200000; f_textBytes := 4096;
     f_failRate := Analyzer.ratio 5 100; f_permRate := Analyzer.ratio 1 100; f_timeout := 15 * Minute;
     f_sha := sha; f_note := EmptyString |}.

Definition bench_flags (name : string) : option (flags -> string -> option flags) :=
  let str (set : flags -> string -> flags) := Some (fun f v => Some (set f v)) in
  let int (set : flags -> Z -> flags) := Some (fun f v => set f <$> ParseInt0 v) in
  let float (set : flags -> spec_float -> flags) := Some (fun f v => set f <$> ParseFloat v) in
  if bool_decide (name = "api") then str (fun '(Build_flags a t n o j s ty sl ji cp te fr pr ti sh no) x =>
    Build_flags x t n o j s ty sl ji cp te fr pr ti sh no)
  else if bool_decide (name = "token") then str (fun '(Build_flags a t n o j s ty sl ji cp te fr pr ti sh no) x =>
    Build_flags a x n o j s ty sl ji cp te fr pr ti sh no)
  else if bool_decide (name = "name") then str (fun '(Build_flags a t n o j s ty sl ji cp te fr pr ti sh no) x =>
    Build_flags a t x o j s ty sl ji cp te fr pr ti sh no)
  else if bool_decide (name = "out") then str (fun '(Build_flags a t n o j s ty sl ji cp te fr pr ti sh no) x =>
    Build_flags a t n x j s ty sl ji cp te fr pr ti sh no)
  else if bool_decide (name = "jobs") then int (fun '(Build_flags a t n o j s ty sl ji cp te fr pr ti sh no) x =>
    Build_flags a t n o x s ty sl ji cp te fr pr ti sh no)
  else if bool_decide (name = "submitters") then int (fun '(Build_flags a t n o j s ty sl ji cp te fr pr ti sh no) x =>
    Build_flags a t n o j x ty sl ji cp te fr pr ti sh no)
  else if bool_decide (name = "type") then str (fun '(Build_flags a t n o j s ty sl ji cp te fr pr ti sh no) x =>
    Build_flags a t n o j s x sl ji cp te fr pr ti sh no)
  else if bool_decide (name = "sleep-ms") then int (fun '(Build_flags a t n o j s ty sl ji cp te fr pr ti sh no) x =>
    Build_flags a t n o j s ty x ji cp te fr pr ti sh no)
  else if bool_decide (name = "jitter-ms") then int (fun '(Build_flags a t n o j s ty sl ji cp te fr pr ti sh no) x =>
    Build_flags a t n o j s ty sl x cp te fr pr ti sh no)
  else if bool_decide (name = "cpu-iters") then int (fun '(Build_flags a t n o j s ty sl ji cp te fr pr ti sh no) x =>
    Build_flags a t n o j s ty sl ji x te fr pr ti sh no)
  else if bool_decide (name = "text-bytes") then int (fun '(Build_flags a t n o j s ty sl ji cp te fr pr ti sh no) x =>
    Build_flags a t n o j s ty sl ji cp x fr pr ti sh no)
  else if bool_decide (name = "fail-rate") then float (fun '(Build_flags a t n o j s ty sl ji cp te fr pr ti sh no) x =>
    Build_flags a t n o j s ty sl ji cp te x pr ti sh no)
  else if bool_decide (name = "perm-rate") then float (fun '(Build_flags a t n o j s ty sl ji cp te fr pr ti sh no) x =>
    Build_flags a t n o j s ty sl ji cp te fr x ti sh no)
  else if bool_decide (name = "timeout") then Some (fun '(Build_flags a t n o j s ty sl ji cp te fr pr ti sh no) v =>
    (fun x => Build_flags a t n o j s ty sl ji cp te fr pr x sh no) <$> ParseDuration v)
  else if bool_decide (name = "sha") then str (fun '(Build_flags a t n o j s ty sl ji cp te fr pr ti sh no) x =>
    Build_flags a t n o j s ty sl ji cp te fr pr ti x no)
  else if bool_decide (name = "note") then str (fun '(Build_flags a t n o j s ty sl ji cp te fr pr ti sh no) x =>
    Build_flags a t n o j s ty sl ji cp te fr pr ti sh x)
  else None.
End driver.

(** ** The client *)

Definition truncate (b : string) (n : Z) : string :=
  if slen b <=? n then b else stake (Z.to_nat n) b +:+ Encode.bytes [226; 128; 166]%Z.

Inductive client_error := Exchange (err : string) | Answered (method path : string) (status : Z) (body : string) | Undecodable.

(** [client.do] with and without [out], given what the exchange came to; the
    target is filled as [fs] says. *)
Definition bench_do (o : outgoing) (answer : result string (Z * string)) : result client_error string :=
  match answer with
  | Err e => Err (Exchange e)
  | Ok (status, body) =>
      let raw := stake (2 ^ 22) body in
      if 400 <=? status then Err (Answered (o_Method o) (o_Path o) status (truncate raw 200)) else Ok raw
  end.
Definition bench_get {A} (fs : fields A) (zero : A) (path : string) (answer : result string (Z * string)) : result client_error A :=
  match bench_do (get path) answer with
  | Err e => Err e
  | Ok raw => match unmarshal fs zero raw with Some x => Ok x | None => Err Undecodable end
  end.

(** A [map[string]int64]: a null is the zero, and the last of two equal keys stands. *)
Fixpoint count_members (ms : list (string * (string * value))) (m : gmap string Z) : option (gmap string Z) :=
  match ms with
  | [] => Some m
  | (k, (_, v)) :: ms' => n ← dec_int 0 v; count_members ms' (<[unquote k := n]> m)
  end.
Definition at_counts {A} (set : A -> gmap string Z -> A) (get : A -> gmap string Z) : A -> string -> value -> option A :=
  fun x _ v =>
    match v with
    | VObj ms => set x <$> count_members ms (get x)
    | VNull => Some (set x ∅)
    | _ => None
    end.

(** ** Preflight *)

Record depths := { dp_Ready : gmap string Z; dp_Delayed : gmap string Z; dp_InFlight : Z }.
Definition depth_fields : fields depths :=
  [("ready", at_counts (fun d x => Build_depths x (dp_Delayed d) (dp_InFlight d)) dp_Ready);
   ("delayed", at_counts (fun d x => Build_depths (dp_Ready d) x (dp_InFlight d)) dp_Delayed);
   ("inFlight", at_int (fun d x => Build_depths (dp_Ready d) (dp_Delayed d) x) dp_InFlight)].
Definition no_depths : depths := {| dp_Ready := ∅; dp_Delayed := ∅; dp_InFlight := 0 |}.

Definition total (m : gmap string Z) : Z := map_fold (fun _ v s => wrap64 (s + v)) 0 m.
Definition backlog (d : depths) : Z := map_fold (fun _ v s => wrap64 (s + v)) (total (dp_Ready d)) (dp_Delayed d).
(** A dirty room. *)
Definition dirty (d : depths) : bool := 0 <? wrap64 (backlog d + dp_InFlight d).

(** ** The submitters *)

(** How many each submits; a division by zero panics. *)
Definition shares (jobs submitters : Z) : option (list Z) :=
  if submitters =? 0 then None else
  let per := jobs ÷ submitters in
  let extra := Z.rem jobs submitters in
  Some (map (fun w => if Z.of_nat w <? extra then per + 1 else per) (seq 0 (Z.to_nat submitters))).

(** What is left for each goroutine, and the two counters. *)
Record submitting := { su_left : list Z; su_submitted : Z; su_errors : Z }.
Inductive submit_step : submitting -> submitting -> Prop :=
| submits s i n e (answer : result client_error string) :
    su_left s !! i = Some n -> 0 < n -> e = negb (is_Ok answer) ->
    submit_step s {| su_left := <[i := n - 1]> (su_left s);
                     su_submitted := if e then su_submitted s else su_submitted s + 1;
                     su_errors := if e then su_errors s + 1 else su_errors s |}.
Definition begun (ns : list Z) : submitting := {| su_left := ns; su_submitted := 0; su_errors := 0 |}.
(** [wg.Wait()] returns. *)
Definition all_done (s : submitting) : bool := forallb (fun n => n <=? 0) (su_left s).

(** ** The wait for the drain *)

Section wait.
Context (ParseFloat : string -> option spec_float).

Record pct := { p_P50 : spec_float; p_P95 : spec_float; p_P99 : spec_float }.
Record summary := {
  s_Counts : gmap string Z; s_RetriedJobs : Z; s_TotalAttempts : Z; s_E2ESeconds : pct; s_ExecSeconds : pct
}.
Definition at_float64 {A} (set : A -> spec_float -> A) : A -> string -> value -> option A :=
  fun x _ v => match v with VNum lit => set x <$> ParseFloat lit | VNull => Some x | _ => None end.
Definition pct_fields : fields pct :=
  [("p50", at_float64 (fun p x => Build_pct x (p_P95 p) (p_P99 p)));
   ("p95", at_float64 (fun p x => Build_pct (p_P50 p) x (p_P99 p)));
   ("p99", at_float64 (fun p x => Build_pct (p_P50 p) (p_P95 p) x))].
Definition summary_fields : fields summary :=
  [("counts", at_counts (fun s x => Build_summary x (s_RetriedJobs s) (s_TotalAttempts s) (s_E2ESeconds s) (s_ExecSeconds s)) s_Counts);
   ("retriedJobs", at_int (fun s x => Build_summary (s_Counts s) x (s_TotalAttempts s) (s_E2ESeconds s) (s_ExecSeconds s)) s_RetriedJobs);
   ("totalAttempts", at_int (fun s x => Build_summary (s_Counts s) (s_RetriedJobs s) x (s_E2ESeconds s) (s_ExecSeconds s)) s_TotalAttempts);
   ("e2eSeconds", fun s _ v => (fun x => Build_summary (s_Counts s) (s_RetriedJobs s) (s_TotalAttempts s) x (s_ExecSeconds s))
      <$> decode_struct pct_fields (s_E2ESeconds s) v);
   ("execSeconds", fun s _ v => (fun x => Build_summary (s_Counts s) (s_RetriedJobs s) (s_TotalAttempts s) (s_E2ESeconds s) x)
      <$> decode_struct pct_fields (s_ExecSeconds s) v)].
Definition no_pct : pct := {| p_P50 := Analyzer.fzero; p_P95 := Analyzer.fzero; p_P99 := Analyzer.fzero |}.
Definition no_summary : summary :=
  {| s_Counts := ∅; s_RetriedJobs := 0; s_TotalAttempts := 0; s_E2ESeconds := no_pct; s_ExecSeconds := no_pct |}.

Definition count (s : summary) (st : Status) : Z := default 0 (s_Counts s !! st).
Definition sum64 (l : list Z) : Z := foldl (fun a b => wrap64 (a + b)) 0 l.
Definition pending (s : summary) : Z := sum64 (map (count s) [StatusPending; StatusRunning; StatusRetrying]).
Definition terminal (s : summary) : Z :=
  sum64 (map (count s) [StatusCompleted; StatusFailed; StatusDeadLetter; StatusCancelled]).
Definition drained (submitted : Z) (s : summary) : bool := (submitted <=? terminal s) && (pending s =? 0).

(** One round: the clock when the deadline is checked, and the poll's exchange. *)
Record round := { rd_Now : Time; rd_Answer : result string (Z * string) }.
Definition poll_path (since : Time) : string := "/api/v1/stats/summary?since=" +:+ FormatRFC3339 since.
Inductive waiting := TimedOut (last : summary) | Drained (s : summary) | StillWaiting.
Fixpoint wait (since deadline : Time) (submitted : Z) (last : summary) (rounds : list round) : waiting :=
  match rounds with
  | [] => StillWaiting
  | r :: rounds' =>
      if deadline <? rd_Now r then TimedOut last
      else match bench_get summary_fields no_summary (poll_path since) (rd_Answer r) with
           | Err _ => wait since deadline submitted last rounds'
           | Ok cur => if drained submitted cur then Drained cur else wait since deadline submitted cur rounds'
           end
  end.
End wait.

(** ** The report *)

(** [d.Seconds()]. *)
Definition Seconds (d : Duration) : spec_float :=
  Analyzer.fadd (Analyzer.of_Z (d ÷ Second)) (Analyzer.fdiv (Analyzer.of_Z (Z.rem d Second)) (Analyzer.of_Z Second)).

Section report.
(** [int(f)] where the language leaves it to the machine. *)
Context (odd_int : spec_float -> Z).

Definition int_of (x : spec_float) : Z :=
  match x with
  | S754_zero _ => 0
  | S754_finite s m e =>
      let n := if 0 <=? e then Z.pos m * 2 ^ e else Z.pos m / 2 ^ (- e) in
      let z := if s then - n else n in
      if (- 2 ^ 63 <=? z) && (z <=? max_int64) then z else odd_int x
  | _ => odd_int x
  end.
Definition round_to (k : Z) (x : spec_float) : spec_float :=
  Analyzer.fdiv (Analyzer.of_Z (int_of (Analyzer.fmul x (Analyzer.of_Z k)))) (Analyzer.of_Z k).
Definition round2 : spec_float -> spec_float := round_to 100.
Definition round4 : spec_float -> spec_float := round_to 10000.

(** A worker of the answer of [/api/v1/workers]. *)
Record worker_seen := { ws_ID : string; ws_TargetConcurrency : Z; ws_State : string; ws_Processed : Z }.
Definition active (ws : list worker_seen) : list worker_seen := filter (fun w => ws_State w = "active") ws.

(** What [hostInfo] takes from the system, with the output of [uname -r] and the
    text of /proc/meminfo when there are any. *)
Record host_info := { hi_runtime : string * Z * string * string; hi_kernel : option string; hi_memTotal : option string }.
Definition mem_total (meminfo : string) : option string :=
  match filter (fun line => String.prefix "MemTotal:" line = true) (split_on newline meminfo) with
  | line :: _ => Some (TrimSpace (String.substring 9 (String.length line - 9) line))
  | [] => None
  end.
Definition hostInfo (rt : string * Z * string * string) (uname meminfo : option string) : host_info :=
  {| hi_runtime := rt; hi_kernel := TrimSpace <$> uname; hi_memTotal := meminfo ≫= mem_total |}.

Record verdict := {
  v_submitted : Z; v_completed : Z; v_failed : Z; v_deadLettered : Z; v_cancelled : Z;
  v_completionRate : spec_float; v_allTerminal : bool
}.
(** The decoded body of [/api/v1/meta] is copied as it is. *)
Record report := {
  r_name : string; r_timestamp : string; r_gitSHA : string; r_note : string;
  r_host : host_info; r_api : option value;
  r_jobs : Z; r_type : string; r_submitters : Z; r_payload : string;
  r_activeWorkers : Z; r_fleet : list (string * Z * Z);
  r_submit_durationSec : spec_float; r_submit_jobsPerSec : spec_float; r_submit_errors : Z;
  r_wallSec : spec_float; r_throughput : spec_float; r_summary : summary; r_verdict : verdict
}.

Definition verdict_of (submitted : Z) (s : summary) : verdict :=
  {| v_submitted := submitted; v_completed := count s StatusCompleted; v_failed := count s StatusFailed;
     v_deadLettered := count s StatusDeadLetter; v_cancelled := count s StatusCancelled;
     v_completionRate := round4 (Analyzer.ratio (count s StatusCompleted) submitted); v_allTerminal := true |}.

Definition report_of (FormatG : spec_float -> string) (f : flags) (now : Time) (submitDur wall : Duration)
    (counters : submitting) (s : summary) (host : host_info) (meta : option value) (ws : list worker_seen) : report :=
  let submitted := su_submitted counters in
  {| r_name := f_name f; r_timestamp := FormatRFC3339 now; r_gitSHA := f_sha f; r_note := f_note f;
     r_host := host; r_api := meta;
     r_jobs := f_jobs f; r_type := f_jobType f; r_submitters := f_submitters f; r_payload := buildPayload FormatG f;
     r_activeWorkers := Z.of_nat (length (active ws));
     r_fleet := map (fun w => (ws_ID w, ws_TargetConcurrency w, ws_Processed w)) (active ws);
     r_submit_durationSec := round2 (Seconds submitDur);
     r_submit_jobsPerSec := round2 (Analyzer.fdiv (Analyzer.of_Z submitted) (Seconds submitDur));
     r_submit_errors := su_errors counters;
     r_wallSec := round2 (Seconds wall);
     r_throughput := round2 (Analyzer.fdiv (Analyzer.of_Z (count s StatusCompleted)) (Seconds wall));
     r_summary := s; r_verdict := verdict_of submitted s |}.

(** ** The run *)

(** The times the driver reads, the exchanges it makes besides the submissions,
    what the system tells it, and the two calls of the file system. *)
Record surroundings := {
  e_depths : result string (Z * string); e_since : Time; e_submitStart : Time; e_submitEnd : Time;
  e_waitStart : Time; e_rounds : list round; e_drained : Time; e_meta : option value; e_workers : list worker_seen;
  e_now : Time; e_host : host_info; e_mkdir : option string; e_write : option string
}.
Inductive run_result :=
| PreflightFailed (e : client_error)
| DirtyRoom (ready inFlight : Z)
| WaitTimedOut (counts : gmap string Z)
| NotWritten (err : string)
| Written (r : report)
| Running.

(** After the preflight; [counters] is where the submitters ended. *)
Definition measure (FormatG : spec_float -> string) (ParseFloat : string -> option spec_float)
    (f : flags) (e : surroundings) (counters : submitting) : run_result :=
  match wait ParseFloat (e_since e - 2 * Second) (e_waitStart e + f_timeout f) (su_submitted counters) no_summary (e_rounds e) with
  | StillWaiting => Running
  | TimedOut last => WaitTimedOut (s_Counts last)
  | Drained s =>
      match e_mkdir e, e_write e with
      | Some err, _ | _, Some err => NotWritten err
      | None, None =>
          Written (report_of FormatG f (e_now e) (e_submitEnd e - e_submitStart e) (e_drained e - e_submitStart e)
            counters s (e_host e) (e_meta e) (e_workers e))
      end
  end.

(** [run]: a relation, for the submitters interleave. *)
Inductive bench_run (FormatG : spec_float -> string) (ParseFloat : string -> option spec_float)
    (f : flags) (e : surroundings) : run_result -> Prop :=
| run_preflight err :
    bench_get depth_fields no_depths "/api/v1/queues/depths" (e_depths e) = Err err ->
    bench_run FormatG ParseFloat f e (PreflightFailed err)
| run_dirty d :
    bench_get depth_fields no_depths "/api/v1/queues/depths" (e_depths e) = Ok d -> dirty d = true ->
    bench_run FormatG ParseFloat f e (DirtyRoom (backlog d) (dp_InFlight d))
| run_measure d ns counters :
    bench_get depth_fields no_depths "/api/v1/queues/depths" (e_depths e) = Ok d -> dirty d = false ->
    shares (f_jobs f) (f_submitters f) = Some ns ->
    rtc submit_step (begun ns) counters -> all_done counters = true ->
    bench_run FormatG ParseFloat f e (measure FormatG ParseFloat f e counters).
End report.

(** ** Texts *)

(** Prose: printable bytes but the quote and the backslash, and newlines. *)
Definition printable (c : ascii) : bool := plain_byte c && negb (code c =? 127).
Definition prose_byte (c : ascii) : bool := printable c || Ascii.eqb c newline.
Definition prose (s : string) : bool := forallb prose_byte (list_ascii_of_string s).

Lemma prose_cons c s : prose (String c s) = prose_byte c && prose s.
Proof. done. Qed.
Lemma prose_app a b : prose (a +:+ b) = prose a && prose b.
Proof. induction a as [|c a IH]; [done|]. by rewrite sapp_cons, !prose_cons, IH, andb_assoc. Qed.

Lemma quoted_byte_prose c : prose_byte c = true ->
  (printable c = true /\ quoted_byte c = String c EmptyString) \/ (c = newline /\ quoted_byte c = "\n").
Proof.
  unfold prose_byte. intros [Hc|Hc%Ascii.eqb_eq]%orb_true_iff; [left|right; by subst]. split; [done|].
  revert Hc. all_bytes c; discriminate.
Qed.

Lemma str_body_quoted s r : prose s = true -> str_body (quoted s +:+ String Json.dquote r) = Some (quoted s, r).
Proof.
  induction s as [|c s IH]; [done|]. rewrite prose_cons. intros [Hc Hs]%andb_true_iff. cbn [quoted].
  specialize (IH Hs). destruct (quoted_byte_prose c Hc) as [[Hp ->]|[-> ->]].
  - rewrite sapp_char, sapp_cons.
    assert (E : forall x, str_body (String c x) = prepend (String c EmptyString) (str_body x)).
    { intros x. revert Hp. all_bytes c; discriminate. }
    by rewrite E, IH.
  - rewrite sapp_assoc. change (str_body ("\n" +:+ ?x)) with (prepend "\n" (str_body x)). by rewrite IH.
Qed.

Lemma quoted_ok s : prose s = true -> str_ok (quoted s) = true.
Proof. intros Hs. by apply bool_decide_eq_true, str_body_quoted. Qed.

(** What the driver quotes the way Go does, a JSON reader unquotes. *)
Lemma unquote_quoted s : prose s = true -> unquote (quoted s) = s.
Proof.
  unfold unquote. induction s as [|c s IH]; [done|]. rewrite prose_cons. intros [Hc Hs]%andb_true_iff. cbn [quoted].
  specialize (IH Hs). destruct (quoted_byte_prose c Hc) as [[Hp ->]|[-> ->]].
  - rewrite sapp_char. transitivity (String c (unescape 0 (quoted s))); [|by rewrite IH].
    revert Hp. all_bytes c; discriminate.
  - change (unescape 0 ("\n" +:+ ?x)) with (String newline (unescape 0 x)). by rewrite IH.
Qed.

(** The article is prose, at least as long as asked, and no longer than that by a
    sentence. *)
Lemma piece_bounds i : 1 <= slen (piece i) <= 83 /\ prose (piece i) = true.
Proof.
  assert (Hs : forall j, (j < 10)%nat -> 0 <= slen (nth j sentences EmptyString) <= 80 /\ prose (nth j sentences EmptyString) = true).
  { intros j Hj. do 10 (destruct j as [|j]; [split; [vm_compute; split; discriminate|reflexivity]|]). lia. }
  destruct (Hs (i mod 10)%nat) as [Hl Hp]; [apply Nat.mod_upper_bound; lia|]. unfold piece.
  rewrite !prose_app, Hp. unfold slen in *. rewrite !length_sapp.
  assert (Hn : String.length paragraph_end = 2%nat) by done.
  destruct (Nat.eqb _ 3); cbn [String.length]; rewrite ?Hn; split; (lia || done).
Qed.

Lemma article_loop_spec n : forall fuel i b,
  1 + Z.max 0 (n - slen b) <= Z.of_nat fuel -> prose b = true -> slen b <= Z.max 0 (n + 82) ->
  exists a, article_loop fuel n i b = Some a /\ n <= slen a <= Z.max 0 (n + 82) /\ prose a = true.
Proof.
  induction fuel as [|fuel IH]; intros i b Hf Hb Hl; [lia|]. cbn [article_loop].
  destruct (Z.ltb_spec (slen b) n); [|by exists b]. destruct (piece_bounds i) as [Hp1 Hp2].
  assert (Hlen : slen (b +:+ piece i) = slen b + slen (piece i)) by (unfold slen; rewrite length_sapp; lia).
  apply IH; [lia|by rewrite prose_app, Hb|lia].
Qed.

Lemma syntheticArticle_spec n :
  article_loop (S (Z.to_nat n)) n 0 EmptyString = Some (syntheticArticle n) /\
  n <= slen (syntheticArticle n) <= Z.max 0 (n + 82) /\ prose (syntheticArticle n) = true.
Proof.
  destruct (article_loop_spec n (S (Z.to_nat n)) 0 EmptyString) as (a & Ha & Hl & Hp); [unfold slen; simpl; lia|done|unfold slen; simpl; lia|].
  unfold syntheticArticle. rewrite Ha. done.
Qed.

(** ** Submissions arrive *)

Section arrival.
Context `{GoText} (FormatG : spec_float -> string).

(** The payload as a document. *)
Definition payload_members (f : flags) : list (string * (string * value)) :=
  if bool_decide (f_jobType f = "bench.sleep") then
    [member "ms" (VNum (pretty (f_sleepMs f))); member "jitterMs" (VNum (pretty (f_jitterMs f)))]
  else if bool_decide (f_jobType f = "bench.cpu") then [member "iterations" (VNum (pretty (f_cpuIters f)))]
  else if bool_decide (f_jobType f = "bench.flaky") then
    [member "failRate" (VNum (FormatG (f_failRate f))); member "permanentRate" (VNum (FormatG (f_permRate f)));
     member "sleepMs" (VNum (pretty (f_sleepMs f)))]
  else if bool_decide (f_jobType f = "article.analysis") then
    [member "articleId" (VStr "bench"); member "text" (VStr (quoted (syntheticArticle (f_textBytes f))))]
  else [].

(** The rates print as JSON numbers: neither infinite nor NaN. *)
Definition rates_print (f : flags) : bool := number_ok (FormatG (f_failRate f)) && number_ok (FormatG (f_permRate f)).

Lemma payload_text f : buildPayload FormatG f = render (VObj (payload_members f)).
Proof.
  unfold buildPayload, payload_members, key. repeat case_bool_decide; try done;
    cbn [render map fst snd member enclosed String.concat]; unfold enclosed; cbn [String.concat];
    unfold Quote; by rewrite ?sapp_assoc, ?sapp_cons.
Qed.

Lemma payload_wf f levels : 0 < levels -> rates_print f = true -> wf levels (VObj (payload_members f)) = true.
Proof.
  intros Hl [Hr1 Hr2]%andb_true_iff. cbn [wf]. rewrite (proj2 (Z.ltb_lt _ _) Hl). cbn [andb].
  unfold payload_members. repeat case_bool_decide; cbn [forallb member fst snd wf];
    rewrite ?(proj1 (pretty_number _)), ?Hr1, ?Hr2, ?quoted_ok by apply syntheticArticle_spec; reflexivity.
Qed.

Lemma body_text f : submit_body FormatG f =
  render (VObj [member "type" (VStr (quoted (f_jobType f))); member "payload" (VObj (payload_members f))]).
Proof.
  unfold submit_body, key. rewrite payload_text. remember (VObj (payload_members f)) as v.
  cbn [render map fst snd member]. unfold enclosed. cbn [String.concat]. unfold Quote. by rewrite ?sapp_assoc, ?sapp_cons.
Qed.

Definition submission (f : flags) : submitRequest :=
  {| sr_Type := f_jobType f; sr_Payload := buildPayload FormatG f; sr_Queue := EmptyString; sr_Priority := EmptyString;
     sr_MaxAttempts := 0; sr_IdempotencyKey := EmptyString; sr_DelaySeconds := 0; sr_ScheduledAt := zero_time |}.

Lemma submission_arrives limit f :
  prose (f_jobType f) = true -> rates_print f = true -> slen (submit_body FormatG f) <= limit ->
  decode_submit limit (submit_body FormatG f) = Decoded (submission f).
Proof.
  intros Ht Hr Hl. rewrite body_text in *. rewrite <-(sapp_nil_r (render _)). unfold decode_submit.
  pose proof (payload_wf f (maxNestingDepth - 1) eq_refl Hr) as Hw. pose proof (payload_text f) as Hp.
  remember (VObj (payload_members f)) as v.
  rewrite decode_body_object; [|by cbn [wf forallb member fst snd]; rewrite quoted_ok, Hw|exact Hl].
  cbn [printed map member fst snd decode_struct].
  rewrite (decode_member _ _ (at_string set_sr_Type sr_Type)) by done.
  unfold at_string at 1. cbn [dec_string fmap option_fmap option_map mbind option_bind].
  rewrite (decode_member _ _ (at_raw set_sr_Payload)) by done. unfold at_raw at 1. cbn [mbind option_bind decode_members].
  rewrite unquote_quoted by done. unfold submission. by rewrite Hp.
Qed.

(** The payload as the handlers of [Bench.v] read it. *)
Lemma unmarshal_payload {A} (fs : fields A) (zero : A) f : rates_print f = true ->
  unmarshal fs zero (buildPayload FormatG f) = decode_struct fs zero (printed (VObj (payload_members f))).
Proof.
  intros Hr. rewrite payload_text. unfold unmarshal, parse. by rewrite parse_within_render by by apply payload_wf.
Qed.

Lemma sleep_read bad f : f_jobType f = TypeSleep -> rates_print f = true ->
  int_range (f_sleepMs f) = true -> int_range (f_jitterMs f) = true ->
  read_sleep bad (buildPayload FormatG f) = Ok {| sp_Ms := f_sleepMs f; sp_JitterMs := f_jitterMs f |}.
Proof.
  intros Hty Hr Hs Hj. unfold read_sleep, read_payload. rewrite unmarshal_payload by done.
  unfold payload_members. rewrite Hty. rewrite bool_decide_true by done.
  unfold int_range in *. reflect_bools. cbn [printed map member fst snd decode_struct].
  rewrite (decode_member _ _ (at_int (fun p x => {| sp_Ms := x; sp_JitterMs := sp_JitterMs p |}) sp_Ms)) by done.
  unfold at_int at 1. cbn [dec_int render]. rewrite Atoi_pretty by done. cbn [fmap option_fmap option_map mbind option_bind].
  rewrite (decode_member _ _ (at_int (fun p x => {| sp_Ms := sp_Ms p; sp_JitterMs := x |}) sp_JitterMs)) by done.
  unfold at_int at 1. cbn [dec_int render]. by rewrite Atoi_pretty by done.
Qed.

Lemma cpu_read bad f : f_jobType f = TypeCPU -> rates_print f = true -> int_range (f_cpuIters f) = true ->
  read_cpu bad (buildPayload FormatG f) = Ok (f_cpuIters f).
Proof.
  intros Hty Hr Hs. unfold read_cpu, read_payload. rewrite unmarshal_payload by done.
  unfold payload_members. rewrite Hty. rewrite bool_decide_false, bool_decide_true by done.
  unfold int_range in *. reflect_bools. cbn [printed map member fst snd decode_struct].
  rewrite (decode_member _ _ (at_int (fun _ x => x) (fun x => x))) by done.
  unfold at_int at 1. cbn [dec_int render]. by rewrite Atoi_pretty by done.
Qed.

Lemma article_read bad f : f_jobType f = "article.analysis" -> rates_print f = true ->
  Analyzer.read_analysis bad (buildPayload FormatG f) =
    Ok {| Analyzer.ap_ArticleID := "bench"; Analyzer.ap_Text := Analyzer.runes_of (syntheticArticle (f_textBytes f));
          Analyzer.ap_TopKeywords := 0; Analyzer.ap_SummarySentences := 0 |}.
Proof.
  intros Hty Hr. unfold Analyzer.read_analysis. rewrite unmarshal_payload by done.
  unfold payload_members. rewrite Hty. rewrite !bool_decide_false, bool_decide_true by done.
  destruct (syntheticArticle_spec (f_textBytes f)) as (_ & _ & Hp).
  cbn [printed map member fst snd decode_struct decode_members]. unfold Analyzer.analysis_fields, field_named.
  simpl. by rewrite unquote_quoted.
Qed.
End arrival.

(** ** The submitters *)

Definition sum (l : list Z) : Z := foldr Z.add 0 l.

Lemma sum_insert l i n x : l !! i = Some n -> sum (<[i := x]> l) = sum l - n + x.
Proof.
  revert i. induction l as [|y l IH]; intros [|i]; simpl; intros H; simplify_eq; [lia|]. rewrite (IH i) by done. lia.
Qed.

(** [extra] of the first ones get one more. *)
Lemma sum_shares per extra n : forall i, 0 <= extra ->
  sum (map (fun w => if Z.of_nat w <? extra then per + 1 else per) (seq i n)) =
    Z.of_nat n * per + Z.max 0 (Z.min (extra - Z.of_nat i) (Z.of_nat n)).
Proof.
  induction n as [|n IH]; intros i He; [simpl; lia|]. cbn [seq map sum foldr]. fold (sum (map (fun w => if Z.of_nat w <? extra then per + 1 else per) (seq (S i) n))).
  rewrite IH by done. destruct (Z.ltb_spec (Z.of_nat i) extra); lia.
Qed.

(** The jobs are split evenly and none is lost. *)
Lemma shares_spec jobs submitters : 0 <= jobs -> 0 < submitters ->
  exists ns, shares jobs submitters = Some ns /\ Z.of_nat (length ns) = submitters /\ sum ns = jobs /\
    Forall (fun n => jobs / submitters <= n <= jobs / submitters + 1) ns.
Proof.
  intros Hj Hs. unfold shares. rewrite (proj2 (Z.eqb_neq _ _)) by lia. eexists. split; [done|].
  rewrite length_map, length_seq, Z2Nat.id by lia. split; [done|].
  rewrite Z.quot_div_nonneg, Z.rem_mod_nonneg by lia. pose proof (Z.mod_pos_bound jobs submitters Hs).
  pose proof (Z.div_mod jobs submitters ltac:(lia)). split.
  - rewrite sum_shares by lia. rewrite Z2Nat.id by lia. lia.
  - apply Forall_forall. intros n (w & <- & _)%list_elem_of_In%in_map_iff. destruct (_ <? _); lia.
Qed.

(** Interleaved or not: what was counted and what is left make up the whole, each
    step sends one job, and as long as one goroutine has work there is a step. *)
Definition submit_inv (n : Z) (s : submitting) : Prop :=
  Forall (fun x => 0 <= x) (su_left s) /\ 0 <= su_submitted s /\ 0 <= su_errors s /\
  su_submitted s + su_errors s + sum (su_left s) = n.

Lemma sum_nonneg l : Forall (fun x => 0 <= x) l -> 0 <= sum l.
Proof. induction 1; simpl; lia. Qed.

Lemma submit_step_inv n s s' : submit_step s s' -> submit_inv n s ->
  submit_inv n s' /\ sum (su_left s') = sum (su_left s) - 1.
Proof.
  intros [s0 i k e ans Hi Hk He] (Hf & H1 & H2 & H3). cbn. rewrite (sum_insert _ _ k) by done. split; [|lia].
  split_and!; cbn; [|destruct e; lia..|rewrite (sum_insert _ _ k) by done; destruct e; lia].
  apply Forall_insert; [done|lia].
Qed.

Lemma submit_reaches_inv n s s' : rtc submit_step s s' -> submit_inv n s -> submit_inv n s'.
Proof. induction 1 as [|s1 s2 s3 Hs Hr IH]; [done|]. intros Hi. apply IH. by eapply submit_step_inv. Qed.

Lemma begun_inv ns : Forall (fun x => 0 <= x) ns -> submit_inv (sum ns) (begun ns).
Proof. intros Hn. split_and!; simpl; try done; lia. Qed.

Lemma all_done_sum s : Forall (fun x => 0 <= x) (su_left s) -> all_done s = true -> sum (su_left s) = 0.
Proof.
  unfold all_done. induction 1 as [|x l Hx Hl IH]; [done|]. simpl. intros [Hz%Z.leb_le Hr]%andb_true_iff.
  rewrite IH by done. lia.
Qed.

Lemma submit_progress s : all_done s = false -> exists s', submit_step s s'.
Proof.
  unfold all_done. intros Hd. assert (Hx : exists i n, su_left s !! i = Some n /\ 0 < n).
  { revert Hd. generalize (su_left s) as l. induction l as [|x l IH]; [done|]. simpl.
    destruct (Z.leb_spec x 0); [intros (i & n & ? & ?)%IH; by exists (S i), n|intros _; by exists 0%nat, x]. }
  destruct Hx as (i & n & Hi & Hn). eexists. by apply (submits s i n false (Ok EmptyString)).
Qed.

(** ** The wait *)

Section waiting.
Context (ParseFloat : string -> option spec_float) (since deadline : Time) (submitted : Z).
Abbreviation poll r := (bench_get (summary_fields ParseFloat) no_summary (poll_path since) (rd_Answer r)).

Lemma wait_drained rounds : forall last s, wait ParseFloat since deadline submitted last rounds = Drained s ->
  drained submitted s = true /\ exists r, r ∈ rounds /\ poll r = Ok s /\ rd_Now r <= deadline.
Proof.
  induction rounds as [|r rounds IH]; intros last s; [done|]. cbn [wait]. destruct (Z.ltb_spec deadline (rd_Now r)); [done|].
  assert (Hin : forall last, wait ParseFloat since deadline submitted last rounds = Drained s ->
    drained submitted s = true /\ exists r', r' ∈ r :: rounds /\ poll r' = Ok s /\ rd_Now r' <= deadline).
  { intros l (Hd & r' & ? & ?)%IH. split; [done|]. exists r'. split; [by right|done]. }
  destruct (poll r) as [cur|e] eqn:Ep; [|apply Hin]. destruct (drained submitted cur) eqn:Ed; [|apply Hin].
  intros [= <-]. split; [done|]. exists r. split_and!; [by left|done|done].
Qed.

(** Rounds sleep a quarter of a second each, so a bounded number of them ends the
    wait one way or the other. *)
Fixpoint spaced (start : Time) (rounds : list round) : Prop :=
  match rounds with
  | [] => True
  | r :: rounds' => start <= rd_Now r /\ spaced (rd_Now r + 250 * Millisecond) rounds'
  end.

Lemma wait_ends rounds : forall start last, spaced start rounds -> rounds <> [] ->
  deadline - start < 250 * Millisecond * (Z.of_nat (length rounds) - 1) ->
  wait ParseFloat since deadline submitted last rounds <> StillWaiting.
Proof.
  unfold Millisecond. induction rounds as [|r rounds IH]; intros start last Hs Hne Hl; [done|]. cbn [wait spaced length] in *.
  destruct Hs as [Hr Hs]. destruct (Z.ltb_spec deadline (rd_Now r)); [done|].
  assert (Hn : forall l, wait ParseFloat since deadline submitted l rounds <> StillWaiting).
  { intros l. apply (IH (rd_Now r + 250 * Millisecond)); [done| |unfold Millisecond; lia]. intros ->. simpl in Hl. lia. }
  destruct (poll r) as [cur|e]; [|apply Hn]. destruct (drained submitted cur); [done|apply Hn].
Qed.
End waiting.

(** ** What a summary says *)

(** The counts of the answer are those of these rows. *)
Definition shows (s : summary) (rs : list JobRow) : Prop := forall st, count s st = count_status st rs.

Lemma sum64_exact l : Forall (fun n => 0 <= n) l -> sum l <= max_int64 -> sum64 l = sum l.
Proof.
  intros Hl. enough (Hg : forall l acc, Forall (fun n => 0 <= n) l -> 0 <= acc -> acc + sum l <= max_int64 ->
    foldl (fun a b => wrap64 (a + b)) acc l = acc + sum l) by (intros; unfold sum64; by rewrite Hg).
  clear. unfold max_int64. induction l as [|x l IH]; intros acc Hl Ha Hs; cbn [foldl sum foldr] in *; [lia|].
  apply Forall_cons in Hl as [Hx Hl]. fold (sum l) in *. pose proof (sum_nonneg l Hl).
  rewrite wrap64_id by lia. rewrite IH by (done || lia). lia.
Qed.

Lemma count_status_nonneg st rs : 0 <= count_status st rs.
Proof. unfold count_status. lia. Qed.

Lemma shows_totals s rs : shows s rs -> Forall (fun r => r_status r ∈ Statuses) rs ->
  Z.of_nat (length rs) <= max_int64 ->
  0 <= pending s /\ terminal s = Z.of_nat (length rs) - pending s /\
  terminal s = count s StatusCompleted + count s StatusFailed + count s StatusDeadLetter + count s StatusCancelled /\
  (pending s = 0 -> Forall (fun r => Terminal (r_status r) = true) rs).
Proof.
  intros Hs Hst Hl. rewrite Forall_forall in Hst.
  pose proof (counts_add_up rs Statuses ltac:(apply (bool_decide_unpack _); by vm_compute) Hst) as Hsum.
  assert (Hn : forall st, 0 <= count s st) by (intros st; rewrite Hs; apply count_status_nonneg).
  unfold Statuses in Hsum. cbn [map foldr] in Hsum. rewrite <-!Hs in Hsum.
  assert (Hp : pending s = count s StatusPending + count s StatusRunning + count s StatusRetrying).
  { unfold pending. rewrite sum64_exact; cbn [map sum foldr]; [lia|by repeat constructor|].
    pose proof (Hn StatusCompleted). pose proof (Hn StatusFailed). pose proof (Hn StatusDeadLetter). pose proof (Hn StatusCancelled). lia. }
  assert (Ht : terminal s = count s StatusCompleted + count s StatusFailed + count s StatusDeadLetter + count s StatusCancelled).
  { unfold terminal. rewrite sum64_exact; cbn [map sum foldr]; [lia|by repeat constructor|].
    pose proof (Hn StatusPending). pose proof (Hn StatusRunning). pose proof (Hn StatusRetrying). lia. }
  pose proof (Hn StatusPending). pose proof (Hn StatusRunning). pose proof (Hn StatusRetrying).
  split_and!; [lia|lia|done|]. intros Hz. apply Forall_forall. intros r Hr.
  assert (Hno : forall st, count s st = 0 -> r_status r <> st).
  { intros st Hc Heq. rewrite Hs in Hc. unfold count_status in Hc.
    assert (Hin : r ∈ filter (fun r => r_status r = st) rs) by (by apply list_elem_of_filter).
    destruct (filter _ rs); [by apply elem_of_nil in Hin|simpl in Hc; lia]. }
  specialize (Hst r Hr). unfold Statuses in Hst.
  repeat (apply elem_of_cons in Hst as [Hst|Hst]; [first [by rewrite Hst|exfalso; eapply Hno; [|exact Hst]; lia]|]).
  by apply elem_of_nil in Hst.
Qed.

(** ** The report *)

Section honesty.
Context (odd_int : spec_float -> Z) (FormatG : spec_float -> string) (ParseFloat : string -> option spec_float).

Lemma report_fields f now sd wd counters s host meta ws :
  let r := report_of odd_int FormatG f now sd wd counters s host meta ws in
  v_submitted (r_verdict r) = su_submitted counters /\ r_submit_errors r = su_errors counters /\ r_summary r = s /\
  v_completed (r_verdict r) + v_failed (r_verdict r) + v_deadLettered (r_verdict r) + v_cancelled (r_verdict r) =
    count s StatusCompleted + count s StatusFailed + count s StatusDeadLetter + count s StatusCancelled.
Proof. by split_and!. Qed.

(** C28. A report means what it says.  The driver writes one only after it found the
    queue empty, sent every job it was asked for - interleaved as the submitters
    may be, each answer is counted as a submission or as an error, once - and had
    a summary, before its deadline, without a pending, running or retrying job and
    with at least as many terminal ones as were submitted.  If that summary shows
    the rows of the database created in its window, then all of these jobs are
    terminal, as the report claims, and its four counts add up to them.  And the
    wait comes to an end: rounds a quarter of a second apart outlast the
    timeout. *)
Theorem report_honest (f : flags) (e : surroundings) :
  0 <= f_jobs f -> 0 < f_submitters f ->
  (forall r, bench_run odd_int FormatG ParseFloat f e (Written r) ->
    (exists d, bench_get depth_fields no_depths "/api/v1/queues/depths" (e_depths e) = Ok d /\ dirty d = false) /\
    v_submitted (r_verdict r) + r_submit_errors r = f_jobs f /\
    (exists rd, rd ∈ e_rounds e /\ rd_Now rd <= e_waitStart e + f_timeout f /\
       bench_get (summary_fields ParseFloat) no_summary (poll_path (e_since e - 2 * Second)) (rd_Answer rd) = Ok (r_summary r)) /\
    pending (r_summary r) = 0 /\ v_submitted (r_verdict r) <= terminal (r_summary r) /\
    (forall db since, db_wf db -> Z.of_nat (length (select_rows (created_since since) db)) <= max_int64 ->
       shows (r_summary r) (select_rows (created_since since) db) ->
       Forall (fun row => Terminal (r_status row) = true) (select_rows (created_since since) db) /\
       v_completed (r_verdict r) + v_failed (r_verdict r) + v_deadLettered (r_verdict r) + v_cancelled (r_verdict r) =
         Z.of_nat (length (select_rows (created_since since) db)))) /\
  (forall start counters, spaced start (e_rounds e) -> e_rounds e <> [] ->
     e_waitStart e + f_timeout f - start < 250 * Millisecond * (Z.of_nat (length (e_rounds e)) - 1) ->
     measure odd_int FormatG ParseFloat f e counters <> Running).
Proof.
  intros Hj Hs. destruct (shares_spec (f_jobs f) (f_submitters f) Hj Hs) as (ns & Hns & _ & Hsum & Hb). split.
  - intros r Hrun. inversion Hrun as [|?|d ns' counters Hd Hdirty Hns' Hrtc Hdone Hw]; subst.
    rewrite Hns in Hns'. injection Hns' as <-.
    assert (Hinv : submit_inv (f_jobs f) counters).
    { rewrite <-Hsum. eapply submit_reaches_inv; [exact Hrtc|]. apply begun_inv. eapply Forall_impl; [exact Hb|].
      intros n [Hn _]. pose proof (Z.div_pos (f_jobs f) (f_submitters f) Hj Hs). cbn. lia. }
    destruct Hinv as (Hnn & Hs1 & Hs2 & Htot). pose proof (all_done_sum counters Hnn Hdone) as Hz.
    unfold measure in Hw. destruct (wait _ _ _ _ _ _) as [|s|] eqn:Ew; [done| |done].
    destruct (e_mkdir e), (e_write e); try done. injection Hw as Hr.
    match type of Hr with report_of _ _ ?f ?now ?sd ?wd ?c ?s ?h ?m ?ws = _ =>
      destruct (report_fields f now sd wd c s h m ws) as (Hf1 & Hf2 & Hf3 & Hf4) end.
    rewrite Hr in Hf1, Hf2, Hf3, Hf4. clear Hr.
    apply wait_drained in Ew as (Hdr & rd & Hin & Hp & Hnow). unfold drained in Hdr. reflect_bools.
    rewrite Hf1, Hf2, Hf3. split_and!; [by exists d|lia|by exists rd|done|done|].
    intros db since Hwf Hlen Hshow. rewrite Hf4.
    destruct (shows_totals s _ Hshow) as (_ & Ht & Hsum4 & Hall); [|done|].
    { apply Forall_forall. intros row Hr. unfold select_rows in Hr. apply list_elem_of_filter in Hr as [_ Hr].
      apply list_elem_of_fmap in Hr as ([id row'] & -> & Hr). apply elem_of_map_to_list in Hr.
      by destruct (wf_rows _ Hwf _ _ Hr) as [Hrw _]; apply wf_status. }
    split; [by apply Hall|]. lia.
  - intros start counters Hsp Hne Hl. unfold measure.
    pose proof (wait_ends ParseFloat (e_since e - 2 * Second) (e_waitStart e + f_timeout f) (su_submitted counters)
      (e_rounds e) start no_summary Hsp Hne Hl) as Hw.
    destruct (wait _ _ _ _ _ _); [done| |done]. by destruct (e_mkdir e), (e_write e).
Qed.
End honesty.

(** ** The load *)

Section load.
Context `{GoText} (FormatG : spec_float -> string).

(** The load is the one the flags ask for.  The body every submitter sends, with a
    type that needs no escaping and rates that print as numbers, is decoded by
    the server, within its limit, to a submission of that type, with the payload
    as it was built and every option at its default; the sleeping and the hashing
    handler read back from the payload exactly the numbers of the flags, and the
    analysis its text; and that text, which the loop always finishes, comes out of the
    JSON string as it went in, at least as long as asked and by less than a sentence longer. *)
Theorem load_arrives (f : flags) (limit : Z) :
  prose (f_jobType f) = true -> rates_print FormatG f = true -> slen (submit_body FormatG f) <= limit ->
  decode_submit limit (submit_body FormatG f) =
    Decoded {| sr_Type := f_jobType f; sr_Payload := buildPayload FormatG f; sr_Queue := EmptyString;
               sr_Priority := EmptyString; sr_MaxAttempts := 0; sr_IdempotencyKey := EmptyString;
               sr_DelaySeconds := 0; sr_ScheduledAt := zero_time |} /\
  (forall bad, f_jobType f = TypeSleep -> int_range (f_sleepMs f) = true -> int_range (f_jitterMs f) = true ->
     read_sleep bad (buildPayload FormatG f) = Ok {| sp_Ms := f_sleepMs f; sp_JitterMs := f_jitterMs f |}) /\
  (forall bad, f_jobType f = TypeCPU -> int_range (f_cpuIters f) = true ->
     read_cpu bad (buildPayload FormatG f) = Ok (f_cpuIters f)) /\
  (forall bad, f_jobType f = "article.analysis" ->
     Analyzer.read_analysis bad (buildPayload FormatG f) =
       Ok {| Analyzer.ap_ArticleID := "bench"; Analyzer.ap_Text := Analyzer.runes_of (syntheticArticle (f_textBytes f));
             Analyzer.ap_TopKeywords := 0; Analyzer.ap_SummarySentences := 0 |}) /\
  (let a := syntheticArticle (f_textBytes f) in
   article_loop (S (Z.to_nat (f_textBytes f))) (f_textBytes f) 0 EmptyString = Some a /\
   f_textBytes f <= slen a <= Z.max 0 (f_textBytes f + 82) /\
   Quote a = in_quotes (quoted a) /\ str_ok (quoted a) = true /\ unquote (quoted a) = a).
Proof.
  intros Ht Hr Hl. destruct (syntheticArticle_spec (f_textBytes f)) as (Ha & Hlen & Hp).
  split; [|split; [|split; [|split; [|split; [done|split; [done|split; [done|split]]]]]]].
  - by apply (submission_arrives FormatG limit f).
  - intros bad Hty Hs Hj. by apply (sleep_read FormatG).
  - intros bad Hty Hs. by apply (cpu_read FormatG).
  - intros bad Hty. by apply (article_read FormatG).
  - by apply quoted_ok.
  - by apply unquote_quoted.
Qed.
End load.

(** ** Witnesses *)

Definition demo_flags : flags :=
  {| f_api := "http://127.0.0.1:8080"; f_token := "k1"; f_name := "adhoc"; f_out := "bench/results"; f_jobs := 1;
     f_submitters := 2; f_jobType := "bench.sleep"; f_sleepMs := 50; f_jitterMs := 20; f_cpuIters := 200000;
     f_textBytes := 4096; f_failRate := Analyzer.ratio 5 100; f_permRate := Analyzer.ratio 1 100;
     f_timeout := 15 * Minute; f_sha := "unknown"; f_note := EmptyString |}.

Example default_flags_example :
  parse_flags (bench_flags (fun _ => None) Atoi) (default_flags (fun _ => EmptyString) "unknown")
    ["-jobs"; "1"; "--submitters=2"; "-token=k1"; "--"] = Parsed demo_flags [].
Proof. by vm_compute. Qed.

Lemma load_arrives_witness :
  submit_body (fun _ => "0.05") demo_flags = dquoted "{'type':'bench.sleep','payload':{'ms':50,'jitterMs':20}}" /\
  decode_submit (H:=DemoText) 200 (dquoted "{'type':'bench.sleep','payload':{'ms':50,'jitterMs':20}}") =
    Decoded {| sr_Type := "bench.sleep"; sr_Payload := dquoted "{'ms':50,'jitterMs':20}"; sr_Queue := EmptyString;
               sr_Priority := EmptyString; sr_MaxAttempts := 0; sr_IdempotencyKey := EmptyString;
               sr_DelaySeconds := 0; sr_ScheduledAt := zero_time |} /\
  read_sleep EMsg (dquoted "{'ms':50,'jitterMs':20}") = Ok {| sp_Ms := 50; sp_JitterMs := 20 |}.
Proof.
  destruct (load_arrives (H:=DemoText) (fun _ => "0.05") demo_flags 200) as (H1 & H2 & _);
    [reflexivity|vm_compute; reflexivity|vm_compute; discriminate|].
  split_and!; [vm_compute; reflexivity|exact H1|]. exact (H2 EMsg eq_refl eq_refl eq_refl).
Defined.

Definition demo_answer (text : string) : result string (Z * string) := Ok (200, dquoted text).
Definition demo_surroundings (answers : list string) : surroundings :=
  {| e_depths := demo_answer "{'ready':{'high':0},'delayed':{},'inFlight':0}"; e_since := 10 * Second;
     e_submitStart := 10 * Second; e_submitEnd := 11 * Second; e_waitStart := 11 * Second;
     e_rounds := map (fun a => {| rd_Now := 12 * Second; rd_Answer := demo_answer a |}) answers;
     e_drained := 13 * Second; e_meta := None; e_workers := []; e_now := 14 * Second;
     e_host := hostInfo ("go1.24", 8, "linux", "amd64") None None; e_mkdir := None; e_write := None |}.

Lemma demo_written (answers : list string) (ok : bool) s :
  wait (fun _ => None) (8 * Second) (11 * Second + 15 * Minute) (if ok then 1 else 0) no_summary
    (e_rounds (demo_surroundings answers)) = Drained s ->
  exists r, bench_run (fun _ => 0) (fun _ => "0.05") (fun _ => None) demo_flags (demo_surroundings answers) (Written r) /\
    v_submitted (r_verdict r) = (if ok then 1 else 0) /\ r_summary r = s /\ v_allTerminal (r_verdict r) = true.
Proof.
  intros Hw. set (counters := {| su_left := [0; 0]; su_submitted := if ok then 1 else 0; su_errors := if ok then 0 else 1 |}).
  pose proof (report_fields (fun _ => 0) (fun _ => "0.05") demo_flags (14 * Second) (1 * Second) (3 * Second) counters s
    (hostInfo ("go1.24", 8, "linux", "amd64") None None) None []) as (H1 & _ & H3 & _).
  set (r := report_of _ _ _ _ _ _ counters s _ _ _) in *. exists r. split_and!; [|exact H1|exact H3|reflexivity].
  assert (Hm : measure (fun _ => 0) (fun _ => "0.05") (fun _ => None) demo_flags (demo_surroundings answers) counters = Written r).
  { unfold measure. change (e_since (demo_surroundings answers) - 2 * Second) with (8 * Second).
    change (e_waitStart (demo_surroundings answers) + f_timeout demo_flags) with (11 * Second + 15 * Minute).
    change (su_submitted counters) with (if ok then 1 else 0). rewrite Hw. reflexivity. }
  rewrite <-Hm. eapply (run_measure _ _ _ _ _ (Build_depths (<["high" := 0]> ∅) ∅ 0) [1; 0]); [| | | |reflexivity].
  - vm_compute. reflexivity.
  - reflexivity.
  - reflexivity.
  - apply rtc_once. destruct ok.
    + by apply (submits (begun [1; 0]) 0 1 false (Ok EmptyString)).
    + by apply (submits (begun [1; 0]) 0 1 true (Err Undecodable)).
Qed.

Lemma demo_completed_wf : db_wf demo_completed.
Proof.
  apply (exec_stmt_inv 2 (UpdateComplete "j1" 1 "42")); [done|done|].
  apply (exec_stmt_inv 1 (UpdateClaim "j1" "w1" 10)); [done|done|].
  apply (exec_stmt_inv 0 (InsertJob demo_job "{}")); [exact demo_job_admitted|done|].
  split; [apply empty_db_wf|]. intros id r Hr. simpl in Hr. by rewrite lookup_empty in Hr.
Qed.

Lemma demo_completed_shown s : s_Counts s = <["COMPLETED" := 1]> ∅ -> shows s (select_rows (created_since 0) demo_completed).
Proof.
  intros Hs st. assert (Hr : map r_status (select_rows (created_since 0) demo_completed) = ["COMPLETED"]) by (by vm_compute).
  destruct (select_rows (created_since 0) demo_completed) as [|row [|? ?]]; [done| |done]. injection Hr as Hr.
  unfold count, count_status. rewrite Hs, filter_cons. destruct (decide (st = "COMPLETED")) as [-> |Hne].
  - rewrite lookup_insert_eq. by rewrite decide_True.
  - rewrite lookup_insert_ne, lookup_empty by done. by rewrite decide_False by congruence.
Qed.

Lemma report_honest_witness :
  exists r, bench_run (fun _ => 0) (fun _ => "0.05") (fun _ => None) demo_flags
      (demo_surroundings ["{'counts':{'RUNNING':1}}"; "{'counts':{'COMPLETED':1}}"]) (Written r) /\
    v_submitted (r_verdict r) + r_submit_errors r = 1 /\
    Forall (fun row => Terminal (r_status row) = true) (select_rows (created_since 0) demo_completed).
Proof.
  destruct (demo_written ["{'counts':{'RUNNING':1}}"; "{'counts':{'COMPLETED':1}}"] true
    (Build_summary (<["COMPLETED" := 1]> ∅) 0 0 no_pct no_pct)) as (r & Hr & _ & Hs & _); [vm_compute; reflexivity|].
  destruct (report_honest (fun _ => 0) (fun _ => "0.05") (fun _ => None) demo_flags
    (demo_surroundings ["{'counts':{'RUNNING':1}}"; "{'counts':{'COMPLETED':1}}"]) ltac:(vm_compute; discriminate) ltac:(reflexivity)) as [H _].
  destruct (H r Hr) as (_ & H1 & _ & _ & _ & H2). exists r. split_and!; [exact Hr|exact H1|].
  apply (H2 demo_completed 0); [|vm_compute; discriminate|].
  - exact demo_completed_wf.
  - apply demo_completed_shown. by rewrite Hs.
Defined.

(** When every submission fails, the wait is over at once, and the report says
    that everything is terminal. *)
Lemma nothing_submitted_is_reported :
  exists r, bench_run (fun _ => 0) (fun _ => "0.05") (fun _ => None) demo_flags (demo_surroundings ["{}"]) (Written r) /\
    v_submitted (r_verdict r) = 0 /\ v_completed (r_verdict r) = 0 /\ v_allTerminal (r_verdict r) = true.
Proof.
  destruct (demo_written ["{}"] false no_summary) as (r & Hr & H1 & Hs & H2); [vm_compute; reflexivity|].
  exists r. split_and!; try done. inversion Hr as [|?|d ns counters _ _ _ _ _ Hm]. unfold measure in Hm.
  destruct (wait _ _ _ _ _ _) as [|s|]; [done| |done]. injection Hm as Hm. rewrite <-Hm in Hs |- *.
  change (s = no_summary) in Hs. by subst s.
Qed.

(** No submitters, no division. *)
Example no_submitters : shares 1000 0 = None /\ shares 1000 16 = Some (replicate 8 63 ++ replicate 8 62) /\ shares 5 (-2) = Some [].
Proof. by vm_compute. Qed.
