(* ===== verification/System.v ===== *)
(** * System: the whole of it, running

    The processes of a deployment - API requests, workers running deliveries
    (with either recorder), the batcher's flushes, fetches, worker heartbeats and
    any number of contenders for the recovery lock - started at any time, in any
    number, interleaved call by call, failing and crashing anywhere
    ([Threads.v]).  The invariants of the database hold in every reachable
    state. *)

From S2P Require Import Prelude Errors Job Requests Retry Database Rows Redis Effects Rely Threads Store.
From S2P Require Import Batch Queue Handler Runner Recovery Pool Control Api.
Local Open Scope list_scope.
Local Open Scope Z_scope.
Local Open Scope prog_scope.

Section system.
Context {R : Type} `{!RedisServer R} `{EnvelopeJSON} `{GoText} (q : queue).
Implicit Types w : World R.

(** What can be started in a world.  A worker of a batching deployment hands its
    outcome to the batcher and waits for some answer ([AwaitRecorder]); the flush
    is a process of its own, of operations that were submitted within their
    budget. *)
Inductive process (w : World R) : prog unit -> Prop :=
| proc_submit srv uuid body : process w (ignore (handleSubmit q srv uuid body))
| proc_cancel id : process w (ignore (handleCancel q id))
| proc_requeue id : process w (ignore (handleRequeueDLQ q id))
| proc_run rec reg r d sch : RecorderKeeps R rec w -> process w (Run rec q reg r d sch)
| proc_flush ops : Forall (op_budgeted (w_db w)) ops -> process w (ignore (flush ops))
| proc_fetch consumer max block : process w (ignore (Fetch q consumer max block))
| proc_heartbeat wi : process w (ignore (UpsertWorker wi))
| proc_leader l evs st : process w (leader_run q l evs st).

Lemma process_disciplined w p :
  process w p -> wp world_evolves disciplined p (fun _ _ => True) w.
Proof.
  assert (Hplain : forall p : prog unit, only plain p -> wp world_evolves disciplined p (fun _ _ => True) w).
  { intros p' Hp. eapply wp_mono; [|by apply wp_plain]. done. }
  destruct 1; try (apply Hplain; try apply only_ignore; eauto with only; fail).
  - by apply wp_Run_disciplined.
  - unfold ignore. apply wp_bind. eapply wp_mono; [|by apply wp_flush_disciplined]. done.
Qed.

Lemma call_keeps B (c : cmd B) t w :
  db_inv (w_db w) -> disciplined B c w ->
  db_inv (w_db (step_call t c w).2) /\ world_evolves w (step_call t c w).2.
Proof. intros Hi Hd. split; [by apply step_call_inv|]. destruct Hd. by apply step_call_evolves. Qed.

Lemma start_disciplined w p :
  db_inv (w_db w) -> process w p -> wp world_evolves disciplined p (fun _ _ => True) w.
Proof. intros _. apply process_disciplined. Qed.

(** C3. The system invariant. However many API servers, workers, batchers and
    recovery leaders run, in every interleaving of their calls, with every
    call free to fail before or after taking effect and every process free to
    die between two calls: each row of [jobs] is well-formed (its columns fit
    its status), job ids and (type, key) pairs are unique, attempts and events
    belong to jobs that exist, no job was ever started more often than its
    budget allows, and none has more than 25 attempts. *)
Theorem system_invariant (s : system R) (w : World R) :
  db_inv (w_db w) -> reachable process w s ->
  db_wf (w_db (sys_world s)) /\
  (forall id r, jobs (w_db (sys_world s)) !! id = Some r ->
     r_attempt_count r <= r_max_attempts r /\
     (claimable r = true -> r_attempt_count r < r_max_attempts r)).
Proof.
  intros Hi Hr. destruct (reachable_ok process world_evolves disciplined (fun w => db_inv (w_db w))
    call_keeps start_disciplined w s Hi Hr) as [[Hwf Hb] _]. split; [done|].
  intros id r Hrow. exact (Hb id r Hrow).
Qed.

(** C4. Outcomes are final, system-wide. Once a claim is settled, or a job is
    recorded as cancelled, no process of the system can undo it, from any
    reachable state on. *)
Theorem system_outcomes_final (s s' : system R) (w : World R) (id : string) (e : Z) :
  db_inv (w_db w) -> reachable process w s -> rtc (sys_step process) s s' ->
  (settled id e (w_db (sys_world s)) -> settled id e (w_db (sys_world s'))) /\
  (is_cancelled id (w_db (sys_world s)) -> is_cancelled id (w_db (sys_world s'))).
Proof.
  intros Hi Hr Hs. pose proof (reachable_later process world_evolves disciplined
    (fun w => db_inv (w_db w)) call_keeps start_disciplined w s s' Hi Hr Hs) as He.
  split; [by apply evolves_settled|by apply evolves_cancelled].
Qed.
End system.

(** ** Witnesses *)

(** A submission, alone, from an empty deployment. *)
Definition demo_submit : prog unit :=
  ignore (handleSubmit (H:=DemoJSON) (H0:=DemoText) demo_queue demo_server "u9" demo_body).

Lemma demo_reachable ts :
  exists p', reachable (process (H:=DemoJSON) (H0:=DemoText) demo_queue) (demo_world empty_db)
    {| sys_world := (run (handleSubmit (H:=DemoJSON) (H0:=DemoText) demo_queue demo_server "u9" demo_body) ts
         (demo_world empty_db)).2; sys_threads := [p'] |}.
Proof. apply reachable_run. apply (proc_submit (H:=DemoJSON) (H0:=DemoText)). Qed.

Lemma empty_db_inv : db_inv empty_db.
Proof. split; [apply empty_db_wf|]. intros id r Hr. simpl in Hr. by rewrite lookup_empty in Hr. Qed.

Lemma system_invariant_witness :
  exists s, reachable (process (H:=DemoJSON) (H0:=DemoText) demo_queue) (demo_world empty_db) s /\
    is_Some (jobs (w_db (sys_world s)) !! "u9") /\ db_wf (w_db (sys_world s)).
Proof.
  destruct (demo_reachable (replicate 7 (fine 5))) as (p' & Hr). eexists. split; [exact Hr|].
  split; [vm_compute; eauto|]. apply (system_invariant (H:=DemoJSON) (H0:=DemoText) demo_queue _ (demo_world empty_db));
    [apply empty_db_inv|exact Hr].
Defined.

Lemma system_outcomes_final_witness :
  exists s s', reachable (process (H:=DemoJSON) (H0:=DemoText) demo_queue) (demo_world demo_completed) s /\
    rtc (sys_step (process (H:=DemoJSON) (H0:=DemoText) demo_queue)) s s' /\
    settled "j1" 1 (w_db (sys_world s')).
Proof.
  assert (Hi : db_inv (w_db (demo_world demo_completed))).
  { apply (exec_stmt_inv 2 (UpdateComplete "j1" 1 "42")); [done|done|].
    apply (exec_stmt_inv 1 (UpdateClaim "j1" "w1" 10)); [done|done|].
    apply (exec_stmt_inv 0 (InsertJob demo_job "{}")); [exact demo_job_admitted|done|]. apply empty_db_inv. }
  destruct (thread_run (process (H:=DemoJSON) (H0:=DemoText) demo_queue) (fun _ : response => Ret tt)
    (handleCancel demo_queue "j1") (replicate 6 (fine 9)) (demo_world demo_completed)) as (p' & Hs).
  assert (Hstart : reachable (process (H:=DemoJSON) (H0:=DemoText) demo_queue) (demo_world demo_completed)
    {| sys_world := demo_world demo_completed;
       sys_threads := [free_bind (handleCancel demo_queue "j1") (fun _ => Ret tt)] |}).
  { apply rtc_once. apply (step_start _ _ [] _). apply (proc_cancel (H:=DemoJSON) (H0:=DemoText)). }
  eexists _, _. split; [exact Hstart|]. split; [exact Hs|].
  apply (system_outcomes_final (H:=DemoJSON) (H0:=DemoText) demo_queue _ _ (demo_world demo_completed) "j1" 1 Hi Hstart Hs).
  eexists. split; [vm_compute; reflexivity|]. right. split; [reflexivity|discriminate].
Defined.
