(* ===== verification/Lossless.v ===== *)
(** * Lossless: no process of the system loses an unclaimed job

    Every program of the development keeps the rule of [Custody.v]: the reaper
    puts a fresh delivery on the wire before it deletes the old one, a worker
    deletes an entry only once its job was taken, poison entries carry no job,
    and the column [enqueued_stream_id] is set only after the entry exists. *)

From S2P Require Import Prelude Errors Json Job Retry Database Rows Redis Effects Rely Threads.
From S2P Require Import Store Batch Queue Handler Runner Recovery Custody Pool Control Api System.
Local Open Scope string_scope.
Local Open Scope list_scope.
Local Open Scope Z_scope.
Local Open Scope prog_scope.

(** ** Calls that are careful in every world *)

Lemma only_and {F : Type -> Type} (P P' : forall B, F B -> Prop) {A} (p : free F A) :
  only P p -> only P' p -> only (fun B c => P B c /\ P' B c) p.
Proof. induction p; simpl; [done|]. intros [] []. eauto. Qed.

Section quiet.
Context {R : Type} `{!RedisServer R} `{HeadersSurvive} (q : queue).
Implicit Types (w : World R) (p : Priority).

Definition quiet : forall B, cmd B -> Prop := fun B c => forall w, careful q B c w.
Definition tame : forall B, cmd B -> Prop := fun B c => plain B c /\ quiet B c.

Lemma quiet_sql {A} (s : stmt A) : inserts_good s -> enqueues s = None -> quiet _ (Sql s).
Proof. intros Hi He w. split; [done|]. intros id. by rewrite He. Qed.

Lemma foreign_cancel id : foreign q (cancelKey q id).
Proof.
  intros p. unfold cancelKey, streamKey, delayedKey. split; intros E; by apply (inj _) in E.
Qed.
Lemma foreign_leader role : foreign q (leaderKey q role).
Proof.
  intros p. unfold leaderKey, streamKey, delayedKey. split; intros E; by apply (inj _) in E.
Qed.
Lemma foreign_dlq : foreign q (dlqKey q).
Proof.
  intros p. unfold dlqKey, streamKey, delayedKey. split; intros E; by apply (inj _) in E.
Qed.

Lemma quiet_rdb {A} (c : redis_cmd A) : (forall w, rdb_careful q c w) -> quiet _ (Rdb c).
Proof. done. Qed.
Lemma quiet_call {A} (c : cmd A) : quiet _ c -> only quiet (call c).
Proof. done. Qed.
Lemma quiet_now : quiet _ Now.
Proof. done. Qed.
Lemma quiet_rand : quiet _ RandFloat.
Proof. done. Qed.
Lemma quiet_notify o : quiet _ (Notify o).
Proof. done. Qed.
End quiet.
#[export] Hint Resolve foreign_cancel foreign_leader foreign_dlq quiet_now quiet_rand quiet_notify : only.
#[export] Hint Extern 1 (quiet _ _ (Sql _)) => (apply quiet_sql; done) : only.
#[export] Hint Extern 1 (quiet _ _ (Rdb _)) =>
  (intros ?; simpl; solve [exact I | apply foreign_cancel | apply foreign_leader | apply foreign_dlq]) : only.
#[export] Hint Extern 1 (quiet _ _ (Script _)) =>
  (intros ?; simpl; constructor; apply foreign_leader) : only.
#[export] Hint Extern 1 (quiet _ _ (Script _)) => (intros ?; simpl; constructor) : only.

(** *** The store *)

Section quiet_programs.
Context {R : Type} `{!RedisServer R} `{HeadersSurvive} (q : queue).
Implicit Types (w : World R) (p : Priority).
Abbreviation quiet := (quiet (R:=R) q).

Lemma quiet_QueryRow {A} (s : stmt (option A)) :
  inserts_good s -> enqueues s = None -> only quiet (QueryRow s).
Proof. intros. unfold QueryRow. apply only_bind; [|done]. apply only_pgExec. by apply quiet_sql. Qed.
#[local] Hint Extern 1 (only (Lossless.quiet _) (QueryRow _)) => (apply quiet_QueryRow; done) : only.

Lemma quiet_addEvent id ev d : only quiet (addEvent id ev d).
Proof. unfold addEvent. only_calls. Qed.
#[local] Hint Resolve quiet_addEvent : only.
Lemma quiet_AddEvent id ev d : only quiet (AddEvent id ev d).
Proof. apply quiet_addEvent. Qed.
Lemma quiet_with_event id ev d n : only quiet (with_event id ev d n).
Proof. unfold with_event. only_calls. Qed.
#[local] Hint Resolve quiet_AddEvent quiet_with_event : only.
Lemma quiet_GetJob id : only quiet (GetJob id).
Proof. unfold GetJob, getJobBy. only_calls. Qed.
Definition payload_embeddable (payload : string) : Prop := payload = EmptyString \/ embeddable payload.
Lemma quiet_CreateJob j :
  admitted j -> ValidName (ID j) = true -> payload_embeddable (Payload j) -> only quiet (CreateJob j).
Proof.
  intros Hj Hid Hpl. assert (Hp : embeddable (json_or_null (Payload j))).
  { assert (Hn : embeddable "null") by (by eexists).
    unfold json_or_null. destruct Hpl as [->|Hv]; [done|]. by destruct (0 <? _). }
  unfold CreateJob, getJobBy. apply only_bind; [by apply quiet_QueryRow|]. only_calls.
Qed.
Lemma quiet_ClaimJob id wk ttl : only quiet (ClaimJob id wk ttl).
Proof. unfold ClaimJob. only_calls. Qed.
Lemma quiet_ExtendLease id e ttl : only quiet (ExtendLease id e ttl).
Proof. unfold ExtendLease. only_calls. Qed.
Lemma quiet_CompleteJob id e res : only quiet (CompleteJob id e res).
Proof. unfold CompleteJob. only_calls. Qed.
Lemma quiet_FailJob id e msg : only quiet (FailJob id e msg).
Proof. unfold FailJob. only_calls. Qed.
Lemma quiet_DeadLetterJob id e msg : only quiet (DeadLetterJob id e msg).
Proof. unfold DeadLetterJob. only_calls. Qed.
Lemma quiet_CancelRunning id e : only quiet (CancelRunning id e).
Proof. unfold CancelRunning. only_calls. Qed.
Lemma quiet_StoreRetry id e msg t : only quiet (Store.ScheduleRetry id e msg t).
Proof. unfold Store.ScheduleRetry. only_calls. Qed.
Lemma quiet_RecordAttempt a : only quiet (RecordAttempt a).
Proof. unfold RecordAttempt. only_calls. Qed.
Lemma quiet_CancelJob id : only quiet (CancelJob id).
Proof. unfold CancelJob. only_calls. Qed.
Lemma quiet_ReapJob id d g : only quiet (ReapJob id d g).
Proof. unfold ReapJob. only_calls. Qed.
Lemma quiet_MarkPromoted ids : only quiet (MarkPromoted ids).
Proof. unfold MarkPromoted. only_calls. Qed.
Lemma quiet_RequeueDeadLetter id : only quiet (RequeueDeadLetter id).
Proof. unfold RequeueDeadLetter. only_calls. Qed.
Lemma quiet_UpsertWorker wi : only quiet (UpsertWorker wi).
Proof. unfold UpsertWorker. only_calls. Qed.
Lemma quiet_MarkDeadWorkers c : only quiet (MarkDeadWorkers c).
Proof. unfold MarkDeadWorkers. only_calls. Qed.

(** *** The queue *)

Lemma quiet_Heartbeat c p id : only quiet (Heartbeat q c p id).
Proof. unfold Heartbeat. only_calls. Qed.
Lemma quiet_DeadLetter env msg : only quiet (Queue.DeadLetter q env msg).
Proof. unfold Queue.DeadLetter. only_calls. Qed.
Lemma quiet_PromoteDue n : only quiet (PromoteDue q n).
Proof.
  assert (Hpass : forall now ps out, only quiet (promote_pass q now n ps out)).
  { intros now ps. induction ps as [|p ps IH]; intros out; simpl; [done|].
    apply only_bind; [|intros [ms|e]; [apply IH|exact I]]. apply only_call. intros w. constructor. }
  unfold PromoteDue. only_calls.
Qed.
Lemma quiet_RequestCancel id ttl : only quiet (RequestCancel q id ttl).
Proof. unfold RequestCancel. only_calls. Qed.
Lemma quiet_IsCancelRequested id : only quiet (IsCancelRequested q id).
Proof. unfold IsCancelRequested. only_calls. Qed.
Lemma quiet_AcquireLeader role id ttl : only quiet (AcquireLeader q role id ttl).
Proof. unfold AcquireLeader. only_calls. Qed.
Lemma quiet_RenewLeader role id ttl : only quiet (RenewLeader q role id ttl).
Proof.
  unfold RenewLeader. apply only_ok; [|done]. apply only_Errorf, only_call. intros w.
  constructor. apply foreign_leader.
Qed.
Lemma quiet_ReleaseLeader role id : only quiet (ReleaseLeader q role id).
Proof.
  unfold ReleaseLeader. apply only_bind; [|intros []; only_calls]. apply only_call. intros w.
  constructor. apply foreign_leader.
Qed.
End quiet_programs.
#[export] Hint Resolve quiet_addEvent quiet_AddEvent quiet_with_event quiet_GetJob quiet_CreateJob
  quiet_ClaimJob quiet_ExtendLease quiet_CompleteJob quiet_FailJob quiet_DeadLetterJob
  quiet_CancelRunning quiet_StoreRetry quiet_RecordAttempt quiet_CancelJob quiet_ReapJob
  quiet_MarkPromoted quiet_RequeueDeadLetter quiet_UpsertWorker quiet_MarkDeadWorkers
  quiet_Heartbeat quiet_DeadLetter quiet_PromoteDue quiet_RequestCancel quiet_IsCancelRequested
  quiet_AcquireLeader quiet_RenewLeader quiet_ReleaseLeader : only.

(** ** Rules under the rely [cares] *)

Section rules.
Context {R : Type} `{!RedisServer R} `{HeadersSurvive} (q : queue).
Implicit Types (w : World R) (p : Priority) (d : Delivery).
#[local] Transparent call pgExec rdb time_Now.
Abbreviation cares := (cares q).
Abbreviation lawful := (lawful q).
Abbreviation custody := (custody q).
Abbreviation keeps prg w := (wp cares lawful prg (fun _ w' => cares w w') w).

Lemma cares_custody w w' : cares w w' -> custody w -> custody w'.
Proof. intros (_ & _ & Hc). exact Hc. Qed.

(** A lawful call, then what follows. *)
Lemma wp_one {B} (c : cmd B) (Q : B -> World R -> Prop) w :
  custody w ->
  (forall w1, cares w w1 -> custody w1 -> lawful B c w1) ->
  (forall w1 t, cares w w1 -> custody w1 -> cares w1 (step_call t c w1).2 ->
     cares w (step_call t c w1).2 -> Q (step_call t c w1).1 (step_call t c w1).2) ->
  wp cares lawful (call c) Q w.
Proof.
  intros Hcu Hl HQ w1 t Hw. pose proof (cares_custody _ _ Hw Hcu) as Hcu1.
  specialize (Hl w1 Hw Hcu1). split; [exact Hl|]. destruct (lawful_call q c t w1 Hcu1 Hl) as [_ Hc].
  apply HQ; auto. by etrans.
Qed.

(** A redis command: it failed somewhere, or it was answered. *)
Lemma wp_command {A} (c : redis_cmd A) (Q : result error A -> World R -> Prop) w :
  custody w ->
  (forall w1, cares w w1 -> custody w1 -> rdb_careful q c w1) ->
  (forall o w', cares w w' -> Q (Err (outage_error o)) w') ->
  (forall w1 now r s', cares w w1 -> custody w1 -> exec_redis now c (w_redis w1) = (r, s') ->
     cares w1 (with_redis s' w1) -> cares w (with_redis s' w1) -> Q r (with_redis s' w1)) ->
  wp cares lawful (rdb c) Q w.
Proof.
  intros Hcu Hl Herr HQ w1 t Hw. pose proof (cares_custody _ _ Hw Hcu) as Hcu1.
  specialize (Hl w1 Hw Hcu1). assert (Hlaw : lawful _ (Rdb c) w1) by (by split).
  split; [exact Hlaw|].
  destruct (lawful_call q (Rdb c) {| at_ := at_ t; fate := NoFault; draw := draw t |} w1 Hcu1 Hlaw) as [_ Hc].
  simpl in *. destruct (exec_redis (at_ t) c (w_redis w1)) as [r s'] eqn:Hx. simpl in *.
  assert (Hc' : cares w (with_redis s' w1)) by (by etrans).
  destruct (fate t); simpl; [by apply (HQ w1 (at_ t) r s')|by apply Herr|by apply Herr].
Qed.

(** A statement. *)
Lemma wp_statement {A} (s : stmt A) (Q : result error A -> World R -> Prop) w :
  custody w ->
  stmt_ok s -> (forall db, stmt_budget s db) ->
  (forall w1, cares w w1 -> custody w1 -> stmt_careful q s w1) ->
  (forall o w', cares w w' -> Q (Err (outage_error o)) w') ->
  (forall w1 now r db', cares w w1 -> custody w1 -> exec_stmt now s (w_db w1) = (r, db') ->
     cares w1 (with_db db' w1) -> cares w (with_db db' w1) -> Q (sql_error r) (with_db db' w1)) ->
  wp cares lawful (pgExec s) Q w.
Proof.
  intros Hcu Hok Hb Hl Herr HQ w1 t Hw. pose proof (cares_custody _ _ Hw Hcu) as Hcu1.
  specialize (Hl w1 Hw Hcu1). assert (Hlaw : lawful _ (Sql s) w1) by 
    by (split; [split; [exact Hok|apply Hb]|exact Hl]).
  split; [exact Hlaw|].
  destruct (lawful_call q (Sql s) {| at_ := at_ t; fate := NoFault; draw := draw t |} w1 Hcu1 Hlaw) as [_ Hc].
  simpl in *. destruct (exec_stmt (at_ t) s (w_db w1)) as [r db'] eqn:Hx. simpl in *.
  assert (Hc' : cares w (with_db db' w1)) by (by etrans).
  destruct (fate t); simpl; [by apply (HQ w1 (at_ t) r db')|by apply Herr|by apply Herr].
Qed.

Lemma wp_clock (Q : Time -> World R -> Prop) w :
  (forall w1 t, cares w w1 -> Q t w1) -> wp cares lawful time_Now Q w.
Proof. intros HQ w1 t Hw. split; [by split|]. by apply HQ. Qed.
#[local] Opaque call pgExec rdb time_Now.

(** A program of calls that are careful everywhere. *)
Lemma wp_tame {A} (prg : prog A) w :
  only plain prg -> only (quiet q) prg -> custody w -> keeps prg w.
Proof.
  intros Hp Hq Hcu. eapply wp_mono; [|refine (wp_only _ _ _ prg (fun w' => cares w w' /\ custody w') w
    (only_and _ _ _ Hp Hq) _ _ _)].
  - by intros a w' [? _].
  - intros w1 w2 H12 [H1 Hc]. split; [by etrans|by eapply cares_custody].
  - intros B c t w1 [H1 Hc] [Hpl Hqu]. assert (Hl : lawful B c w1).
    { split; [|by apply Hqu]. destruct Hpl as [? Hb]. by split. }
    destruct (lawful_call q c t w1 Hc Hl) as [Hc' H2]. split; [done|]. split; [by etrans|done].
  - split; [reflexivity|done].
Qed.

(** Sequencing. *)
Lemma wp_seq {A B} (prg : prog A) (f : A -> prog B) (Q1 : A -> World R -> Prop)
    (Q : B -> World R -> Prop) w :
  custody w ->
  wp cares lawful prg (fun a w' => cares w w' /\ Q1 a w') w ->
  (forall a w', cares w w' -> custody w' -> Q1 a w' -> wp cares lawful (f a) Q w') ->
  wp cares lawful (free_bind prg f) Q w.
Proof.
  intros Hcu Hp Hf. apply wp_bind. eapply wp_mono; [|exact Hp]. intros a w' [Hw HQ1].
  apply Hf; [done|by eapply cares_custody|done].
Qed.

Lemma wp_tame_seq {A B} (prg : prog A) (f : A -> prog B) (Q : B -> World R -> Prop) w :
  custody w -> only plain prg -> only (quiet q) prg ->
  (forall a w', cares w w' -> custody w' -> wp cares lawful (f a) Q w') ->
  wp cares lawful (free_bind prg f) Q w.
Proof.
  intros Hcu Hp Hq Hf. apply (wp_seq _ _ (fun _ _ => True)); [done| |auto].
  eapply wp_mono; [|by apply wp_tame]. by intros.
Qed.

Lemma keeps_from {A} (prg : prog A) w0 w :
  cares w0 w -> keeps prg w -> wp cares lawful prg (fun _ w' => cares w0 w') w.
Proof. intros Hw. apply wp_mono. intros a w' Hw'. by etrans. Qed.

(** ** Entries that were read *)

(** The entry with this id, if it is still there, is [e]. *)
Definition seen p (e : entry) w : Prop :=
  issued (streamKey q p) e.1 (w_redis w) /\
  (forall e', e' ∈ entries (streamKey q p) (w_redis w) -> e'.1 = e.1 -> e' = e) /\
  (forall env, DecodeEnvelope (field "j" e) = Ok env -> placed (known_in w) p env).

(** The delivery was read from the stream. *)
Definition delivered d w : Prop :=
  exists e, seen (del_Priority d) e w /\ e.1 = del_EntryID d /\
    DecodeEnvelope (field "j" e) = Ok (del_Env d).

(** The entry may be deleted. *)
Definition deletable p id w : Prop :=
  issued (streamKey q p) id (w_redis w) /\ spent q (gone_in w) p id (w_redis w).

Lemma known_stable w w' job : cares w w' -> known_in w job -> known_in w' job.
Proof.
  intros [He _] [r Hr]. destruct (evolves_defined_as job (r_def r) _ _ He) as (r' & ? & _); [by exists r|].
  by exists r'.
Qed.

Lemma placed_stable w w' p env : cares w w' -> placed (known_in w) p env -> placed (known_in w') p env.
Proof. intros Hw (? & ? & ?). split_and!; [done|done|by eapply known_stable]. Qed.

Lemma gone_stable w w' job : cares w w' -> taken job (w_db w) -> taken job (w_db w').
Proof. intros [He _]. by apply evolves_taken. Qed.

Lemma seen_stable w w' p e : cares w w' -> seen p e w -> seen p e w'.
Proof.
  intros Hw (Hi & Hu & Hp). pose proof Hw as (_ & [I O _ _] & _). split_and!.
  - by apply I.
  - intros e' Hin Hid. apply Hu; [|done]. apply O; [by rewrite Hid|done].
  - intros env Hd. eapply placed_stable; [exact Hw|by apply Hp].
Qed.

Lemma delivered_stable w w' d : cares w w' -> delivered d w -> delivered d w'.
Proof. intros Hw (e & Hs & He & Hd). exists e. split; [by eapply seen_stable|done]. Qed.

Lemma deletable_stable w w' p id : cares w w' -> deletable p id w -> deletable p id w'.
Proof.
  intros Hw [Hi Hs]. pose proof Hw as (_ & [I O Q F] & _). split; [by apply I|].
  intros e env Hin Hid Hd. destruct (Hs e env) as [Hg|Hf]; [|done|done| |].
  - apply O; [by rewrite Hid|done].
  - left. by eapply gone_stable.
  - destruct (F _ _ _ Hi Hf); [by right|by left].
Qed.

(** What is read from a stream is seen. *)
Lemma read_seen p e w :
  custody w -> e ∈ entries (streamKey q p) (w_redis w) -> seen p e w.
Proof.
  intros Hcu Hin. destruct (cu_queue _ _ Hcu) as [Hnd He _]. split_and!.
  - by apply entries_issued.
  - intros e' Hin' Hid. apply list_elem_of_split in Hin' as (l1 & l2 & E). rewrite E in Hin.
    specialize (Hnd p). rewrite E in Hnd. rewrite fmap_app in Hnd. simpl in Hnd.
    apply NoDup_app in Hnd as (_ & Hl1 & Hnd). apply NoDup_cons in Hnd as [Hnd _].
    apply elem_of_app in Hin as [Hin|Hin].
    + exfalso. apply (Hl1 e.1); [by apply list_elem_of_fmap_2|]. rewrite <-Hid. by left.
    + apply elem_of_cons in Hin as [->|Hin]; [done|]. exfalso. apply Hnd. rewrite Hid.
      by apply list_elem_of_fmap_2.
  - intros env. by apply He.
Qed.

(** A delivery of a taken job, one with another behind it, and poison. *)
Lemma taken_deletable d w :
  delivered d w -> taken (env_ID (del_Env d)) (w_db w) -> deletable (del_Priority d) (del_EntryID d) w.
Proof.
  intros (e & (Hi & Hu & _) & He & Hd) Ht. split; [by rewrite <-He|].
  intros e' env Hin Hid Hd'. rewrite <-He in Hid. rewrite (Hu e' Hin Hid), Hd in Hd'.
  injection Hd' as <-. by left.
Qed.

Lemma followed_deletable d w :
  delivered d w -> followed q (env_ID (del_Env d)) (del_Priority d) (del_EntryID d) (w_redis w) ->
  deletable (del_Priority d) (del_EntryID d) w.
Proof.
  intros (e & (Hi & Hu & _) & He & Hd) Hf. split; [by rewrite <-He|].
  intros e' env Hin Hid Hd'. rewrite <-He in Hid. rewrite (Hu e' Hin Hid), Hd in Hd'.
  injection Hd' as <-. by right.
Qed.

Lemma poison_deletable p e err w :
  seen p e w -> DecodeEnvelope (field "j" e) = Err err -> deletable p e.1 w.
Proof.
  intros (Hi & Hu & _) Hd. split; [done|].
  intros e' env Hin Hid Hd'. rewrite (Hu e' Hin Hid), Hd in Hd'. done.
Qed.

(** ** The queue's programs *)

Lemma wp_Ack p id w : custody w -> deletable p id w -> keeps (Queue.Ack q p id) w.
Proof.
  intros Hcu Hdel. unfold Ack. apply (wp_seq _ _ (fun _ _ => True)); [done| |].
  { apply wp_command; [done|done|auto|auto]. }
  intros r1 w1 H1 Hcu1 _. apply (wp_seq _ _ (fun _ w' => cares w w')); [done| |by intros].
  apply wp_command; [done| | |].
  - intros w2 H2 _. exists p. split; [done|]. eapply deletable_stable; [|exact Hdel]. by etrans.
  - intros o w2 H2. split; [done|by etrans].
  - intros w2 now r s' H2 _ _ _ H3. split; [done|by etrans].
Qed.

(** An envelope about a known job. *)
Definition sendable_about env w : Prop := plain_headers env /\ known_in w (env_ID env).

Lemma encoded_placed env text w env' :
  sendable_about env w -> Encode env = Ok text -> DecodeEnvelope text = Ok env' ->
  placed (known_in w) (env_Priority env) env' /\ env_ID env' = env_ID env.
Proof.
  intros [Hp Hk] He Hd. destruct (decode_encode env text Hp He) as (e' & Hd' & Hp' & Hid & Hpr).
  rewrite Hd' in Hd. injection Hd as <-. rewrite <-Hid in Hk. done.
Qed.

Lemma sendable_stable env w w' : cares w w' -> sendable_about env w -> sendable_about env w'.
Proof. intros Hw [? ?]. split; [done|by eapply known_stable]. Qed.

(** The job of the envelope is queued, behind everything there was in [w]. *)
Definition behind env w w' : Prop :=
  queued q (env_ID env) (env_Priority env) (w_redis w') /\
  forall id, issued (streamKey q (env_Priority env)) id (w_redis w) ->
    followed q (env_ID env) (env_Priority env) id (w_redis w').

Lemma zadd_behind env text sc w w1 s' :
  sendable_about env w1 -> Encode env = Ok text ->
  (Ok tt, zadd (delayedKey q (env_Priority env)) sc text (w_redis w1)) = (Ok tt : result error unit, s') ->
  behind env w (with_redis s' w1).
Proof.
  intros Hse He [= <-]. destruct (decode_encode env text (proj1 Hse) He) as (e' & Hd & _ & Hid & _).
  assert (Hdel : is_delayed q (env_ID env) (env_Priority env)
    (zadd (delayedKey q (env_Priority env)) sc text (w_redis w1))).
  { exists text, e'. split; [|done]. rewrite zadd_members, lookup_insert_eq. by eexists. }
  split; [by right|]. intros id _ l1 e l2 _ _. by right.
Qed.

Lemma xadd_behind env text w w1 id' s' :
  cares w w1 -> sendable_about env w1 -> Encode env = Ok text ->
  xadd (streamKey q (env_Priority env)) [("j", text)] (w_redis w1) = (id', s') ->
  behind env w (with_redis s' w1).
Proof.
  intros Hw Hse Het Hx. destruct (decode_encode env text (proj1 Hse) Het) as (e' & Hd & _ & Hid & _).
  assert (Hc : carries (env_ID env) (id', [("j", text)])) by (exists e'; done).
  assert (He : entries (streamKey q (env_Priority env)) s' =
    entries (streamKey q (env_Priority env)) (w_redis w1) ++ [(id', [("j", text)])]).
  { pose proof (xadd_entries (streamKey q (env_Priority env)) [("j", text)] (w_redis w1)) as E.
    by rewrite Hx in E. }
  split; simpl.
  - left. exists (id', [("j", text)]). split; [|done]. rewrite He. apply elem_of_app. right. by left.
  - intros id Hi l1 e l2. rewrite He. intros El Heid. left.
    destruct l2 as [|x l2 _] using rev_ind.
    + exfalso. apply app_inj_tail in El as [_ <-]. simpl in Heid. subst id'.
      pose proof (xadd_unissued (streamKey q (env_Priority env)) [("j", text)] (w_redis w1)) as Hn.
      rewrite Hx in Hn. apply Hn. by apply Hw.
    + rewrite app_comm_cons, app_assoc in El. apply app_inj_tail in El as [_ <-].
      exists (id', [("j", text)]). split; [apply elem_of_app; right; by left|done].
Qed.

Lemma wp_add_delayed prefix env text t w :
  custody w -> sendable_about env w -> Encode env = Ok text ->
  wp cares lawful (add_delayed q prefix (env_Priority env) text t)
    (fun r w' => cares w w' /\ (is_Ok r = true -> behind env w w')) w.
Proof.
  intros Hcu Hse Het. unfold add_delayed. apply wp_bind.
  apply (wp_mono _ _ _ (fun r w' => cares w w' /\ (is_Ok r = true -> behind env w w'))); [by intros [a|e] w'|].
  apply wp_command; [done| |by split|].
  - intros w1 H1 _. exists (env_Priority env). split; [done|]. intros env' Hd.
    eapply encoded_placed; [by eapply sendable_stable|exact Het|exact Hd].
  - intros w1 now r s' H1 _ Hx _ H2. split; [done|]. intros _. simpl in Hx.
    destruct r as [[]|]; [|done]. eapply zadd_behind; [by eapply sendable_stable|exact Het|exact Hx].
Qed.

Lemma wp_Enqueue env t w :
  custody w -> sendable_about env w ->
  wp cares lawful (Enqueue q env t) (fun r w' => cares w w' /\ (is_Ok r = true -> behind env w w')) w.
Proof.
  intros Hcu Hse. unfold Enqueue. apply wp_pure_ok; [intros text Het|done]. apply wp_bind, wp_clock. intros w1 now H1.
  assert (Hcu1 : custody w1) by (by eapply cares_custody).
  assert (Hse1 : sendable_about env w1) by (by eapply sendable_stable).
  assert (Hback : forall w', cares w1 w' -> behind env w1 w' -> behind env w w').
  { intros w' _ [Hq Hf]. split; [done|]. intros id Hi. apply Hf. by apply H1. }
  destruct (now <? t).
  - apply wp_bind. eapply wp_mono; [|by apply (wp_add_delayed _ env)]. intros [u|e] w2 [H2 Hb]; simpl.
    + split; [by etrans|]. intros _. auto.
    + split; [by etrans|done].
  - apply wp_bind. apply (wp_mono _ _ _ (fun r w' => cares w w' /\ (is_Ok r = true -> behind env w w')));
      [by intros [a|e] w'|].
    apply wp_command; [done| |intros o w2 H2; split; [by etrans|done]|].
    + intros w2 H2 _. exists (env_Priority env). split; [done|]. intros env' Hd.
      eapply encoded_placed; [by eapply sendable_stable|exact Het|exact Hd].
    + intros w2 now2 r s' H2 _ Hx _ H3. split; [by etrans|]. intros _. simpl in Hx.
      destruct (xadd (streamKey q (env_Priority env)) [("j", text)] (w_redis w2)) as [id' s1] eqn:Hxa.
      injection Hx as <- <-. eapply xadd_behind; [|by eapply sendable_stable|exact Het|exact Hxa]. by etrans.
Qed.

Lemma delivered_sendable d w :
  delivered d w -> sendable_about (del_Env d) w /\ env_Priority (del_Env d) = del_Priority d.
Proof. intros (e & (_ & _ & Hp) & _ & Hd). destruct (Hp _ Hd) as (? & ? & ?). done. Qed.

(** *** Reading *)

Lemma wp_decodeMessage m p w :
  custody w -> seen p m w ->
  wp cares lawful (decodeMessage q m p)
    (fun od w' => cares w w' /\ forall d, od = Some d -> delivered d w') w.
Proof.
  intros Hcu Hs. unfold decodeMessage. destruct (DecodeEnvelope (field "j" m)) as [env|err] eqn:Hd.
  - simpl. split; [reflexivity|]. intros d [= <-]. by exists m.
  - apply wp_bind. eapply wp_mono; [|apply wp_Ack; [done|by eapply poison_deletable]].
    intros r w1 H1. simpl. split; [done|]. done.
Qed.

Lemma wp_appendDeliveries p ms : forall out w,
  custody w -> Forall (fun m => seen p m w) ms -> Forall (fun d => delivered d w) out ->
  wp cares lawful (appendDeliveries q out ms p)
    (fun out' w' => cares w w' /\ Forall (fun d => delivered d w') out') w.
Proof.
  induction ms as [|m ms IH]; intros out w Hcu Hms Hout; simpl; [split; [reflexivity|done]|].
  apply Forall_cons in Hms as [Hm Hms].
  apply (wp_seq _ _ (fun od w' => forall d, od = Some d -> delivered d w')); [done|by apply wp_decodeMessage|].
  intros od w1 H1 Hcu1 Hod.
  eapply wp_mono; [|apply IH; [done| |]].
  - intros out' w2 [H2 Hf]. split; [by etrans|done].
  - eapply Forall_impl; [exact Hms|]. intros m'. by apply seen_stable.
  - assert (Hout1 : Forall (fun d => delivered d w1) out).
    { eapply Forall_impl; [exact Hout|]. intros d. by apply delivered_stable. }
    destruct od as [d|]; [|done]. apply Forall_app. split; [done|]. repeat constructor. by apply Hod.
Qed.

(** A stream read: what came back was in the stream. *)
Lemma sublist_seen p es w :
  custody w -> sublist es (entries (streamKey q p) (w_redis w)) -> Forall (fun m => seen p m w) es.
Proof.
  intros Hcu Hsub. apply Forall_forall. intros m Hm. apply read_seen; [done|]. by eapply elem_of_sublist.
Qed.

Lemma wp_fetch_pass consumer max ps : forall out w,
  custody w -> Forall (fun d => delivered d w) out ->
  wp cares lawful (fetch_pass q consumer max ps out)
    (fun r w' => cares w w' /\ Forall (fun d => delivered d w') r.2.1) w.
Proof.
  induction ps as [|p ps IH]; intros out w Hcu Hout; simpl; [split; [reflexivity|done]|].
  destruct (max <=? _); simpl; [split; [reflexivity|done]|].
  assert (Hst : forall w', cares w w' -> Forall (fun d => delivered d w') out).
  { intros w' Hw. eapply Forall_impl; [exact Hout|]. intros d. by apply delivered_stable. }
  assert (Hnext : forall out' w', cares w w' -> Forall (fun d => delivered d w') out' ->
    wp cares lawful (fetch_pass q consumer max ps out')
      (fun r w' => cares w w' /\ Forall (fun d => delivered d w') r.2.1) w').
  { intros out' w' Hw Hf. eapply wp_mono; [|apply IH; [by eapply cares_custody|done]].
    intros r w2 [H2 Hf2]. split; [by etrans|done]. }
  apply wp_bind, wp_command; [done|done| |].
  - intros o w1 H1. destruct (is_nil (outage_error o)); [by apply Hnext; auto|]. split; auto.
  - intros w1 now r s' H1 Hcu1 Hx H2 H3. simpl in Hx.
    pose proof (unread_entries (streamKey q p) (w_redis w1)) as Hsub.
    pose proof (xreadgroup_take now consumer (streamKey q p) (max - Z.of_nat (length out)) (w_redis w1)) as Htake.
    pose proof (xreadgroup_entries now consumer (streamKey q p) (streamKey q p)
      (max - Z.of_nat (length out)) (w_redis w1)) as He.
    destruct (xreadgroup now consumer (streamKey q p) (max - Z.of_nat (length out)) (w_redis w1)) as [es s1].
    simpl in Htake, He. destruct es as [|e0 es]; injection Hx as <- <-.
    + simpl. apply Hnext; auto.
    + apply (wp_seq _ _ (fun out' w' => Forall (fun d => delivered d w') out'));
        [by eapply cares_custody| |intros out' w2 H4 _ Hf; apply Hnext; [by etrans|done]].
      apply wp_appendDeliveries; [by eapply cares_custody| |auto].
      apply sublist_seen; [by eapply cares_custody|]. simpl. rewrite He, Htake.
      etrans; [apply sublist_take|exact Hsub].
Qed.

Lemma read_streams_read now consumer n ks : forall s k es,
  (k, es) ∈ (read_streams now consumer ks n s).1 ->
  k ∈ ks /\ exists s1, (forall k', entries k' s1 = entries k' s) /\ sublist es (entries k s1).
Proof.
  induction ks as [|k0 ks IH]; intros s k es; simpl; [by intros ?%elem_of_nil|].
  pose proof (xreadgroup_entries now consumer k0) as He.
  pose proof (unread_entries k0 s) as Hsub. pose proof (xreadgroup_take now consumer k0 n s) as Htake.
  specialize (fun k' => He k' n s). destruct (xreadgroup now consumer k0 n s) as [es0 s1]. simpl in *.
  specialize (IH s1). destruct (read_streams now consumer ks n s1) as [rest s2]. simpl in *.
  intros Hin. assert (Hcase : (k, es) = (k0, es0) \/ (k, es) ∈ rest).
  { destruct es0; [by right|]. by apply elem_of_cons in Hin. }
  destruct Hcase as [[= -> ->]|Hr].
  - split; [by left|]. exists s. split; [done|]. rewrite Htake. etrans; [apply sublist_take|exact Hsub].
  - destruct (IH _ _ Hr) as (Hk & s3 & He3 & Hs3). split; [by right|]. exists s3. split; [|done].
    intros k'. by rewrite He3.
Qed.

Lemma wp_append_streams ss : forall out w,
  custody w -> Forall (fun x => exists p, p ∈ PriorityOrder /\ x.1 = streamKey q p /\
    Forall (fun m => seen p m w) x.2) ss ->
  Forall (fun d => delivered d w) out ->
  wp cares lawful (append_streams q out ss)
    (fun out' w' => cares w w' /\ Forall (fun d => delivered d w') out') w.
Proof.
  induction ss as [|[k es] ss IH]; intros out w Hcu Hss Hout; simpl; [split; [reflexivity|done]|].
  apply Forall_cons in Hss as [(p & Hp & Hk & Hes) Hss]. simpl in Hk, Hes. subst k.
  rewrite priorityOfStream_spec by done.
  apply (wp_seq _ _ (fun out' w' => Forall (fun d => delivered d w') out')); [done|by apply wp_appendDeliveries|].
  intros out' w1 H1 Hcu1 Hf. eapply wp_mono; [|apply IH; [done| |done]].
  - intros out2 w2 [H2 Hf2]. split; [by etrans|done].
  - eapply Forall_impl; [exact Hss|]. intros [k es'] (p' & Hp' & Hk & Hes'). exists p'.
    split_and!; [done|done|]. eapply Forall_impl; [exact Hes'|]. intros m. by apply seen_stable.
Qed.

Lemma stream_of_key k :
  k ∈ map (streamKey q) PriorityOrder -> exists p, p ∈ PriorityOrder /\ k = streamKey q p.
Proof. intros (p & <- & Hp%list_elem_of_In)%list_elem_of_In%in_map_iff. by exists p. Qed.

(** Every delivery a fetch hands out was read from its stream. *)
Lemma wp_Fetch consumer max block w :
  custody w ->
  wp cares lawful (Fetch q consumer max block)
    (fun r w' => cares w w' /\ Forall (fun d => delivered d w') r.1) w.
Proof.
  intros Hcu. unfold Fetch. remember (map (streamKey q) PriorityOrder) as ks eqn:Hks.
  apply (wp_seq _ _ (fun r w' => Forall (fun d => delivered d w') r.2.1)); [done|by apply wp_fetch_pass|].
  intros [fin [out err]] w1 H1 Hcu1 Hout. simpl in *. destruct fin; simpl; [by split|].
  destruct (_ || _); simpl; [by split|].
  assert (Hst : forall w', cares w1 w' -> Forall (fun d => delivered d w') out).
  { intros w' Hw. eapply Forall_impl; [exact Hout|]. intros d. by apply delivered_stable. }
  apply wp_bind, wp_command; [done|done| |].
  - intros o w2 H2. destruct (is_nil (outage_error o)); simpl; (split; [by etrans|auto]).
  - intros w2 now r s' H2 Hcu2 Hx H3 H4. cbn [exec_redis] in Hx.
    pose proof (read_streams_read now consumer max ks (w_redis w2)) as Hrd.
    pose proof (read_streams_same q now consumer ks max (w_redis w2)) as Hsm.
    destruct (read_streams now consumer ks max (w_redis w2)) as [ss s1].
    simpl in Hrd. assert (Hcu3 : custody (with_redis s' w2)) by (by eapply cares_custody).
    destruct ss as [|s0 ss]; injection Hx as <- <-; [simpl; split; [by etrans|auto]|].
    apply wp_bind. eapply wp_mono; [|apply wp_append_streams; [done| |auto]].
    + intros out' w4 [H5 Hf]. simpl. split; [etrans; [exact H1|by etrans]|done].
    + apply Forall_forall. intros [k es] Hin. destruct (Hrd k es Hin) as (Hk & s3 & He3 & Hs3).
      rewrite Hks in Hk. destruct (stream_of_key k Hk) as (p & Hp & ->). exists p.
      split_and!; [done|done|]. apply sublist_seen; [done|]. simpl.
      destruct (Hsm p) as (E & _). simpl in E. by rewrite E, <-He3.
Qed.

Lemma wp_reap_pass mi n ps : forall out w,
  custody w -> Forall (fun d => delivered d w) out ->
  wp cares lawful (reap_pass q mi n ps out)
    (fun r w' => cares w w' /\ Forall (fun d => delivered d w') r.1) w.
Proof.
  induction ps as [|p ps IH]; intros out w Hcu Hout; simpl; [split; [reflexivity|done]|].
  assert (Hst : forall w', cares w w' -> Forall (fun d => delivered d w') out).
  { intros w' Hw. eapply Forall_impl; [exact Hout|]. intros d. by apply delivered_stable. }
  assert (Hnext : forall out' w', cares w w' -> Forall (fun d => delivered d w') out' ->
    wp cares lawful (reap_pass q mi n ps out')
      (fun r w' => cares w w' /\ Forall (fun d => delivered d w') r.1) w').
  { intros out' w' Hw Hf. eapply wp_mono; [|apply IH; [by eapply cares_custody|done]].
    intros r w2 [H2 Hf2]. split; [by etrans|done]. }
  apply wp_bind, wp_command; [done|done| |].
  - intros o w1 H1. destruct (is_nil (outage_error o)); [by apply Hnext; auto|]. split; auto.
  - intros w1 now r s' H1 Hcu1 Hx H2 H3. simpl in Hx.
    pose proof (xautoclaim_sublist now ReaperConsumer (streamKey q p) mi n (w_redis w1)) as Hsub.
    pose proof (xautoclaim_entries now ReaperConsumer (streamKey q p) (streamKey q p) mi n (w_redis w1)) as He.
    destruct (xautoclaim now ReaperConsumer (streamKey q p) mi n (w_redis w1)) as [es s1].
    simpl in Hsub, He. injection Hx as <- <-.
    apply (wp_seq _ _ (fun out' w' => Forall (fun d => delivered d w') out'));
      [by eapply cares_custody| |intros out' w2 H4 _ Hf; apply Hnext; [by etrans|done]].
    apply wp_appendDeliveries; [by eapply cares_custody| |auto].
    apply sublist_seen; [by eapply cares_custody|]. simpl. by rewrite He.
Qed.

(** *** Rows *)

Lemma wp_row_query {A} (s : stmt (option A)) (Q : result error A -> World R -> Prop) w :
  custody w -> inserts_good s -> enqueues s = None -> stmt_ok s -> (forall db, stmt_budget s db) ->
  (forall e w', cares w w' -> is_no_rows e = false -> Q (Err e) w') ->
  (forall w1 now r db', cares w w1 -> custody w1 -> exec_stmt now s (w_db w1) = (r, db') ->
     cares w1 (with_db db' w1) -> cares w (with_db db' w1) ->
     Q (scan_row (sql_error r)) (with_db db' w1)) ->
  wp cares lawful (QueryRow s) Q w.
Proof.
  intros Hcu Hi He Hok Hb Herr HQ. unfold QueryRow. apply wp_bind, wp_statement; auto.
  - intros w1 _ _. split; [done|]. intros id. by rewrite He.
  - intros o w1 H1. simpl. apply Herr; [done|]. unfold is_no_rows. apply outage_not_sentinel. set_solver.
Qed.

(** The columns of a row that make an envelope. *)
Definition describes (r : Requeueable) w : Prop :=
  exists def, defined_as (rq_ID r) def (w_db w) /\ rq_ID r = d_id def /\ rq_Type r = d_type def /\
    rq_Queue r = d_queue def /\ rq_Priority r = d_priority def /\
    (rq_Payload r = EmptyString \/ rq_Payload r = d_payload def).

Lemma describes_stable r w w' : cares w w' -> describes r w -> describes r w'.
Proof.
  intros [He _] (def & Hd & Hcols). exists def. split; [|done]. by eapply evolves_defined_as.
Qed.

Lemma scanned_describes id row w :
  custody w -> jobs (w_db w) !! id = Some row -> describes (scanRequeueable row) w /\ rq_ID (scanRequeueable row) = id.
Proof.
  intros Hcu Hrow. destruct (wf_rows _ (proj1 (cu_db _ _ Hcu)) id row Hrow) as [_ Hid]. split; [|done].
  exists (r_def row). split; [exists row; simpl; by rewrite Hid|]. simpl. split_and!; try done.
  case_bool_decide; [by left|by right].
Qed.

(** An envelope with the columns of a row. *)
Lemma described_sendable r env w :
  custody w -> describes r w -> env_ID env = rq_ID r -> env_Type env = rq_Type r ->
  env_Queue env = rq_Queue r -> env_Priority env = rq_Priority r -> env_Payload env = rq_Payload r ->
  sendable_about env w.
Proof.
  intros Hcu (def & (row & Hrow & <-) & E1 & E2 & E3 & E4 & E5) H1 H2 H3 H4 H5.
  destruct (cu_defs _ _ Hcu _ _ Hrow). split; [|rewrite H1; by exists row].
  constructor; rewrite ?H1, ?H2, ?H3, ?H4, ?H5, ?E1, ?E2, ?E3, ?E4; auto.
  destruct E5 as [->| ->]; auto.
Qed.

Lemma wp_requeueEnvelope r n w :
  custody w -> describes r w ->
  wp cares lawful (requeueEnvelope r n)
    (fun env w' => cares w w' /\ sendable_about env w' /\ env_ID env = rq_ID r /\
       env_Priority env = rq_Priority r) w.
Proof.
  intros Hcu Hd. unfold requeueEnvelope. apply wp_bind, wp_clock. intros w1 now H1. simpl.
  split_and!; try done. eapply described_sendable; [by eapply cares_custody|by eapply describes_stable|done..].
Qed.

(** The column may be set: the job is queued, or was taken. *)
Definition ready id w : Prop :=
  exists def, defined_as id def (w_db w) /\
    (queued q id (d_priority def) (w_redis w) \/ taken id (w_db w)).

Lemma ready_stable id w w' : cares w w' -> ready id w -> ready id w'.
Proof.
  intros (He & [_ _ Qd _] & _) (def & Hd & Hq). exists def. split; [by eapply evolves_defined_as|].
  destruct Hq as [Hq|Ht]; [apply (Qd _ _ Hq)|right; by eapply evolves_taken].
Qed.

Lemma wp_SetEnqueued id sid w : custody w -> ready id w -> keeps (SetEnqueued id sid) w.
Proof.
  intros Hcu Hr. unfold SetEnqueued. apply wp_bind.
  apply (wp_mono _ _ _ (fun _ w' => cares w w')); [by intros|].
  apply wp_statement; [done|done|done| |by intros|by intros].
  intros w1 H1 _. split; [done|]. intros id' [= <-] row Hrow Hz.
  destruct (ready_stable _ _ _ H1 Hr) as (def & (row' & Hrow' & <-) & [Hq|(r & Hr2 & Ht)]);
    simplify_eq; [done|lia].
Qed.

Lemma behind_ready r env w w' :
  describes r w' -> env_ID env = rq_ID r -> env_Priority env = rq_Priority r ->
  behind env w w' -> ready (rq_ID r) w'.
Proof.
  intros (def & Hd & _ & _ & _ & Hp & _) Hid Hpr [Hq _]. exists def. split; [done|]. left.
  by rewrite <-Hp, <-Hpr, <-Hid.
Qed.

Lemma select_rows_In sel db (r : JobRow) : db_wf db -> r ∈ select_rows sel db -> jobs db !! d_id (r_def r) = Some r.
Proof.
  intros Hwf (_ & Hin)%list_elem_of_filter. apply list_elem_of_fmap in Hin as ([id r'] & -> & Hm).
  apply elem_of_map_to_list in Hm. simpl. by destruct (wf_rows _ Hwf id r' Hm) as [_ ->].
Qed.

Lemma elem_of_take' {A} n (l : list A) x : x ∈ take n l -> x ∈ l.
Proof. intros Hx. eapply elem_of_sublist; [exact Hx|apply sublist_take]. Qed.

(** The rows a sweep lists. *)
Lemma wp_list_requeueables prefix (s : stmt (list JobRow)) w :
  (forall now db, exists sel n, exec_stmt now s db = (Ok (take n (select_rows sel db)), db)) ->
  enqueues s = None -> inserts_good s -> stmt_ok s -> (forall db, stmt_budget s db) -> custody w ->
  wp cares lawful (list_requeueables prefix s)
    (fun r w' => cares w w' /\ match r with Ok rs => Forall (fun x => describes x w') rs | Err _ => True end) w.
Proof.
  intros Hsel He Hi Hok Hb Hcu. unfold list_requeueables. apply wp_bind.
  apply wp_bind, wp_statement; [done|done|done| |by intros|].
  - intros w1 _ _. split; [done|]. intros id. by rewrite He.
  - intros w1 now r db' H1 Hcu1 Hx _ H3. destruct (Hsel now (w_db w1)) as (sel & n & E).
    rewrite E in Hx. injection Hx as <- <-. simpl. split; [done|].
    apply Forall_forall. intros x (row & -> & Hin)%list_elem_of_fmap.
    apply (scanned_describes (d_id (r_def row))); [by eapply cares_custody|].
    simpl. eapply select_rows_In; [apply (cu_db _ _ Hcu1)|by eapply elem_of_take'].
Qed.

(** ** The leader *)

Lemma wp_ignore {A} (prg : prog A) w : keeps prg w -> keeps (ignore prg) w.
Proof. intros Hp. unfold ignore. apply wp_bind. eapply wp_mono; [|exact Hp]. done. Qed.

Lemma wp_for_each {A} (body : A -> prog unit) (P : A -> World R -> Prop) xs : forall w,
  (forall x w1 w2, cares w1 w2 -> P x w1 -> P x w2) ->
  (forall x w1, custody w1 -> P x w1 -> keeps (body x) w1) ->
  custody w -> Forall (fun x => P x w) xs -> keeps (for_each body xs) w.
Proof.
  induction xs as [|x xs IH]; intros w Hst Hb Hcu Hxs; simpl; [reflexivity|].
  apply Forall_cons in Hxs as [Hx Hxs]. apply (wp_seq _ _ (fun _ _ => True)); [done| |].
  - eapply wp_mono; [|by apply Hb]. by intros.
  - intros u w1 H1 Hcu1 _. eapply wp_mono; [|apply IH; auto].
    + intros u2 w2 H2. by etrans.
    + eapply Forall_impl; [exact Hxs|]. intros y. by apply Hst.
Qed.

Lemma with_attempt_sendable env n w : sendable_about env w -> sendable_about (with_attempt env n) w.
Proof. intros [[] Hk]. split; [by constructor|exact Hk]. Qed.
Lemma with_enqueued_at_sendable env t w : sendable_about env w -> sendable_about (with_enqueued_at env t) w.
Proof. intros [[] Hk]. split; [by constructor|exact Hk]. Qed.

Section leader.
Context (l : Leader).

Lemma wp_backoff n w : custody w -> keeps (backoff l n) w.
Proof. intros Hcu. apply wp_tame; [apply plain_backoff| |done]. unfold backoff. only_calls. Qed.

Lemma wp_into_delayed env t w : custody w -> sendable_about env w -> keeps (Queue.ScheduleRetry q env t) w.
Proof.
  intros Hcu Hse. unfold Queue.ScheduleRetry. apply wp_pure_ok; [intros text Het|done].
  eapply wp_mono; [|by apply wp_add_delayed]. by intros r w' [? _].
Qed.

Lemma wp_hand_over id res now msg mk w :
  custody w ->
  (forall w1, cares w w1 -> custody w1 ->
     wp cares lawful mk (fun envs w' => cares w1 w' /\ sendable_about envs.1 w') w1) ->
  keeps (hand_over q l id res now msg mk) w.
Proof.
  intros Hcu Hmk. unfold hand_over. apply wp_tame_seq; [done|..].
  1-2: apply only_ignore; eauto with only.
  intros u w1 H1 Hcu1. apply (wp_seq _ _ (fun envs w' => sendable_about envs.1 w')); [done|by apply Hmk|].
  intros envs w2 H2 Hcu2 Hse. assert (H02 : cares w w2) by (by etrans).
  destruct (bool_decide (NewStatus res = StatusRetrying)).
  - apply (wp_seq _ _ (fun _ _ => True)); [done| |].
    { eapply wp_mono; [|by apply wp_backoff]. by intros. }
    intros delay w3 H3 Hcu3 _. apply (keeps_from _ w w3); [by etrans|].
    apply wp_ignore, wp_into_delayed; [done|by eapply sendable_stable].
  - destruct (bool_decide _); [|exact H02]. apply (keeps_from _ w w2); [done|].
    apply wp_tame; [| |done]; apply only_ignore; eauto with only.
Qed.

Lemma wp_leader_ack d w :
  custody w -> deletable (del_Priority d) (del_EntryID d) w -> keeps (leader_ack q d) w.
Proof. intros Hcu Hd. by apply wp_ignore, wp_Ack. Qed.

Lemma wp_GetJob id w :
  custody w ->
  wp cares lawful (GetJob id)
    (fun r w' => cares w w' /\ match r with
       | Ok j => exists row, jobs (w_db w') !! id = Some row /\ j = scanJob row
       | Err _ => True end) w.
Proof.
  intros Hcu. unfold GetJob, getJobBy. apply wp_bind, wp_row_query; try done.
  - intros e w1 H1 Hn. rewrite Hn. by split.
  - intros w1 now r db' H1 Hcu1 Hx _ H3. simpl in Hx. injection Hx as <- <-. simpl.
    destruct (jobs (w_db w1) !! id) as [row|] eqn:Hrow; simpl; [|by split].
    split; [done|]. by exists row.
Qed.

Lemma wp_ReapJob id delay grace w :
  custody w ->
  wp cares lawful (ReapJob id delay grace)
    (fun r w' => cares w w' /\ match r with
       | Ok res => Reaped res = true -> taken id (w_db w')
       | Err _ => True end) w.
Proof.
  intros Hcu. unfold ReapJob. apply wp_bind, wp_row_query; try done.
  - intros e w1 H1 Hn. rewrite Hn. by split.
  - intros w1 now r db' H1 Hcu1 Hx _ H3. simpl in Hx.
    destruct (update_where id _ (row_reaped now delay) (w_db w1)) as [o db2] eqn:Hu.
    injection Hx as <- <-. destruct o as [row|]; simpl; [|by split].
    apply wp_tame_seq; [by eapply cares_custody|eauto with only|eauto with only|].
    intros u w2 H4 _. simpl. split; [by etrans|]. intros _.
    eapply gone_stable; [exact H4|]. simpl.
    pose proof (update_where_hit id (fun r => status_is StatusRunning r && lease_expired now grace r)
      (row_reaped now delay) (w_db w1) row) as Hhit.
    rewrite Hu in Hhit. destruct (Hhit eq_refl) as (r0 & Hr0 & _ & -> & Hj). simpl in Hj.
    eexists. rewrite Hj, lookup_insert_eq. split; [done|]. simpl.
    destruct (wf_rows _ (proj1 (cu_db _ _ Hcu1)) id r0 Hr0) as [[] _]. lia.
Qed.

(** The fresh delivery is on the wire before the old one goes. *)
Lemma wp_ackUnreaped d w : custody w -> delivered d w -> keeps (ackUnreaped q d) w.
Proof.
  intros Hcu Hdel. unfold ackUnreaped.
  apply (wp_seq _ _ (fun r w' => match r with
       | Ok j => exists row, jobs (w_db w') !! env_ID (del_Env d) = Some row /\ j = scanJob row
       | Err _ => True end)); [done|by apply wp_GetJob|].
  intros g w1 H1 Hcu1 Hg. assert (Hdel1 : delivered d w1) by (by eapply delivered_stable).
  destruct g as [j|e]; [|exact H1]. destruct Hg as (row & Hrow & ->). simpl.
  case_bool_decide as Hp.
  - apply wp_bind, wp_clock. intros w2 now H2.
    assert (Hdel2 : delivered d w2) by (by eapply delivered_stable).
    assert (Hcu2 : custody w2) by (by eapply cares_custody).
    destruct (delivered_sendable _ _ Hdel2) as [Hse Hpr].
    set (env := with_enqueued_at (with_attempt (del_Env d) _) now).
    apply (wp_seq _ _ (fun r w' => is_Ok r = true -> behind env w2 w')); [done| |].
    { apply wp_Enqueue; [done|]. by apply with_enqueued_at_sendable, with_attempt_sendable. }
    intros e w3 H3 Hcu3 Hb. assert (H03 : cares w w3) by (do 2 (etrans; [eassumption|]); done).
    destruct e as [sid|e]; [|exact H03].
    assert (Hdl : deletable (del_Priority d) (del_EntryID d) w3).
    { apply followed_deletable; [by eapply delivered_stable|]. rewrite <-Hpr.
      apply (proj2 (Hb eq_refl)). simpl. rewrite Hpr.
      by destruct Hdel2 as (e0 & (Hi & _) & <- & _). }
    apply wp_tame_seq; [done|eauto with only|eauto with only|]. intros u w4 H4 Hcu4.
    apply (keeps_from _ w w4); [by etrans|]. apply wp_leader_ack; [done|by eapply deletable_stable].
  - apply (keeps_from _ w w1); [done|]. apply wp_leader_ack; [done|]. apply taken_deletable; [done|].
    exists row. split; [done|].
    by apply (wf_touched _ (proj1 (wf_rows _ (proj1 (cu_db _ _ Hcu1)) _ row Hrow))).
Qed.

Lemma wp_reapOne d w : custody w -> delivered d w -> keeps (reapOne q l d) w.
Proof.
  intros Hcu Hdel. unfold reapOne. apply (wp_seq _ _ (fun _ _ => True)); [done| |].
  { eapply wp_mono; [|by apply wp_backoff]. by intros. }
  intros delay w1 H1 Hcu1 _.
  apply (wp_seq _ _ (fun r w' => match r with
       | Ok res => Reaped res = true -> taken (env_ID (del_Env d)) (w_db w')
       | Err _ => True end)); [done|by apply wp_ReapJob|].
  intros r w2 H2 Hcu2 Hr. assert (H02 : cares w w2) by (by etrans).
  assert (Hdel2 : delivered d w2) by (by eapply delivered_stable).
  destruct r as [res|e]; [|exact H02]. destruct (Reaped res); simpl.
  2: { apply (keeps_from _ w w2); [done|]. by apply wp_ackUnreaped. }
  apply wp_bind, wp_clock. intros w3 now H3. assert (Hcu3 : custody w3) by (by eapply cares_custody).
  apply (wp_seq _ _ (fun _ _ => True)); [done| |].
  - eapply wp_mono; [|apply wp_hand_over; [done|]]; [by intros|]. intros w4 H4 _. simpl.
    split; [reflexivity|]. apply with_attempt_sendable.
    eapply (delivered_sendable d). eapply delivered_stable; [|exact Hdel2]. by etrans.
  - intros u w4 H4 Hcu4 _. assert (H24 : cares w2 w4) by (by etrans).
    apply (keeps_from _ w w4); [by etrans|]. apply wp_leader_ack; [done|].
    apply taken_deletable; [by eapply delivered_stable|]. eapply gone_stable; [exact H24|by apply Hr].
Qed.

Lemma wp_reapAbandoned w : custody w -> keeps (reapAbandoned q l) w.
Proof.
  intros Hcu. unfold reapAbandoned.
  apply (wp_seq _ _ (fun r w' => Forall (fun d => delivered d w') r.1)); [done| |].
  { by apply wp_reap_pass. }
  intros [ds [e|]] w1 H1 Hcu1 Hds; [exact H1|]. apply (keeps_from _ w w1); [done|].
  apply (wp_for_each _ delivered); [intros d w2 w3; apply delivered_stable|apply wp_reapOne|done|exact Hds].
Qed.

Lemma wp_sweepOne r w : custody w -> describes r w -> keeps (sweepOne q l r) w.
Proof.
  intros Hcu Hd. unfold sweepOne. apply (wp_seq _ _ (fun _ _ => True)); [done| |].
  { eapply wp_mono; [|by apply wp_backoff]. by intros. }
  intros delay w1 H1 Hcu1 _. apply wp_tame_seq; [done|eauto with only|eauto with only|].
  intros x w2 H2 Hcu2. assert (H02 : cares w w2) by (by etrans).
  destruct x as [res|e]; [|exact H02]. destruct (Reaped res); simpl; [|exact H02].
  apply wp_bind, wp_clock. intros w3 now H3. assert (H03 : cares w w3) by (by etrans).
  apply (keeps_from _ w w3); [done|]. apply wp_hand_over; [by eapply cares_custody|].
  intros w4 H4 Hcu4. apply wp_bind. eapply wp_mono; [|apply wp_requeueEnvelope; [done|]].
  - intros env w5 (H5 & Hse & _). simpl. by split.
  - eapply describes_stable; [|exact Hd]. by etrans.
Qed.

Lemma wp_repairUnenqueuedOne r w : custody w -> describes r w -> keeps (repairUnenqueuedOne q r) w.
Proof.
  intros Hcu Hd. unfold repairUnenqueuedOne.
  apply (wp_seq _ _ (fun env w' => sendable_about env w' /\ env_ID env = rq_ID r /\
     env_Priority env = rq_Priority r)); [done|by apply wp_requeueEnvelope|].
  intros env w1 H1 Hcu1 (Hse & Hid & Hpr).
  apply (wp_seq _ _ (fun r w' => is_Ok r = true -> behind env w1 w')); [done|by apply wp_Enqueue|].
  intros e w2 H2 Hcu2 Hb. assert (H02 : cares w w2) by (by etrans).
  destruct e as [sid|e]; [|exact H02]. apply (wp_seq _ _ (fun _ _ => True)); [done| |].
  - eapply wp_mono; [|apply wp_ignore, wp_SetEnqueued; [done|]]; [by intros|].
    eapply behind_ready; [|exact Hid|exact Hpr|by apply Hb]. by eapply describes_stable.
  - intros u w3 H3 Hcu3 _. apply (keeps_from _ w w3); [by etrans|].
    apply wp_tame; [eauto with only|eauto with only|done].
Qed.

Lemma wp_repairStuckOne r w : custody w -> describes r w -> keeps (repairStuckOne q r) w.
Proof.
  intros Hcu Hd. unfold repairStuckOne.
  apply (wp_seq _ _ (fun env w' => sendable_about env w' /\ env_ID env = rq_ID r /\
     env_Priority env = rq_Priority r)); [done|by apply wp_requeueEnvelope|].
  intros env w1 H1 Hcu1 (Hse & _).
  apply (wp_seq _ _ (fun r w' => is_Ok r = true -> behind env w1 w')); [done|by apply wp_Enqueue|].
  intros e w2 H2 Hcu2 _. assert (H02 : cares w w2) by (by etrans).
  destruct e as [sid|e]; [|exact H02]. apply (keeps_from _ w w2); [done|].
  apply wp_tame; [| |done]; apply only_ignore; eauto with only.
Qed.

(** A sweep: list, then treat each row. *)
Lemma wp_sweep prefix (s : stmt (list JobRow)) body w :
  (forall now db, exists sel n, exec_stmt now s db = (Ok (take n (select_rows sel db)), db)) ->
  enqueues s = None -> inserts_good s -> stmt_ok s -> (forall db, stmt_budget s db) -> custody w ->
  (forall x w1, custody w1 -> describes x w1 -> keeps (body x) w1) ->
  keeps (rows <- list_requeueables prefix s ;;
         match rows with Err _ => Ret tt | Ok rs => for_each body rs end) w.
Proof.
  intros Hsel He Hi Hok Hb Hcu Hbody.
  apply (wp_seq _ _ (fun r w' => match r with
    | Ok rs => Forall (fun x => describes x w') rs | Err _ => True end)); [done|by apply wp_list_requeueables|].
  intros [rs|e] w1 H1 Hcu1 Hrs; [|exact H1]. apply (keeps_from _ w w1); [done|].
  apply (wp_for_each _ describes); [intros x w2 w3; apply describes_stable|done|done|done].
Qed.

Lemma wp_duties n w : custody w -> keeps (duties q l n) w.
Proof.
  intros Hcu. unfold duties.
  assert (Hwhen : forall b prg w1, custody w1 -> keeps prg w1 -> keeps (when b prg) w1)
    by (intros [] prg w1 _ Hp; [exact Hp|simpl; reflexivity]).
  assert (Hthen : forall (p1 p2 : prog unit) w1, custody w1 -> keeps p1 w1 ->
    (forall w2, custody w2 -> keeps p2 w2) -> keeps (p1 ;;; p2) w1).
  { intros p1 p2 w1 Hc1 Hp1 Hp2. apply (wp_seq _ _ (fun _ _ => True)); [done| |].
    - eapply wp_mono; [|exact Hp1]. by intros.
    - intros u w2 H2 Hc2 _. apply (keeps_from _ w1 w2); auto. }
  apply Hthen; [done| |].
  { apply Hwhen; [done|]. apply wp_tame; [apply plain_promote| |done].
    unfold promote. apply only_bind; [eauto with only|]. intros [[|e es] [e'|]]; only_calls; apply only_ignore; eauto with only. }
  intros w1 Hcu1. apply Hthen; [done|apply Hwhen; [done|by apply wp_reapAbandoned]|].
  intros w2 Hcu2. apply Hwhen; [done|]. apply Hthen; [done| |].
  { apply wp_sweep; try done; [by eauto|]. apply wp_sweepOne. }
  intros w3 Hcu3. apply Hthen; [done| |].
  { apply wp_sweep; try done; [by eauto|]. apply wp_repairUnenqueuedOne. }
  intros w4 Hcu4. apply Hthen; [done| |].
  { apply wp_sweep; try done; [by eauto|]. apply wp_repairStuckOne. }
  intros w5 Hcu5. apply wp_tame; [| |done]; apply only_ignore; eauto with only.
Qed.

Lemma wp_leader_run evs : forall st w, custody w -> keeps (leader_run q l evs st) w.
Proof.
  induction evs as [|ev evs IH]; intros st w Hcu; simpl; [reflexivity|].
  assert (Hstep : keeps (leader_step q l st ev) w).
  { destruct ev; simpl.
    - destruct (ls_isLeader st); [|simpl; reflexivity]. apply wp_tame; [| |done]; only_calls.
    - apply (wp_seq _ _ (fun _ _ => True)); [done| |].
      + eapply wp_mono; [|apply wp_tame; [| |done]]; [by intros|only_calls|only_calls].
      + intros [] w1 H1 Hcu1 _; [|exact H1]. apply (wp_seq _ _ (fun _ _ => True)); [done| |].
        * eapply wp_mono; [|by apply wp_duties]. by intros.
        * intros u w2 H2 _ _. simpl. by etrans.
    - apply wp_tame; [| |done]; unfold when; destruct (ls_isLeader st); only_calls; apply only_ignore; eauto with only. }
  apply (wp_seq _ _ (fun _ _ => True)); [done| |].
  - eapply wp_mono; [|exact Hstep]. by intros.
  - intros [st'|] w1 H1 Hcu1 _; [|exact H1]. apply (keeps_from _ w w1); [done|]. by apply IH.
Qed.
End leader.
End rules.
