(* ===== verification/Deployment.v ===== *)
(** * Deployment: the running system loses no unclaimed job

    [Lossless.v] put the leader and the fetches under the rule of [Custody.v];
    here the workers, the batcher and the API follow, and the headline theorem:
    in every reachable state of the whole system, a job that was handed to Redis
    and that nobody has claimed yet still has a delivery there. *)

From S2P Require Import Prelude Errors Json Decode Rfc3339 Encode Job Wire Requests Retry Database Rows Redis Effects Rely Threads.
From S2P Require Import Store Batch Queue Handler Runner Recovery Custody Lossless Pool Control Api System.
Local Open Scope string_scope.
Local Open Scope list_scope.
Local Open Scope Z_scope.
Local Open Scope prog_scope.

(** ** What follows a call, taken apart *)

Lemma wp_bind_inv {R : Type} `{!RedisServer R} (rely : World R -> World R -> Prop) pre {A B} (p : prog A) (f : A -> prog B) Q w :
  wp rely pre (free_bind p f) Q w -> wp rely pre p (fun a => wp rely pre (f a) Q) w.
Proof. apply wp_bind. Qed.

Section deployment.
Context {R : Type} `{!RedisServer R} `{HeadersSurvive} `{gt : GoText} (q : queue).
Implicit Types (w : World R) (d : Delivery).
Abbreviation cares := (cares q).
Abbreviation lawful := (lawful q).
Abbreviation custody := (custody q).
Abbreviation keeps prg w := (wp cares lawful prg (fun _ w' => cares w w') w).

(** What was proved under the weaker rely holds of careful programs here. *)
Lemma wp_lift {A} (prg : prog A) (Q : A -> World R -> Prop) w :
  only plain prg -> only (quiet q) prg -> custody w -> wp world_evolves no_pre prg Q w ->
  wp cares lawful prg (fun a w' => cares w w' /\ Q a w') w.
Proof.
  intros Hp Hq Hcu HQ.
  eapply (wp_weaken cares cares (fun B c w => lawful B c w /\ no_pre B c w) lawful); [done|by intros ??? []|].
  apply wp_and; [by apply wp_tame|]. eapply wp_weaken; [apply cares_evolves|done|exact HQ].
Qed.

(** ** The batcher *)

Lemma tx_quiet_bind {A B} (t : free stmt A) (f : A -> free stmt B) :
  tx_quiet t -> (forall a, tx_quiet (f a)) -> tx_quiet (free_bind t f).
Proof. induction t as [a|X s k IH]; simpl; [auto|]. intros (? & ? & Hk) Hf. split_and!; eauto. Qed.

Lemma flush_tx_quiet ops : tx_quiet (flush_tx ops).
Proof.
  unfold flush_tx. apply tx_quiet_bind; [unfold flush_completes; by destruct (filter _ ops)|].
  intros ids. apply tx_quiet_bind.
  - induction ops as [|o ops IH]; simpl; [done|]. destruct (is_complete o).
    + by apply tx_quiet_bind.
    + split_and!; [unfold op_stmt; by destruct (op_kind o)..|]. intros n. by apply tx_quiet_bind.
  - intros ap. simpl. split_and!; [done|done|]. intros _. by destruct (flush_events ap ops).
Qed.

Lemma quiet_flush ops : only (quiet (R:=R) q) (flush ops).
Proof.
  assert (Hone : only (quiet (R:=R) q) (flushOnce ops)) by (apply only_call; intros w; apply flush_tx_quiet).
  unfold flush. apply only_bind; [done|]. intros [ap|e]; [done|]. apply only_bind; [done|]. by intros [ap|e2].
Qed.

(** A recorder that only writes outcomes. *)
Definition quiet_recorder (rec : Recorder) : Prop :=
  forall id e p, @rec_call rec id e p -> only (quiet (R:=R) q) p.

Lemma quiet_SyncRecorder : quiet_recorder SyncRecorder.
Proof.
  intros id e p [| | | |]; simpl; unfold sync_after, sync_record; only_calls.
Qed.
Lemma quiet_BatchRecorder before after : quiet_recorder (BatchRecorder before after).
Proof.
  assert (Hs : forall o, only (quiet (R:=R) q) (submit before after o)).
  { intros o. unfold submit. apply only_bind; [apply quiet_flush|done]. }
  intros id e p [| | | |]; apply Hs.
Qed.
Lemma quiet_AwaitRecorder answer : quiet_recorder (AwaitRecorder answer).
Proof. by intros id e p [| | | |]. Qed.

(** ** A disciplined program, upgraded *)

(** What a program may send, given [I], beyond what is careful everywhere. *)
Definition calm (I : World R -> Prop) : forall B, cmd B -> Prop := fun B c =>
  forall w, custody w -> I w -> careful q B c w.

Lemma wp_upgrade {A} (I : World R -> Prop) (prg : prog A) (Q : A -> World R -> Prop) : forall w,
  (forall w1 w2, cares w1 w2 -> I w1 -> I w2) -> custody w -> I w ->
  only (calm I) prg -> wp world_evolves disciplined prg Q w ->
  wp cares lawful prg Q w.
Proof.
  induction prg as [a|B c k IH]; intros w HI Hcu Hw; simpl; [auto|]. intros [Hc Hk] Hd w1 t H1.
  destruct (Hd w1 t (cares_evolves _ _ _ H1)) as [Hdc Hdk].
  assert (Hcu1 : custody w1) by (by eapply cares_custody).
  assert (Hl : lawful B c w1) by (split; [done|]; apply Hc; eauto).
  split; [exact Hl|]. destruct (lawful_call q c t w1 Hcu1 Hl) as [Hcu2 H2]. apply IH; eauto.
Qed.

Lemma quiet_calm (I : World R -> Prop) {A} (prg : prog A) : only (quiet q) prg -> only (calm I) prg.
Proof. apply only_mono. intros B c Hc w _ _. apply Hc. Qed.

(** ** A delivery in the hands of a worker *)

Section run.
Context (rec : Recorder) (reg : Registry) (r : Runner) (d : Delivery).
Abbreviation jobID := (env_ID (del_Env d)).
Context (Hrec : quiet_recorder rec).

(** The delivery was read, and its job is taken. *)
Definition in_hand w : Prop := delivered q d w /\ taken jobID (w_db w).
Abbreviation calm := (calm in_hand).

Lemma in_hand_stable w1 w2 : cares w1 w2 -> in_hand w1 -> in_hand w2.
Proof. intros H12 [Hd Ht]. split; [by eapply delivered_stable|by eapply gone_stable]. Qed.

Lemma calm_ack : only calm (ack q d).
Proof.
  unfold ack, Ack. apply only_bind; [|done]. apply only_bind; [apply only_rdb; done|]. intros r1.
  apply only_bind; [|done]. apply only_rdb. intros w Hcu [Hd Ht]. exists (del_Priority d). split; [done|].
  by apply taken_deletable.
Qed.

Lemma calm_ScheduleRetry env t :
  env_Priority env = env_Priority (del_Env d) -> env_ID env = jobID ->
  env_Type env = env_Type (del_Env d) -> env_Queue env = env_Queue (del_Env d) ->
  env_Payload env = env_Payload (del_Env d) -> only calm (Queue.ScheduleRetry q env t).
Proof.
  intros E1 E2 E3 E4 E5. unfold Queue.ScheduleRetry.
  destruct (Encode env) as [text|e] eqn:Het; [|done]. unfold bind_ok. cbn [free_bind].
  apply only_Errorf, only_rdb. intros w Hcu [Hd _]. exists (env_Priority env). split; [done|]. intros env' Hdec.
  destruct (delivered_sendable q d w Hd) as [[[] Hk] _]. eapply encoded_placed; [|exact Het|exact Hdec].
  split; [by constructor; rewrite ?E1, ?E2, ?E3, ?E4, ?E5|by rewrite E2].
Qed.

Lemma quiet_observe o : only (quiet (R:=R) q) (observe r o).
Proof. unfold observe. only_calls. Qed.
#[local] Hint Resolve quiet_observe : only.
Lemma quiet_beat claim ttl : only (quiet (R:=R) q) (beat q r d claim ttl).
Proof. unfold beat. only_calls. Qed.
#[local] Hint Resolve quiet_beat : only.
Lemma quiet_exec_events claim ttl evs : forall st, only (quiet (R:=R) q) (exec_events q r d claim ttl evs st).
Proof. induction evs as [|[|e] evs IH]; intros st; only_calls. Qed.
#[local] Hint Resolve quiet_exec_events : only.
Lemma quiet_execute claim x sch : only (quiet (R:=R) q) (execute q reg r d claim x sch).
Proof. unfold execute. only_calls. Qed.

#[local] Hint Resolve calm_ack : only.
#[local] Hint Extern 1 (only (deployment.calm _) (observe _ _)) => (apply quiet_calm, quiet_observe) : only.
Lemma calm_settle a o : only calm (settle q r d a o).
Proof. unfold settle. only_calls. Qed.
#[local] Hint Resolve calm_settle : only.

Lemma calm_recorded id e p (k : result error bool -> prog unit) :
  @rec_call rec id e p -> (forall a, only calm (k a)) -> only calm (a <- p ;; k a).
Proof. intros Hp Hk. apply only_bind; [|done]. apply quiet_calm. by eapply Hrec. Qed.

Lemma calm_finish claim res err cause t : only calm (finish rec q r d claim res err cause t).
Proof.
  unfold finish. apply only_bind; [by apply only_now|]. intros now. set (oc := finish_outcome err cause).
  repeat (match goal with |- only _ (if ?b then _ else _) => destruct b end);
    try (eapply calm_recorded; [constructor|only_calls]; apply quiet_calm; eauto with only; fail);
    try (apply quiet_calm; only_calls; fail).
  - apply only_bind; [apply quiet_calm; only_calls|]. intros delay.
    eapply calm_recorded; [constructor|]. intros a. apply only_bind; [|only_calls].
    destruct a as [[]|]; try exact I. apply only_bind; [|done]. by apply calm_ScheduleRetry.
  - apply calm_settle.
Qed.

Lemma calm_after_claim sch c : only calm (after_claim rec q reg r d sch c).
Proof.
  destruct c as [[claim|]|e]; simpl; [|only_calls|done].
  apply only_bind; [apply quiet_calm, quiet_observe|]. intros _.
  destruct (Get reg _) as [x|]; [|apply calm_finish].
  apply only_bind; [apply quiet_calm, quiet_execute|]. intros ret. apply calm_finish.
Qed.

(** Once [ClaimJob] answered, the job is taken, by this worker or another. *)
Lemma wp_ClaimJob_takes wk ttl w :
  custody w -> known_in w jobID ->
  wp cares lawful (ClaimJob jobID wk ttl)
    (fun c w' => cares w w' /\ (is_Ok c = true -> taken jobID (w_db w'))) w.
Proof.
  intros Hcu Hk. unfold ClaimJob. apply wp_bind, wp_row_query; try done.
  - intros e w1 H1 Hn. rewrite Hn. by split.
  - intros w1 now x db' H1 Hcu1 Hx _ H3. simpl in Hx.
    pose proof (update_where_hit jobID claimable (row_claimed now wk ttl) (w_db w1)) as Hhit.
    pose proof (update_where_miss jobID claimable (row_claimed now wk ttl) (w_db w1)) as Hmiss.
    destruct (update_where jobID claimable (row_claimed now wk ttl) (w_db w1)) as [o db2].
    injection Hx as <- <-. destruct o as [row|]; simpl in *.
    + split; [done|]. intros _. destruct (Hhit row eq_refl) as (r0 & Hr0 & _ & -> & Hj).
      eexists. rewrite Hj, lookup_insert_eq. split; [done|]. simpl.
      destruct (wf_rows _ (proj1 (cu_db _ _ Hcu1)) jobID r0 Hr0) as [[] _]. lia.
    + split; [done|]. intros _. destruct (Hmiss ltac:(done)) as [-> Hno].
      destruct (known_stable q _ _ _ H1 Hk) as [row Hrow]. exists row. split; [done|].
      apply (wf_touched _ (proj1 (wf_rows _ (proj1 (cu_db _ _ Hcu1)) jobID row Hrow))).
      intros Hp. specialize (Hno row Hrow). unfold claimable, status_is in Hno. by rewrite Hp in Hno.
Qed.

Lemma wp_Run sch w :
  custody w -> delivered q d w -> RecorderKeeps R rec w ->
  wp cares lawful (Run rec q reg r d sch) (fun _ _ => True) w.
Proof.
  intros Hcu Hdel Hk. pose proof (wp_Run_disciplined rec q reg r d sch w Hk) as Hdisc.
  unfold Run in *. apply wp_bind_inv in Hdisc.
  assert (Hclaim : wp cares lawful (ClaimJob jobID (run_WorkerID r) (effective_leaseTTL reg r (env_Type (del_Env d))))
    (fun c w' => (cares w w' /\ (is_Ok c = true -> taken jobID (w_db w'))) /\
       wp world_evolves disciplined (after_claim rec q reg r d sch c) (fun _ _ => True) w') w).
  { eapply (wp_weaken cares cares (fun B c w => lawful B c w /\ disciplined B c w) lawful); [done|by intros ??? []|].
    apply wp_and; [apply wp_ClaimJob_takes; [done|apply (delivered_sendable q d w Hdel)]|].
    eapply wp_weaken; [apply cares_evolves|done|exact Hdisc]. }
  apply wp_bind. eapply wp_mono; [|exact Hclaim]. intros c w1 [[H1 Ht] Hd1].
  destruct c as [c|e]; [|done]. specialize (Ht eq_refl).
  apply (wp_upgrade in_hand); [by apply in_hand_stable|by eapply cares_custody| |apply calm_after_claim|exact Hd1].
  split; [by eapply delivered_stable|done].
Qed.
End run.

(** ** The API *)

Section api.
Context (s : Server).

(** The envelope of an admitted job that is in the table. *)
Lemma NewEnvelope_sendable j now w :
  admitted j -> ValidName (ID j) = true -> payload_embeddable (Payload j) -> known_in w (ID j) ->
  sendable_about (NewEnvelope j now) w.
Proof. intros [] Hid Hp Hk. split; [|done]. by constructor.
Qed.

(** The hand-off of a job, then its marker. *)
Lemma wp_submit_handoff j now w :
  custody w -> admitted j -> ValidName (ID j) = true -> payload_embeddable (Payload j) -> known_in w (ID j) ->
  (forall row, jobs (w_db w) !! ID j = Some row -> d_priority (r_def row) = Priority_ j) ->
  keeps (streamID <- Enqueue q (NewEnvelope j now) (ScheduledAt j) ;;
         match streamID with Err _ => Ret tt | Ok sid => _ <- SetEnqueued (ID j) sid ;; Ret tt end) w.
Proof.
  intros Hcu Hj Hid Hpl Hk Hpr.
  apply (wp_seq q _ _ (fun r w' => is_Ok r = true -> behind q (NewEnvelope j now) w w')); [done| |].
  { apply wp_Enqueue; [done|]. by apply NewEnvelope_sendable. }
  intros [sid|e] w1 H1 Hcu1 Hb; [|exact H1]. apply (keeps_from q _ w w1); [done|].
  apply wp_bind. eapply wp_mono; [|apply wp_SetEnqueued; [done|]]; [done|].
  destruct Hk as [row Hrow]. exists (r_def row). split.
  - eapply evolves_defined_as; [by apply H1|by exists row].
  - left. rewrite (Hpr _ Hrow). apply (Hb eq_refl).
Qed.

Lemma wp_handleSubmit uuid body w :
  custody w -> ValidName uuid = true -> keeps (handleSubmit q s uuid body) w.
Proof.
  intros Hcu Huuid. unfold handleSubmit.
  destruct (decode_submit (body_limit s) body) as [req| |err] eqn:Hbody; [|simpl; reflexivity..].
  apply decode_submit_payload in Hbody.
  destruct (negb _); [simpl; reflexivity|]. destruct (_ <? _); [simpl; reflexivity|].
  apply wp_bind, wp_clock. intros w1 now H1. assert (Hcu1 : custody w1) by (by eapply cares_custody).
  destruct (schedule_of req now) as [at_time|]; [|exact H1]. set (opts := Build_Options _ _ _ _ _).
  destruct (New uuid (sr_Type req) (sr_Payload req) opts now) as [j|e] eqn:Hnew; [|exact H1].
  destruct (proj2 (New_admits_iff _ _ _ _ _) j Hnew) as (Hadm & Hid & _ & Hpay & _).
  rewrite <-Hid in Huuid. rewrite <-Hpay in Hbody.
  apply (keeps_from q _ w w1); [done|].
  apply (wp_seq q _ _ _ _ _ Hcu1 (wp_lift _ _ w1 (plain_CreateJob j Hadm) (quiet_CreateJob q j Hadm Huuid Hbody)
    Hcu1 (wp_CreateJob j w1 Hadm (proj1 (cu_db _ _ Hcu1))))).
  intros [cr|e] w2 H2 Hcu2; [|intros _; exact H2].
  intros (_ & id & row & Hrow & HID & _ & _ & _ & _ & Hc & _).
  destruct (cr_Created cr); [|exact H2]. destruct (Hc eq_refl) as (E & _ & Hpr).
  rewrite E in HID. subst id. apply (keeps_from q _ w1 w2); [done|]. simpl.
  pose proof (wp_submit_handoff j now w2 Hcu2 Hadm Huuid Hbody ltac:(by exists row)
    ltac:(intros row' Hr'; congruence)) as Hoff.
  apply wp_bind_inv in Hoff. apply wp_bind. eapply wp_mono; [|exact Hoff]. intros sid w3 Hw3. apply wp_bind.
  eapply wp_mono; [|exact Hw3]. intros u w4 H4. apply (keeps_from q _ w2 w4); [exact H4|].
  apply wp_tame; [only_calls|only_calls|exact (cares_custody q _ _ H4 Hcu2)].
Qed.

Lemma quiet_with_job id k : (forall j, only (quiet (R:=R) q) (k j)) -> only (quiet (R:=R) q) (with_job id k).
Proof. intros Hk. unfold with_job, loadJob. only_calls. Qed.

Lemma wp_handleCancel id w : custody w -> keeps (handleCancel q id) w.
Proof. intros Hcu. apply wp_tame; [eauto with only| |done]. apply quiet_with_job. only_calls. Qed.

(** The row of a requeued dead letter: taken before, so the marker is free. *)
Lemma wp_RequeueDeadLetter id w :
  custody w ->
  wp cares lawful (RequeueDeadLetter id)
    (fun r w' => cares w w' /\ match r with
       | Ok (Some req) => describes req w' /\ ready q id w'
       | _ => True end) w.
Proof.
  intros Hcu. unfold RequeueDeadLetter. apply wp_bind, wp_row_query; try done.
  - intros e w1 H1 Hn. rewrite Hn. by split.
  - intros w1 now x db' H1 Hcu1 Hx _ H3. simpl in Hx.
    pose proof (update_where_hit id (status_is StatusDeadLetter) (row_requeued now) (w_db w1)) as Hhit.
    destruct (update_where id (status_is StatusDeadLetter) (row_requeued now) (w_db w1)) as [o db2].
    injection Hx as <- <-. destruct o as [row|]; simpl in *; [|by split].
    assert (Hcu2 : custody (with_db db2 w1)) by (by eapply cares_custody).
    destruct (Hhit row eq_refl) as (r0 & Hr0 & _ & -> & Hj).
    assert (Hrow : jobs db2 !! id = Some (row_requeued now r0)) by (by rewrite Hj, lookup_insert_eq).
    apply wp_tame_seq; [done|eauto with only|eauto with only|]. intros u w2 H2 _. simpl.
    split; [by etrans|]. split.
    + eapply describes_stable; [exact H2|]. by eapply (scanned_describes q id).
    + eapply ready_stable; [exact H2|]. exists (r_def r0). split; [by eexists|]. right.
      eexists. split; [exact Hrow|]. simpl.
      destruct (wf_rows _ (proj1 (cu_db _ _ Hcu1)) id r0 Hr0) as [[] _]. lia.
Qed.

Lemma wp_handleRequeueDLQ id w : custody w -> keeps (handleRequeueDLQ q id) w.
Proof.
  intros Hcu. unfold handleRequeueDLQ. eapply wp_seq; [done|by apply wp_RequeueDeadLetter|].
  intros [[req|]|e] w1 H1 Hcu1; [|intros _; exact H1..]. intros [Hd Hr].
  apply wp_bind, wp_clock. intros w2 now H2. assert (H02 : cares w w2) by (by etrans).
  assert (Hcu2 : custody w2) by (exact (cares_custody q _ _ H2 Hcu1)).
  apply (wp_seq q _ _ (fun _ w' => cares w w')); [done| |].
  - eapply wp_mono; [|apply wp_Enqueue; [done|]].
    + intros r w3 [H3 _]. split; [done|by etrans].
    + apply (described_sendable q req); [done|exact (describes_stable q req w1 w2 H2 Hd)|done..].
  - intros sid w3 H3 Hcu3 H03. apply (wp_seq q _ _ (fun _ w' => cares w w')); [done| |by intros].
    destruct sid as [sid|e]; [|by split]. apply wp_bind.
    eapply wp_mono; [|apply wp_SetEnqueued; [done|]].
    + intros u w4 H4. split; [done|]. by etrans.
    + eapply ready_stable; [|exact Hr]. by etrans.
Qed.
End api.

(** ** Everything that can be started *)

(** The processes of [System.v], with what they are given: the ids [job.New]
    draws are names, and the deliveries a worker runs were read from a stream. *)
Inductive lawful_process w : prog unit -> Prop :=
| lp_submit srv uuid body : ValidName uuid = true -> lawful_process w (ignore (handleSubmit q srv uuid body))
| lp_cancel id : lawful_process w (ignore (handleCancel q id))
| lp_requeue id : lawful_process w (ignore (handleRequeueDLQ q id))
| lp_run rec reg r d sch : delivered q d w -> RecorderKeeps R rec w -> quiet_recorder rec ->
    lawful_process w (Run rec q reg r d sch)
| lp_flush ops : Forall (op_budgeted (w_db w)) ops -> lawful_process w (ignore (flush ops))
| lp_fetch consumer max block : lawful_process w (ignore (Fetch q consumer max block))
| lp_heartbeat wi : lawful_process w (ignore (UpsertWorker wi))
| lp_leader l evs st : lawful_process w (leader_run q l evs st).

Lemma lawful_process_ok w p :
  custody w -> lawful_process w p -> wp cares lawful p (fun _ _ => True) w.
Proof.
  intros Hcu Hp. assert (Hig : forall A (prg : prog A), keeps prg w -> wp cares lawful (ignore prg) (fun _ _ => True) w).
  { intros A prg Hk. eapply wp_mono; [|by apply wp_ignore]. done. }
  destruct Hp.
  - by apply Hig, wp_handleSubmit.
  - by apply Hig, wp_handleCancel.
  - by apply Hig, wp_handleRequeueDLQ.
  - by apply wp_Run.
  - unfold ignore. apply wp_bind. apply (wp_upgrade (fun _ => True)); [done|done|done|apply quiet_calm, quiet_flush|].
    eapply wp_mono; [|by apply wp_flush_disciplined]. done.
  - apply Hig. eapply wp_mono; [|by apply wp_Fetch]. by intros r w1 [? _].
  - apply Hig. apply wp_tame; eauto with only.
  - eapply wp_mono; [|by apply wp_leader_run]. done.
Qed.

Lemma lawful_call_keeps B (c : cmd B) t w :
  custody w -> lawful B c w -> custody (step_call t c w).2 /\ cares w (step_call t c w).2.
Proof. apply lawful_call. Qed.

(** C1. No unclaimed job is lost. From any state in custody (an empty
    deployment is one), however many API servers, workers, batchers, fetches
    and recovery leaders run, in every interleaving, with every call free to
    fail before or after taking effect and every process free to die between
    two calls: a job whose row says it was handed to Redis
    ([enqueued_stream_id] is set) and that was never claimed, cancelled or
    reaped still has a delivery - a stream entry of its priority, or a member
    of its delayed set - that decodes to an envelope with its id. *)
Theorem unclaimed_never_lost (s : system R) w (id : string) (row : JobRow) :
  custody w -> reachable lawful_process w s ->
  jobs (w_db (sys_world s)) !! id = Some row ->
  r_enqueued_stream_id row <> None -> r_lease_epoch row = 0 ->
  queued q id (d_priority (r_def row)) (w_redis (sys_world s)).
Proof.
  intros Hcu Hr Hrow Hm He.
  destruct (reachable_ok lawful_process cares lawful custody lawful_call_keeps lawful_process_ok w s Hcu Hr)
    as [Hcu' _].
  apply (cu_queued _ _ Hcu'). by exists row.
Qed.
End deployment.

(** ** A concrete deployment, with the wire format of the program *)

Definition DemoWire : EnvelopeJSON := WireJSON (@time_Parse DemoText).
#[export] Instance DemoWire_survives : @HeadersSurvive DemoWire := WireJSON_survives _.

Lemma empty_custody : custody (H:=DemoWire) demo_queue (demo_world empty_db).
Proof.
  constructor.
  - apply empty_db_inv.
  - intros id r Hr. simpl in Hr. by rewrite lookup_empty in Hr.
  - constructor; intros p; simpl; [constructor|intros e env He; by apply elem_of_nil in He|].
    intros m env [x Hx]. vm_compute in Hx. discriminate.
  - intros id p (r & Hr & _). simpl in Hr. by rewrite lookup_empty in Hr.
Qed.

(** A submission runs, alone; then its job waits in the queue. *)
Lemma unclaimed_never_lost_witness :
  exists s row, reachable (lawful_process (H:=DemoWire) (gt:=DemoText) demo_queue) (demo_world empty_db) s /\
    jobs (w_db (sys_world s)) !! "u9" = Some row /\ r_enqueued_stream_id row <> None /\
    queued (H:=DemoWire) demo_queue "u9" (d_priority (r_def row)) (w_redis (sys_world s)).
Proof.
  destruct (reachable_run (lawful_process (H:=DemoWire) (gt:=DemoText) demo_queue)
    (handleSubmit (H:=DemoWire) (H0:=DemoText) demo_queue demo_server "u9" demo_body)
    (replicate 7 (fine 5)) (demo_world empty_db)) as (p' & Hr).
  { by apply (lp_submit (H:=DemoWire) (gt:=DemoText)). }
  eexists _, _. split; [exact Hr|]. split; [vm_compute; reflexivity|]. split; [discriminate|].
  apply (unclaimed_never_lost (H0:=DemoWire_survives) (gt:=DemoText) demo_queue _ (demo_world empty_db) "u9");
    [apply empty_custody|exact Hr|vm_compute; reflexivity|discriminate|reflexivity].
Defined.
