(* ===== verification/Repair.v ===== *)
(** * Repair: a sweep of the leader mends what it is for

    The safety of [Recovery.v] says that the leader breaks nothing.  Here is
    what it is there for: alone, with every call going through, one pass of
    each database sweep of [internal/recovery/recovery.go] takes back every
    [RUNNING] job whose lease ran out, puts every orphaned submission on the
    wire, and delivers every retry that got stuck. *)

From S2P Require Import Prelude Errors Rfc3339 Json Job Wire Retry Database Rows Redis Effects Rely Store.
From S2P Require Import Batch Queue Handler Runner Execution Recovery Custody Lossless Pool Control Api System Deployment.
Local Open Scope string_scope.
Local Open Scope list_scope.
Local Open Scope Z_scope.
Local Open Scope prog_scope.

(** ** Loops over a listing *)

Lemma goes_for_each {R : Type} `{!RedisServer R} (t0 : Time) {A} (body : A -> prog unit)
    (rel : World R -> World R -> Prop) `{!PreOrder rel} (P : A -> World R -> Prop) xs : forall w w0,
  (forall x w1 w2, rel w1 w2 -> P x w1 -> P x w2) ->
  (forall x w1, x ∈ xs -> rel w0 w1 -> goes t0 (body x) (fun _ w2 => rel w1 w2 /\ P x w2) w1) ->
  rel w0 w -> goes t0 (for_each body xs) (fun _ w' => rel w w' /\ Forall (fun x => P x w') xs) w.
Proof.
  induction xs as [|x xs IH]; intros w w0 Hst Hb Hw; simpl; [by split|]. apply goes_bind.
  eapply goes_mono; [|apply Hb; [by left|done]]. intros u w1 [H1 Hx]. simpl in *.
  eapply goes_mono; [|apply (IH w1 w0 Hst); [|by etrans]].
  - intros u2 w2 [H2 Hxs]. split; [by etrans|]. constructor; [by eapply Hst|done].
  - intros y w2 Hy Hw2. apply Hb; [by right|done].
Qed.

(** A listing within its limit is complete. *)
Lemma select_complete (sel sel' : JobRow -> bool) limit db id r :
  (forall r, sel r = true -> sel' r = true) -> Z.of_nat (length (select_rows sel' db)) <= limit ->
  jobs db !! id = Some r -> sel r = true -> r ∈ take (Z.to_nat limit) (select_rows sel db).
Proof.
  intros Hs Hlen Hr Hsel. assert (Hle : (length (select_rows sel db) <= length (select_rows sel' db))%nat).
  { unfold select_rows. apply sublist_length. clear -Hs. generalize ((map_to_list (jobs db)).*2) as l.
    induction l as [|x l IH]; [done|]. destruct (decide (sel x = true)) as [Hx|Hx].
    - rewrite !filter_cons_True by auto. by constructor.
    - rewrite filter_cons_False by done. destruct (decide (sel' x = true)).
      + rewrite filter_cons_True by done. by constructor.
      + by rewrite filter_cons_False. }
  rewrite take_ge by lia. unfold select_rows. apply list_elem_of_filter. split; [done|].
  apply list_elem_of_fmap. exists (id, r). split; [done|]. by apply elem_of_map_to_list.
Qed.

Section repair.
Context {R : Type} `{!RedisServer R} `{HeadersSurvive} (t0 : Time) (q : queue) (l : Leader).
Implicit Types (w : World R) (p : Priority).
Abbreviation drift w w' := (queue_drift q (fun _ => False) (w_redis w) (w_redis w')).

Lemma queued_drift w w' job p : drift w w' -> queued q job p (w_redis w) -> queued q job p (w_redis w').
Proof. intros [_ _ Hq _] Hjob. by destruct (Hq _ _ Hjob). Qed.

(** What touches neither the jobs nor the queue. *)
Definition still w w' : Prop := jobs (w_db w') = jobs (w_db w) /\ drift w w'.

Lemma goes_event id ev detail w : goes t0 (addEvent id ev detail) (fun _ w' => still w w') w.
Proof. apply goes_addEvent. intros es. split; [done|simpl; reflexivity]. Qed.

Lemma goes_attempt att w : goes t0 (ignore (RecordAttempt att)) (fun _ w' => still w w') w.
Proof.
  unfold ignore, RecordAttempt. apply goes_bind, goes_Errorf, goes_sql. intros now _. simpl.
  destruct (insert_attempt_row _ _ _ _) as [db'|] eqn:Hi; simpl; [|by split].
  split; [|simpl; reflexivity]. simpl. by apply insert_attempt_row_jobs in Hi.
Qed.

Lemma goes_dlq env msg w : goes t0 (ignore (Queue.DeadLetter q env msg)) (fun _ w' => still w w') w.
Proof.
  unfold ignore, Queue.DeadLetter. apply goes_bind.
  destruct (Encode env) as [text|e] eqn:Het; [|by split]. apply (goes_pure_ok t0 text); [done|].
  apply goes_bind, goes_now. intros t _ _.
  apply goes_ok, goes_Errorf, goes_rdb. intros now _. simpl.
  set (fs := [("j", text); ("error", msg); ("at", FormatRFC3339 t)]).
  pose proof (fun k => xadd_other (dlqKey q) k fs (w_redis w)) as He.
  pose proof (fun k => xadd_members (dlqKey q) k fs (w_redis w)) as Hm.
  pose proof (fun k i => xadd_issued (dlqKey q) k i fs (w_redis w)) as Hi.
  destruct (xadd (dlqKey q) fs (w_redis w)) as [i s1]. simpl in *. split; [done|]. simpl.
  apply (queue_same_moves q (fun _ => True) (fun _ => False)). intros p.
  assert (Hk : dlqKey q <> streamKey q p) by (intros E; by apply (stream_not_dlq q p)).
  split_and!; [by rewrite xtrim_other, He|by rewrite xtrim_members, Hm|].
  intros j Hj. by apply xtrim_issued, Hi.
Qed.

(** An envelope that goes out is queued from then on. *)
Definition sent w env w' : Prop :=
  jobs (w_db w') = jobs (w_db w) /\ drift w w' /\ queued q (env_ID env) (env_Priority env) (w_redis w').

Lemma placed_anyway env text env' :
  plain_headers env -> Encode env = Ok text -> DecodeEnvelope text = Ok env' ->
  placed (fun _ => True) (env_Priority env) env'.
Proof.
  intros Hp He Hd. destruct (decode_encode env text Hp He) as (e' & Hd' & Hp' & _ & Hpr).
  rewrite Hd' in Hd. injection Hd as <-. done.
Qed.

Lemma goes_add_delayed prefix env text t w :
  plain_headers env -> Encode env = Ok text ->
  goes t0 (add_delayed q prefix (env_Priority env) text t) (fun r w' => r = Ok tt /\ sent w env w') w.
Proof.
  intros Hp He. unfold add_delayed. apply goes_Errorf, goes_rdb. intros now _. simpl. split; [done|].
  destruct (decode_encode env text Hp He) as (e' & Hd & _ & Hid & _). split_and!; [done| |].
  - simpl. apply (zadd_moves q (fun _ => True)). intros env'. by apply placed_anyway.
  - right. exists text, e'. simpl. split; [|done]. rewrite zadd_members, lookup_insert_eq. by eexists.
Qed.

Lemma goes_ScheduleRetry env t w :
  plain_headers env -> writable env ->
  goes t0 (Queue.ScheduleRetry q env t) (fun r w' => r = Ok tt /\ sent w env w') w.
Proof.
  intros Hp Hw. destruct (encode_plain env Hp Hw) as [text He]. unfold Queue.ScheduleRetry.
  apply (goes_pure_ok t0 text); [done|]. by apply goes_add_delayed.
Qed.

Lemma goes_Enqueue env t w :
  plain_headers env -> writable env ->
  goes t0 (Enqueue q env t) (fun r w' => exists sid, r = Ok sid /\ sent w env w') w.
Proof.
  intros Hp Hw. destruct (encode_plain env Hp Hw) as [text Het]. unfold Enqueue.
  apply (goes_pure_ok t0 text); [done|]. apply goes_bind, goes_now. intros now _ _. destruct (now <? t).
  - apply goes_ok. eapply goes_mono; [|by apply (goes_add_delayed _ env)]. intros r w' [-> Hs]. simpl. eauto.
  - apply goes_Errorf, goes_rdb. intros now2 _. simpl.
    destruct (decode_encode env text Hp Het) as (e' & Hd & _ & Hid & _).
    pose proof (xadd_moves q (fun _ => True) (fun _ => False) (env_Priority env) [("j", text)] (w_redis w)) as Hmv.
    pose proof (xadd_entries (streamKey q (env_Priority env)) [("j", text)] (w_redis w)) as He.
    destruct (xadd (streamKey q (env_Priority env)) [("j", text)] (w_redis w)) as [sid s1].
    simpl in *. exists sid. split; [done|]. split_and!; [done|..].
    + apply Hmv. intros env'. by apply placed_anyway.
    + left. exists (sid, [("j", text)]). simpl. rewrite He. split; [apply elem_of_app; right; by left|].
      by exists e'.
Qed.

(** The columns of a listed row make an envelope of the program. *)
Definition listed (r : Requeueable) w : Prop := exists row,
  jobs (w_db w) !! rq_ID r = Some row /\ r = scanRequeueable row /\ good_def (r_def row).

(** A count that an [int] holds, and the next one (the column is an [INTEGER]). *)
Definition counts (row : JobRow) : bool := int_range (r_attempt_count row + 1).

Lemma listed_headers row n now :
  good_def (r_def row) ->
  let r := scanRequeueable row in
  plain_headers {| env_ID := rq_ID r; env_Type := rq_Type r; env_Queue := rq_Queue r;
    env_Priority := rq_Priority r; env_Attempt := n; env_Payload := rq_Payload r; env_EnqueuedAt := now |}.
Proof.
  intros []. constructor; simpl; try done. case_bool_decide; auto.
Qed.

(** Sweeps list rows, then treat each. *)
Lemma goes_sweep prefix (s : stmt (list JobRow)) (sel : Time -> JobRow -> bool) body
    (rel : World R -> World R -> Prop) `{!PreOrder rel} (P : JobRow -> World R -> Prop) w :
  (forall now db, exec_stmt now s db = (Ok (take (Z.to_nat batchSize) (select_rows (sel now) db)), db)) ->
  db_wf (w_db w) -> good_defs (w_db w) -> (forall id row, jobs (w_db w) !! id = Some row -> counts row = true) ->
  (forall row w1 w2, rel w1 w2 -> P row w1 -> P row w2) ->
  (forall id row w1, jobs (w_db w) !! id = Some row -> d_id (r_def row) = id -> good_def (r_def row) ->
     counts row = true -> rel w w1 -> goes t0 (body (scanRequeueable row)) (fun _ w2 => rel w1 w2 /\ P row w2) w1) ->
  goes t0 (rows <- list_requeueables prefix s ;;
           match rows with Err _ => Ret tt | Ok rs => for_each body rs end)
    (fun _ w' => exists now, t0 <= now /\
       forall row, row ∈ take (Z.to_nat batchSize) (select_rows (sel now) (w_db w)) -> P row w') w.
Proof.
  intros Hs Hwf Hg Hct Hst Hb. apply goes_bind. unfold list_requeueables. apply goes_ok, goes_Errorf, goes_sql.
  intros now Hle. rewrite Hs. simpl. set (rows := take _ _).
  replace (with_db (w_db w) w) with w by (by destruct w).
  assert (Hin : forall row, row ∈ rows -> jobs (w_db w) !! d_id (r_def row) = Some row /\ good_def (r_def row)).
  { intros row Hr%elem_of_take'. apply select_rows_In in Hr; [|done]. split; [done|by eapply Hg]. }
  eapply goes_mono; [|apply (goes_for_each t0 body rel (fun x w' => forall row, row ∈ rows ->
    x = scanRequeueable row -> P row w') (map scanRequeueable rows) w w)].
  - intros u w' [_ Hall]. exists now. split; [done|]. intros row Hr. rewrite Forall_forall in Hall.
    apply (Hall (scanRequeueable row)); [|done|done]. by apply list_elem_of_fmap_2.
  - intros x w1 w2 H12 H1 row Hr ->. eapply Hst; [exact H12|by apply H1].
  - intros x w1 (row & -> & Hr)%list_elem_of_fmap H1. destruct (Hin _ Hr) as [Hrow Hgd].
    eapply goes_mono; [|eapply Hb; [exact Hrow|done|done|by eapply Hct|done]]. intros u w2 [H2 HP]. split; [done|].
    intros row' Hr' E. destruct (Hin _ Hr') as [Hrow' _].
    assert (Hid : d_id (r_def row) = d_id (r_def row')) by (apply (f_equal rq_ID) in E; exact E).
    rewrite Hid, Hrow' in Hrow. by injection Hrow as <-.
  - reflexivity.
Qed.

(** ** Orphaned submissions *)

(** Markers are set and never cleared; nothing else of a row changes. *)
Definition marked w w' : Prop :=
  (forall i r, jobs (w_db w) !! i = Some r -> exists r', jobs (w_db w') !! i = Some r' /\
     r_def r' = r_def r /\ r_status r' = r_status r /\ r_lease_epoch r' = r_lease_epoch r /\
     (r_enqueued_stream_id r <> None -> r_enqueued_stream_id r' <> None)) /\ drift w w'.

#[global] Instance marked_preorder : PreOrder marked.
Proof.
  split.
  - intros w. split; [|reflexivity]. intros i r Hr. by exists r.
  - intros w1 w2 w3 [H1 D1] [H2 D2]. split; [|by etrans]. intros i r Hr.
    destruct (H1 _ _ Hr) as (r1 & Hr1 & E1 & E2 & E3 & E4).
    destruct (H2 _ _ Hr1) as (r2 & Hr2 & F1 & F2 & F3 & F4).
    exists r2. split_and!; [done|congruence..|auto].
Qed.

Lemma still_marked w w' : still w w' -> marked w w'.
Proof. intros [Hj Hd]. split; [|done]. intros i r Hr. exists r. by rewrite Hj. Qed.

(** The job waits in the queue, and its row says so. *)
Definition on_the_wire (row : JobRow) w : Prop :=
  queued q (d_id (r_def row)) (d_priority (r_def row)) (w_redis w) /\
  exists r', jobs (w_db w) !! d_id (r_def row) = Some r' /\ r_enqueued_stream_id r' <> None /\
    r_status r' = r_status row.

Lemma on_the_wire_marked row w w' : marked w w' -> on_the_wire row w -> on_the_wire row w'.
Proof.
  intros [Hr Hd] [Hq (r & Hrow & Hm & Hst)]. split; [by eapply queued_drift|].
  destruct (Hr _ _ Hrow) as (r' & Hrow' & _ & E & _ & Hm'). exists r'. split_and!; [done|auto|congruence].
Qed.

Lemma goes_repairUnenqueuedOne id row w w1 :
  jobs (w_db w) !! id = Some row -> d_id (r_def row) = id -> good_def (r_def row) -> counts row = true -> marked w w1 ->
  goes t0 (repairUnenqueuedOne q (scanRequeueable row))
    (fun _ w2 => marked w1 w2 /\ on_the_wire row w2) w1.
Proof.
  intros Hrow Hid Hg Hct [Hm _]. destruct (Hm _ _ Hrow) as (r1 & Hr1 & Hd1 & Hs1 & _ & _).
  unfold repairUnenqueuedOne, requeueEnvelope. apply goes_bind, goes_bind, goes_now. intros now _ Hy. simpl.
  apply goes_bind. eapply goes_mono; [|apply goes_Enqueue; [by apply listed_headers|by split]].
  intros r w2 (sid & -> & Hj2 & Hd2 & Hq2). simpl in Hq2.
  assert (H12 : marked w1 w2) by (by apply still_marked).
  apply goes_bind, goes_bind. unfold SetEnqueued. apply goes_Errorf, goes_sql. intros now2 _. simpl.
  rewrite Hid. set (f := row_enqueued now2 sid).
  assert (Hset : exists db3, (update_where id (fun r => bool_decide (r_enqueued_stream_id r = None)) f (w_db w2)).2 = db3 /\
    marked w1 (with_db db3 w2) /\ on_the_wire row (with_db db3 w2)).
  { eexists. split; [done|]. unfold update_where. rewrite Hj2, Hr1. case_bool_decide as Hn; simpl.
    - split.
      + split; [|exact Hd2]. intros i r Hr. simpl. destruct (decide (i = id)) as [->|Hne].
        * exists (f r1). rewrite Hr1 in Hr. injection Hr as <-. by rewrite lookup_insert_eq.
        * exists r. by rewrite lookup_insert_ne, Hr.
      + split; [exact Hq2|]. exists (f r1). simpl. rewrite Hid, lookup_insert_eq. by split_and!.
    - replace (with_db (w_db w2) w2) with w2 by (by destruct w2). split; [done|].
      split; [exact Hq2|]. exists r1. rewrite Hid, Hj2. by split_and!. }
  destruct Hset as (db3 & E & H13 & Hon). destruct (update_where id _ f (w_db w2)) as [o db3']. simpl in *. subst db3'.
  eapply goes_mono; [|apply goes_event]. intros u w4 H4%still_marked.
  split; [by etrans|by eapply on_the_wire_marked].
Qed.

(** ** Stuck retries *)

(** Rows only go from [RETRYING] back to [PENDING]. *)
Definition released w w' : Prop :=
  (forall i r, jobs (w_db w) !! i = Some r -> exists r', jobs (w_db w') !! i = Some r' /\
     r_def r' = r_def r /\ (r' = r \/ r_status r' = StatusPending /\ r_status r = StatusRetrying)) /\ drift w w'.

#[global] Instance released_preorder : PreOrder released.
Proof.
  split.
  - intros w. split; [|reflexivity]. intros i r Hr. exists r. auto.
  - intros w1 w2 w3 [H1 D1] [H2 D2]. split; [|by etrans]. intros i r Hr.
    destruct (H1 _ _ Hr) as (r1 & Hr1 & E1 & C1). destruct (H2 _ _ Hr1) as (r2 & Hr2 & E2 & C2).
    exists r2. split_and!; [done|congruence|].
    destruct C1 as [->|[A1 B1]]; [exact C2|]. right. destruct C2 as [->|[A2 B2]]; [done|by split].
Qed.

Definition delivered_again (row : JobRow) w : Prop :=
  queued q (d_id (r_def row)) (d_priority (r_def row)) (w_redis w) /\
  (r_status row = StatusRetrying -> exists r', jobs (w_db w) !! d_id (r_def row) = Some r' /\
     r_status r' = StatusPending).

Lemma delivered_again_released row w w' : released w w' -> delivered_again row w -> delivered_again row w'.
Proof.
  intros [Hr Hd] [Hq Hp]. split; [by eapply queued_drift|]. intros Hst.
  destruct (Hp Hst) as (r & Hrow & E). destruct (Hr _ _ Hrow) as (r' & Hrow' & _ & [->|[E' _]]); eauto.
Qed.

Lemma goes_repairStuckOne id row w w1 :
  jobs (w_db w) !! id = Some row -> d_id (r_def row) = id -> good_def (r_def row) -> counts row = true -> released w w1 ->
  goes t0 (repairStuckOne q (scanRequeueable row))
    (fun _ w2 => released w1 w2 /\ delivered_again row w2) w1.
Proof.
  intros Hrow Hid Hg Hct [Hm _]. destruct (Hm _ _ Hrow) as (r1 & Hr1 & Hd1 & Hs1).
  unfold repairStuckOne, requeueEnvelope. apply goes_bind, goes_bind, goes_now. intros now _ Hy. simpl.
  apply goes_bind. eapply goes_mono; [|apply goes_Enqueue; [by apply listed_headers|by split]].
  intros r w2 (sid & -> & Hj2 & Hd2 & Hq2). simpl in Hq2.
  apply goes_bind. apply goes_Errorf, goes_sql. intros now2 _. simpl. rewrite Hid.
  assert (Hlook : forall i, jobs (w_db w2) !! i = jobs (w_db w1) !! i) by (by rewrite Hj2).
  split; [split; [|exact Hd2]|split; [exact Hq2|]].
  - intros i r Hr. simpl. rewrite map_lookup_imap, Hlook, Hr. simpl. eexists. split; [done|].
    unfold promoted_hit. destruct (bool_decide _ && status_is StatusRetrying r) eqn:Hp; [|auto].
    apply andb_true_iff in Hp as [_ Hp]. unfold status_is in Hp. apply bool_decide_eq_true in Hp. auto.
  - intros Hst. simpl. rewrite Hid, map_lookup_imap, Hlook, Hr1. simpl. eexists. split; [done|].
    unfold promoted_hit. rewrite bool_decide_eq_true_2 by (by left). simpl.
    destruct Hs1 as [->|[Hp _]].
    + unfold status_is. by rewrite bool_decide_eq_true_2.
    + unfold status_is. rewrite bool_decide_eq_false_2 by (by rewrite Hp). done.
Qed.

(** ** Expired leases *)

(** What taking a running job back makes of it. *)
Definition taken_back (id : string) (r : JobRow) w : Prop :=
  exists r', jobs (w_db w) !! id = Some r' /\ r_def r' = r_def r /\
    r_lease_epoch r' = r_lease_epoch r + 1 /\ r_lease_expires_at r' = None /\
    r_status r' = (if exhausted r then StatusDeadLetter else StatusRetrying) /\
    (exhausted r = false -> queued q id (d_priority (r_def r)) (w_redis w)).

Definition reaped w w' : Prop :=
  (forall i r, jobs (w_db w) !! i = Some r ->
     jobs (w_db w') !! i = Some r \/ r_status r = StatusRunning /\ taken_back i r w') /\ drift w w'.

Lemma taken_back_reaped id r w w' : reaped w w' -> taken_back id r w -> taken_back id r w'.
Proof.
  intros [Hr Hd] (r' & Hrow & E1 & E2 & E3 & E4 & Hq). exists r'.
  destruct (Hr _ _ Hrow) as [Hrow'|[Hrun _]]; [|rewrite E4 in Hrun; by destruct (exhausted r)].
  split_and!; try done. intros Hx. eapply queued_drift; [exact Hd|auto].
Qed.

#[global] Instance reaped_preorder : PreOrder reaped.
Proof.
  split.
  - intros w. split; [|reflexivity]. auto.
  - intros w1 w2 w3 [H1 D1] H23. split; [|etrans; [exact D1|apply H23]]. intros i r Hr.
    destruct (H1 _ _ Hr) as [Hr1|[Hrun Hb]]; [by apply H23|]. right. split; [done|].
    by eapply taken_back_reaped.
Qed.

Lemma still_reaped w w' : still w w' -> reaped w w'.
Proof. intros [Hj Hd]. split; [|done]. intros i r Hr. left. by rewrite Hj. Qed.

Definition stale (now : Time) (row : JobRow) : bool :=
  status_is StatusRunning row && lease_expired now (ld_SweepGrace l) row.

Lemma stale_later now row : t0 <= now -> stale t0 row = true -> stale now row = true.
Proof.
  unfold stale, lease_expired. intros Hle [Hs He]%andb_true_iff. rewrite Hs. simpl.
  destruct (r_lease_expires_at row); [|done]. apply Z.ltb_lt in He. apply Z.ltb_lt. lia.
Qed.

(** The queue's side of a job that was taken back. *)
Lemma goes_hand_over id row row' prev now msg w :
  good_def (r_def row) -> d_id (r_def row) = id -> counts row' = true -> r_def row' = r_def row ->
  r_status row' = (if exhausted row then StatusDeadLetter else StatusRetrying) ->
  goes t0 (hand_over q l id (reap_result row' prev) now msg
      (env <- requeueEnvelope (scanRequeueable row) (rr_Attempt (reap_result row' prev) + 1) ;; Ret (env, env)))
    (fun _ w' => still w w' /\
       (exhausted row = false -> queued q id (d_priority (r_def row)) (w_redis w'))) w.
Proof.
  intros Hg Hid Hct Hdef Hst. unfold hand_over, requeueEnvelope. apply goes_bind.
  eapply goes_mono; [|apply goes_attempt]. intros u w1 H1. apply goes_bind, goes_bind, goes_bind, goes_now.
  intros t _ Hy. simpl. rewrite Hst. destruct (exhausted row) eqn:Hx.
  - rewrite (bool_decide_eq_false_2 (StatusDeadLetter = StatusRetrying)) by done.
    rewrite (bool_decide_eq_true_2 (StatusDeadLetter = StatusDeadLetter)) by done.
    eapply goes_mono; [|apply goes_dlq]. intros u2 w2 H2. split; [|done].
    destruct H1 as [J1 D1], H2 as [J2 D2]. split; [congruence|by etrans].
  - rewrite (bool_decide_eq_true_2 (StatusRetrying = StatusRetrying)) by done.
    apply goes_bind. unfold backoff. apply goes_bind, goes_rand. intros v. simpl.
    unfold ignore. apply goes_bind. eapply goes_mono; [|apply goes_ScheduleRetry; [by apply listed_headers|by split]].
    intros r w2 [-> (J2 & D2 & Q2)]. destruct H1 as [J1 D1]. simpl in Q2.
    split; [split; [congruence|by etrans]|]. intros _. by rewrite <-Hid.
Qed.

Lemma goes_sweepOne id row w w1 :
  jobs (w_db w) !! id = Some row -> d_id (r_def row) = id -> good_def (r_def row) -> counts row = true -> reaped w w1 ->
  goes t0 (sweepOne q l (scanRequeueable row))
    (fun _ w2 => reaped w1 w2 /\ (stale t0 row = true -> taken_back id row w2)) w1.
Proof.
  intros Hrow Hid Hg Hct H01. unfold sweepOne, backoff. apply goes_bind, goes_bind, goes_rand. intros v. simpl.
  rewrite Hid. set (delay := Delay _ _ _). unfold ReapJob. apply goes_bind, goes_bind, goes_QueryRow.
  intros now Hle. simpl. unfold update_where. destruct (proj1 H01 _ _ Hrow) as [Hr1|[Hrun Hb]].
  - rewrite Hr1. fold (stale now row). destruct (stale now row) eqn:Hst; simpl.
    + apply goes_bind. eapply goes_mono; [|apply goes_event]. intros u w2 [J2 D2]. simpl in J2.
      apply goes_bind, goes_now. intros t _ _. set (row' := row_reaped now delay row) in *.
      eapply goes_mono; [|apply (goes_hand_over id row row'); done]. intros u2 w3 [[J3 D3] Hq].
      assert (Hb : taken_back id row w3).
      { exists row'. rewrite J3, J2, lookup_insert_eq. by split_and!. }
      split; [|done]. split; [|by etrans]. intros i r Hr. rewrite J3, J2.
      destruct (decide (i = id)) as [->|Hne]; [|left; by rewrite lookup_insert_ne].
      rewrite Hr1 in Hr. injection Hr as <-. right. split; [|done].
      apply andb_true_iff in Hst as [Hst _]. unfold status_is in Hst. by apply bool_decide_eq_true in Hst.
    + replace (with_db (w_db w1) w1) with w1 by (by destruct w1). split; [reflexivity|].
      intros Hst0. by rewrite (stale_later now row Hle Hst0) in Hst.
  - destruct Hb as (r' & Hr' & E1 & E2 & E3 & E4 & Hq). rewrite Hr'.
    assert (Hno : status_is StatusRunning r' = false).
    { unfold status_is. apply bool_decide_eq_false. rewrite E4. by destruct (exhausted row). }
    rewrite Hno. simpl. replace (with_db (w_db w1) w1) with w1 by (by destruct w1).
    split; [reflexivity|]. intros _. exists r'. by split_and!.
Qed.
End repair.

(** ** The theorem *)

(** A submission nobody put on the wire. *)
Definition unsent (r : JobRow) : bool :=
  status_is StatusPending r && bool_decide (r_enqueued_stream_id r = None).
Definition orphan (older : Duration) (now : Time) (r : JobRow) : bool :=
  unsent r && (r_scheduled_at r <=? now) && (d_created_at (r_def r) <? now - older).
(** A retry that is overdue. *)
Definition stuck (older : Duration) (now : Time) (r : JobRow) : bool :=
  status_is StatusRetrying r && (r_scheduled_at r <? now - older).

(** C8. The sweeps repair. From a well-formed database, alone and with every
    call going through at times from [t0] on, as long as there are at most 256
    candidates: one pass of [sweepStaleRunning] takes back every [RUNNING] job
    whose lease had run out by more than the grace at [t0] - into the delayed
    set while it has attempts left, else dead-lettered, with the epoch moved on
    in either case; one pass of [repairUnenqueued] puts every [PENDING] job
    that was due, old enough and never enqueued into the queue, and marks it;
    one pass of [repairStuckRetrying] puts every overdue retry into the queue
    and makes it [PENDING]. *)
Theorem sweeps_repair {R : Type} `{!RedisServer R} `{HeadersSurvive} (t0 : Time) (q : queue)
    (l : Leader) (w : World R) :
  db_wf (w_db w) -> good_defs (w_db w) -> (forall id row, jobs (w_db w) !! id = Some row -> counts row = true) ->
  Z.of_nat (length (select_rows (fun r => status_is StatusRunning r || unsent r || status_is StatusRetrying r)
    (w_db w))) <= batchSize ->
  goes t0 (sweepStaleRunning q l) (fun _ w' => forall id row,
    jobs (w_db w) !! id = Some row -> stale l t0 row = true -> taken_back q id row w') w /\
  goes t0 (repairUnenqueued q l) (fun _ w' => forall id row,
    jobs (w_db w) !! id = Some row -> orphan (ld_OrphanAge l) t0 row = true -> on_the_wire q row w') w /\
  goes t0 (repairStuckRetrying q l) (fun _ w' => forall id row,
    jobs (w_db w) !! id = Some row -> stuck (ld_OrphanAge l) t0 row = true -> delivered_again q row w') w.
Proof.
  intros Hwf Hg Hct Hlen.
  assert (Hall : forall (sel : JobRow -> bool) id row, jobs (w_db w) !! id = Some row -> sel row = true ->
    (forall r, sel r = true -> status_is StatusRunning r || unsent r || status_is StatusRetrying r = true) ->
    row ∈ take (Z.to_nat batchSize) (select_rows sel (w_db w))).
  { intros sel id row Hr Hs Hsub. eapply select_complete; [exact Hsub|exact Hlen|exact Hr|exact Hs]. }
  split_and!.
  - eapply goes_mono; [|apply (goes_sweep t0 _ _ (fun now => stale l now) _ (reaped q)
      (fun row w' => stale l t0 row = true -> taken_back q (d_id (r_def row)) row w')); try done].
    + intros u w' (now & Hle & Hin) id row Hr Hs. destruct (wf_rows _ Hwf _ _ Hr) as [_ <-].
      apply Hin; [|done]. eapply (Hall _ _ _ Hr); [by eapply stale_later|].
      intros r [Hr' _]%andb_true_iff. by rewrite Hr'.
    + intros row w1 w2 H12 H1 Hs. eapply taken_back_reaped; eauto.
    + intros id row w1 Hr Hid Hgd Hc H1. rewrite Hid. by eapply goes_sweepOne.
  - eapply goes_mono; [|apply (goes_sweep t0 _ _ (fun now => orphan (ld_OrphanAge l) now) _ (marked q) (on_the_wire q)); try done].
    + intros u w' (now & Hle & Hin) id row Hr Hs. apply Hin. eapply (Hall _ _ _ Hr).
      * unfold orphan in *. rewrite !andb_true_iff, Z.leb_le, Z.ltb_lt in *. split_and!; [apply Hs|lia..].
      * unfold orphan. intros r [[Hu _]%andb_true_iff _]%andb_true_iff. rewrite Hu.
        by destruct (status_is StatusRunning r).
    + intros row w1 w2 H12 H1. by eapply on_the_wire_marked.
    + intros. by eapply goes_repairUnenqueuedOne.
  - eapply goes_mono; [|apply (goes_sweep t0 _ _ (fun now => stuck (ld_OrphanAge l) now) _ (released q) (delivered_again q)); try done].
    + intros u w' (now & Hle & Hin) id row Hr Hs. apply Hin. eapply (Hall _ _ _ Hr).
      * unfold stuck in *. rewrite !andb_true_iff, !Z.ltb_lt in *. split; [apply Hs|lia].
      * unfold stuck. intros r [Hu _]%andb_true_iff. rewrite Hu. by rewrite orb_true_r.
    + intros row w1 w2 H12 H1. by eapply delivered_again_released.
    + intros. by eapply goes_repairStuckOne.
Qed.

(** ** Witness *)

Definition demo_leader : Leader :=
  {| ld_ReapMinIdle := Minute; ld_SweepGrace := 30 * Second; ld_OrphanAge := Minute;
     ld_Backoff := {| base := Second; cap := Minute |}; ld_ID := "l1" |}.

(** An orphan, an hour old, is on the wire after one pass. *)
Lemma sweeps_repair_witness :
  exists n a w' row, run (repairUnenqueued (H:=DemoWire) demo_queue demo_leader) (replicate n (fine Hour))
      (demo_world demo_inserted) = (Some a, w') /\
    jobs demo_inserted !! "j1" = Some row /\ on_the_wire (H:=DemoWire) demo_queue row w'.
Proof.
  assert (Hwf : db_wf demo_inserted).
  { apply (evolves_wf empty_db); [|apply empty_db_wf].
    eapply (evolves_step 0 (InsertJob demo_job "{}")). exact demo_job_admitted. }
  assert (Hg : good_defs demo_inserted).
  { apply (good_defs_exec 0 (InsertJob demo_job "{}")); [exact demo_job_admitted|split; [done|by eexists]|].
    intros id r Hr. simpl in Hr. by rewrite lookup_empty in Hr. }
  destruct (sweeps_repair (H0:=DemoWire_survives) Hour demo_queue demo_leader (demo_world demo_inserted))
    as (_ & Hs & _); [exact Hwf|exact Hg| |vm_compute; discriminate|].
  { intros id row Hr. destruct (decide (id = "j1")) as [->|Hne].
    - vm_compute in Hr. by injection Hr as <-.
    - exfalso. assert (Hn : jobs demo_inserted !! id = None); [|cbn [w_db demo_world] in Hr; congruence].
      change (jobs demo_inserted) with (<["j1" := row_inserted 0 demo_job "{}"]> (∅ : gmap string JobRow)).
      by rewrite lookup_insert_ne, lookup_empty. }
  destruct (goes_run Hour _ _ (fine Hour) _ eq_refl (Z.le_refl Hour) eq_refl Hs) as (n & a & w' & Hrun & Hrow).
  exists n, a, w', (row_inserted 0 demo_job "{}"). split; [exact Hrun|]. split; [reflexivity|].
  apply (Hrow "j1"); vm_compute; reflexivity.
Defined.
