(* ===== verification/Steer.v ===== *)
(** * Steer: three writers of one target

    A worker's target is an atomic integer that the pool's loop reads and two
    goroutines write: the autoscaler ([internal/scale/autoscaler.go], its [Run]
    taken apart at each of its effects) and the control client
    ([internal/control/client.go]), with the settings [main] takes from the
    environment ([cmd/calligraphy-worker/main.go]).  Here all of them interleave. *)

From S2P Require Import Prelude Errors Job Redis Effects Queue Retry Pool Scale Control Config.
Local Open Scope string_scope.
Local Open Scope list_scope.
Local Open Scope Z_scope.

(** ** The system *)

(** Where the autoscaler's [Run] is: in the [select], behind [Depths], behind
    [Target()], behind [Next], or returned. *)
Inductive scaling :=
| Resting
| Counted (ready : Z)
| Looked (ready cur : Z)
| Decided (cur next : Z)
| Stopped.

Record Steered := { st_pool : Pool; st_scaling : scaling; st_idleTicks : Z }.

Inductive steering :=
| InPool (ev : pool_event)              (* the loop, the jobs, the fetch context *)
| Operator (c : Command)                (* the control client dispatches a command *)
| DepthsAnswered (r : result error Z)   (* the ticker fired and [Depths] returned *)
| TargetRead
| NextComputed                          (* [Active()] is read for it *)
| TargetStored
| ScalerStopped.

Definition with_pool (p : Pool) (s : Steered) : Steered :=
  {| st_pool := p; st_scaling := st_scaling s; st_idleTicks := st_idleTicks s |}.
Definition scaling_to (x : scaling) (s : Steered) : Steered :=
  {| st_pool := st_pool s; st_scaling := x; st_idleTicks := st_idleTicks s |}.

(** One step; [None] when it cannot happen.  The pool's setters are called by
    the other two only. *)
Definition steer_step (cfg : Scale.Config) (s : Steered) (ev : steering) : option Steered :=
  match ev with
  | InPool (Resize _) | InPool (Pause _) => None
  | InPool pe => (fun p => with_pool p s) <$> pool_step (st_pool s) pe
  | Operator c => Some (with_pool (dispatch c (st_pool s)).1.1 s)
  | DepthsAnswered r =>
      match st_scaling s with
      | Resting => Some (match r with Ok ready => scaling_to (Counted ready) s | Err _ => s end)
      | _ => None
      end
  | TargetRead =>
      match st_scaling s with
      | Counted ready => Some (scaling_to (Looked ready (p_target (st_pool s))) s)
      | _ => None
      end
  | NextComputed =>
      match st_scaling s with
      | Looked ready cur =>
          let '(next, idle) := Next cfg (st_idleTicks s) ready (p_active (st_pool s)) cur in
          Some {| st_pool := st_pool s; st_scaling := Decided cur next; st_idleTicks := idle |}
      | _ => None
      end
  | TargetStored =>
      match st_scaling s with
      | Decided cur next =>
          Some (scaling_to Resting
                  (if bool_decide (next = cur) then s else with_pool (SetTarget next (st_pool s)) s))
      | _ => None
      end
  | ScalerStopped => match st_scaling s with Resting => Some (scaling_to Stopped s) | _ => None end
  end.

Fixpoint steer_run (cfg : Scale.Config) (s : Steered) (evs : list steering) : option Steered :=
  match evs with
  | [] => Some s
  | ev :: evs' => match steer_step cfg s ev with Some s' => steer_run cfg s' evs' | None => None end
  end.

(** What [main] starts from the settings. *)
Definition scaling_band (c : Config.Config) : Scale.Config := DefaultConfig (MinConcurrency c) (MaxConcurrency c).
Definition start (c : Config.Config) : Steered :=
  {| st_pool := NewPool (Concurrency c) (FetchBatch c); st_scaling := Resting; st_idleTicks := 0 |}.

(** ** Staying in bounds *)

Section bounds.
Context {R : Type} `{!RedisServer R} `{EnvelopeJSON} (q : queue) (settings : Config.Config).

(** What the pool's fetch - [Queue.Fetch] with the worker's settings - can answer
    when it is asked for [n], from any state, whatever the other processes do
    before each of its calls and whichever of them fail. *)
Definition answers (n : Z) (ds : list Delivery) (err : option error) : Prop :=
  exists ts (w : World R),
    (run_env (Fetch q (cfg_WorkerID settings) n (FetchBlock settings)) ts w).1 = Some (ds, err).

(** A fetch that may block reads each priority's stream up to [n]. *)
Definition overshoot : Z := if FetchBlock settings <=? 0 then 1 else 3.

Lemma answers_bound n ds err : 0 <= n -> answers n ds err -> Z.of_nat (length ds) <= overshoot * n.
Proof.
  intros Hn (ts & w & Hr).
  pose proof (wp_run_env any_rely no_pre _ _ ts w (proj2 (Forall_forall _ _) (fun x _ w1 => I))
    (Fetch_bound q (cfg_WorkerID settings) n (FetchBlock settings) w)) as Hb.
  destruct (run_env _ ts w) as [r w']. simpl in Hr. subst r. simpl in Hb. unfold overshoot. by rewrite Z.max_r in Hb.
Qed.

(** Fetches answer what [Queue.Fetch] can answer, and no operator asks for more
    than [m]. *)
Definition polite (m : Z) (s : Steered) (ev : steering) : Prop :=
  match ev with
  | InPool (FetchReturned ds err) => forall n, p_phase (st_pool s) = Fetching n -> answers n ds err
  | Operator c => forall t, Cmd c = CmdSetConcurrency t -> t <= m
  | _ => True
  end.
Fixpoint polite_run (m : Z) (cfg : Scale.Config) (s : Steered) (evs : list steering) : Prop :=
  match evs with
  | [] => True
  | ev :: evs' => polite m s ev /\
      match steer_step cfg s ev with Some s' => polite_run m cfg s' evs' | None => True end
  end.

Lemma polite_respects m s pe :
  pool_inv overshoot (FetchBatch settings) m (st_pool s) -> polite m s (InPool pe) -> fetch_respects overshoot (st_pool s) pe.
Proof.
  intros Hi Hp. destruct pe as [|ds [e|]| | | | | |]; simpl in *; try done.
  destruct (p_phase (st_pool s)) as [|n| | | |] eqn:E; try done. apply (answers_bound n ds None); [|by apply Hp].
  pose proof (pi_wait _ _ _ _ Hi) as Hw. unfold waiting in Hw. rewrite E in Hw. unfold overshoot in *.
  destruct (FetchBlock settings <=? 0); lia.
Qed.
End bounds.

(** No operator resizes. *)
Definition hands_off (ev : steering) : Prop :=
  match ev with Operator c => forall t, Cmd c <> CmdSetConcurrency t | _ => True end.

(** The target is in [lo, hi], and so is what the autoscaler is about to do to
    it. *)
Record steers_within (lo hi : Z) (s : Steered) : Prop := {
  sw_target : lo <= p_target (st_pool s) <= hi;
  sw_flight : match st_scaling s with
    | Looked _ cur => lo <= cur <= hi
    | Decided cur next => lo <= cur <= hi /\ lo <= next <= hi
    | _ => True
    end
}.

Lemma pool_step_target p ev p' :
  match ev with Resize _ => False | _ => True end -> pool_step p ev = Some p' -> p_target p' = p_target p.
Proof.
  destruct ev; simpl; intros Hev Hs; try done; unfold loop_top, fetch_answer in Hs;
    repeat case_match; simplify_eq/=; done.
Qed.

Lemma steer_step_pool cfg s pe s' : steer_step cfg s (InPool pe) = Some s' ->
  match pe with Resize _ => False | _ => True end /\
  exists p', pool_step (st_pool s) pe = Some p' /\ s' = with_pool p' s.
Proof.
  destruct pe; cbn [steer_step]; try done;
    intros (p' & Hp & ->)%fmap_Some; (split; [done|]); by exists p'.
Qed.

Lemma dispatch_target c p : p_target (dispatch c p).1.1 =
  match Cmd c with CmdSetConcurrency t => Z.max 1 t | _ => p_target p end.
Proof. unfold dispatch. by destruct (Cmd c). Qed.

(** The target stays between any bounds that contain the band. *)
Lemma steers_within_step lo hi cfg s ev s' :
  sane cfg -> 1 <= lo <= Min cfg -> Max cfg <= hi -> steers_within lo hi s ->
  (forall c t, ev = Operator c -> Cmd c = CmdSetConcurrency t -> lo <= Z.max 1 t <= hi) ->
  steer_step cfg s ev = Some s' -> steers_within lo hi s'.
Proof.
  intros Hsane Hlo Hhi [Ht Hf] Hop Hs. destruct ev as [pe|c|r| | | |].
  - apply steer_step_pool in Hs as (Hpe & p' & Hp & ->). constructor; simpl; [|done].
    by rewrite (pool_step_target _ _ _ Hpe Hp).
  - injection Hs as <-. constructor; simpl; [|done]. rewrite dispatch_target.
    specialize (Hop c). destruct (Cmd c); try done. by apply Hop.
  - simpl in Hs. destruct (st_scaling s) eqn:E; try done. injection Hs as <-. by destruct r; constructor; rewrite ?E.
  - simpl in Hs. destruct (st_scaling s) eqn:E; try done. injection Hs as <-. by constructor.
  - simpl in Hs. destruct (st_scaling s) as [| |ready cur| |] eqn:E; try done.
    pose proof (Next_band cfg (st_idleTicks s) ready (p_active (st_pool s)) cur Hsane) as Hn.
    destruct (Next _ _ _ _ _) as [next idle]. injection Hs as <-. constructor; simpl; [done|]. lia.
  - simpl in Hs. destruct (st_scaling s) as [| | |cur next|] eqn:E; try done. injection Hs as <-.
    constructor; simpl; [|done]. case_bool_decide; simpl; lia.
  - simpl in Hs. destruct (st_scaling s) eqn:E; try done. injection Hs as <-. by constructor.
Qed.

Lemma overshoot_pos settings : 1 <= overshoot settings.
Proof. unfold overshoot. destruct (_ <=? _); lia. Qed.

Section within_bounds.
Context {R : Type} `{!RedisServer R} `{EnvelopeJSON} (q : queue) (settings : Config.Config).
Abbreviation bounded := (pool_inv (overshoot settings) (FetchBatch settings)).

Lemma steer_step_inv m cfg s ev s' :
  sane cfg -> Max cfg <= m -> steers_within 1 m s -> bounded m (st_pool s) -> polite (R:=R) q settings m s ev ->
  steer_step cfg s ev = Some s' -> bounded m (st_pool s').
Proof.
  intros Hsane Hm [Ht Hf] Hi Hpol Hs. pose proof (overshoot_pos settings) as H1.
  assert (Hset : forall pe p', (forall n, pe = Resize n -> Z.max 1 n <= m) ->
    match pe with FetchReturned _ _ => False | _ => True end -> pool_step (st_pool s) pe = Some p' -> bounded m p').
  { intros pe p' Hn Hpe Hp. eapply pool_step_inv; [done|exact Hi| |exact Hn|exact Hp]. by destruct pe. }
  destruct ev as [pe|c|r| | | |].
  - apply steer_step_pool in Hs as (Hpe & p' & Hp & ->).
    eapply pool_step_inv; [done|exact Hi|by eapply polite_respects| |exact Hp]. by intros n ->.
  - injection Hs as <-. simpl in Hpol |- *. unfold dispatch. destruct (Cmd c) as [| | |t]; simpl; [done|..].
    + by apply (Hset (Pause true)).
    + by apply (Hset (Pause false)).
    + apply (Hset (Resize t)); [|done..]. intros n [= <-]. specialize (Hpol t eq_refl). lia.
  - simpl in Hs. destruct (st_scaling s); try done. injection Hs as <-. by destruct r.
  - simpl in Hs. destruct (st_scaling s); try done. by injection Hs as <-.
  - simpl in Hs. destruct (st_scaling s); try done. destruct (Next _ _ _ _ _). by injection Hs as <-.
  - simpl in Hs. destruct (st_scaling s) as [| | |cur next|]; try done. injection Hs as <-. simpl.
    case_bool_decide; [done|]. simpl. apply (Hset (Resize next)); [|done..]. intros n [= <-]. lia.
  - simpl in Hs. destruct (st_scaling s); try done. by injection Hs as <-.
Qed.

Lemma steer_run_inv m cfg evs : sane cfg -> Max cfg <= m -> forall s s',
  steers_within 1 m s -> bounded m (st_pool s) -> polite_run (R:=R) q settings m cfg s evs ->
  steer_run cfg s evs = Some s' -> steers_within 1 m s' /\ bounded m (st_pool s').
Proof.
  intros Hsane Hm. induction evs as [|ev evs IH]; simpl; intros s s' Hw Hi Hpol Hr; [by injection Hr as <-|].
  destruct Hpol as [Hev Hpol]. destruct (steer_step cfg s ev) as [s1|] eqn:Hs; [|done].
  apply (IH s1 s'); try done; [|by eapply steer_step_inv].
  eapply (steers_within_step 1 m); [done|destruct Hsane; lia|done|done| |done].
  intros c t -> Hc. specialize (Hev t Hc). destruct Hsane. lia.
Qed.

Lemma hands_off_polite m m' cfg evs : Forall hands_off evs ->
  forall s, polite_run (R:=R) q settings m cfg s evs -> polite_run (R:=R) q settings m' cfg s evs.
Proof.
  induction 1 as [|ev evs Hev _ IH]; simpl; intros s; [done|]. intros [Hp Hrun]. split.
  - destruct ev as [pe|c| | | | |]; simpl in *; try done. intros t Hc. by destruct (Hev t).
  - destruct (steer_step cfg s ev); [by apply IH|done].
Qed.
End within_bounds.

Lemma steer_run_band cfg evs : sane cfg -> Forall hands_off evs -> forall s s',
  steers_within (Min cfg) (Max cfg) s -> steer_run cfg s evs = Some s' -> steers_within (Min cfg) (Max cfg) s'.
Proof.
  intros Hsane. induction 1 as [|ev evs Hev _ IH]; simpl; intros s s' Hw Hr; [by injection Hr as <-|].
  destruct (steer_step cfg s ev) as [s1|] eqn:Hs; [|done]. apply (IH s1 s'); [|done].
  eapply steers_within_step; [done|destruct Hsane; lia|lia|done| |done]. intros c t -> Hc. by destruct (Hev t).
Qed.

(** What the environment's settings promise. *)
Lemma Load_start lookup_env hostname pid c : Load lookup_env hostname pid = (c, None) ->
  sane (scaling_band c) /\ 0 < FetchBatch c /\ steers_within (MinConcurrency c) (MaxConcurrency c) (start c).
Proof.
  intros Hl. destruct (Load_accepted lookup_env hostname pid c Hl) as [[] Hc].
  unfold sane. simpl. split; [lia|]. split; [lia|]. by constructor.
Qed.

(** C35. Bounded concurrency, whoever steers. Start a worker with any settings
    that [Load] accepts, and let the pool's loop, its jobs, the autoscaler taken
    apart at each of its effects and the operators' commands interleave in any
    way, every fetch answering anything [Queue.Fetch] can answer under any
    interference and failures, and no operator asking for more than [m], which is
    not below [MaxConcurrency]. Then the target is always in [1, m]. The jobs
    running, with those already claimed and those the pending fetch can still
    claim, are never more than [m] if fetches do not block; if they do, [m] and
    twice the size of one fetch, since a blocking read is limited for each of the
    three priorities on its own. The atomic counter is exact, the pause after
    failed fetches is at most five seconds, and the loop only returns once the
    fetch context is cancelled and no job is running. If no operator resizes, the
    target never leaves [MinConcurrency, MaxConcurrency], and the bound on the
    jobs holds with [MaxConcurrency] for [m]. *)
Theorem steered_worker_bounded {R : Type} `{!RedisServer R} `{EnvelopeJSON} (q : queue)
    (lookup_env : string -> option string) (hostname : string) (pid : Z)
    (c : Config.Config) (m : Z) (evs : list steering) (s : Steered) :
  Load lookup_env hostname pid = (c, None) -> MaxConcurrency c <= m ->
  polite_run (R:=R) q c m (scaling_band c) (start c) evs -> steer_run (scaling_band c) (start c) evs = Some s ->
  let p := st_pool s in
  let k := if FetchBlock c <=? 0 then 1 else 3 in
  1 <= p_target p <= m /\
  p_active p = Z.of_nat (length (p_running p)) /\
  p_active p + waiting k p <= m + (k - 1) * Z.min (FetchBatch c) m /\
  0 <= p_errBackoff p <= 5 * Second /\
  (p_phase p = Exited -> p_running p = [] /\ p_cancelled p = true) /\
  (Forall hands_off evs ->
     MinConcurrency c <= p_target p <= MaxConcurrency c /\
     p_active p + waiting k p <= MaxConcurrency c + (k - 1) * Z.min (FetchBatch c) (MaxConcurrency c)).
Proof.
  intros Hl Hm Hpol Hr p k. destruct (Load_start _ _ _ _ Hl) as (Hsane & Hb & Hw).
  assert (H1 : forall m', MaxConcurrency c <= m' -> polite_run (R:=R) q c m' (scaling_band c) (start c) evs ->
    steers_within 1 m' s /\ pool_inv k (FetchBatch c) m' (st_pool s)).
  { intros m' Hm' Hpol'. destruct Hw as [Ht _], Hsane as [Hband _]. simpl in *.
    eapply (steer_run_inv (R:=R) q c m' (scaling_band c) evs); [|exact Hm'| | |exact Hpol'|exact Hr].
    - unfold sane. simpl. lia.
    - constructor; simpl; [lia|done].
    - apply NewPool_inv; [apply overshoot_pos|lia..]. }
  assert (Hband : Forall hands_off evs -> MinConcurrency c <= p_target p <= MaxConcurrency c /\
    p_active p + waiting k p <= MaxConcurrency c + (k - 1) * Z.min (FetchBatch c) (MaxConcurrency c)).
  { intros Hoff. destruct (H1 _ (Z.le_refl _) (hands_off_polite q c _ _ _ _ Hoff _ Hpol)) as [_ []].
    split; [|done]. by destruct (steer_run_band _ _ Hsane Hoff _ _ Hw Hr). }
  destruct (H1 m Hm Hpol) as [[Ht _] [? ? ? ? ? ? (x & Hx & ?) ? ?]].
  split; [done|]. split; [done|]. split; [done|]. split; [|done].
  subst p. rewrite Hx. unfold Second, Millisecond. lia.
Qed.

(** ** Growing *)

Definition stored (evs : list steering) : Z :=
  Z.of_nat (length (filter (fun ev => match ev with TargetStored => true | _ => false end = true) evs)).

(** A queue so deep that no target in the band is enough. *)
Definition deep (cfg : Scale.Config) (ready : Z) : Prop :=
  forall t, Min cfg <= t <= Max cfg -> backlogged cfg ready t = true.

(** Alone at the target, under backlog, the autoscaler is on its way up. *)
Record rising (cfg : Scale.Config) (n : Z) (s : Steered) : Prop := {
  ri_band : steers_within (Min cfg) (Max cfg) s;
  ri_target : Z.min (Max cfg) n <= p_target (st_pool s);
  ri_flight : match st_scaling s with
    | Counted ready => deep cfg ready
    | Looked ready cur => deep cfg ready /\ cur = p_target (st_pool s)
    | Decided cur next => cur = p_target (st_pool s) /\ Z.min (Max cfg) (cur + 1) <= next
    | _ => True
    end
}.

Lemma rising_step cfg n s ev s' :
  sane cfg -> hands_off ev -> (forall ready, ev = DepthsAnswered (Ok ready) -> deep cfg ready) ->
  rising cfg n s -> steer_step cfg s ev = Some s' -> rising cfg (n + stored [ev]) s'.
Proof.
  intros Hsane Hoff Hdeep [Hb Ht Hf] Hs.
  assert (Hb' : steers_within (Min cfg) (Max cfg) s').
  { eapply steers_within_step; [done|destruct Hsane; lia|lia|done| |done]. intros c t -> Hc. by destruct (Hoff t). }
  destruct ev as [pe|c|r| | | |]; unfold stored; simpl; rewrite ?Z.add_0_r.
  - apply steer_step_pool in Hs as (Hpe & p' & Hp & ->). pose proof (pool_step_target _ _ _ Hpe Hp) as E.
    constructor; simpl; [done|by rewrite E|by rewrite E].
  - injection Hs as <-. assert (E : p_target (dispatch c (st_pool s)).1.1 = p_target (st_pool s)).
    { rewrite dispatch_target. destruct (Cmd c) eqn:Ec; try done. by destruct (Hoff target). }
    constructor; simpl; [done|by rewrite E|by rewrite E].
  - simpl in Hs. destruct (st_scaling s) eqn:E; try done. injection Hs as <-.
    destruct r; constructor; simpl; rewrite ?E; auto.
  - simpl in Hs. destruct (st_scaling s) eqn:E; try done. injection Hs as <-. by constructor.
  - simpl in Hs. destruct (st_scaling s) as [| |ready cur| |] eqn:E; try done. destruct Hf as [Hd ->].
    destruct Hb as [Hband _], Hsane as [Hm _]. unfold Next in Hs. rewrite (proj2 (Z.ltb_ge _ _)), Hd in Hs by lia.
    injection Hs as <-. constructor; simpl; [done|done|]. split; [done|lia].
  - simpl in Hs. destruct (st_scaling s) as [| | |cur next|] eqn:E; try done. destruct Hf as [-> Hn]. injection Hs as <-.
    constructor; simpl; [done| |done]. destruct Hsane. case_bool_decide; simpl; lia.
  - simpl in Hs. destruct (st_scaling s) eqn:E; try done. injection Hs as <-. by constructor.
Qed.

Lemma rising_run cfg evs : sane cfg -> Forall hands_off evs ->
  Forall (fun ev => forall ready, ev = DepthsAnswered (Ok ready) -> deep cfg ready) evs -> forall n s s',
  rising cfg n s -> steer_run cfg s evs = Some s' -> rising cfg (n + stored evs) s'.
Proof.
  intros Hsane. induction 1 as [|ev evs Hev _ IH]; intros Hd n s s' Hri Hr.
  - injection Hr as <-. unfold stored. simpl. by rewrite Z.add_0_r.
  - apply Forall_cons in Hd as [Hd1 Hd]. simpl in Hr. destruct (steer_step cfg s ev) as [s1|] eqn:Hs; [|done].
    assert (Hn : n + stored (ev :: evs) = n + stored [ev] + stored evs).
    { unfold stored. rewrite (filter_app _ [ev] evs : filter _ (ev :: evs) = _), length_app. lia. }
    rewrite Hn. apply (IH Hd _ s1); [|done]. by eapply rising_step.
Qed.

(** C37. A lasting backlog gets the whole band. With any settings that [Load]
    accepts, and no operator resizing, let the autoscaler's steps interleave with
    the pool's in any way; if every depth that was answered is a backlog at any
    size (others may fail), then after [n] finished intervals the target is at
    least the initial one plus [n], or [MaxConcurrency], and never above it. *)
Theorem backlog_reaches_max (lookup_env : string -> option string) (hostname : string) (pid : Z)
    (c : Config.Config) (evs : list steering) (s : Steered) :
  Load lookup_env hostname pid = (c, None) -> Forall hands_off evs ->
  Forall (fun ev => forall ready, ev = DepthsAnswered (Ok ready) -> deep (scaling_band c) ready) evs ->
  steer_run (scaling_band c) (start c) evs = Some s ->
  Z.min (MaxConcurrency c) (Concurrency c + stored evs) <= p_target (st_pool s) <= MaxConcurrency c /\
  (MaxConcurrency c - Concurrency c <= stored evs -> p_target (st_pool s) = MaxConcurrency c).
Proof.
  intros Hl Hoff Hdeep Hr. destruct (Load_start _ _ _ _ Hl) as (Hsane & _ & Hw).
  destruct (rising_run _ evs Hsane Hoff Hdeep (Concurrency c) (start c) s) as [[Ht _] Hn _]; [|done|].
  - constructor; simpl; [exact Hw|lia|done].
  - simpl in *. lia.
Qed.

(** ** The operator and the autoscaler *)

(** A command that finds the autoscaler resting is what it goes on from. *)
Lemma command_is_baseline cfg s c t ready : st_scaling s = Resting -> Cmd c = CmdSetConcurrency t ->
  exists s', steer_run cfg s [Operator c; DepthsAnswered (Ok ready); TargetRead] = Some s' /\
    st_scaling s' = Looked ready (Z.max 1 t) /\ p_target (st_pool s') = Z.max 1 t.
Proof.
  intros Hs Hc. simpl. unfold dispatch. rewrite Hc. simpl. rewrite Hs. simpl. eexists. by split.
Qed.

(** One that arrives between the autoscaler's two looks at the target is
    acknowledged and overwritten. *)
Lemma command_overwritten cfg s c cur next : st_scaling s = Decided cur next -> next <> cur ->
  exists s', steer_run cfg s [Operator c; TargetStored] = Some s' /\ p_target (st_pool s') = Z.max 1 next.
Proof.
  intros Hs Hne. simpl. rewrite Hs. rewrite bool_decide_false by done. eexists. by split.
Qed.

Definition demo_settings : Config.Config := (Load (fun _ => None) "w" 7).1.

Example operator_loses_a_race :
  let shrink := {| CommandId := "c1"; Cmd := CmdSetConcurrency 2 |} in
  (dispatch shrink (st_pool (start demo_settings))).1.2 = "concurrency updated" /\
  (fun s => p_target (st_pool s)) <$> steer_run (scaling_band demo_settings) (start demo_settings)
    [DepthsAnswered (Ok 100); TargetRead; NextComputed; Operator shrink; TargetStored] = Some 6.
Proof. split; vm_compute; reflexivity. Qed.

(** ** Witnesses *)

(** One slot, and a submitter of each priority that comes in while the fetch
    blocks: the bound is reached. *)
Definition single_env (k : string) : option string :=
  if bool_decide (k = "CALLIGRAPHY_CONCURRENCY" \/ k = "CALLIGRAPHY_MAX_CONCURRENCY") then Some "1" else None.
Definition single_settings : Config.Config := Eval vm_compute in (Load single_env "w" 7).1.

(** One event of a concrete run. *)
Ltac polite_step :=
  cbn [polite_run];
  match goal with |- _ /\ match steer_step ?cfg ?s ?ev with _ => _ end =>
    let r := eval vm_compute in (steer_step cfg s ev) in
    replace (steer_step cfg s ev) with r by (vm_compute; reflexivity); split; [try exact I|]
  end.

Section fetch_witness.
#[local] Existing Instance DemoJSON.
#[local] Transparent call pgExec rdb time_Now.
Definition arrived : list Delivery := Eval vm_compute in
  default [] (fst <$> (run_env (Fetch demo_queue (cfg_WorkerID single_settings) 1 (FetchBlock single_settings))
     [alone (fine 1); alone (fine 2); alone (fine 3); (three_arrivals, fine 4)] (redis_world empty_redis)).1).

Lemma steered_worker_bounded_witness :
  exists s, steer_run (scaling_band single_settings) (start single_settings)
      [InPool LoopTurn; InPool (FetchReturned arrived None); InPool LoopTurn; InPool LoopTurn; InPool LoopTurn;
       DepthsAnswered (Ok 100); TargetRead; NextComputed;
       Operator {| CommandId := "c1"; Cmd := CmdPause |}; TargetStored] = Some s /\
    p_active (st_pool s) = 3 /\ 1 <= p_target (st_pool s) <= 1 /\
    p_active (st_pool s) + waiting 3 (st_pool s) <= 3.
Proof.
  eexists. split; [vm_compute; reflexivity|]. split; [vm_compute; reflexivity|].
  edestruct (steered_worker_bounded (R:=redis) demo_queue single_env "w" 7 single_settings 1
      [InPool LoopTurn; InPool (FetchReturned arrived None); InPool LoopTurn; InPool LoopTurn; InPool LoopTurn;
       DepthsAnswered (Ok 100); TargetRead; NextComputed;
       Operator {| CommandId := "c1"; Cmd := CmdPause |}; TargetStored])
    as (H1 & _ & H2 & _); [vm_compute; reflexivity|vm_compute; discriminate| |vm_compute; reflexivity|].
  - repeat polite_step; [| |exact I]; cbn [polite Cmd]; [|discriminate]. intros n [= <-].
    exists [alone (fine 1); alone (fine 2); alone (fine 3); (three_arrivals, fine 4)], (redis_world empty_redis).
    vm_compute. reflexivity.
  - split; [exact H1|exact H2].
Defined.
End fetch_witness.

Lemma backlog_reaches_max_witness :
  let interval := [DepthsAnswered (Ok 100); TargetRead; NextComputed; TargetStored] in
  exists s, steer_run (scaling_band demo_settings) (start demo_settings)
      (concat (replicate 12 interval)) = Some s /\ p_target (st_pool s) = 16.
Proof.
  intros interval. eexists. split; [vm_compute; reflexivity|].
  eapply (backlog_reaches_max (fun _ => None) "w" 7 demo_settings (concat (replicate 12 interval)));
    [vm_compute; reflexivity| | |vm_compute; reflexivity|vm_compute; discriminate].
  - unfold interval. simpl. repeat constructor.
  - assert (Hd : deep (scaling_band demo_settings) 100).
    { intros t Ht. change (1 <= t <= 16) in Ht. unfold scaling_band. rewrite DefaultConfig_backlogged by lia. lia. }
    unfold interval. simpl. repeat (constructor; [by first [intros r [= <-]|intros r]|]). constructor.
Defined.
