(* ===== verification/Journey.v ===== *)
(** * Journey: from a submission to its result

    The other files show what each part does.  Here the parts meet: the API takes
    a submission ([internal/api/server.go]), a worker fetches the delivery and
    runs it ([internal/queue/queue.go], [internal/worker/runner.go]), the leader
    promotes a retry when it is due ([internal/recovery/recovery.go]), and the
    client reads the result.  Alone on a quiet queue, with every call going
    through, an accepted job is settled after as many deliveries as it has
    attempts, whatever its handler does. *)

From S2P Require Import Prelude Errors Json Decode Rfc3339 Encode Job Wire Requests Retry Database Rows Redis Effects Rely Store.
From S2P Require Import Batch Queue Handler Runner Execution Recovery Custody Lossless Pool Control Api System Deployment.
Local Open Scope string_scope.
Local Open Scope list_scope.
Local Open Scope Z_scope.
Local Open Scope prog_scope.

Lemma filter_none {A} (P : A -> Prop) `{!forall x, Decision (P x)} l : (forall x, x ∈ l -> ~ P x) -> filter P l = [].
Proof.
  induction l as [|x l IH]; intros Hl; [done|]. rewrite filter_cons_False by (apply Hl; by left).
  apply IH. intros y Hy. apply Hl. by right.
Qed.

Section journey.
Context {R : Type} `{!RedisServer R} `{HeadersSurvive} (t0 : Time) (q : queue) (reg : Registry) (r : Runner).
Implicit Types (w : World R) (p : Priority).

(** ** What waits in the queue *)

(** The unread entries [u] and the delayed members [m] at one priority, and
    nothing at the others. *)
Record waits (u : list entry) (m : gmap string Z) p (s : R) : Prop := {
  wt_unread : forall p', p' ∈ PriorityOrder ->
    unread (streamKey q p') s = if bool_decide (p' = p) then u else [];
  wt_members : forall p', p' ∈ PriorityOrder ->
    members (delayedKey q p') s = if bool_decide (p' = p) then m else ∅
}.

Definition quiet_queue (s : R) : Prop := forall p, p ∈ PriorityOrder ->
  unread (streamKey q p) s = [] /\ members (delayedKey q p) s = ∅.

Lemma waits_nothing p s : quiet_queue s <-> waits [] ∅ p s.
Proof.
  split.
  - intros Hq. constructor; intros p' Hp'; destruct (Hq p' Hp') as [Hu Hm]; by case_bool_decide.
  - intros [Hu Hm] p' Hp'. rewrite Hu, Hm by done. by case_bool_decide.
Qed.

(** ** Fetching it *)

Definition delivery (env : Envelope) (eid : string) p : Delivery :=
  {| del_Env := env; del_EntryID := eid; del_Priority := p |}.

(** The streams of [ps] are read; nothing else happened. *)
Record polled (ps : list Priority) w w' : Prop := {
  po_db : w_db w' = w_db w;
  po_read : forall p, p ∈ ps -> unread (streamKey q p) (w_redis w') = [];
  po_unread : forall p, p ∉ ps -> unread (streamKey q p) (w_redis w') = unread (streamKey q p) (w_redis w);
  po_members : forall k, members k (w_redis w') = members k (w_redis w);
  po_get : forall now k, get now k (w_redis w') = get now k (w_redis w)
}.

Lemma polled_cons p ps w w1 w' : p ∉ ps -> polled [p] w w1 -> polled ps w1 w' -> polled (p :: ps) w w'.
Proof.
  intros Hp [D1 R1 U1 M1 G1] [D2 R2 U2 M2 G2]. constructor.
  - congruence.
  - intros p' [-> |Hin]%elem_of_cons; [|by apply R2]. rewrite U2 by done. apply R1. by left.
  - intros p' [Hne Hn]%not_elem_of_cons. rewrite U2, U1; [done|set_solver|done].
  - intros k. by rewrite M2.
  - intros n k. by rewrite G2.
Qed.

Lemma polled_read c p n w now :
  (length (unread (streamKey q p) (w_redis w)) <= Z.to_nat n)%nat ->
  polled [p] w (with_redis (xreadgroup now c (streamKey q p) n (w_redis w)).2 w).
Proof.
  intros Hlen. constructor; simpl.
  - done.
  - intros p' ->%list_elem_of_singleton. rewrite xreadgroup_unread, xreadgroup_take, take_ge by done.
    apply filter_none. intros e He Hn. apply Hn. by apply list_elem_of_fmap_2.
  - intros p' Hp'. apply xreadgroup_unread_other. intros E%streamKey_inj. set_solver.
  - intros k. apply xreadgroup_members.
  - intros n' k. apply xreadgroup_get.
Qed.

(** The pass over the streams finds the one entry, whatever it is asked for. *)
Lemma goes_fetch_pass c max env eid text p : DecodeEnvelope text = Ok env -> 1 <= max -> forall ps out w,
  NoDup ps ->
  (forall p', p' ∈ ps -> unread (streamKey q p') (w_redis w) = if bool_decide (p' = p) then [(eid, [("j", text)])] else []) ->
  out = [] \/ p ∉ ps /\ out = [delivery env eid p] ->
  goes t0 (fetch_pass q c max ps out)
    (fun x w' => x.2 = (out ++ (if bool_decide (p ∈ ps) then [delivery env eid p] else []), None) /\ polled ps w w') w.
Proof.
  intros Hdec Hmax. induction ps as [|p' ps IH]; intros out w Hnd Hun Hout; simpl.
  { rewrite app_nil_r. split; [done|]. constructor; try done. set_solver. }
  apply NoDup_cons in Hnd as [Hp' Hnd]. destruct (max <=? Z.of_nat (length out)) eqn:Hfull.
  { apply Z.leb_le in Hfull. destruct Hout as [->|[Hnp ->]]; simpl in Hfull; [lia|]. simpl. rewrite bool_decide_false by done.
    split; [done|]. constructor; try done. intros p1 Hp1. rewrite Hun by done.
    rewrite bool_decide_false; [done|]. by intros ->. }
  apply goes_bind, goes_rdb. intros now _. cbn [exec_redis].
  pose proof (Hun p' ltac:(by left)) as Hu.
  assert (Hlen : (length (unread (streamKey q p') (w_redis w)) <= Z.to_nat (max - Z.of_nat (length out)))%nat).
  { rewrite Hu. apply Z.leb_gt in Hfull. case_bool_decide; simpl; lia. }
  pose proof (polled_read c p' _ w now Hlen) as Hpoll.
  pose proof (xreadgroup_take now c (streamKey q p') (max - Z.of_nat (length out)) (w_redis w)) as Htake.
  rewrite Hu, take_ge in Htake by (by rewrite <-Hu).
  destruct (xreadgroup now c (streamKey q p') (max - Z.of_nat (length out)) (w_redis w)) as [es s1] eqn:Hx.
  simpl in Htake, Hpoll. subst es. set (w1 := with_redis s1 w) in *.
  assert (Hun1 : forall p1, p1 ∈ ps -> unread (streamKey q p1) (w_redis w1) =
    if bool_decide (p1 = p) then [(eid, [("j", text)])] else []).
  { intros p1 Hp1. rewrite (po_unread _ _ _ Hpoll) by set_solver. apply Hun. by right. }
  case_bool_decide as Hpp; simpl.
  - subst p'. destruct Hout as [->|[Hnp _]]; [|set_solver].
    unfold decodeMessage. rewrite field_one, Hdec. simpl.
    eapply goes_mono; [|apply (IH [delivery env eid p] w1); [done|done|by right]].
    intros x w2 [-> Hp2]. split; [|by eapply polled_cons].
    rewrite !bool_decide_false by done. rewrite bool_decide_true by (by left). done.
  - eapply goes_mono; [|apply (IH out w1); [done|done|]].
    + intros x w2 [-> Hp2]. split; [|by eapply polled_cons]. rewrite (bool_decide_ext (p ∈ ps) (p ∈ p' :: ps)) by set_solver. done.
    + destruct Hout as [->|[Hnp ->]]; [by left|right; split; [set_solver|done]].
Qed.

Lemma goes_Fetch c max block env eid text m p w :
  DecodeEnvelope text = Ok env -> p ∈ PriorityOrder -> 1 <= max -> waits [(eid, [("j", text)])] m p (w_redis w) ->
  goes t0 (Fetch q c max block)
    (fun got w' => got = ([delivery env eid p], None) /\ w_db w' = w_db w /\ waits [] m p (w_redis w') /\
       forall now k, get now k (w_redis w') = get now k (w_redis w)) w.
Proof.
  intros Hdec Hp Hmax Hw. unfold Fetch. apply goes_bind.
  eapply goes_mono; [|apply (goes_fetch_pass c max env eid text p Hdec Hmax PriorityOrder [] w);
    [repeat constructor; set_solver|apply Hw|by left]].
  intros [flag got] w1 [Hgot Hpoll]. simpl in Hgot. rewrite bool_decide_true in Hgot by done. subst got. simpl.
  assert (Hq : w_db w1 = w_db w /\ waits [] m p (w_redis w1) /\
    forall now k, get now k (w_redis w1) = get now k (w_redis w)).
  { split; [apply Hpoll|]. split; [|apply Hpoll]. constructor; intros p' Hp'.
    - rewrite (po_read _ _ _ Hpoll) by done. by case_bool_decide.
    - rewrite (po_members _ _ _ Hpoll). by apply Hw. }
  by destruct flag.
Qed.

(** ** The job on its way *)

Context (w0 : World R) (id : string).

(** The envelope of a delivery of the job. *)
Record names_job (row : JobRow) (env : Envelope) : Prop := {
  nj_plain : plain_headers env;
  nj_writable : writable env;
  nj_id : env_ID env = id;
  nj_type : env_Type env = d_type (r_def row);
  nj_priority : env_Priority env = d_priority (r_def row)
}.

(** The attempts on record: [n] that were to be repeated, and no other. *)
Definition history (n : Z) w : Prop := forall k,
  if bool_decide (1 <= k <= n)
  then exists a, job_attempts (w_db w) !! (id, k) = Some a /\ a_outcome a ∈ unfinished
  else job_attempts (w_db w) !! (id, k) = None.

(** The same, with outcome [oc] for the last of the [n]. *)
Definition history_to (n : Z) (oc : Outcome) w : Prop := forall k,
  if bool_decide (1 <= k <= n)
  then exists a, job_attempts (w_db w) !! (id, k) = Some a /\
    (if bool_decide (k = n) then a_outcome a = oc else a_outcome a ∈ unfinished)
  else job_attempts (w_db w) !! (id, k) = None.

(** After [n] attempts another one is open. *)
Record in_play (n : Z) (row : JobRow) w : Prop := {
  ip_row : jobs (w_db w) !! id = Some row;
  ip_id : d_id (r_def row) = id;
  ip_priority : d_priority (r_def row) ∈ PriorityOrder;
  ip_open : claimable row = true;
  ip_count : r_attempt_count row = n;
  ip_left : 0 <= n < r_max_attempts row;
  ip_ceiling : r_max_attempts row <= MaxAttemptsCeiling;
  ip_history : history n w;
  ip_others : forall i, i <> id -> jobs (w_db w) !! i = jobs (w_db w0) !! i;
  ip_cancel : forall now, get now (cancelKey q id) (w_redis w) = None
}.

(** Its delivery can be read, or is due at the time the row says. *)
Definition readable (n : Z) (row : JobRow) w : Prop := in_play n row w /\
  exists eid text env, DecodeEnvelope text = Ok env /\ names_job row env /\
    waits [(eid, [("j", text)])] ∅ (d_priority (r_def row)) (w_redis w).
Definition due (n : Z) (row : JobRow) w : Prop := in_play n row w /\
  exists text env, DecodeEnvelope text = Ok env /\ names_job row env /\
    waits [] {[text := UnixMilli (r_scheduled_at row)]} (d_priority (r_def row)) (w_redis w).

(** What the client reads about it. *)
Record reported (ret : string * option error) (row : JobRow) (rr : resultResponse) : Prop := {
  re_id : rr_ID rr = id;
  re_status : rr_Status rr = r_status row;
  re_result : r_status row = StatusCompleted -> rr_Error rr = EmptyString /\
    rr_Result rr = if bool_decide (ret.1 = "null") then EmptyString else ret.1;
  re_error : r_status row ∈ [StatusFailed; StatusDeadLetter] -> rr_Error rr = AttemptError ret.2
}.

(** The end: the last attempt ran the handler of the job's type, and its outcome
    decided. *)
Definition finished (sch : schedule) w : Prop := exists row d row' started,
  let ret := job_return reg r d row' sch started in
  let oc := finish_outcome ret.2 None in
  let n := r_attempt_count row in
  env_ID (del_Env d) = id /\ env_Type (del_Env d) = d_type (r_def row) /\ r_def row' = r_def row /\
  jobs (w_db w) !! id = Some row /\ Terminal (r_status row) = true /\
  1 <= n <= r_max_attempts row /\ r_status row = verdict oc (r_max_attempts row <=? n) /\
  history_to n oc w /\
  quiet_queue (w_redis w) /\ (forall i, i <> id -> jobs (w_db w) !! i = jobs (w_db w0) !! i) /\
  goes t0 (handleGetResult id) (fun re w' => w' = w /\ exists rr, re = writeJSON StatusOK (BodyResult rr) /\ reported ret row rr) w.

(** One turn of a worker: it fetches, and runs what it got. *)
Definition turn (max : Z) (block : Duration) (sch : schedule) : prog unit :=
  got <- Fetch q (run_WorkerID r) max block ;;
  for_each (fun d => Run SyncRecorder q reg r d sch) got.1.

Lemma finish_outcome_alone err : finish_outcome err None <> OutcomeLeaseExpired.
Proof.
  unfold finish_outcome, ClassifyError. simpl. rewrite andb_false_r.
  destruct (_ && isPanic err); [done|]. by repeat case_match.
Qed.

(** A verdict is [RETRYING] only for an outcome to be repeated, with an attempt
    left, and terminal otherwise. *)
Lemma verdict_cases err last : let oc := finish_outcome err None in
  (oc ∈ unfinished /\ last = false /\ verdict oc last = StatusRetrying) \/ Terminal (verdict oc last) = true.
Proof.
  intros oc. pose proof (finish_outcome_cases err None) as Hc. pose proof (finish_outcome_alone err) as Ha.
  fold oc in Hc, Ha. clearbody oc.
  repeat (apply elem_of_cons in Hc as [->|Hc]); [..|by apply elem_of_nil in Hc]; try (by right); try done;
    (destruct last; [by right|left; split_and!; [unfold unfinished; set_solver|done|done]]).
Qed.

(** *** What the client reads *)

Lemma goes_handleGetResult row w (Q : response -> World R -> Prop) :
  jobs (w_db w) !! id = Some row -> Terminal (r_status row) = true ->
  Q (writeJSON StatusOK (BodyResult (result_of (scanJob row)))) w ->
  goes t0 (handleGetResult id) Q w.
Proof.
  intros Hrow Hterm HQ. unfold handleGetResult, with_job, loadJob, GetJob, getJobBy.
  apply goes_bind, goes_bind, goes_bind, goes_QueryRow. intros now _. simpl. rewrite Hrow. simpl.
  rewrite bool_decide_true by (apply Terminal_spec in Hterm as [-> |[-> |[-> | ->]]]; rewrite !elem_of_cons; tauto).
  simpl. by destruct w.
Qed.

Lemma slen_cons_pos c s : (0 <? slen (String c s)) = true.
Proof. apply Z.ltb_lt. unfold slen. simpl. lia. Qed.

Lemma reported_settled d row0 oc ret row :
  settled_row t0 r row0 oc ret.1 (AttemptError ret.2) row -> d_id (r_def row) = id ->
  env_ID (del_Env d) = id -> reported ret row (result_of (scanJob row)).
Proof.
  intros [] Hid _. constructor; simpl; try done.
  - intros Hc. destruct (sr_result Hc) as [-> ->]. simpl. split; [done|]. unfold json_or_null.
    destruct ret as [[|c res] err]; [done|]. cbn [fst]. rewrite !slen_cons_pos. by repeat case_bool_decide.
  - intros He. by rewrite sr_error by set_solver.
Qed.

(** *** A delivery is run *)

Lemma history_more n oc a w w' :
  history n w -> 0 <= n -> a_outcome a = oc ->
  job_attempts (w_db w') = <[(id, n + 1) := a]> (job_attempts (w_db w)) -> history_to (n + 1) oc w'.
Proof.
  intros Hh Hn Hoc Ha k. rewrite Ha. specialize (Hh k). destruct (decide (k = n + 1)) as [->|Hk].
  - rewrite bool_decide_true by lia. exists a. rewrite lookup_insert_eq. by rewrite bool_decide_true.
  - rewrite lookup_insert_ne by congruence.
    rewrite (bool_decide_ext (1 <= k <= n + 1) (1 <= k <= n)) by lia. case_bool_decide; [|done].
    by rewrite (bool_decide_false (k = n + 1)).
Qed.

Lemma history_to_history n oc w : history_to n oc w -> oc ∈ unfinished -> history n w.
Proof.
  intros Hh Hoc k. specialize (Hh k). case_bool_decide; [|done]. destruct Hh as (a & Ha & Ho).
  exists a. split; [done|]. case_bool_decide; by subst.
Qed.

Lemma next_names row env n :
  names_job row env -> r_attempt_count row = n -> 0 <= n < MaxAttemptsCeiling ->
  names_job row (next_envelope (delivery env "" "") row) /\
  forall eid p, next_envelope (delivery env eid p) row = next_envelope (delivery env "" "") row.
Proof.
  intros [[] [Ht _] Hi Hty Hp] Hc Hn. split; [|done]. constructor; try done.
  split; [exact Ht|]. unfold int_range, max_int64, MaxAttemptsCeiling in *. simpl. rewrite Hc.
  rewrite !(proj2 (Z.leb_le _ _)) by lia. done.
Qed.

(** What every run leaves, whatever the verdict. *)
Record ran n (row row' : JobRow) (oc : Outcome) w2 : Prop := {
  rn_row : jobs (w_db w2) !! id = Some row';
  rn_def : r_def row' = r_def row;
  rn_status : r_status row' = verdict oc (r_max_attempts row <=? n + 1);
  rn_count : r_attempt_count row' = n + 1;
  rn_history : history_to (n + 1) oc w2;
  rn_unread : forall p, p ∈ PriorityOrder -> unread (streamKey q p) (w_redis w2) = [];
  rn_others : forall i, i <> id -> jobs (w_db w2) !! i = jobs (w_db w0) !! i;
  rn_cancel : forall now, get now (cancelKey q id) (w_redis w2) = None
}.

Lemma concluded_ran n row d oc res err started w w1 w2 :
  in_play n row w -> w_db w1 = w_db w -> waits [] ∅ (d_priority (r_def row)) (w_redis w1) -> env_ID (del_Env d) = id ->
  concluded t0 q r d row w1 oc res (AttemptError err) started w2 -> exists row', ran n row row' oc w2 /\
    settled_row t0 r row oc res (AttemptError err) row' /\
    handed_off q d row (r_status row') (AttemptError err) row' (w_redis w1) (w_redis w2).
Proof.
  intros [] Hdb Hw1 Hjid [(row' & Hrow' & Hset & Hoff) Hoth [fin Hatt] _ Hun Hcan']. rewrite Hjid in *.
  exists row'. split; [|done]. destruct Hset. constructor; try done; try congruence.
  - rewrite <-ip_count0. exact sr_status.
  - eapply history_more; [done|lia| |by rewrite Hatt, Hdb, ip_count0]. done.
  - intros p Hp. rewrite Hun, (wt_unread _ _ _ _ Hw1) by done. by repeat case_bool_decide.
  - intros i Hi. rewrite Hoth, Hdb by done. by apply ip_others0.
Qed.

(** A job to be repeated is due at the time its row says. *)
Lemma ran_due n row row' env eid oc err w w1 w2 : let p := d_priority (r_def row) in
  in_play n row w -> waits [] ∅ p (w_redis w1) -> names_job row env ->
  ran n row row' oc w2 -> handed_off q (delivery env eid p) row (r_status row') err row' (w_redis w1) (w_redis w2) ->
  oc ∈ unfinished -> n + 1 < r_max_attempts row -> r_status row' = StatusRetrying -> due (n + 1) row' w2.
Proof.
  intros p [] Hw1 Hnj [] Hoff Hoc Hlast Hv.
  destruct (next_names row env n Hnj ip_count0 ltac:(lia)) as [Hnext _].
  unfold handed_off in Hoff. rewrite Hv, bool_decide_true in Hoff by done. destruct Hoff as (text & He & Hm).
  assert (He' : Encode (next_envelope (delivery env "" "") row) = Ok text) by exact He.
  destruct (decode_encode_all _ _ (nj_plain _ _ Hnext) He') as (env' & Hdec' & Hplain' & Eenv'). split.
  - constructor; unfold r_max_attempts in *; rewrite ?rn_def0; try done; try lia.
    + apply claimable_spec. by right.
    + by eapply history_to_history.
  - exists text, env'. split; [done|]. split.
    + destruct Hnext as [_ Hwr Hi Hty Hp]. rewrite Eenv'. constructor; rewrite ?rn_def0; try done.
      by rewrite <-Eenv'.
    + rewrite rn_def0. fold p. constructor; intros p' Hp'; [rewrite rn_unread0 by done; by destruct (bool_decide (p' = p))|].
      rewrite Hm, (wt_members _ _ _ _ Hw1) by done. simpl. rewrite (nj_priority _ _ Hnj). fold p.
      destruct (decide (p' = p)) as [->|Hne]; [by rewrite !bool_decide_true|].
      rewrite !bool_decide_false; [done|done|]. by intros ?%delayedKey_inj.
Qed.

(** A job that is done is reported so. *)
Lemma ran_finished n row row' d started sch w w1 w2 :
  let ret := job_return reg r d row sch started in let oc := finish_outcome ret.2 None in
  in_play n row w -> waits [] ∅ (d_priority (r_def row)) (w_redis w1) ->
  env_ID (del_Env d) = id -> env_Type (del_Env d) = d_type (r_def row) ->
  ran n row row' oc w2 -> settled_row t0 r row oc ret.1 (AttemptError ret.2) row' ->
  handed_off q d row (r_status row') (AttemptError ret.2) row' (w_redis w1) (w_redis w2) ->
  Terminal (r_status row') = true -> finished sch w2.
Proof.
  intros ret oc [] Hw1 Hjid Hty Hran Hset Hoff Hv. pose proof Hran as [].
  exists row', d, row, started. fold ret. fold oc. rewrite rn_count0.
  assert (Hmax : r_max_attempts row' = r_max_attempts row) by (unfold r_max_attempts; by rewrite rn_def0).
  rewrite Hmax, rn_def0. split_and!; try done; try lia.
  - intros p' Hp'. split; [by apply rn_unread0|].
    assert (Hm : forall k, members k (w_redis w2) = members k (w_redis w1)).
    { unfold handed_off in Hoff. destruct (bool_decide (r_status row' = StatusRetrying)) eqn:E; [|apply Hoff].
      apply bool_decide_eq_true in E. by rewrite E in Hv. }
    rewrite Hm, (wt_members _ _ _ _ Hw1) by done. by destruct (bool_decide (p' = _)).
  - eapply goes_handleGetResult; [done|done|]. split; [done|]. eexists. split; [done|].
    eapply (reported_settled d row oc); [exact Hset|by rewrite rn_def0|done].
Qed.

(** A turn ends the job, or leaves it to be repeated. *)
Lemma goes_turn n row w max block sch :
  readable n row w -> 1 <= max -> Forall (fun ev => ev = Beat) (sch_events sch) ->
  goes t0 (turn max block sch) (fun _ w' => finished sch w' \/
    exists row', r_def row' = r_def row /\ r_status row' = StatusRetrying /\ due (n + 1) row' w') w.
Proof.
  intros [Hin (eid & text & env & Hdec & Hnj & Hw)] Hmax Hevs. pose proof Hin as [Hrow Hid Hpr Hop Hct [Hn Hl] Hceil Hh Ho Hcan].
  unfold turn. apply goes_bind. eapply goes_mono; [|by eapply goes_Fetch].
  intros got w1 (-> & Hdb & Hw1 & Hget). cbn [fst for_each]. apply goes_bind.
  set (d := delivery env eid (d_priority (r_def row))).
  destruct (next_names row env n Hnj Hct ltac:(lia)) as [Hnext Hnext'].
  destruct (encode_plain env (nj_plain _ _ Hnj) (nj_writable _ _ Hnj)) as [text' He].
  destruct (encode_plain _ (nj_plain _ _ Hnext) (nj_writable _ _ Hnext)) as [text2 He2].
  assert (Hjid : env_ID (del_Env d) = id) by apply Hnj.
  eapply goes_mono; [|apply (goes_Run t0 q reg r d row w1 sch)].
  - intros u w2 (started & _ & Hc). cbn [for_each].
    eapply concluded_ran in Hc as (row' & Hran & Hset & Hoff); [|done..]. pose proof (rn_status _ _ _ _ _ Hran) as Hst.
    destruct (verdict_cases (job_return reg r d row sch started).2 (r_max_attempts row <=? n + 1)) as [(Hoc & Hlast & Hv)|Hv];
      rewrite <-Hst in Hv.
    + right. exists row'. split; [apply Hran|]. split; [done|]. apply Z.leb_gt in Hlast. eapply (ran_due n row row' env eid _ _ w w1); done.
    + left. eapply (ran_finished n row row' d started); try done. apply Hnj.
  - by unfold d; simpl; rewrite He.
  - by unfold d; rewrite Hnext', He2.
  - by rewrite Hjid, Hdb.
  - done.
  - rewrite Hjid, Hdb, Hct. specialize (Hh (n + 1)). by rewrite bool_decide_false in Hh by lia.
  - intros now. by rewrite Hjid, Hget.
  - done.
Qed.

(** *** A retry is promoted *)

Lemma promoteScript_none now_server now batch p s : members (delayedKey q p) s = ∅ -> exists s',
  exec_script now_server (promoteScript (delayedKey q p) (streamKey q p) now batch) s = (Ok [], s') /\
  (forall k, unread k s' = unread k s) /\ (forall k, members k s' = members k s) /\
  (forall n k, get n k s' = get n k s).
Proof.
  intros Hm. destruct (promoteScript_moves now_server now batch (streamKey q p) (delayedKey q p) s)
    as (due & s' & ids & Hs & _ & Hl & _ & Hdue & Hms & _ & _ & Hmo & _ & Hu & Huo & Hg).
  assert (due = []) as ->.
  { destruct due as [|m due]; [done|]. destruct (Hdue m ltac:(by left)) as (sc & Hsc & _). by rewrite Hm in Hsc. }
  destruct ids; [|done]. exists s'. split_and!; [done|..|done].
  - intros k. destruct (decide (k = streamKey q p)) as [->|]; [by rewrite Hu, app_nil_r|by apply Huo].
  - intros k. destruct (decide (k = delayedKey q p)) as [->|]; [|by apply Hmo]. apply map_eq. intros m. apply Hms.
Qed.

Lemma promoteScript_one now_server now batch p text sc s :
  members (delayedKey q p) s = {[text := sc]} -> sc <= now -> 0 < batch -> exists eid s',
  exec_script now_server (promoteScript (delayedKey q p) (streamKey q p) now batch) s = (Ok [text], s') /\
  unread (streamKey q p) s' = unread (streamKey q p) s ++ [(eid, [("j", text)])] /\
  (forall k, k <> streamKey q p -> unread k s' = unread k s) /\
  members (delayedKey q p) s' = ∅ /\ (forall k, k <> delayedKey q p -> members k s' = members k s) /\
  (forall n k, get n k s' = get n k s).
Proof.
  intros Hm Hsc Hb. destruct (promoteScript_moves now_server now batch (streamKey q p) (delayedKey q p) s)
    as (due & s' & ids & Hs & Hnd & Hl & _ & Hdue & Hms & Hleft & _ & Hmo & _ & Hu & Huo & Hg).
  assert (Hall : forall m, m ∈ due -> m = text).
  { intros m Hin. destruct (Hdue m Hin) as (sc' & Hsc' & _). rewrite Hm in Hsc'. by apply lookup_singleton_Some in Hsc' as [<- _]. }
  assert (due = [text]) as ->.
  { destruct due as [|m [|m' due]].
    - specialize (Hleft ltac:(simpl; lia) text sc). rewrite Hms, Hm, bool_decide_false, lookup_singleton_eq in Hleft by set_solver.
      specialize (Hleft eq_refl). lia.
    - by rewrite (Hall m) by (by left).
    - apply NoDup_cons in Hnd as [Hn _]. exfalso. apply Hn.
      rewrite (Hall m), (Hall m') by (rewrite !elem_of_cons; tauto). by left. }
  destruct ids as [|eid [|]]; [done| |done]. exists eid, s'. split_and!; try done.
  apply map_eq. intros m. rewrite Hms, Hm, lookup_empty. case_bool_decide as Hin; [done|].
  apply lookup_singleton_ne. intros ->. apply Hin. by left.
Qed.

Lemma waits_idle ns now batch p p' u m s : p' ∈ PriorityOrder -> waits u m p s -> p' <> p \/ m = ∅ -> exists s',
  exec_script ns (promoteScript (delayedKey q p') (streamKey q p') now batch) s = (Ok [], s') /\
  waits u m p s' /\ (forall n k, get n k s' = get n k s).
Proof.
  intros Hp' [Hu Hm] Hne. destruct (promoteScript_none ns now batch p' s) as (s' & Hs & Hu' & Hm' & Hg).
  { rewrite Hm by done. case_bool_decide; [|done]. by destruct Hne. }
  exists s'. split; [done|]. split; [|done]. constructor; intros p1 Hp1; rewrite ?Hu', ?Hm'; auto.
Qed.

Lemma waits_moved ns now batch p text sc s : p ∈ PriorityOrder -> waits [] {[text := sc]} p s ->
  sc <= now -> 0 < batch -> exists eid s',
  exec_script ns (promoteScript (delayedKey q p) (streamKey q p) now batch) s = (Ok [text], s') /\
  waits [(eid, [("j", text)])] ∅ p s' /\ (forall n k, get n k s' = get n k s).
Proof.
  intros Hp [Hu Hm] Hsc Hb. pose proof (Hm p Hp) as Hmp. rewrite bool_decide_true in Hmp by done.
  destruct (promoteScript_one ns now batch p text sc s Hmp Hsc Hb) as (eid & s' & Hs & Hu' & Huo & Hm' & Hmo & Hg).
  exists eid, s'. split; [done|]. split; [|done].
  constructor; intros p1 Hp1; destruct (decide (p1 = p)) as [->|E].
  - by rewrite Hu', Hu, !bool_decide_true.
  - rewrite Huo by (by intros ?%streamKey_inj). by rewrite Hu, !bool_decide_false.
  - by rewrite bool_decide_true.
  - rewrite Hmo by (by intros ?%delayedKey_inj). by rewrite Hm, !bool_decide_false.
Qed.

(** Waiting for its turn in the pass, or moved. *)
Definition promoted (text : string) (sc : Z) p (waiting : bool) (s : R) : Prop :=
  if waiting then waits [] {[text := sc]} p s else exists eid, waits [(eid, [("j", text)])] ∅ p s.

Lemma promoted_idle ns now batch p p' text sc b s : p' ∈ PriorityOrder -> p' <> p -> promoted text sc p b s -> exists s',
  exec_script ns (promoteScript (delayedKey q p') (streamKey q p') now batch) s = (Ok [], s') /\
  promoted text sc p b s' /\ (forall n k, get n k s' = get n k s).
Proof.
  intros Hp' Hne Hw. destruct b; [|destruct Hw as [eid Hw]];
    destruct (waits_idle ns now batch p p' _ _ s Hp' Hw (or_introl Hne)) as (s' & ? & ? & ?); exists s'; split_and!; try done.
  by exists eid.
Qed.

Lemma goes_promote_pass now batch text env p sc : DecodeEnvelope text = Ok env -> sc <= now -> 0 < batch -> forall ps out w,
  NoDup ps -> (forall p', p' ∈ ps -> p' ∈ PriorityOrder) ->
  promoted text sc p (bool_decide (p ∈ ps)) (w_redis w) ->
  goes t0 (promote_pass q now batch ps out)
    (fun got w' => got = (out ++ (if bool_decide (p ∈ ps) then [env] else []), None) /\ w_db w' = w_db w /\
       promoted text sc p false (w_redis w') /\ forall n k, get n k (w_redis w') = get n k (w_redis w)) w.
Proof.
  intros Hdec Hsc Hb. induction ps as [|p' ps IH]; intros out w Hnd Hps Hw.
  { simpl. by rewrite app_nil_r. }
  apply NoDup_cons in Hnd as [Hp' Hnd]. pose proof (Hps p' ltac:(by left)) as Hin.
  assert (Hps' : forall p1, p1 ∈ ps -> p1 ∈ PriorityOrder) by (intros p1 Hp1; apply Hps; by right).
  cbn [promote_pass]. apply goes_bind, goes_script. intros ns _.
  destruct (decide (p' = p)) as [->|Hne].
  - rewrite bool_decide_true in Hw by (by left).
    destruct (waits_moved ns now batch p text sc _ Hin Hw Hsc Hb) as (eid & s' & -> & Hw' & Hg).
    simpl. rewrite Hdec. simpl. eapply goes_mono; [|apply (IH (out ++ [env]) (with_redis s' w) Hnd Hps')].
    + intros got w' (-> & Hdb & Hpr & Hg'). rewrite bool_decide_false, bool_decide_true by (done || by left).
      rewrite app_nil_r. split_and!; try done. intros n k. by rewrite Hg', <-Hg.
    + rewrite bool_decide_false by done. by exists eid.
  - assert (E : bool_decide (p ∈ p' :: ps) = bool_decide (p ∈ ps)) by (apply bool_decide_ext; set_solver).
    rewrite E in *. destruct (promoted_idle ns now batch p p' _ _ _ _ Hin Hne Hw) as (s' & -> & Hw' & Hg).
    simpl. rewrite app_nil_r. eapply goes_mono; [|apply (IH out (with_redis s' w) Hnd Hps'); exact Hw'].
    intros got w' (-> & Hdb & Hpr & Hg'). split_and!; try done. intros n k. by rewrite Hg', <-Hg.
Qed.

Lemma in_play_promoted n row w w1 now :
  in_play n row w -> w_db w1 = w_db w -> (forall n k, get n k (w_redis w1) = get n k (w_redis w)) ->
  exists row', r_def row' = r_def row /\ in_play n row' (with_db (mark_promoted now [id] (w_db w1)).2 w1).
Proof.
  intros [] Hdb Hg. exists (if promoted_hit [id] id row then row_promoted now row else row).
  split; [by destruct (promoted_hit _ _ _)|]. constructor; simpl.
  - by rewrite map_lookup_imap, Hdb, ip_row0.
  - by destruct (promoted_hit _ _ _).
  - by destruct (promoted_hit _ _ _).
  - by destruct (promoted_hit _ _ _).
  - by destruct (promoted_hit _ _ _).
  - by destruct (promoted_hit _ _ _).
  - by destruct (promoted_hit _ _ _).
  - intros k. simpl. rewrite Hdb. apply ip_history0.
  - intros i Hi. rewrite map_lookup_imap, Hdb, <-ip_others0 by done. destruct (jobs (w_db w) !! i) as [r0|]; [|done].
    simpl. unfold promoted_hit. rewrite bool_decide_false by set_solver. done.
  - intros n'. by rewrite Hg.
Qed.

Lemma goes_promote n row w : due n row w -> r_scheduled_at row <= t0 ->
  goes t0 (promote q) (fun _ w' => exists row', r_def row' = r_def row /\ readable n row' w') w.
Proof.
  intros [Hin (text & env & Hdec & Hnj & Hw)] Ht. unfold promote. apply goes_bind.
  unfold PromoteDue. apply goes_bind, goes_now. intros now Hnow _.
  eapply goes_mono; [|eapply (goes_promote_pass (UnixMilli now) batchSize text env (d_priority (r_def row)) (UnixMilli (r_scheduled_at row))); [done| |done|..]].
  2: { apply Z.div_le_mono; lia. }
  2: by repeat constructor; set_solver.
  2: done.
  2: { rewrite bool_decide_true by apply Hin. exact Hw. }
  intros got w1 (-> & Hdb & [eid Hw1] & Hg). rewrite bool_decide_true by apply Hin. cbn [app map].
  apply goes_bind. unfold MarkPromoted, Errorf. rewrite (nj_id _ _ Hnj). apply goes_bind, goes_sql. intros now' _.
  destruct (in_play_promoted n row w w1 now' Hin Hdb Hg) as (row' & Hd & Hin').
  exists row'. split; [done|]. split; [exact Hin'|].
  exists eid, text, env. split; [done|]. destruct Hnj. split; [by constructor; rewrite ?Hd|]. by rewrite Hd.
Qed.

(** *** A submission is accepted *)

Lemma goes_CreateJob j (Q : result error CreateResult -> World R -> Prop) w :
  (forall now es, jobs (w_db w) !! ID j = None ->
     Q (Ok {| cr_Job := j; cr_Created := true |})
       (with_db (add_events es (set_jobs (<[ID j := row_inserted now j (json_or_null (Payload j))]> (jobs (w_db w))) (w_db w))) w)) ->
  (forall r, (forall cr, r = Ok cr -> cr_Created cr = false) -> Q r w) ->
  goes t0 (CreateJob j) Q w.
Proof.
  intros Hnew Hold. unfold CreateJob. apply goes_bind, goes_QueryRow. intros now _. cbn [exec_stmt]. unfold insert_job.
  assert (Hsame : with_db (w_db w) w = w) by (by destruct w).
  destruct (negb _); [cbn; rewrite Hsame; apply Hold; by intros|].
  destruct (nullif (IdempotencyKey j) ≫= _) eqn:Ek.
  - cbn. destruct (bool_decide (IdempotencyKey j = EmptyString)); cbn; [rewrite Hsame; apply Hold; by intros|].
    apply goes_bind. unfold getJobBy. apply goes_bind, goes_QueryRow. intros now' _. rewrite Hsame. cbn. rewrite ?Hsame.
    destruct (find_by_key _ _ _); cbn; apply Hold; [by intros cr [= <-]|by intros].
  - destruct (jobs (w_db w) !! ID j) eqn:Ej; cbn; [rewrite Hsame; apply Hold; by intros|].
    apply goes_bind, goes_addEvent. intros es. cbn. by apply Hnew.
Qed.

Lemma goes_Enqueue_waits env at_time text w : let p := env_Priority env in
  Encode env = Ok text -> p ∈ PriorityOrder -> quiet_queue (w_redis w) ->
  goes t0 (Enqueue q env at_time) (fun r w' => is_Ok r = true /\ w_db w' = w_db w /\
    (forall n k, get n k (w_redis w') = get n k (w_redis w)) /\
    ((exists eid, waits [(eid, [("j", text)])] ∅ p (w_redis w')) \/
     waits [] {[text := UnixMilli at_time]} p (w_redis w'))) w.
Proof.
  intros p He Hp [Hu Hm]%(waits_nothing p). unfold Enqueue. apply (goes_pure_ok t0 text); [done|].
  apply goes_bind, goes_now. intros now _ _. destruct (now <? at_time).
  - apply goes_ok. unfold add_delayed. apply goes_Errorf, goes_rdb. intros now' _. simpl. split_and!; [done|done| |].
    + intros n k. apply zadd_get.
    + right. constructor; intros p' Hp'; simpl; [by rewrite zadd_unread, Hu|].
      destruct (decide (p' = p)) as [->|Hne].
      * by rewrite zadd_members, Hm, !bool_decide_true.
      * rewrite zadd_other by (by intros ?%delayedKey_inj). by rewrite Hm, !bool_decide_false.
  - apply goes_Errorf, goes_rdb. intros now' _. cbn [exec_redis].
    pose proof (xadd_unread (streamKey q p) [("j", text)] (w_redis w)) as Hun.
    pose proof (fun k => xadd_unread_other (streamKey q p) k [("j", text)] (w_redis w)) as Huo.
    pose proof (fun k => xadd_members (streamKey q p) k [("j", text)] (w_redis w)) as Hmm.
    pose proof (fun n k => xadd_get n (streamKey q p) k [("j", text)] (w_redis w)) as Hg.
    fold p. destruct (xadd (streamKey q p) [("j", text)] (w_redis w)) as [eid s1]. simpl in *.
    split_and!; [done|done|done|]. left. exists eid. constructor; intros p' Hp'; simpl; [|by rewrite Hmm, Hm].
    destruct (decide (p' = p)) as [->|Hne].
    + by rewrite Hun, Hu, !bool_decide_true.
    + rewrite Huo by (by intros ?%streamKey_inj). by rewrite Hu, !bool_decide_false.
Qed.

(** The world right after the row went in: nothing else moved, and nothing was
    ever recorded of the job. *)
Record inserted (j : Job) w : Prop := {
  in_row : exists now, jobs (w_db w) = <[id := row_inserted now j (json_or_null (Payload j))]> (jobs (w_db w0));
  in_attempts : forall k, job_attempts (w_db w) !! (id, k) = None;
  in_redis : w_redis w = w_redis w0
}.

(** What a fresh job's hand-off leaves. *)
Lemma goes_handoff {A} j now (k : prog A) (Q : A -> World R -> Prop) w :
  inserted j w -> admitted j -> ID j = id -> ValidName id = true ->
  (Payload j = EmptyString \/ embeddable (Payload j)) -> in_years now = true -> quiet_queue (w_redis w0) ->
  (forall n, get n (cancelKey q id) (w_redis w0) = None) ->
  (forall w' row, readable 0 row w' \/ due 0 row w' -> goes t0 k Q w') ->
  goes t0 (streamID <- Enqueue q (NewEnvelope j now) (ScheduledAt j) ;;
     match streamID with Err _ => Ret tt | Ok sid => _ <- SetEnqueued (ID j) sid ;; Ret tt end ;;; k) Q w.
Proof.
  intros [[t Hrow] Hatt Hr] Hadm HID Hid Hpl Hyears Hquiet Hcan HQ.
  assert (Hplain : plain_headers (NewEnvelope j now)) by (destruct Hadm; constructor; simpl; congruence).
  assert (Hwr : writable (NewEnvelope j now)) by done.
  destruct (encode_plain _ Hplain Hwr) as [text He].
  destruct (decode_encode_all _ _ Hplain He) as (env & Hdec & Hplain' & Eenv).
  apply goes_bind. eapply goes_mono; [|apply (goes_Enqueue_waits (NewEnvelope j now) _ text); [done|apply Hadm|by rewrite Hr]].
  intros sid w1 (Hok & Hdb & Hg & Hw). destruct sid as [sid|]; [|done].
  apply goes_bind, goes_bind. unfold SetEnqueued. apply goes_Errorf, goes_sql. intros t' _.
  set (row0 := row_inserted t j (json_or_null (Payload j))) in *.
  cbn [exec_stmt]. unfold update_where. rewrite HID, Hdb, Hrow, lookup_insert_eq. simpl.
  set (row := row_enqueued t' sid row0). apply (HQ _ row).
  assert (Hnames : names_job row env).
  { constructor; [done|by rewrite Eenv..]. }
  assert (Hplay : in_play 0 row (with_db (set_jobs (<[id := row]> (jobs (w_db w))) (w_db w)) w1)).
  { constructor; simpl; try done.
    - apply lookup_insert_eq.
    - apply Hadm.
    - apply claimable_spec. left. apply Hadm.
    - unfold r_max_attempts. simpl. destruct Hadm. lia.
    - apply Hadm.
    - intros n. rewrite bool_decide_false by lia. apply Hatt.
    - intros i Hi. rewrite lookup_insert_ne, Hrow, lookup_insert_ne by done. done.
    - intros n. by rewrite Hg, Hr. }
  rewrite Hrow in Hplay.
  destruct Hw as [[eid Hw]|Hw]; [left|right]; (split; [exact Hplay|]).
  - by exists eid, text, env.
  - by exists text, env.
Qed.

(** A meter is no part of it. *)
Lemma awaited_notify n row o w :
  readable n row w \/ due n row w -> readable n row (notify_obs o w) \/ due n row (notify_obs o w).
Proof. intros [[[] Hw]|[[] Hw]]; [left|right]; (split; [by constructor|exact Hw]). Qed.

(** A submission on a quiet queue, alone: if it is answered with 201, the job is
    there, and its first delivery can be read or is due at its scheduled time. *)
Lemma goes_submit `{GoText} (s : Server) body (Q : response -> World R -> Prop) :
  db_wf (w_db w0) -> ValidName id = true -> quiet_queue (w_redis w0) ->
  (forall n, get n (cancelKey q id) (w_redis w0) = None) ->
  (forall re w' row, readable 0 row w' \/ due 0 row w' -> Q re w') ->
  (forall re w', re_Status re <> StatusCreated -> Q re w') ->
  goes t0 (handleSubmit q s id body) Q w0.
Proof.
  intros Hwf Hid Hquiet Hcan Hin Hout. unfold handleSubmit.
  destruct (decode_submit (body_limit s) body) as [req| |err] eqn:Hdec; [|by apply Hout..].
  destruct (negb _); [by apply Hout|]. destruct (_ <? _); [by apply Hout|].
  apply goes_bind, goes_now. intros now _ Hyears. destruct (schedule_of req now) as [at_time|]; [|by apply Hout].
  set (opts := Build_Options _ _ _ _ _).
  destruct (New id (sr_Type req) (sr_Payload req) opts now) as [j|e] eqn:Hnew; [|by apply Hout].
  destruct (New_admits _ _ _ _ _ _ Hnew) as (Hadm & HID & _ & Hp).
  apply decode_submit_payload in Hdec. rewrite <-Hp in Hdec.
  apply goes_bind, goes_CreateJob.
  - intros t es Hfresh. simpl. rewrite HID in Hfresh. eapply goes_handoff; try done.
    + constructor; simpl; [exists t; by rewrite HID| |done]. intros k.
      destruct (job_attempts (w_db w0) !! (id, k)) eqn:Ha; [|done].
      apply (wf_attempts _ Hwf) in Ha as [? Ha]. by rewrite Hfresh in Ha.
    + intros w' row Hw. apply goes_bind. destruct (srv_Meters s); [apply goes_notify|]; apply (Hin _ _ row); [by apply awaited_notify|done].
  - intros [cr|e] Hold; [|by apply Hout]. rewrite (Hold cr) by done. by apply Hout.
Qed.
End journey.

(** ** The whole way *)

Section settling.
Context {R : Type} `{!RedisServer R} `{HeadersSurvive} (t0 : Time) (q : queue) (reg : Registry) (r : Runner).
Context (w0 : World R) (id : string).
Implicit Types w : World R.

(** Settled by at most [k] more deliveries, whatever the handler makes of each:
    a worker's turn settles the job, or leaves it [RETRYING], and then the
    leader's promotion, from the time the row says on, brings the next one. *)
Fixpoint settles (k : nat) w : Prop :=
  match k with
  | O => False
  | S k' => forall max block sch, 1 <= max -> Forall (fun ev => ev = Beat) (sch_events sch) ->
      goes t0 (turn q reg r max block sch) (fun _ w' => finished t0 q reg r w0 id sch w' \/
        exists row, jobs (w_db w') !! id = Some row /\ r_status row = StatusRetrying /\
          goes (Z.max t0 (r_scheduled_at row)) (promote q) (fun _ => settles k') w') w
  end.

Lemma readable_settles k : forall n row w,
  readable q w0 id n row w -> r_max_attempts row <= n + Z.of_nat k -> settles k w.
Proof.
  induction k as [|k IH]; intros n row w Hr Hk.
  { destruct Hr as [[] _]. lia. }
  intros max block sch Hmax Hevs. eapply goes_mono; [|by eapply goes_turn].
  intros u w' [Hf|(row' & Hd & Hst & Hdue)]; [by left|right]. exists row'. split; [apply Hdue|]. split; [done|].
  eapply goes_mono; [|by apply (goes_promote _ q w0 id (n + 1) row'); [|lia]].
  intros u2 w2 (row2 & Hd2 & Hr2). apply (IH (n + 1) row2 w2 Hr2).
  unfold r_max_attempts in *. rewrite Hd2, Hd. lia.
Qed.
End settling.

(** C2. An accepted job is settled. Let the queue be quiet and the tables
    well-formed, let every call go through, at any times, and let an operator
    not cancel the job. If the API answers a submission with 201, the job's row
    is there with a budget of [k] attempts, at most the ceiling, and at once, or
    after a promotion from its scheduled time on, the following holds [k] times
    over at most. Whatever a worker's batch size and blocking time, and whatever
    the handler does in however many heartbeats, the next turn of the worker
    fetches the job, runs it, and either finishes it - the row is terminal as
    the last outcome demands, the attempts on record are those that were to be
    repeated and this one, the queue is quiet again, no other row was touched,
    and the client reads exactly that result or error - or leaves it [RETRYING],
    and the leader's promotion, from the time in the row on, brings the next
    turn. *)
Theorem submitted_job_settles {R} `{!RedisServer R} `{HeadersSurvive} `{GoText} (t0 : Time)
    (q : queue) (reg : Registry) (r : Runner) (s : Server) (id body : string) (w0 : World R) :
  db_wf (w_db w0) -> ValidName id = true -> quiet_queue q (w_redis w0) ->
  (forall now, get now (cancelKey q id) (w_redis w0) = None) ->
  goes t0 (handleSubmit q s id body) (fun re w => re_Status re = StatusCreated ->
    exists row k, jobs (w_db w) !! id = Some row /\ r_max_attempts row = Z.of_nat k /\
      Z.of_nat k <= MaxAttemptsCeiling /\
      (settles t0 q reg r w0 id k w \/
       goes (Z.max t0 (r_scheduled_at row)) (promote q) (fun _ => settles t0 q reg r w0 id k) w)) w0.
Proof.
  intros Hwf Hid Hquiet Hcan. apply (goes_submit t0 q w0 id); [done..| |done].
  intros re w row Hin _. assert (Hplay : in_play q w0 id 0 row w) by (destruct Hin as [[? _]|[? _]]; done).
  exists row, (Z.to_nat (r_max_attempts row)). destruct Hplay. rewrite Z2Nat.id by lia. split_and!; try done.
  destruct Hin as [Hr|Hdue]; [left|right].
  - apply (readable_settles _ _ _ _ _ _ _ 0 row); [done|lia].
  - eapply goes_mono; [|by apply (goes_promote _ q w0 id 0 row); [|lia]].
    intros u w2 (row2 & Hd & Hr). apply (readable_settles _ _ _ _ _ _ _ 0 row2); [done|].
    unfold r_max_attempts in *. rewrite Hd. lia.
Qed.

Lemma submitted_job_settles_witness :
  exists re w', run (handleSubmit (H:=DemoWire) (H0:=DemoText) demo_queue demo_server "u9" demo_body)
      (replicate 7 (fine 5)) (demo_world empty_db) = (Some re, w') /\ re_Status re = StatusCreated /\
    exists row k, jobs (w_db w') !! "u9" = Some row /\ r_max_attempts row = Z.of_nat k /\
      (settles (H:=DemoWire) 5 demo_queue demo_registry demo_runner (demo_world empty_db) "u9" k w' \/
       goes (Z.max 5 (r_scheduled_at row)) (promote (H:=DemoWire) demo_queue)
         (fun _ => settles (H:=DemoWire) 5 demo_queue demo_registry demo_runner (demo_world empty_db) "u9" k) w').
Proof.
  pose proof (submitted_job_settles (H0:=DemoWire_survives) (H1:=DemoText) 5 demo_queue demo_registry demo_runner
    demo_server "u9" demo_body (demo_world empty_db) empty_db_wf eq_refl
    ltac:(intros p Hp; split; reflexivity) ltac:(intros now; reflexivity)) as Hg.
  assert (Hrun : exists j w', run (handleSubmit (H:=DemoWire) (H0:=DemoText) demo_queue demo_server "u9" demo_body)
    (replicate 7 (fine 5)) (demo_world empty_db) = (Some (writeJSON StatusCreated (BodyJob j)), w'))
    by (eexists _, _; vm_compute; reflexivity).
  destruct Hrun as (j & w' & Hrun). exists (writeJSON StatusCreated (BodyJob j)), w'.
  split; [exact Hrun|]. split; [reflexivity|].
  eapply (goes_outcome 5 _ _ (fine 5) 7) in Hg; [|reflexivity|by apply Z.le_refl|reflexivity|exact Hrun].
  destruct (Hg eq_refl) as (row & k & Hrow & Hk & _ & H).
  exists row, k. split; [exact Hrow|]. split; [exact Hk|exact H].
Defined.
